(* ===== verification/_CoqProject ===== *)
-Q . S2P
Prelude.v
Chain.v
CString.v
State.v
Kmalloc.v
Uart.v
Paths.v
Ramfs.v
Abyss.v
AbyssDir.v
AbyssAlloc.v
AbyssFs.v
AbyssTree.v
Vfs.v
VfsLaws.v
VfsSpec.v
VfsFiles.v
Namespace.v
Gic.v
Process.v
ProcessSpec.v
Message.v
MessageSpec.v
CopySpec.v
LineBuffer.v
Mmu.v
Exceptions.v
Kernel.v
KernelTests.v
UserShell.v
Shell.v
ShellSpec.v
