(* ===== verification/Prelude.v ===== *)
(** * ChthonOS: a verification development

    ChthonOS is a small AArch64 kernel written in C: a bump-allocated heap, a
    PL011 console, a VFS over a RAM file system and a block file system
    (AbyssFS), processes with saved contexts, per-process
    namespaces, a message layer through which every service is requested, a
    system-call entry, and two shells.  This library is a shallow embedding of
    that code, component by component, with the theorems that make each
    component correct and those that show how the components work together.

    ** How the code is modelled

    A C function is a function of the monad [M S A] of this file: a state of
    type [S] goes in, an [outcome] comes out, one of [Ok] (it returned),
    [Fault] (undefined behaviour: a null dereference, a store outside an
    array), [Spin] (it never returns), [Away] (a context switch left for
    another context) and [NoFuel] (a bounded unrolling of a loop was too
    short).  The state of the kernel is the record [kstate] of [State]: one
    component per group of global variables, one record per C struct.  [K] is
    [M kstate].  C integers are [Z] with the conversions [u8], [u32], [u64],
    [i32] written where the source converts.  A C string held as a value is
    the list of its bytes before the terminator; where the bytes around it
    matter (the string library, AbyssFS, the line buffers) the model has the
    memory itself.

    ** Parts, files and sources

    - [Prelude]: the monad, loops, tactics and hint databases ([chthon] for
      evaluation, [fueled] for "never out of fuel", [respects] for relations
      that code preserves), lemmas on lists and integers.  [Chain]: linked
      lists in a store of objects.
    - [CString]: [src/src/mm/string.c] over a byte memory ([Module Lib]) and
      its list-level meaning ([s_strcmp], [s_split], ...), which the other
      components call.
    - [State]: the structs of [src/include] and the global variables.
    - [Kmalloc]: [src/src/mm/kmalloc.c].  [Uart]: [src/src/drivers/uart.c] and
      [uart_debug.c]; the driver over its registers, and the console as the
      rest of the kernel sees it.  [Gic]: [src/src/drivers/gic.c], [timer.c].
    - [Paths]: [vfs_normalize_path], on texts and ([Module InPlace]) over its
      buffer.  [Ramfs]: [src/src/fs/ramfs.c].
    - [Abyss]: [src/src/fs/abyssfs.c]; [AbyssDir], [AbyssAlloc], [AbyssFs] and
      [AbyssTree] are its theory (directory blocks, bitmap and inodes,
      operations, recursive removal).
    - [Vfs]: the rest of [src/src/fs/vfs.c]; [VfsLaws] the interface to a file
      system ([Class FsLaws]) with its two instances; [VfsSpec] the layer
      proved against that interface; [VfsFiles] whole file lives.
    - [Namespace]: [src/src/kernel/namespace.c].
    - [Process]: [src/src/kernel/process.c] and [src/src/arch/context_switch.S];
      [ProcessSpec] its theory.
    - [Message]: [src/src/kernel/message.c]; [MessageSpec], [CopySpec].
    - [Mmu]: [src/src/arch/mmu.c].  [Exceptions]: [src/src/arch/exceptions.c]
      and the entry code of [exceptions.S].
    - [Kernel]: [kernel_main] and [handle_irq] of [src/src/kernel/kernel.c];
      [KernelTests]: its self-tests and [src/src/user/process_test.c].
    - [UserShell]: [src/src/user/user_shell.c], over system calls.
    - [Shell], [ShellSpec]: [src/src/user/shell.c].  [LineBuffer]: what both
      shells share.

    A system call of a program goes through [Exceptions.sync_handler], which
    calls [Message.send_message] or the console; [send_message] calls the VFS,
    the namespaces and the processes; the VFS calls a file system through the
    record of its operations; the file systems allocate with [Kmalloc].  The
    definitions compose in the same way.

    ** What the theorems show

    - Strings: [memmove] is right for overlapping ranges, repeated [strtok_r]
      enumerates the tokens, and each other routine meets its list function.
    - Heap and console: requests that cannot wrap the size test get disjoint
      blocks while they fit; the polling driver transmits what the console
      primitive appends.
    - Paths: [vfs_normalize_path] stays in its buffer and is component-wise
      normalisation; [cd] of the shell is resolution of component lists.
    - File systems: the RAM file system keeps its invariant and refines byte
      sequences; AbyssFS lookup and listing agree with an abstract directory
      tree; creation and unlinking in the root directory, the first write to a
      file, allocation and the count of free blocks are specified; recursive
      removal of a directory returns, and what it leaves behind is stated.
    - VFS: descriptor, mount and file-system tables stay well formed along any
      sequence of calls, bad descriptors are refused, namespaces rewrite paths, and what is
      written under /tmp is read back.
    - Processes: along any sequence of operations the list ends in NULL,
      numbers are unique and only the current process runs; [schedule], exit
      and wait are specified, a context switch and back restores the registers,
      and the scheduler starves all but the first two runnable processes.
    - Messages: the ring buffer refines a bounded queue; the copy and move
      services end and produce the bytes of the source; chdir.
    - System: the translation table is the identity map of three GiB on a
      processor that reads the granule field as 4 KiB, and maps nothing on one
      with the 16 KiB granule that the field selects; booting
      enters EL0 at an executable, writable address; console system calls and
      the failure of other system calls; sessions of the user shell; turns and
      the copy command of the kernel shell.

    ** Fuel and bounds

    A walk along a linked list gets one step more than there are objects in
    its store ([ns_fuel] for bindings), which is enough because a [chain] has
    no cycle.  A walk along a directory block gets the size of
    the heap ([heap_span]): every entry advances, or the walk stops.
    [abyssfs_remove_recursive] gets 257: each level extends the path, and a
    path of 256 bytes no longer fits its buffer.  The copy loops read 1024
    bytes at a time of a file of at most 4096, so that six turns are enough.
    The polling loops of the driver get the bound that the device's ready bit
    is assumed to keep.  A line editor takes one step for each byte received,
    and waits for ever ([Spin]) when there is no more input.  A theorem about such code states that it
    returns, not only what a result would be.

    ** Parameters

    What the repository does not define is an argument: the values that device
    registers return ([Uart], [Gic]), the addresses the linker assigns ([Class
    LinkMap], [Mmu]), the translation granules of the processor ([Record cpu]
    of [Mmu]), CurrentEL, ESR, FAR and ELR, the memory of a user
    program, and the content of uninitialised buffers.

    ** Not modelled

    The assembly files [boot.S], [enter_usermode.S], [user_stub.S],
    [user_shell.S] and [user_shell_simple.S] (reset code, the jump to EL0, and
    an assembly version of the shell): [kernel_main] is modelled up to the
    jump.  [uart_dump_esr_far] of [exceptions.S], [ramfs_find_dir] and
    [_user_entry], which nothing calls.  The Makefile and the linker scripts.
    Preemption: [timer_init] of this version of the source does not start the
    timer, and [handle_irq] and [timer_handler] are modelled as calls of their
    own.  Two simplifications of the texts: a value of C string type is read
    when it is formed, not when a callee reads it, and the caches and barriers
    of the processor have no state. *)

From stdpp Require Import base numbers list gmap strings.
From Stdlib Require Import ZifyBool.
From Corelib Require Import ssreflect.

#[global] Set Default Goal Selector "!".

(** ** Machine integers

    C integers are [Z]; the conversions the source performs (implicitly or
    by a cast) are written out with these functions. *)

Definition u8 (x : Z) : Z := (x `mod` 2 ^ 8)%Z.

Definition u32 (x : Z) : Z := (x `mod` 2 ^ 32)%Z.

Definition u64 (x : Z) : Z := (x `mod` 2 ^ 64)%Z.

Definition i32 (x : Z) : Z := ((x + 2 ^ 31) `mod` 2 ^ 32 - 2 ^ 31)%Z.

(** ** Outcomes of C code, and the monad of the shallow embedding

    [Ok a s]: the code returned [a] in state [s].  [Fault]: the code did
    something whose behaviour the C language does not define (a store out of
    bounds, a null dereference).  [Spin]: the code does not return
    ([while(1);], waiting for input that never comes).  [Away s]: a context
    switch loaded another context, and the machine goes on there in state
    [s]; the code after it does not run now.  [NoFuel]: a bounded unrolling
    of a loop was too short; the theorems show where it never is. *)

Inductive outcome (S A : Type) : Type :=
| Ok (a : A) (s : S)
| Fault
| Spin
| Away (s : S)
| NoFuel.
Arguments Ok {S A} _ _.
Arguments Fault {S A}.
Arguments Spin {S A}.
Arguments Away {S A} _.
Arguments NoFuel {S A}.

Definition M (S A : Type) : Type := S → outcome S A.

#[export] Instance M_ret {S} : MRet (M S) := λ A a s, Ok a s.

#[export] Instance M_bind {S} : MBind (M S) := λ A B f m s,
  match m s with
  | Ok a s' => f a s'
  | Fault => Fault
  | Spin => Spin
  | Away s' => Away s'
  | NoFuel => NoFuel
  end.

Definition fault {S A} : M S A := λ _, Fault.

Definition spin {S A} : M S A := λ _, Spin.

Definition away {S A} : M S A := λ s, Away s.

Definition nofuel {S A} : M S A := λ _, NoFuel.

(** The value returned, and the final state, when the code returns. *)
Definition value {S A} (o : outcome S A) : option A :=
  match o with Ok a _ => Some a | _ => None end.

Definition final {S A} (o : outcome S A) : option S :=
  match o with Ok _ s => Some s | _ => None end.

(** Read a component of the state, and update the state. *)
Definition gets {S A} (f : S → A) : M S A := λ s, Ok (f s) s.

Definition modify {S} (f : S → S) : M S unit := λ s, Ok tt (f s).

(** An optional value whose absence is undefined behaviour. *)
Definition unwrap {S A} (o : option A) : M S A :=
  match o with Some a => mret a | None => fault end.

(** Short-circuit conjunction of two tests that read the state. *)
Definition andM {S} (a b : M S bool) : M S bool :=
  x ← a; if (x : bool) then b else mret false.

(** A C [while] loop, unrolled at most [fuel] times; [st] holds the local
    variables that the loop assigns. *)
Fixpoint while {S St : Type} (fuel : nat) (cond : St → M S bool)
    (body : St → M S St) (st : St) : M S St :=
  match fuel with
  | O => nofuel
  | S n => b ← cond st;
           if (b : bool) then st' ← body st; while n cond body st' else mret st
  end.

(** Run a program over a component [T] of the state [S]. *)
Definition zoom {S T A} (get : S → T) (set : T → S → S) (m : M T A) : M S A :=
  λ s, match m (get s) with
       | Ok a t => Ok a (set t s)
       | Fault => Fault
       | Spin => Spin
       | Away t => Away (set t s)
       | NoFuel => NoFuel
       end.

Section Monad.
Context {S : Type}.

Lemma bind_Ok {A B} (m : M S A) (f : A → M S B) s a s' :
  m s = Ok a s' → (m ≫= f) s = f a s'.
Proof. by rw /mbind /M_bind => ->. Qed.

Lemma bind_intro {A B} (m : M S A) (f : A → M S B) s a s' b s'' :
  m s = Ok a s' → f a s' = Ok b s'' → (m ≫= f) s = Ok b s''.
Proof. intros H <-. by apply bind_Ok. Qed.

(** A prefix of a sequence that is known as a whole. *)
Lemma bind_assoc_Ok {A B C} (m : M S A) (f : A → M S B) (g : B → M S C) s b s' :
  (m ≫= f) s = Ok b s' → (m ≫= λ a, f a ≫= g) s = g b s'.
Proof. rw /mbind /M_bind. destruct (m s) as [a s1| | | |]; [by intros ->|done..]. Qed.

Lemma ret_Ok {A} (a : A) (s : S) : mret (M := M S) a s = Ok a s.
Proof. done. Qed.

Lemma ret_inv {A} (a b : A) (s s' : S) : mret (M := M S) a s = Ok b s' → b = a ∧ s' = s.
Proof. by intros [= -> ->]. Qed.

Lemma andM_true (a b : M S bool) s s' r s'' :
  a s = Ok true s' → b s' = Ok r s'' → andM a b s = Ok r s''.
Proof. rw /andM. intros H <-. by rw (bind_Ok _ _ _ _ _ H). Qed.

Lemma andM_false (a b : M S bool) s s' : a s = Ok false s' → andM a b s = Ok false s'.
Proof. rw /andM. intros H. by rw (bind_Ok _ _ _ _ _ H). Qed.

Lemma bind_inv {A B} (m : M S A) (f : A → M S B) s b s'' :
  (m ≫= f) s = Ok b s'' → ∃ a s', m s = Ok a s' ∧ f a s' = Ok b s''.
Proof. rw /mbind /M_bind. destruct (m s); naive_solver. Qed.

Lemma bind_congr {A B} (m m' : M S A) (f : A → M S B) s s' :
  m s = m' s' → (m ≫= f) s = (m' ≫= f) s'.
Proof. by rw /mbind /M_bind => ->. Qed.

Lemma while_step {St} n (cond : St → M S bool) body st :
  while (Datatypes.S n) cond body st =
  (b ← cond st; if (b : bool) then st' ← body st; while n cond body st' else mret st).
Proof. done. Qed.

Lemma while_true {St} n (cond : St → M S bool) body st st' s s' s'' :
  cond st s = Ok true s' → body st s' = Ok st' s'' →
  while (Datatypes.S n) cond body st s = while n cond body st' s''.
Proof. intros Hc Hb. rw /= (bind_Ok _ _ _ _ _ Hc). by rw (bind_Ok _ _ _ _ _ Hb). Qed.

Lemma while_false {St} n (cond : St → M S bool) body st s s' :
  cond st s = Ok false s' → while (Datatypes.S n) cond body st s = Ok st s'.
Proof. intros Hc. by rw /= (bind_Ok _ _ _ _ _ Hc). Qed.

(** The total-correctness rule of [while]: an invariant [I], a variant [mu]
    that bounds the number of iterations, a postcondition [Q]. *)
Lemma while_rule {St} (I Q : St → S → Prop) (mu : St → nat) cond body fuel st s :
  (∀ st s, I st s →
     (cond st s = Ok false s ∧ Q st s) ∨
     (cond st s = Ok true s ∧
      ∃ st' s', body st s = Ok st' s' ∧ I st' s' ∧ mu st' < mu st)) →
  I st s → mu st < fuel →
  ∃ st' s', while fuel cond body st s = Ok st' s' ∧ Q st' s'.
Proof.
  intros Hstep. revert st s. induction fuel as [|fuel IH]; intros st s HI Hmu; [lia|].
  destruct (Hstep _ _ HI) as [[Hc HQ]|(Hc & st' & s' & Hb & HI' & Hlt)].
  - exists st, s. by rw (while_false _ _ _ _ _ _ Hc).
  - rw (while_true _ _ _ _ _ _ _ _ Hc Hb). apply IH; [done|lia].
Qed.

(** A loop whose every completed iteration decreases [mu] never runs out of
    [fuel] when it started with more. *)
Lemma while_enough_fuel {St} (I : St → S → Prop) (mu : St → nat) cond body fuel st s :
  (∀ st s, I st s → cond st s ≠ NoFuel ∧
     (∀ s', cond st s = Ok true s' → body st s' ≠ NoFuel ∧
        ∀ st' s'', body st s' = Ok st' s'' → I st' s'' ∧ mu st' < mu st)) →
  I st s → mu st < fuel → while fuel cond body st s ≠ NoFuel.
Proof.
  intros Hstep. revert st s. induction fuel as [|fuel IH]; intros st s HI Hmu; [lia|].
  destruct (Hstep _ _ HI) as [Hc Hb]. rw /= /mbind /M_bind.
  destruct (cond st s) as [[] s'| | | |] eqn:E; try done.
  destruct (Hb _ eq_refl) as [Hnb Hd]. destruct (body st s') as [st' s''| | | |] eqn:E'; try done.
  destruct (Hd _ _ eq_refl). apply IH; [done|lia].
Qed.
End Monad.

Arguments while : simpl never.

(** Code that never runs out of fuel: it returns, faults, spins or leaves. *)
Definition fueled {S A} (m : M S A) : Prop := ∀ s, m s ≠ NoFuel.

Create HintDb fueled.

Section Fueled.
Context {S : Type}.

Lemma fueled_bind {A B} (m : M S A) (f : A → M S B) :
  fueled m → (∀ a, fueled (f a)) → fueled (m ≫= f).
Proof.
  intros Hm Hf s. rw /mbind /M_bind. specialize (Hm s).
  destruct (m s) as [a s'| | | |]; [apply Hf|done..].
Qed.

Lemma fueled_ret {A} (a : A) : fueled (mret (M := M S) a).
Proof. by intros s. Qed.

Lemma fueled_fault {A} : fueled (fault (S := S) (A := A)).
Proof. by intros s. Qed.

Lemma fueled_gets {A} (f : S → A) : fueled (gets f).
Proof. by intros s. Qed.

Lemma fueled_modify (f : S → S) : fueled (modify f).
Proof. by intros s. Qed.

Lemma fueled_unwrap {A} (o : option A) : fueled (unwrap (S := S) o).
Proof. by destruct o. Qed.

Lemma fueled_zoom {T A} (get : S → T) (set : T → S → S) (m : M T A) : fueled m → fueled (zoom get set m).
Proof. intros Hm s. rw /zoom. specialize (Hm (get s)). by destruct (m (get s)). Qed.
End Fueled.

#[export] Hint Resolve fueled_bind fueled_ret fueled_fault fueled_gets fueled_modify fueled_unwrap fueled_zoom : fueled.

(** Break a goal [fueled m] into the same goal for the parts of [m]. *)
Ltac fuel_step :=
  match goal with
  | |- fueled (_ ≫= _) => apply fueled_bind; [|intros ?]
  | |- fueled (match ?x with _ => _ end) => destruct x
  | |- fueled _ => solve [eauto with fueled]
  end.

Ltac fuel_auto := repeat (cbv zeta; fuel_step).

(** Code whose every return relates the old state to the new one by the
    preorder [R]: frame conditions and monotonicity, by composition. *)
Definition respects {S A} (R : relation S) (m : M S A) : Prop := ∀ s a s', m s = Ok a s' → R s s'.

Create HintDb respects.

Section Respects.
Context {S : Type} (R : relation S) `{!PreOrder R}.

Lemma respects_bind {A B} (m : M S A) (f : A → M S B) :
  respects R m → (∀ a, respects R (f a)) → respects R (m ≫= f).
Proof. intros Hm Hf s b s'' (a & s' & H1%Hm & H2%Hf)%bind_inv. by apply (transitivity H1). Qed.

Lemma respects_ret {A} (a : A) : respects R (mret (M := M S) a).
Proof. intros s b s' [_ ->]%ret_inv. reflexivity. Qed.

Lemma respects_fault {A} : respects R (fault (S := S) (A := A)).
Proof. done. Qed.

Lemma respects_nofuel {A} : respects R (nofuel (S := S) (A := A)).
Proof. done. Qed.

Lemma respects_spin {A} : respects R (spin (S := S) (A := A)).
Proof. done. Qed.

Lemma respects_gets {A} (f : S → A) : respects R (gets f).
Proof. intros s a s' [= _ <-]. reflexivity. Qed.

Lemma respects_unwrap {A} (o : option A) : respects R (unwrap (S := S) o).
Proof. destruct o; [apply respects_ret|done]. Qed.

Lemma respects_modify (f : S → S) : (∀ s, R s (f s)) → respects R (modify f).
Proof. by intros Hf s a s' [= _ <-]. Qed.

Lemma respects_zoom {T A} (get : S → T) (set : T → S → S) (m : M T A) :
  (∀ t s, R s (set t s)) → respects R (zoom get set m).
Proof. intros Hf s a s'. rw /zoom. destruct (m (get s)); try done. intros [= _ <-]. done. Qed.
End Respects.

#[export] Hint Resolve respects_ret respects_fault respects_nofuel respects_spin respects_gets respects_unwrap : respects.

(** Break a goal [respects R m] into the same goal for the parts of [m]. *)
Ltac respect_step :=
  match goal with
  | |- respects _ (_ ≫= _) => apply respects_bind; [apply _| |intros ?]
  | |- respects _ (match ?x with _ => _ end) => destruct x
  | |- respects _ _ => solve [eauto with respects typeclass_instances]
  | |- respects _ (modify _) => apply respects_modify; intros ?; solve [eauto with respects]
  | |- respects _ (zoom _ _ _) => apply respects_zoom; intros ? ?; solve [eauto with respects]
  end.

Ltac respect_auto := repeat (cbv zeta; respect_step).

(** ** Byte strings

    A C string is the list of the bytes before its terminator. *)

Abbreviation str := (list Z).

(** The bytes of a source literal, and of one that ends in a newline. *)
Definition bs (s : string) : str := (λ a, Z.of_N (Ascii.N_of_ascii a)) <$> String.list_ascii_of_string s.

Definition ln (s : string) : str := bs s ++ [10%Z].

Arguments bs : simpl never.
Arguments ln : simpl never.

(** The bytes of a C string: none is the terminator, all fit [char] (which
    is unsigned on AArch64). *)
Definition is_str (s : str) : Prop := Forall (λ b, 0 < b < 256)%Z s.

#[export] Instance is_str_dec s : Decision (is_str s).
Proof. rw /is_str. apply _. Defined.

(** [is_str] of a literal, by evaluation. *)
Lemma is_str_bool s : bool_decide (is_str s) = true → is_str s.
Proof. apply bool_decide_eq_true. Qed.

Abbreviation zlen l := (Z.of_nat (length l)).

(** ** Automation *)

Create HintDb chthon.
#[export] Hint Resolve bind_intro ret_Ok : chthon.
#[export] Hint Extern 1 (_ ≤ _)%Z => lia : chthon.
#[export] Hint Extern 1 (_ < _)%Z => lia : chthon.
#[export] Hint Extern 1 (_ ≤ _ < _)%Z => lia : chthon.

(** Run monadic steps whose head is known to return. *)
Ltac mstep := cbn beta iota; erewrite bind_Ok by (solve [eauto with chthon | reflexivity]).

Ltac mrun := repeat mstep.

(** Decompose a hypothesis that a monadic program returned. *)
Ltac minv H :=
  repeat match type of H with
  | mbind _ _ _ = Ok _ _ =>
      let a := fresh "a" in let s := fresh "s" in let E := fresh "E" in
      apply bind_inv in H as (a & s & E & H)
  end.

(** Reflect the boolean tests of the source into propositions. *)
Ltac zbool :=
  repeat match goal with
  | H : (_ && _)%bool = true |- _ => apply andb_true_iff in H as [? ?]
  | H : (_ || _)%bool = false |- _ => apply orb_false_iff in H as [? ?]
  | H : negb _ = true |- _ => apply negb_true_iff in H
  | H : negb _ = false |- _ => apply negb_false_iff in H
  | H : (_ =? _)%Z = true |- _ => apply Z.eqb_eq in H
  | H : (_ =? _)%Z = false |- _ => apply Z.eqb_neq in H
  | H : (_ <? _)%Z = true |- _ => apply Z.ltb_lt in H
  | H : (_ <? _)%Z = false |- _ => apply Z.ltb_ge in H
  | H : (_ <=? _)%Z = true |- _ => apply Z.leb_le in H
  | H : (_ <=? _)%Z = false |- _ => apply Z.leb_gt in H
  end.

(** Case analysis on a boolean test of the goal or a hypothesis, reflected. *)
Ltac zcase :=
  match goal with
  | |- context [if ?b then _ else _] => let E := fresh "E" in destruct b eqn:E
  | H : context [if ?b then _ else _] |- _ => let E := fresh "E" in destruct b eqn:E
  end; zbool.

(** ** Arithmetic of the machine-width conversions *)

Lemma u8_small x : (0 ≤ x < 256)%Z → u8 x = x.
Proof. intros. rw /u8. apply Z.mod_small. lia. Qed.

Lemma u32_small x : (0 ≤ x < 2 ^ 32)%Z → u32 x = x.
Proof. apply Z.mod_small. Qed.

Lemma u64_small x : (0 ≤ x < 2 ^ 64)%Z → u64 x = x.
Proof. apply Z.mod_small. Qed.

Lemma i32_small x : (- 2 ^ 31 ≤ x < 2 ^ 31)%Z → i32 x = x.
Proof. intros. rw /i32 Z.mod_small; lia. Qed.

Lemma u8_range x : (0 ≤ u8 x < 256)%Z.
Proof. apply (Z.mod_pos_bound x 256). lia. Qed.

Lemma u64_range x : (0 ≤ u64 x < 2 ^ 64)%Z.
Proof. apply Z.mod_pos_bound. lia. Qed.

#[export] Hint Resolve u8_range u64_range : chthon.

(** ** Lists *)

(** Overwrite [length l'] elements of [l] from index [off]. *)
Definition splice {A} (l : list A) (off : nat) (l' : list A) : list A :=
  take off l ++ l' ++ drop (off + length l') l.

Section Splice.
Context {A : Type}.
Implicit Types l : list A.

Lemma splice_length l off l' :
  off + length l' ≤ length l → length (splice l off l') = length l.
Proof. rw /splice !length_app length_take length_drop. lia. Qed.

Lemma splice_lookup_new l off l' i :
  off + length l' ≤ length l → i < length l' → splice l off l' !! (off + i) = l' !! i.
Proof.
  intros Hl Hi. rw /splice lookup_app_r length_take; [lia|].
  rw lookup_app_l; [lia|]. f_equal. lia.
Qed.

Lemma splice_read_back l off l' :
  off + length l' ≤ length l → take (length l') (drop off (splice l off l')) = l'.
Proof.
  intros Hl. rw /splice drop_app_le ?length_take; [lia|].
  rw drop_ge ?length_take; [lia|]. by rw /= take_app_length.
Qed.

Lemma splice_take l off l' : off ≤ length l → take off (splice l off l') = take off l.
Proof.
  intros. rw /splice take_app_le; [rw length_take; lia|].
  by rw take_take Nat.min_id.
Qed.
End Splice.
