(* ===== verification/Chain.v ===== *)
(** * Chain: singly linked lists in a store of objects

    The kernel keeps processes and namespace bindings on linked lists.
    [chain m p l] says that following [next] from the pointer [p] in the
    store [m] meets the objects [l] and ends in NULL.  Such a list has no
    cycle, so that a walk is over after as many steps as there are objects. *)

From stdpp Require Import base numbers list gmap fin_maps fin_map_dom.
From Corelib Require Import ssreflect.
From S2P Require Import Prelude.

Open Scope general_if_scope.

Section Chain.
Context {K A : Type} `{Countable K} (next : A → option K).
Implicit Types m : gmap K A.

Fixpoint chain m (p : option K) (l : list (K * A)) : Prop :=
  match l with
  | [] => p = None
  | (k, a) :: l => p = Some k ∧ m !! k = Some a ∧ chain m (next a) l
  end.

Lemma chain_det m p l l' : chain m p l → chain m p l' → l = l'.
Proof.
  revert p l'. induction l as [|[k a] l IH]; intros p [|[k' a'] l']; simpl; [done|by intros -> [??]|by intros [-> _] ?|].
  intros (-> & Ha & Hl) ([= <-] & Ha' & Hl'). rw Ha in Ha'. injection Ha' as <-. f_equal. by apply (IH _ _ Hl).
Qed.

Lemma chain_suffix m p l1 k a l2 : chain m p (l1 ++ (k, a) :: l2) → chain m (Some k) ((k, a) :: l2).
Proof.
  revert p. induction l1 as [|[k' a'] l1 IH]; intros p; simpl; [by intros (_ & ? & ?)|]. intros (_ & _ & Hl). by apply (IH _ Hl).
Qed.

Lemma chain_nodup m p l : chain m p l → NoDup l.*1.
Proof.
  revert p. induction l as [|[k a] l IH]; intros p Hc; simpl; [constructor|]. pose proof Hc as (_ & Ha & Hl).
  constructor; [|by apply (IH _ Hl)]. intros ([k' a'] & -> & Hin)%list_elem_of_fmap. simpl in *.
  apply list_elem_of_split in Hin as (l1 & l2 & ->).
  pose proof (chain_suffix _ _ [] _ _ _ Hc) as H1. pose proof (chain_suffix m p ((k', a) :: l1) k' a' l2 Hc) as H2.
  pose proof (chain_det _ _ _ _ H1 H2) as Heq. apply (f_equal length) in Heq.
  rw /= length_app /= in Heq. lia.
Qed.

Lemma chain_lookup m p l k a : chain m p l → (k, a) ∈ l → m !! k = Some a.
Proof.
  revert p. induction l as [|[k' a'] l IH]; intros p; simpl; [by intros _ ?%not_elem_of_nil|].
  intros (_ & Ha & Hl) [[= -> ->]|Hin]%elem_of_cons; [done|by apply (IH _ Hl)].
Qed.

(** The walk is over before the store is exhausted. *)
Lemma chain_size m p l : chain m p l → length l ≤ size m.
Proof.
  intros Hc. rw -(length_fmap fst) -size_dom -(size_list_to_set (C := gset K)); [by apply (chain_nodup _ _ _ Hc)|].
  apply subseteq_size. intros k. rw elem_of_list_to_set elem_of_dom. intros ([k' a] & -> & Hin)%list_elem_of_fmap.
  exists a. by apply (chain_lookup _ _ _ _ _ Hc).
Qed.

(** A store at an object outside the list does not affect it. *)
Lemma chain_insert_ne m p l k a : k ∉ l.*1 → chain m p l → chain (<[k := a]> m) p l.
Proof.
  revert p. induction l as [|[k' a'] l IH]; intros p; simpl; [done|].
  intros [Hne Hk]%not_elem_of_cons (-> & Ha & Hl). split_and!; [done| |by apply IH].
  by rw lookup_insert_ne; [done|].
Qed.

(** The list after the object [k] has been replaced by [a]. *)
Definition replace_at (k : K) (a : A) (l : list (K * A)) : list (K * A) :=
  (λ ka, if decide (ka.1 = k) then (k, a) else ka) <$> l.

Lemma replace_at_ne k a l : k ∉ l.*1 → replace_at k a l = l.
Proof.
  induction l as [|[k' a'] l IH]; simpl; [done|]. intros [Hne Hk]%not_elem_of_cons.
  rw decide_False; [congruence|]. by rw IH.
Qed.

Lemma replace_at_keys k a l : (replace_at k a l).*1 = l.*1.
Proof.
  rw /replace_at -list_fmap_compose. apply list_fmap_ext. intros i [k' a'] _. simpl. by case_decide as E; simpl in *.
Qed.

(** An update that keeps the link of an object keeps the list. *)
Lemma chain_update m p l k a a' :
  m !! k = Some a → next a' = next a → chain m p l → chain (<[k := a']> m) p (replace_at k a' l).
Proof.
  intros Hk Hn. revert p. induction l as [|[k' b] l IH]; intros p; simpl; [done|]. intros (-> & Hb & Hl).
  case_decide as E; simpl in E.
  - subst k'. split_and!; [done|by rw lookup_insert_eq|]. rw Hb in Hk. injection Hk as ->. rw Hn. by apply IH.
  - split_and!; [done|by rw lookup_insert_ne; [congruence|]|by apply IH].
Qed.

(** A store that keeps every link keeps the list. *)
Lemma chain_mono m m' p l :
  (∀ k a, m !! k = Some a → ∃ a', m' !! k = Some a' ∧ next a' = next a) →
  chain m p l → ∃ l', chain m' p l' ∧ l'.*1 = l.*1.
Proof.
  intros Hm. revert p. induction l as [|[k a] l IH]; intros p; simpl; [by exists []|]. intros (-> & Ha & Hl).
  destruct (Hm _ _ Ha) as (a' & Ha' & Hn). destruct (IH _ Hl) as (l' & Hl' & Hk).
  exists ((k, a') :: l'). rw fmap_cons /= Hn Hk. by split_and!.
Qed.

(** Taking the object after [q] off the list. *)
Lemma chain_unlink m p l1 q a e b l2 a' :
  chain m p (l1 ++ (q, a) :: (e, b) :: l2) → next a' = next b → chain (<[q := a']> m) p (l1 ++ (q, a') :: l2).
Proof.
  intros Hc Hn. pose proof (chain_nodup _ _ _ Hc) as Hnd. revert p Hc.
  induction l1 as [|[k c] l1 IH]; intros p; simpl.
  - intros (-> & Ha & _ & Hb & Hl). split_and!; [done|by rw lookup_insert_eq|]. rw Hn.
    apply chain_insert_ne; [|done]. rw app_nil_l fmap_cons in Hnd. apply NoDup_cons in Hnd as [Hq _].
    rw fmap_cons in Hq. by apply not_elem_of_cons in Hq as [_ ?].
  - intros (-> & Hk & Hl). rw fmap_cons in Hnd. apply NoDup_cons in Hnd as [Hkn Hnd]. split_and!; [done| |by apply IH].
    rw lookup_insert_ne; [|done]. intros ->. apply Hkn. rw fmap_app fmap_cons. apply elem_of_app. right. by left.
Qed.
End Chain.

Arguments chain {K A _ _} next m p l : simpl nomatch.
