(* ===== verification/CString.v ===== *)
(** * CString: the freestanding C string library of [src/src/mm/string.c]

    The routines run over a byte memory [mem] with partial [load] and
    [store].  [Module Lib] translates them; the [s_*] functions are their
    list-level meaning, which the other components call on C strings held as
    values.  The theorems show that each routine returns, and returns or
    writes what its list-level meaning says. *)

From stdpp Require Import base numbers list gmap strings.
From Corelib Require Import ssreflect.
From S2P Require Import Prelude.

Open Scope Z_scope.
Open Scope general_if_scope.

(** ** Byte memory

    One addressable region [m_lo, m_hi); bytes never written are 0, as in a
    static array. *)

Record mem := Mem { m_lo : Z; m_hi : Z; m_data : gmap Z Z }.

Definition valid (m : mem) (p : Z) : bool := (m_lo m <=? p) && (p <? m_hi m).

Definition rd (m : mem) (p : Z) : option Z :=
  if valid m p then Some (default 0 (m_data m !! p)) else None.

(** A stored 0 is the absence of an entry, so that memories are sparse. *)
Definition put (m : mem) (p v : Z) : mem :=
  Mem (m_lo m) (m_hi m) (if v =? 0 then delete p (m_data m) else <[p := v]> (m_data m)).

Definition wr (m : mem) (p v : Z) : option mem :=
  if valid m p then Some (put m p v) else None.

Definition load (p : Z) : M mem Z := λ m,
  match rd m p with Some v => Ok v m | None => Fault end.

Definition store (p v : Z) : M mem unit := λ m,
  match wr m p v with Some m' => Ok tt m' | None => Fault end.

(** A loop that advances a pointer by at least one byte per iteration leaves
    the region after at most this many iterations. *)
Definition span : M mem nat := λ m, Ok (S (Z.to_nat (m_hi m - m_lo m))) m.

(** ** The routines of [string.c] *)

Module Lib.

Fixpoint memset_loop (n : nat) (p c : Z) : M mem unit :=
  match n with
  | O => mret tt
  | S n => store p (u8 c);; memset_loop n (p + 1) c
  end.

Definition memset (s c n : Z) : M mem Z :=
  memset_loop (Z.to_nat n) s c;; mret s.

Definition strcmp (s1 s2 : Z) : M mem Z :=
  n ← span;
  '(s1, s2) ← while n
    (λ '(s1, s2), andM (a ← load s1; mret (negb (a =? 0)))
                       (a ← load s1; b ← load s2; mret (a =? b)))
    (λ '(s1, s2), mret (s1 + 1, s2 + 1)) (s1, s2);
  a ← load s1; b ← load s2; mret (a - b).

Definition strlen (s : Z) : M mem Z :=
  n ← span;
  p ← while n (λ p, a ← load p; mret (negb (a =? 0))) (λ p, mret (p + 1)) s;
  mret (p - s).

Fixpoint memcpy_loop (n : nat) (d s : Z) : M mem unit :=
  match n with
  | O => mret tt
  | S n => a ← load s; store d a;; memcpy_loop n (d + 1) (s + 1)
  end.

Definition memcpy (dst src n : Z) : M mem Z :=
  memcpy_loop (Z.to_nat n) dst src;; mret dst.

Definition strncmp (s1 s2 n : Z) : M mem Z :=
  f ← span;
  '(s1, s2, n) ← while f
    (λ '(s1, s2, n), andM (mret (negb (n =? 0)))
       (andM (a ← load s1; mret (negb (a =? 0)))
             (a ← load s1; b ← load s2; mret (a =? b))))
    (λ '(s1, s2, n), mret (s1 + 1, s2 + 1, n - 1)) (s1, s2, n);
  if n =? 0 then mret 0
  else a ← load s1; b ← load s2; mret (a - b).

(** [while ((d++ = src++) != 0);] over the pointed-to bytes: copy up to and
    including the terminator. *)
Definition copy_loop (d src : Z) : M mem unit :=
  n ← span;
  '(d, src) ← while n
    (λ '(d, src), a ← load src; mret (negb (a =? 0)))
    (λ '(d, src), a ← load src; store d a;; mret (d + 1, src + 1)) (d, src);
  a ← load src; store d a.

Definition strcpy (dest src : Z) : M mem Z :=
  copy_loop dest src;; mret dest.

Definition strcat (dest src : Z) : M mem Z :=
  n ← span;
  d ← while n (λ d, a ← load d; mret (negb (a =? 0))) (λ d, mret (d + 1)) dest;
  copy_loop d src;; mret dest.

(** The two [for] loops of [strncpy]: [k] counts what is left of [n]. *)
Fixpoint strncpy_loop (k : nat) (dest src : Z) : M mem unit :=
  match k with
  | O => mret tt
  | S k' => a ← load src;
            if a =? 0 then memset_loop k dest 0
            else store dest a;; strncpy_loop k' (dest + 1) (src + 1)
  end.

Definition strncpy (dest src n : Z) : M mem Z :=
  strncpy_loop (Z.to_nat n) dest src;; mret dest.

Definition strrchr (str c : Z) : M mem (option Z) :=
  n ← span;
  '(str, last) ← while n
    (λ '(str, last), a ← load str; mret (negb (a =? 0)))
    (λ '(str, last), a ← load str;
       mret (str + 1, if a =? u8 c then Some str else last)) (str, None);
  if c =? 0 then mret (Some str) else mret last.

Definition strstr_match (h n : Z) : M mem Z :=
  f ← span;
  '(h, n) ← while f
    (λ '(h, n), andM (a ← load h; mret (negb (a =? 0)))
       (andM (b ← load n; mret (negb (b =? 0)))
             (a ← load h; b ← load n; mret (a =? b))))
    (λ '(h, n), mret (h + 1, n + 1)) (h, n);
  load n.

Fixpoint strstr_loop (fuel : nat) (haystack needle : Z) : M mem (option Z) :=
  match fuel with
  | O => nofuel
  | S fuel =>
      a ← load haystack;
      if a =? 0 then mret None
      else b ← strstr_match haystack needle;
           if b =? 0 then mret (Some haystack)
           else strstr_loop fuel (haystack + 1) needle
  end.

Definition strstr (haystack needle : Z) : M mem (option Z) :=
  b ← load needle;
  if b =? 0 then mret (Some haystack)
  else n ← span; strstr_loop n haystack needle.

(** The inner scan of [strspn] and [strpbrk]: the first position of [set]
    that holds [c], or that of its terminator. *)
Definition scan_set (c set : Z) : M mem Z :=
  n ← span;
  while n
    (λ s, andM (a ← load s; mret (negb (a =? 0))) (a ← load s; mret (negb (c =? a))))
    (λ s, mret (s + 1)) set.

Fixpoint strspn_loop (fuel : nat) (str accept count : Z) : M mem Z :=
  match fuel with
  | O => nofuel
  | S fuel =>
      c ← load str;
      if c =? 0 then mret count
      else s ← scan_set c accept; a ← load s;
           if a =? 0 then mret count
           else strspn_loop fuel (str + 1) accept (count + 1)
  end.

Definition strspn (str accept : Z) : M mem Z :=
  n ← span; strspn_loop n str accept 0.

Fixpoint strpbrk_loop (fuel : nat) (str accept : Z) : M mem (option Z) :=
  match fuel with
  | O => nofuel
  | S fuel =>
      c ← load str;
      if c =? 0 then mret None
      else s ← scan_set c accept; a ← load s;
           if a =? 0 then strpbrk_loop fuel (str + 1) accept
           else mret (Some str)
  end.

Definition strpbrk (str accept : Z) : M mem (option Z) :=
  n ← span; strpbrk_loop n str accept.

(** The caller's [saveptr] variable is passed by value and returned. *)
Definition strtok_r (str : option Z) (delim saveptr : Z) : M mem (option Z * Z) :=
  let str := default saveptr str in
  k ← strspn str delim;
  let str := str + k in
  a ← load str;
  if a =? 0 then mret (None, str)
  else
    let token := str in
    o ← strpbrk str delim;
    match o with
    | None => l ← strlen token; mret (Some token, token + l)
    | Some str => store str 0;; mret (Some token, str + 1)
    end.

Fixpoint memmove_back (n : nat) (d s : Z) : M mem unit :=
  match n with
  | O => mret tt
  | S n => a ← load (s - 1); store (d - 1) a;; memmove_back n (d - 1) (s - 1)
  end.

Definition memmove (dest src n : Z) : M mem Z :=
  (if (src <? dest) && (dest <? src + n)
   then memmove_back (Z.to_nat n) (dest + n) (src + n)
   else memcpy_loop (Z.to_nat n) dest src);;
  mret dest.

End Lib.

(** ** List-level meaning *)

(** The difference that [strcmp] returns: of the first bytes that differ,
    the terminator of a string counting as 0. *)
Fixpoint s_strcmp (s1 s2 : str) : Z :=
  match s1, s2 with
  | [], [] => 0
  | [], b :: _ => 0 - b
  | a :: _, [] => a - 0
  | a :: s1, b :: s2 => if a =? b then s_strcmp s1 s2 else a - b
  end.

Definition s_strncmp (s1 s2 : str) (n : nat) : Z := s_strcmp (take n s1) (take n s2).

(** The offset of the last occurrence of [c]. *)
Fixpoint s_strrchr (s : str) (c : Z) : option nat :=
  match s with
  | [] => None
  | a :: s => match s_strrchr s c with
              | Some i => Some (S i)
              | None => if a =? c then Some O else None
              end
  end.

Definition mem_str (s : str) (c : Z) : bool := existsb (Z.eqb c) s.

(** The length of the longest prefix whose bytes are all in [accept]. *)
Fixpoint s_strspn (s accept : str) : nat :=
  match s with
  | [] => O
  | a :: s => if mem_str accept a then S (s_strspn s accept) else O
  end.

Fixpoint s_strpbrk (s accept : str) : option nat :=
  match s with
  | [] => None
  | a :: s => if mem_str accept a then Some O else S <$> s_strpbrk s accept
  end.

Fixpoint is_prefix (p s : str) : bool :=
  match p, s with
  | [], _ => true
  | a :: p, b :: s => (a =? b) && is_prefix p s
  | _ :: _, [] => false
  end.

(** The offset of the first occurrence of a nonempty [needle]. *)
Fixpoint s_strstr (s needle : str) : option nat :=
  match s with
  | [] => None
  | _ :: s' => if is_prefix needle s then Some O else S <$> s_strstr s' needle
  end.

(** One call of [strtok_r]: the delimiters skipped, the token, and the text
    left for the next call. *)
Definition s_token (s delim : str) : option (nat * str * str) :=
  let k := s_strspn s delim in
  let r := drop k s in
  match r with
  | [] => None
  | _ => match s_strpbrk r delim with
         | None => Some (k, r, [])
         | Some j => Some (k, take j r, drop (S j) r)
         end
  end.

(** ** What the memory holds *)

(** The bytes [l] from address [p] on. *)
Fixpoint bytes_at (m : mem) (p : Z) (l : list Z) : Prop :=
  match l with
  | [] => True
  | a :: l => rd m p = Some a ∧ bytes_at m (p + 1) l
  end.

(** A terminated string at [p], read as [s]. *)
Fixpoint cstr (m : mem) (p : Z) (s : str) : Prop :=
  match s with
  | [] => rd m p = Some 0
  | a :: s => rd m p = Some a ∧ a ≠ 0 ∧ cstr m (p + 1) s
  end.

(** [m'] is [m] outside the [n] bytes from [p]. *)
Definition only_changes (p n : Z) (m m' : mem) : Prop :=
  m_lo m' = m_lo m ∧ m_hi m' = m_hi m ∧ ∀ q, ¬ (p ≤ q < p + n) → rd m' q = rd m q.

(** The [n] bytes from [p] are addressable. *)
Definition room (m : mem) (p n : Z) : Prop := m_lo m ≤ p ∧ p + n ≤ m_hi m.

(** ** Laws of the memory *)

Lemma valid_true m p : valid m p = true ↔ m_lo m ≤ p < m_hi m.
Proof. rw /valid andb_true_iff Z.leb_le Z.ltb_lt. done. Qed.

Lemma rd_Some_valid m p v : rd m p = Some v → m_lo m ≤ p < m_hi m.
Proof. rw /rd. destruct (valid m p) eqn:E; [|done]. by rw valid_true in E. Qed.

Lemma rd_valid m p : m_lo m ≤ p < m_hi m → is_Some (rd m p).
Proof. rw /rd => H. apply valid_true in H as ->. by eexists. Qed.

Lemma rd_put m p v q :
  m_lo m ≤ p < m_hi m → rd (put m p v) q = if decide (q = p) then Some v else rd m q.
Proof.
  intros Hv%valid_true. rw /rd /valid /=. fold (valid m q). rw /put /=. case_decide as Hq.
  - subst q. rw Hv. destruct (v =? 0) eqn:E; zbool.
    + by rw lookup_delete_eq E.
    + by rw lookup_insert_eq.
  - destruct (valid m q); [|done]. destruct (v =? 0).
    + rw lookup_delete_ne; [congruence|done].
    + rw lookup_insert_ne; [congruence|done].
Qed.

Lemma load_Ok m p v : rd m p = Some v → load p m = Ok v m.
Proof. by rw /load => ->. Qed.

Lemma store_Ok m p v : m_lo m ≤ p < m_hi m → store p v m = Ok tt (put m p v).
Proof. rw /store /wr => /valid_true ->. done. Qed.

#[export] Hint Resolve load_Ok store_Ok rd_Some_valid : chthon.

Lemma only_changes_refl p n m : only_changes p n m m.
Proof. done. Qed.

Lemma only_changes_trans p n m1 m2 m3 :
  only_changes p n m1 m2 → only_changes p n m2 m3 → only_changes p n m1 m3.
Proof.
  intros (L1 & H1 & R1) (L2 & H2 & R2). repeat split; [congruence..|].
  intros q Hq. by rw R2 // R1.
Qed.

Lemma only_changes_weaken p n p' n' m m' :
  only_changes p n m m' → p' ≤ p → p + n ≤ p' + n' → only_changes p' n' m m'.
Proof. intros (L & H & R) ??. repeat split; [done..|]. intros q Hq. apply R. lia. Qed.

Lemma only_changes_put p n m q v :
  m_lo m ≤ q < m_hi m → p ≤ q < p + n → only_changes p n m (put m q v).
Proof.
  intros Hv Hq. repeat split. intros r Hr. rw rd_put //. case_decide; [lia|done].
Qed.

Lemma bytes_at_lookup m p l :
  bytes_at m p l ↔ ∀ i a, l !! i = Some a → rd m (p + Z.of_nat i) = Some a.
Proof.
  revert p. induction l as [|b l IH]; intros p; simpl; [naive_solver|]. rw IH. split.
  - intros [H1 H2] [|i] a Hi; simpl in Hi; [injection Hi as <-; by rw Z.add_0_r|].
    rw -(H2 _ _ Hi). f_equal. lia.
  - intros H. split; [rw -(H O b eq_refl); f_equal; lia|].
    intros i a Hi. rw -(H (S i) a Hi). f_equal. lia.
Qed.

Lemma bytes_at_app m p l1 l2 :
  bytes_at m p (l1 ++ l2) ↔ bytes_at m p l1 ∧ bytes_at m (p + zlen l1) l2.
Proof.
  revert p. induction l1 as [|a l1 IH]; intros p; [rw /= Z.add_0_r; tauto|].
  rw /= IH Nat2Z.inj_succ. replace (p + 1 + zlen l1) with (p + Z.succ (zlen l1)) by lia. tauto.
Qed.

Lemma bytes_at_same m m' p l :
  (∀ q, p ≤ q < p + zlen l → rd m' q = rd m q) → bytes_at m p l → bytes_at m' p l.
Proof.
  revert p. induction l as [|a l IH]; intros p Hs; [done|]. intros [Hr Hb]. split.
  - rw Hs // /=. lia.
  - apply IH; [|done]. intros q Hq. apply Hs. simpl. lia.
Qed.

(** A C string is its bytes, the terminator included, none of them 0. *)
Lemma cstr_bytes m p s :
  cstr m p s ↔ bytes_at m p (s ++ [0]) ∧ Forall (λ b, b ≠ 0) s.
Proof.
  revert p. induction s as [|a s IH]; intros p; simpl.
  - rw Forall_nil. tauto.
  - rw IH Forall_cons. tauto.
Qed.

Lemma cstr_same m m' p s :
  (∀ q, p ≤ q < p + zlen s + 1 → rd m' q = rd m q) → cstr m p s → cstr m' p s.
Proof.
  rw !cstr_bytes => Hs [Hb Hf]. split; [|done]. apply (bytes_at_same m); [|exact Hb].
  intros q. rw length_app /=. intros. apply Hs. lia.
Qed.

Lemma cstr_drop m p s k :
  (k ≤ length s)%nat → cstr m p s → cstr m (p + Z.of_nat k) (drop k s).
Proof.
  rw !cstr_bytes => Hk [Hb Hf]. split; [|by apply Forall_drop].
  rw -(take_drop k s) -app_assoc in Hb. apply bytes_at_app in Hb as [_ Hb].
  rw length_take in Hb. replace (Z.of_nat k) with (Z.of_nat (k `min` length s)) by lia. done.
Qed.

Lemma cstr_span m p s : cstr m p s → m_lo m ≤ p ∧ p + zlen s < m_hi m.
Proof.
  revert p. induction s as [|a s IH]; intros p; simpl.
  - intros H%rd_Some_valid. lia.
  - intros (H%rd_Some_valid & _ & H2%IH). lia.
Qed.

Lemma bytes_at_span m p l : l ≠ [] → bytes_at m p l → room m p (zlen l).
Proof.
  rw /room. revert p. induction l as [|a l IH]; intros p; [done|]. intros _ [Hr%rd_Some_valid Hb].
  destruct l as [|b l]; [simpl; lia|]. apply IH in Hb; [|done]. simpl in *. lia.
Qed.

(** ** The routines return what the list level says *)

Lemma s_strcmp_refl s : s_strcmp s s = 0.
Proof. induction s as [|a s IH]; simpl; [done|]. by rw Z.eqb_refl. Qed.

(** [strcmp] decides equality of C strings. *)
Lemma s_strcmp_eq s1 s2 : is_str s1 → is_str s2 → s_strcmp s1 s2 = 0 ↔ s1 = s2.
Proof.
  rw /is_str. intros H1 H2. split; [|intros ->; apply s_strcmp_refl].
  revert s2 H2. induction H1 as [|a s1 Ha H1 IH]; intros [|b s2] H2; simpl; try done.
  - apply Forall_cons in H2 as [? _]. lia.
  - lia.
  - apply Forall_cons in H2 as [Hb H2]. zcase; [|lia]. intros H. f_equal; auto.
Qed.

Section Routines.
Context (m : mem).

Lemma scan_end n p s :
  cstr m p s → (length s < n)%nat →
  while n (λ p, a ← load p; mret (negb (a =? 0))) (λ p, mret (p + 1)) p m = Ok (p + zlen s) m.
Proof.
  revert n p. induction s as [|a s IH]; intros [|n] p Hs Hn; simpl in Hn; try lia; simpl in Hs.
  - erewrite while_false; [rw Z.add_0_r //|]. mstep; done.
  - destruct Hs as (Hr & Ha & Hs). erewrite while_true; [|by mstep; apply Z.eqb_neq in Ha as ->|done].
    rw IH //; [lia|]. f_equal. simpl. lia.
Qed.

Lemma span_cstr p s : cstr m p s → (length s < S (Z.to_nat (m_hi m - m_lo m)))%nat.
Proof. intros H%cstr_span. lia. Qed.

Lemma strlen_spec p s : cstr m p s → Lib.strlen p m = Ok (zlen s) m.
Proof.
  intros Hs. rw /Lib.strlen. erewrite bind_Ok; [|done].
  erewrite bind_Ok; [|apply (scan_end _ _ s); [done|by apply (span_cstr p)]]. rw /mret /M_ret. f_equal. lia.
Qed.

Lemma strcmp_spec p1 p2 s1 s2 :
  cstr m p1 s1 → cstr m p2 s2 → Lib.strcmp p1 p2 m = Ok (s_strcmp s1 s2) m.
Proof.
  intros H1 H2. rw /Lib.strcmp. erewrite bind_Ok; [|done].
  pose proof (span_cstr _ _ H1) as Hn. revert Hn.
  generalize (S (Z.to_nat (m_hi m - m_lo m))) as n.
  revert p1 p2 s2 H1 H2. induction s1 as [|a s1 IH]; intros p1 p2 s2 H1 H2 [|n] Hn;
    simpl in Hn; try lia; simpl in H1.
  - erewrite bind_Ok; [|by eapply while_false, andM_false; mstep].
    mstep. destruct s2; simpl in H2; [by mstep|]. destruct H2. by mstep.
  - destruct H1 as (Hr & Ha & H1). apply Z.eqb_neq in Ha.
    assert (∃ b, rd m p2 = Some b ∧
      s_strcmp (a :: s1) s2 = (if a =? b then s_strcmp s1 (tail s2) else a - b) ∧
      (a = b → cstr m (p2 + 1) (tail s2))) as (b & Hb & -> & Ht).
    { destruct s2 as [|b s2]; simpl in H2 |- *; [exists 0|exists b].
      - rw Ha. split_and!; try done. intros ->. done.
      - destruct H2 as (? & ? & ?). split_and!; done. }
    assert (Hc : andM (a ← load p1; mret (negb (a =? 0)))
                   (a ← load p1; b ← load p2; mret (a =? b)) m = Ok (a =? b) m).
    { eapply andM_true; [by mstep; rw Ha|]. by mrun. }
    destruct (a =? b) eqn:E; zbool.
    + erewrite bind_congr; [|eapply while_true; [apply Hc|done]]. apply IH; auto. lia.
    + erewrite bind_Ok; [|apply while_false, Hc]. by mrun.
Qed.

Lemma strncmp_spec p1 p2 s1 s2 (n : nat) :
  cstr m p1 s1 → cstr m p2 s2 → Lib.strncmp p1 p2 (Z.of_nat n) m = Ok (s_strncmp s1 s2 n) m.
Proof.
  intros H1 H2. rw /Lib.strncmp. erewrite bind_Ok; [|done].
  pose proof (span_cstr _ _ H1) as Hf. revert Hf.
  generalize (S (Z.to_nat (m_hi m - m_lo m))) as f.
  revert p1 p2 s2 n H1 H2. induction s1 as [|a s1 IH]; intros p1 p2 s2 n H1 H2 [|f] Hf;
    simpl in Hf; try lia; (destruct n as [|n];
      [erewrite bind_Ok; [|by eapply while_false, andM_false]; done|]).
  - simpl in H1. erewrite bind_Ok; [|eapply while_false, andM_true; [done|]; by apply andM_false; mstep].
    cbn beta iota. replace (Z.of_nat (S n) =? 0) with false by lia.
    mstep. destruct s2; simpl in H2; [by mstep|]. destruct H2. by mstep.
  - destruct H1 as (Hr & Ha & H1). apply Z.eqb_neq in Ha.
    assert (∃ b, rd m p2 = Some b ∧
      s_strncmp (a :: s1) s2 (S n) = (if a =? b then s_strncmp s1 (tail s2) n else a - b) ∧
      (a = b → cstr m (p2 + 1) (tail s2))) as (b & Hb & -> & Ht).
    { rw /s_strncmp. destruct s2 as [|b s2]; simpl in H2 |- *; [exists 0|exists b].
      - rw Ha. split_and!; try done. intros ->. done.
      - destruct H2 as (? & ? & ?). split_and!; done. }
    assert (Hc : andM (mret (negb (Z.of_nat (S n) =? 0)))
      (andM (a ← load p1; mret (negb (a =? 0)))
            (a ← load p1; b ← load p2; mret (a =? b))) m = Ok (a =? b) m).
    { eapply andM_true; [done|]. eapply andM_true; [by mstep; rw Ha|]. by mrun. }
    destruct (a =? b) eqn:E; zbool.
    + erewrite bind_congr; [|eapply while_true; [apply Hc|done]].
      replace (Z.of_nat (S n) - 1) with (Z.of_nat n) by lia. apply IH; auto. lia.
    + erewrite bind_Ok; [|apply while_false, Hc]. cbn beta iota.
      replace (Z.of_nat (S n) =? 0) with false by lia. by mrun.
Qed.

Lemma strrchr_spec p s c :
  cstr m p s → 0 < c < 256 →
  Lib.strrchr p c m = Ok ((λ i, p + Z.of_nat i) <$> s_strrchr s c) m.
Proof.
  intros Hs Hc. rw /Lib.strrchr. erewrite bind_Ok; [|done].
  pose proof (span_cstr _ _ Hs) as Hf. revert Hf.
  generalize (S (Z.to_nat (m_hi m - m_lo m))) as f.
  assert (H : ∀ s p last f, cstr m p s → (length s < f)%nat →
    while f (λ '(str, last), a ← load str; mret (negb (a =? 0)))
      (λ '(str, last), a ← load str; mret (str + 1, if a =? u8 c then Some str else last))
      (p, last) m =
    Ok (p + zlen s, match s_strrchr s c with Some i => Some (p + Z.of_nat i) | None => last end) m).
  { clear p s Hs. intros s. induction s as [|a s IH]; intros p last [|f] Hs Hf; simpl in Hf; try lia;
      simpl in Hs.
    - erewrite while_false; [by rw Z.add_0_r|]. by mstep.
    - destruct Hs as (Hr & Ha%Z.eqb_neq & Hs).
      erewrite while_true; [|by mstep; rw Ha|by mstep]. rw IH //; [lia|]. f_equal. rw u8_small; [lia|].
      f_equal; [simpl; lia|]. simpl. destruct (s_strrchr s c); [f_equal; lia|].
      destruct (a =? c); [f_equal; lia|done]. }
  intros f Hf. erewrite bind_Ok; [|apply (H s p None f Hs Hf)]. cbn beta iota.
  replace (c =? 0) with false by lia. by destruct (s_strrchr s c).
Qed.

Lemma scan_set_spec c p set :
  cstr m p set → c ≠ 0 →
  ∃ q, Lib.scan_set c p m = Ok q m ∧ rd m q = Some (if mem_str set c then c else 0).
Proof.
  intros Hs Hc. rw /Lib.scan_set. erewrite bind_Ok; [|done].
  pose proof (span_cstr _ _ Hs) as Hf. revert Hf.
  generalize (S (Z.to_nat (m_hi m - m_lo m))) as f.
  revert p Hs. induction set as [|a set IH]; intros p Hs [|f] Hf; simpl in Hf; try lia; simpl in Hs.
  - exists p. split; [|done]. apply while_false, andM_false. by mstep.
  - destruct Hs as (Hr & Ha & Hs). simpl. destruct (c =? a) eqn:E; zbool.
    + exists p. split; [|by subst]. apply while_false. eapply andM_true; [by mstep; replace (a =? 0) with false by lia|].
      mstep. subst. by rw Z.eqb_refl.
    + destruct (IH (p + 1) Hs f) as (q & Hq & Hq'); [lia|]. exists q. split; [|done].
      erewrite while_true; [apply Hq| |done]. eapply andM_true; [by mstep; replace (a =? 0) with false by lia|].
      mstep. by apply Z.eqb_neq in E as ->.
Qed.

Lemma strspn_loop_spec f p pa s accept cnt :
  cstr m p s → cstr m pa accept → (length s < f)%nat →
  Lib.strspn_loop f p pa cnt m = Ok (cnt + Z.of_nat (s_strspn s accept)) m.
Proof.
  intros Hs Ha. revert f p cnt Hs.
  induction s as [|c s IH]; intros [|f] p cnt Hs Hf; simpl in Hf; try lia; simpl in Hs.
  - simpl. mstep. rw /= Z.add_0_r //.
  - destruct Hs as (Hr & Hc & Hs). destruct (scan_set_spec c pa accept) as (q & Hq & Hq'); [done..|].
    simpl. mstep. apply Z.eqb_neq in Hc. rw Hc. mrun.
    destruct (mem_str accept c); [rw Hc|by rw Z.add_0_r]. rw IH; [done|lia|]. f_equal. lia.
Qed.

Lemma strspn_spec p pa s accept :
  cstr m p s → cstr m pa accept → Lib.strspn p pa m = Ok (Z.of_nat (s_strspn s accept)) m.
Proof.
  intros Hs Ha. rw /Lib.strspn. erewrite bind_Ok; [|done].
  rw (strspn_loop_spec _ _ _ s accept) //. by apply (span_cstr p).
Qed.

Lemma strpbrk_spec p pa s accept :
  cstr m p s → cstr m pa accept →
  Lib.strpbrk p pa m = Ok ((λ i, p + Z.of_nat i) <$> s_strpbrk s accept) m.
Proof.
  intros Hs Ha. rw /Lib.strpbrk. erewrite bind_Ok; [|done].
  pose proof (span_cstr _ _ Hs) as Hf. revert Hf.
  generalize (S (Z.to_nat (m_hi m - m_lo m))) as f.
  revert p Hs. induction s as [|c s IH]; intros p Hs [|f] Hf; simpl in Hf; try lia; simpl in Hs.
  - simpl. by mstep.
  - destruct Hs as (Hr & Hc & Hs). destruct (scan_set_spec c pa accept) as (q & Hq & Hq'); [done..|].
    simpl. mstep. apply Z.eqb_neq in Hc. rw Hc. mrun.
    destruct (mem_str accept c); [rw Hc /= Z.add_0_r //|]. rw Z.eqb_refl IH; [done|lia|].
    f_equal. destruct (s_strpbrk s accept); simpl; [f_equal; lia|done].
Qed.
End Routines.

(** ** The routines that write *)

Lemma room_put m q v p n : room (put m q v) p n ↔ room m p n.
Proof. done. Qed.

Lemma memset_loop_spec n m p c :
  room m p (Z.of_nat n) →
  ∃ m', Lib.memset_loop n p c m = Ok tt m' ∧ only_changes p (Z.of_nat n) m m' ∧
        bytes_at m' p (replicate n (u8 c)).
Proof.
  rw /room. revert m p. induction n as [|n IH]; intros m p Hr; [by exists m|].
  assert (Hv : m_lo m ≤ p < m_hi m) by lia.
  destruct (IH (put m p (u8 c)) (p + 1)) as (m' & Hm & Hoc & Hb); [simpl; lia|].
  exists m'. simpl. rw (bind_Ok _ _ _ _ _ (store_Ok m p (u8 c) Hv)).
  pose proof Hoc as (_ & _ & Hrd). split_and!; [done| | |done].
  - apply (only_changes_trans _ _ _ (put m p (u8 c))); [by apply only_changes_put; lia|].
    apply (only_changes_weaken _ _ _ _ _ _ Hoc); lia.
  - rw Hrd ?rd_put //; [lia|]. by rw decide_True.
Qed.

Lemma fwd_copy_spec n m d s :
  room m d (Z.of_nat n) → room m s (Z.of_nat n) → d ≤ s ∨ s + Z.of_nat n ≤ d →
  ∃ m', Lib.memcpy_loop n d s m = Ok tt m' ∧ only_changes d (Z.of_nat n) m m' ∧
        ∀ i, 0 ≤ i < Z.of_nat n → rd m' (d + i) = rd m (s + i).
Proof.
  rw /room. revert m d s. induction n as [|n IH]; intros m d s Hd Hs Hov.
  { exists m. split_and!; [done..|]. intros; lia. }
  assert (Hv : m_lo m ≤ d < m_hi m) by lia.
  destruct (rd_valid m s) as [a Ha]; [lia|].
  destruct (IH (put m d a) (d + 1) (s + 1)) as (m' & Hm & Hoc & Hcp); [simpl; lia..|].
  exists m'. simpl. mstep. rw (bind_Ok _ _ _ _ _ (store_Ok m d a Hv)).
  pose proof Hoc as (_ & _ & Hrd). split_and!; [done| |].
  - apply (only_changes_trans _ _ _ (put m d a)); [by apply only_changes_put; lia|].
    apply (only_changes_weaken _ _ _ _ _ _ Hoc); lia.
  - intros i Hi. destruct (decide (i = 0)) as [->|Hne].
    + rw !Z.add_0_r Hrd ?rd_put //; [lia|]. by rw decide_True.
    + replace (d + i) with (d + 1 + (i - 1)) by lia. rw Hcp; [lia|].
      rw rd_put // decide_False; [lia|]. f_equal. lia.
Qed.

Lemma back_copy_spec n m d s :
  room m (d - Z.of_nat n) (Z.of_nat n) → room m (s - Z.of_nat n) (Z.of_nat n) → s ≤ d →
  ∃ m', Lib.memmove_back n d s m = Ok tt m' ∧
        only_changes (d - Z.of_nat n) (Z.of_nat n) m m' ∧
        ∀ i, 1 ≤ i ≤ Z.of_nat n → rd m' (d - i) = rd m (s - i).
Proof.
  rw /room. revert m d s. induction n as [|n IH]; intros m d s Hd Hs Hov.
  { exists m. split_and!; [done..|]. intros; lia. }
  assert (Hv : m_lo m ≤ d - 1 < m_hi m) by lia.
  destruct (rd_valid m (s - 1)) as [a Ha]; [lia|].
  destruct (IH (put m (d - 1) a) (d - 1) (s - 1)) as (m' & Hm & Hoc & Hcp); [simpl; lia..|].
  exists m'. simpl. mstep. rw (bind_Ok _ _ _ _ _ (store_Ok m (d - 1) a Hv)).
  pose proof Hoc as (_ & _ & Hrd). split_and!; [done| |].
  - apply (only_changes_trans _ _ _ (put m (d - 1) a)); [by apply only_changes_put; lia|].
    apply (only_changes_weaken _ _ _ _ _ _ Hoc); lia.
  - intros i Hi. destruct (decide (i = 1)) as [->|Hne].
    + rw Hrd ?rd_put //; [lia|]. by rw decide_True.
    + replace (d - i) with (d - 1 - (i - 1)) by lia. rw Hcp; [lia|].
      rw rd_put // decide_False; [lia|]. f_equal. lia.
Qed.

Lemma copy_while_spec m n d p s :
  cstr m p s → room m d (zlen s + 1) → d ≤ p ∨ p + zlen s < d → (length s < n)%nat →
  ∃ m', ('(d, src) ← while n
           (λ '(d, src), a ← load src; mret (negb (a =? 0)))
           (λ '(d, src), a ← load src; store d a;; mret (d + 1, src + 1)) (d, p);
         a ← load src; store d a) m = Ok tt m' ∧
        only_changes d (zlen s + 1) m m' ∧ cstr m' d s.
Proof.
  rw /room. revert m n d p. induction s as [|a s IH]; intros m [|n] d p Hs Hr Hov Hn;
    simpl in *; try lia.
  - exists (put m d 0). erewrite bind_Ok; [|by apply while_false; mstep]. mstep.
    rw store_Ok; [lia|]. split_and!; [done|apply only_changes_put; lia|].
    rw rd_put; [lia|]. by rw decide_True.
  - destruct Hs as (Hrd & Ha & Hs). assert (Hv : m_lo m ≤ d < m_hi m) by lia.
    destruct (IH (put m d a) n (d + 1) (p + 1)) as (m' & Hm & Hoc & Hc); [|simpl; lia..|].
    { apply (cstr_same m); [|exact Hs]. intros q Hq. rw rd_put //. rw decide_False; [lia|done]. }
    exists m'. erewrite bind_congr.
    2: { eapply while_true; [by mstep; replace (a =? 0) with false by lia|].
         mstep. rw (bind_Ok _ _ _ _ _ (store_Ok m d a Hv)). done. }
    pose proof Hoc as (_ & _ & Hrd'). split_and!; [done| | |done..].
    + apply (only_changes_trans _ _ _ (put m d a)); [by apply only_changes_put; lia|].
      apply (only_changes_weaken _ _ _ _ _ _ Hoc); lia.
    + rw Hrd' ?rd_put //; [lia|]. by rw decide_True.
Qed.

Lemma copy_loop_spec m d p s :
  cstr m p s → room m d (zlen s + 1) → d ≤ p ∨ p + zlen s < d →
  ∃ m', Lib.copy_loop d p m = Ok tt m' ∧ only_changes d (zlen s + 1) m m' ∧ cstr m' d s.
Proof.
  intros Hs Hr Hov. rw /Lib.copy_loop. erewrite bind_Ok; [|done].
  apply copy_while_spec; [done..|]. by apply (span_cstr m p).
Qed.

(** ** The list-level functions used as specifications *)

(** The maximal runs of non-delimiters of [s], in order; [acc] is the run
    being read, reversed. *)
Fixpoint s_split_aux (delim s acc : str) : list str :=
  match s with
  | [] => match acc with [] => [] | _ => [rev acc] end
  | c :: s => if mem_str delim c
              then match acc with
                   | [] => s_split_aux delim s []
                   | _ => rev acc :: s_split_aux delim s []
                   end
              else s_split_aux delim s (c :: acc)
  end.

Definition s_split (delim s : str) : list str := s_split_aux delim s [].

Lemma s_split_aux_run delim s acc :
  acc ≠ [] →
  s_split_aux delim s acc =
  match s_strpbrk s delim with
  | None => [rev acc ++ s]
  | Some j => (rev acc ++ take j s) :: s_split_aux delim (drop (S j) s) []
  end.
Proof.
  revert acc. induction s as [|c s IH]; intros acc Hacc; simpl.
  - destruct acc; [done|]. by rw app_nil_r.
  - destruct (mem_str delim c) eqn:E; simpl.
    + destruct acc; [done|]. by rw app_nil_r drop_0.
    + rw IH //. destruct (s_strpbrk s delim); by rw /= -app_assoc.
Qed.

Lemma s_split_skip delim s :
  s_split delim s = s_split delim (drop (s_strspn s delim) s).
Proof.
  rw /s_split. induction s as [|c s IH]; simpl; [done|]. by destruct (mem_str delim c) eqn:E; rw /= ?E.
Qed.

Lemma s_strspn_stop s delim :
  s_strspn (drop (s_strspn s delim) s) delim = 0%nat.
Proof. induction s as [|c s IH]; simpl; [done|]. destruct (mem_str delim c) eqn:E; [done|]. by rw /= E. Qed.

(** One call of [strtok_r] takes the first run off the text. *)
Lemma s_token_split delim s :
  s_split delim s =
  match s_token s delim with None => [] | Some (_, tok, rest) => tok :: s_split delim rest end.
Proof.
  rw s_split_skip /s_token. pose proof (s_strspn_stop s delim) as Hst.
  destruct (drop (s_strspn s delim) s) as [|c r]; [done|]. simpl in Hst.
  rw /s_split. simpl. destruct (mem_str delim c); [done|].
  rw s_split_aux_run //. by destruct (s_strpbrk r delim).
Qed.

Lemma s_strspn_le s accept : (s_strspn s accept ≤ length s)%nat.
Proof. induction s as [|c s IH]; simpl; [lia|]. destruct (mem_str accept c); lia. Qed.

Lemma s_strpbrk_at s accept j :
  s_strpbrk s accept = Some j → ∃ a, s !! j = Some a ∧ mem_str accept a = true.
Proof.
  revert j. induction s as [|b s IH]; intros j; simpl; [done|].
  destruct (mem_str accept b) eqn:E; [intros [= <-]; by exists b|].
  destruct (s_strpbrk s accept) as [i|]; [|done]. intros [= <-]. by apply IH.
Qed.

Lemma s_strpbrk_lt s accept j : s_strpbrk s accept = Some j → (j < length s)%nat.
Proof.
  revert j. induction s as [|c s IH]; intros j; simpl; [done|].
  destruct (mem_str accept c); [intros [= <-]; lia|]. intros (i & Hi & ->)%fmap_Some.
  apply IH in Hi. lia.
Qed.

Lemma s_token_shorter s delim k tok rest :
  s_token s delim = Some (k, tok, rest) →
  ((k + length tok + length rest < length s)%nat ∨
   (length rest = 0 ∧ k + length tok = length s)%nat) ∧ (length rest < length s)%nat.
Proof.
  rw /s_token. pose proof (s_strspn_le s delim) as Hk.
  destruct (drop (s_strspn s delim) s) as [|c r] eqn:E; [done|].
  assert (Hl : length (c :: r) = (length s - s_strspn s delim)%nat) by rw -E length_drop //.
  destruct (s_strpbrk (c :: r) delim) as [j|] eqn:Ej; intros [= <- <- <-].
  - apply s_strpbrk_lt in Ej. rw length_take length_drop. simpl in *. lia.
  - simpl in *. lia.
Qed.

Lemma is_prefix_spec p s : is_prefix p s = true ↔ take (length p) s = p.
Proof.
  revert s. induction p as [|a p IH]; intros [|b s]; simpl; try done.
  rw andb_true_iff Z.eqb_eq IH. split; [intros [-> ->]; done|intros [= -> ->]; done].
Qed.

(** [s_strstr] finds the first occurrence, if there is one. *)
Lemma s_strstr_first s needle :
  needle ≠ [] →
  match s_strstr s needle with
  | Some i => is_prefix needle (drop i s) = true ∧ ∀ j, (j < i)%nat → is_prefix needle (drop j s) = false
  | None => ∀ j, is_prefix needle (drop j s) = false
  end.
Proof.
  intros Hn. induction s as [|c s IH]; simpl.
  - intros j. rw drop_nil. by destruct needle.
  - destruct (is_prefix needle (c :: s)) eqn:E; [split; [done|]; intros; lia|].
    destruct (s_strstr s needle) as [i|]; simpl.
    + destruct IH as [H1 H2]. split; [done|]. intros [|j] Hj; [done|]. apply H2. lia.
    + intros [|j]; [done|]. apply IH.
Qed.

(** ** The contracts of the library *)

Lemma memmove_spec m dest src (n : nat) :
  room m dest (Z.of_nat n) → room m src (Z.of_nat n) →
  ∃ m', Lib.memmove dest src (Z.of_nat n) m = Ok dest m' ∧
        only_changes dest (Z.of_nat n) m m' ∧
        ∀ i, 0 ≤ i < Z.of_nat n → rd m' (dest + i) = rd m (src + i).
Proof.
  intros Hd Hs. rw /Lib.memmove Nat2Z.id. destruct (_ && _) eqn:E; zbool.
  - destruct (back_copy_spec n m (dest + Z.of_nat n) (src + Z.of_nat n)) as (m' & Hm & Hoc & Hc);
      rw ?Z.add_simpl_r //; [lia|].
    exists m'. mstep. split_and!; [done|by rw Z.add_simpl_r in Hoc|].
    intros i Hi. replace (dest + i) with (dest + Z.of_nat n - (Z.of_nat n - i)) by lia.
    rw Hc; [lia|]. f_equal. lia.
  - destruct (fwd_copy_spec n m dest src) as (m' & Hm & Hoc & Hc); [done..|lia|].
    exists m'. mstep. done.
Qed.

(** C19: [memmove] copies the [n] bytes at [src] as they were before the call
    to [dest], whatever the overlap of the two ranges, and changes nothing
    else. *)
Theorem memmove_correct m dest src (n : nat) :
  room m dest (Z.of_nat n) → room m src (Z.of_nat n) →
  ∃ m', Lib.memmove dest src (Z.of_nat n) m = Ok dest m' ∧
        only_changes dest (Z.of_nat n) m m' ∧
        ∀ i, 0 ≤ i < Z.of_nat n → rd m' (dest + i) = rd m (src + i).
Proof. apply memmove_spec. Qed.

Lemma memcpy_spec m dest src (n : nat) :
  room m dest (Z.of_nat n) → room m src (Z.of_nat n) →
  dest ≤ src ∨ src + Z.of_nat n ≤ dest →
  ∃ m', Lib.memcpy dest src (Z.of_nat n) m = Ok dest m' ∧
        only_changes dest (Z.of_nat n) m m' ∧
        ∀ i, 0 ≤ i < Z.of_nat n → rd m' (dest + i) = rd m (src + i).
Proof.
  intros Hd Hs Hov. rw /Lib.memcpy Nat2Z.id.
  destruct (fwd_copy_spec n m dest src) as (m' & Hm & Hoc & Hc); [done..|]. exists m'. by mstep.
Qed.

Lemma memset_spec m p c (n : nat) :
  room m p (Z.of_nat n) →
  ∃ m', Lib.memset p c (Z.of_nat n) m = Ok p m' ∧
        only_changes p (Z.of_nat n) m m' ∧ bytes_at m' p (replicate n (u8 c)).
Proof.
  intros Hr. rw /Lib.memset Nat2Z.id.
  destruct (memset_loop_spec n m p c) as (m' & Hm & ? & ?); [done|]. exists m'. by mstep.
Qed.

Lemma strcpy_spec m dest p s :
  cstr m p s → room m dest (zlen s + 1) → dest ≤ p ∨ p + zlen s < dest →
  ∃ m', Lib.strcpy dest p m = Ok dest m' ∧ only_changes dest (zlen s + 1) m m' ∧ cstr m' dest s.
Proof.
  intros Hs Hr Hov. rw /Lib.strcpy.
  destruct (copy_loop_spec m dest p s) as (m' & Hm & ? & ?); [done..|]. exists m'. by mstep.
Qed.

Lemma cstr_app m p s1 s2 :
  bytes_at m p s1 → Forall (λ b, b ≠ 0) s1 → cstr m (p + zlen s1) s2 → cstr m p (s1 ++ s2).
Proof.
  intros Hb Hf [Hb2 Hf2]%cstr_bytes. apply cstr_bytes. split; [|by apply Forall_app].
  rw -app_assoc. by apply bytes_at_app.
Qed.

(** [strcat] appends: when [dest] holds [s1], [p] holds [s2] and there is
    room for both, [dest] afterwards holds [s1 ++ s2], and no byte outside
    the appended part and its terminator changed. *)
Theorem strcat_correct m dest p s1 s2 :
  cstr m dest s1 → cstr m p s2 → room m dest (zlen s1 + zlen s2 + 1) →
  dest + zlen s1 + zlen s2 < p ∨ p + zlen s2 < dest →
  ∃ m', Lib.strcat dest p m = Ok dest m' ∧
        only_changes (dest + zlen s1) (zlen s2 + 1) m m' ∧ cstr m' dest (s1 ++ s2).
Proof.
  intros H1 H2 Hr Hov. rw /Lib.strcat. erewrite bind_Ok; [|done].
  erewrite bind_Ok; [|apply (scan_end _ _ _ s1); [done|by apply (span_cstr m dest)]].
  destruct (copy_loop_spec m (dest + zlen s1) p s2) as (m' & Hm & Hoc & Hc); [done| |lia|].
  { rw /room in Hr |- *. lia. }
  exists m'. mstep. split_and!; [done..|]. apply cstr_bytes in H1 as [Hb Hf].
  apply bytes_at_app in Hb as [Hb _]. apply cstr_app; [|done..].
  apply (bytes_at_same m); [|done]. intros q Hq. apply Hoc. lia.
Qed.

(** [strcmp] returns 0 exactly on equal strings, and terminates. *)
Theorem strcmp_correct m p1 p2 s1 s2 :
  cstr m p1 s1 → cstr m p2 s2 → is_str s1 → is_str s2 →
  ∃ r, Lib.strcmp p1 p2 m = Ok r m ∧ (r = 0 ↔ s1 = s2).
Proof.
  intros H1 H2 I1 I2. exists (s_strcmp s1 s2).
  split; [by apply strcmp_spec|by apply s_strcmp_eq].
Qed.

Lemma strstr_match_spec m h n s needle f :
  cstr m h s → cstr m n needle → (length s < f)%nat →
  ∃ b, ('(h, n) ← while f
    (λ '(h, n), andM (a ← load h; mret (negb (a =? 0)))
       (andM (b ← load n; mret (negb (b =? 0)))
             (a ← load h; b ← load n; mret (a =? b))))
    (λ '(h, n), mret (h + 1, n + 1)) (h, n);
  load n) m = Ok b m ∧ (b =? 0) = is_prefix needle s.
Proof.
  revert f h n needle. induction s as [|a s IH]; intros [|f] h n needle Hs Hn Hf;
    simpl in Hf; try lia; simpl in Hs.
  - assert (∃ b, rd m n = Some b ∧ (b =? 0) = is_prefix needle []) as (b & Hb & Hp).
    { destruct needle as [|b needle]; simpl in Hn |- *; [by exists 0|].
      destruct Hn as (? & ? & _). exists b. split; [done|lia]. }
    exists b. erewrite bind_Ok; [|by apply while_false, andM_false; mstep]. split; [by apply load_Ok|done].
  - destruct Hs as (Hr & Ha & Hs). destruct needle as [|b needle]; simpl in Hn.
    + exists 0. erewrite bind_Ok.
      2: { apply while_false. eapply andM_true; [by mstep; replace (a =? 0) with false by lia|].
           apply andM_false. by mstep. }
      split; [by apply load_Ok|done].
    + destruct Hn as (Hr' & Hb & Hn). simpl.
      assert (Hc : andM (a ← load h; mret (negb (a =? 0)))
        (andM (b ← load n; mret (negb (b =? 0)))
              (a ← load h; b ← load n; mret (a =? b))) m = Ok (a =? b) m).
      { eapply andM_true; [by mstep; replace (a =? 0) with false by lia|].
        eapply andM_true; [by mstep; replace (b =? 0) with false by lia|]. by mrun. }
      rw (Z.eqb_sym b a). destruct (a =? b) eqn:E; zbool.
      * destruct (IH f (h + 1) (n + 1) needle) as (r & Hm & Hp); [done..|lia|]. exists r.
        erewrite bind_congr; [|by eapply while_true; [apply Hc|]]. by split; [apply Hm|].
      * exists b. erewrite bind_Ok; [|by apply while_false, Hc]. split; [by apply load_Ok|lia].
Qed.

(** [strstr] terminates and returns the address of the first occurrence
    of a nonempty needle, and NULL when there is none. *)
Theorem strstr_correct m h n s needle :
  cstr m h s → cstr m n needle → needle ≠ [] →
  ∃ o, Lib.strstr h n m = Ok o m ∧
  match o with
  | Some q => ∃ i, q = h + Z.of_nat i ∧ is_prefix needle (drop i s) = true ∧
                   ∀ j, (j < i)%nat → is_prefix needle (drop j s) = false
  | None => ∀ j, is_prefix needle (drop j s) = false
  end.
Proof.
  intros Hs Hn Hne. exists ((λ i, h + Z.of_nat i) <$> s_strstr s needle). split.
  - rw /Lib.strstr. destruct needle as [|b needle]; [done|]. destruct Hn as (Hb & Hb0 & Hn).
    mstep. replace (b =? 0) with false by lia. erewrite bind_Ok; [|done].
    pose proof (span_cstr m _ _ Hs) as Hf. revert Hf.
    generalize (S (Z.to_nat (m_hi m - m_lo m))) as f. revert h Hs.
    induction s as [|a s IH]; intros h Hs [|f] Hf; simpl in Hf; try lia; simpl.
    + by mstep.
    + pose proof Hs as (Hr & Ha & Hs'). mstep. replace (a =? 0) with false by lia.
      destruct (strstr_match_spec m h n (a :: s) (b :: needle) (S (Z.to_nat (m_hi m - m_lo m))))
        as (r & Hm & Hp); [done..|by apply (span_cstr m h)|].
      erewrite bind_Ok; [|rw /Lib.strstr_match; erewrite bind_Ok; [apply Hm|done]]. cbn beta.
      simpl in Hp. rw Hp. destruct (_ && _); [by rw /= Z.add_0_r|].
      rw IH; [done|lia|]. destruct (s_strstr s _); simpl; [do 2 f_equal; lia|done].
  - pose proof (s_strstr_first s needle Hne). destruct (s_strstr s needle); [|done]. simpl. eauto.
Qed.

Lemma s_token_skip s delim k tok rest :
  s_token s delim = Some (k, tok, rest) → k = s_strspn s delim ∧ drop k s ≠ [].
Proof.
  rw /s_token. destruct (drop _ s) eqn:E; [done|].
  destruct (s_strpbrk _ _); intros [= <- <- <-]; by rw E.
Qed.

(** One call of [strtok_r]: the token and the unread text are C strings of
    the buffer afterwards, [saveptr] points at the unread text. *)
Lemma strtok_r_spec m p pd s delim sv o :
  cstr m p s → cstr m pd delim → default sv o = p →
  match s_token s delim with
  | None => Lib.strtok_r o pd sv m = Ok (None, p + zlen s) m
  | Some (k, tok, rest) =>
      ∃ m', Lib.strtok_r o pd sv m = Ok (Some (p + Z.of_nat k), p + zlen s - zlen rest) m' ∧
            cstr m' (p + Z.of_nat k) tok ∧ cstr m' (p + zlen s - zlen rest) rest ∧
            only_changes (p + Z.of_nat k) (zlen s - Z.of_nat k - zlen rest) m m'
  end.
Proof.
  intros Hs Hd Ho. rw /Lib.strtok_r Ho. clear Ho. rw (bind_Ok _ _ _ _ _ (strspn_spec m p pd s delim Hs Hd)).
  cbn zeta beta. set k := s_strspn s delim. pose proof (s_strspn_le s delim : (k ≤ _)%nat) as Hk.
  pose proof (cstr_drop m p s k Hk Hs) as Hr. rw /s_token -/k.
  assert (Hl : zlen s = Z.of_nat k + zlen (drop k s)) by (rw length_drop; lia).
  destruct (drop k s) as [|c r] eqn:E.
  { simpl in Hr. mstep. rw /= Hl. f_equal. f_equal. simpl. lia. }
  pose proof Hr as (Hc & Hc0 & _). mstep. replace (c =? 0) with false by lia.
  rw (bind_Ok _ _ _ _ _ (strpbrk_spec m _ pd (c :: r) delim Hr Hd)).
  destruct (s_strpbrk (c :: r) delim) as [j|] eqn:Ej; cbn [fmap option_fmap option_map].
  2: { exists m. rw (bind_Ok _ _ _ _ _ (strlen_spec m _ (c :: r) Hr)). split_and!; [|done| |done].
       - rw /mret /M_ret. do 2 f_equal. simpl in *. lia.
       - pose proof (cstr_drop m _ _ (length (c :: r)) (le_n _) Hr) as He.
         rw drop_all in He. replace (p + zlen s - zlen []) with (p + Z.of_nat k + zlen (c :: r)); [done|simpl in *; lia]. }
  apply s_strpbrk_lt in Ej as Hj. set q := p + Z.of_nat k + Z.of_nat j.
  assert (Hv : m_lo m ≤ q < m_hi m) by (apply cstr_span in Hr; rw /q; lia).
  exists (put m q 0). rw (bind_Ok _ _ _ _ _ (store_Ok m q 0 Hv)).
  assert (Hq : p + zlen s - zlen (drop (S j) (c :: r)) = q + 1).
  { rw length_drop Hl /q. lia. }
  rw Hq. apply cstr_bytes in Hr as [Hb Hf]. split_and!; [done| | |].
  - apply cstr_bytes. split; [|by apply Forall_take]. apply bytes_at_app. split.
    + rw -(take_drop j (c :: r)) -app_assoc bytes_at_app in Hb. destruct Hb as [Hb _].
      apply (bytes_at_same m); [|done]. intros x. rw length_take. intros Hx. rw rd_put //.
      rw decide_False; [rw /q; lia|done].
    + simpl. split; [|done]. rw length_take Nat.min_l; [lia|]. rw rd_put // decide_True; [rw /q; lia|done].
  - apply (cstr_same m).
    + intros x Hx. rw rd_put // decide_False; [lia|done].
    + replace (q + 1) with (p + Z.of_nat k + Z.of_nat (S j)); [|rw /q; lia].
      apply cstr_drop; [simpl in *; lia|]. by apply cstr_bytes.
  - apply only_changes_put; [done|]. rw /q. lia.
Qed.

(** The call pattern of the clients ([get_inode_by_path], [cmd_cd]): a first
    call on the buffer, then calls with NULL until NULL is returned. *)
Fixpoint strtok_all (fuel : nat) (o : option Z) (delim saveptr : Z) : M mem (list Z) :=
  match fuel with
  | O => nofuel
  | S fuel =>
      '(tok, saveptr) ← Lib.strtok_r o delim saveptr;
      match tok with
      | None => mret []
      | Some t => ts ← strtok_all fuel None delim saveptr; mret (t :: ts)
      end
  end.

(** C36: calling [strtok_r] until it returns NULL terminates and yields, in
    order, exactly the maximal runs of non-delimiter bytes of the text; the
    tokens are all still readable at the end, and no byte outside the text
    was written. *)
Theorem strtok_r_enumerates m p pd s delim sv o fuel :
  cstr m p s → cstr m pd delim → default sv o = p →
  pd + zlen delim < p ∨ p + zlen s < pd → (length s < fuel)%nat →
  ∃ ts m', strtok_all fuel o pd sv m = Ok ts m' ∧
           Forall2 (cstr m') ts (s_split delim s) ∧ only_changes p (zlen s) m m'.
Proof.
  revert m p s sv o. induction fuel as [|fuel IH]; intros m p s sv o Hs Hd Ho Hov Hf; [lia|].
  pose proof (strtok_r_spec m p pd s delim sv o Hs Hd Ho) as Hcall.
  rw s_token_split /=. destruct (s_token s delim) as [[[k tok] rest]|] eqn:E.
  2: { exists [], m. rw (bind_Ok _ _ _ _ _ Hcall). split_and!; [done|constructor|done]. }
  destruct Hcall as (m1 & Hcall & Htok & Hrest & Hoc).
  destruct (s_token_shorter _ _ _ _ _ E) as [Hsh Hlt].
  destruct (IH m1 (p + zlen s - zlen rest) rest (p + zlen s - zlen rest) None)
    as (ts & m' & Hm & Hall & Hoc'); [done| |done|lia|lia|].
  { apply (cstr_same m); [|done]. intros q Hq. apply Hoc. lia. }
  exists ((p + Z.of_nat k) :: ts), m'. rw (bind_Ok _ _ _ _ _ Hcall). cbn beta iota. mstep.
  split_and!; [done| |].
  - constructor; [|done]. apply (cstr_same m1); [|done].
    intros q Hq. apply Hoc'. lia.
  - apply (only_changes_trans _ _ _ m1).
    + apply (only_changes_weaken _ _ _ _ _ _ Hoc); lia.
    + apply (only_changes_weaken _ _ _ _ _ _ Hoc'); lia.
Qed.

Lemma strncpy_loop_spec n m dest p s :
  cstr m p s → room m dest (Z.of_nat n) →
  dest + Z.of_nat n ≤ p ∨ p + zlen s < dest →
  ∃ m', Lib.strncpy_loop n dest p m = Ok tt m' ∧ only_changes dest (Z.of_nat n) m m' ∧
        bytes_at m' dest (take n (s ++ replicate n 0)).
Proof.
  rw /room. revert m dest p s. induction n as [|n IH]; intros m dest p s Hs Hr Hov; [by exists m|].
  destruct s as [|a s]; simpl in Hs.
  - destruct (memset_loop_spec (S n) m dest 0) as (m' & Hm & Hoc & Hb); [done|].
    exists m'. simpl Lib.strncpy_loop. mstep. rw Z.eqb_refl. split_and!; [done..|].
    by rw app_nil_l take_ge ?length_replicate.
  - destruct Hs as (Ha & Ha0 & Hs). assert (Hv : m_lo m ≤ dest < m_hi m) by lia.
    destruct (IH (put m dest a) (dest + 1) (p + 1) s) as (m' & Hm & Hoc & Hb); [|simpl in *; lia..|].
    { apply (cstr_same m); [|done]. intros q Hq. rw rd_put // decide_False; [simpl in *; lia|done]. }
    exists m'. simpl Lib.strncpy_loop. mstep. replace (a =? 0) with false by lia.
    rw (bind_Ok _ _ _ _ _ (store_Ok m dest a Hv)). pose proof Hoc as (_ & _ & Hrd).
    split_and!; [done| |].
    + apply (only_changes_trans _ _ _ (put m dest a)); [by apply only_changes_put; lia|].
      apply (only_changes_weaken _ _ _ _ _ _ Hoc); lia.
    + simpl. split; [rw Hrd ?rd_put //; [lia|]; by rw decide_True|].
      assert (take n (s ++ replicate n 0) = take n (s ++ 0 :: replicate n 0)) as <-; [|done].
      change (0 :: replicate n 0) with (replicate (S n) 0). rw replicate_S_end app_assoc.
      by rw (take_app_le (s ++ replicate n 0)); [rw length_app length_replicate; lia|].
Qed.

(** [strncpy] writes exactly [n] bytes: the string cut to [n] bytes, or
    padded with zeros when it is shorter.  A string of [n] or more bytes is
    left without a terminator. *)
Theorem strncpy_correct m dest p s (n : nat) :
  cstr m p s → room m dest (Z.of_nat n) →
  dest + Z.of_nat n ≤ p ∨ p + zlen s < dest →
  ∃ m', Lib.strncpy dest p (Z.of_nat n) m = Ok dest m' ∧
        only_changes dest (Z.of_nat n) m m' ∧ bytes_at m' dest (take n (s ++ replicate n 0)).
Proof.
  intros Hs Hr Hov. rw /Lib.strncpy Nat2Z.id.
  destruct (strncpy_loop_spec n m dest p s) as (m' & Hm & ? & ?); [done..|]. exists m'. by mstep.
Qed.

(** ** Witnesses *)

(** A memory of [n] bytes at [lo] that starts with [l]. *)
Definition mem_init (lo n : Z) (l : list Z) : mem :=
  Mem lo (lo + n) (list_to_map (zip (seqZ lo (zlen l)) l)).

(** "/usr//bin" at 100, "/" at 120, "/sbin" at 130. *)
Definition demo_mem : mem :=
  mem_init 100 64 (bs "/usr//bin" ++ replicate 11 0 ++ bs "/" ++ replicate 9 0 ++ bs "/sbin").

Lemma memmove_correct_witness :
  ∃ m', Lib.memmove 102 100 8 demo_mem = Ok 102 m' ∧ rd m' 104 = rd demo_mem 102.
Proof.
  destruct (memmove_correct demo_mem 102 100 8) as (m' & H & _ & Hc); [done..|].
  exists m'. split; [apply H|]. apply (Hc 2). lia.
Defined.

Lemma strcat_correct_witness :
  ∃ m', Lib.strcat 100 130 demo_mem = Ok 100 m' ∧ cstr m' 100 (bs "/usr//bin/sbin").
Proof.
  destruct (strcat_correct demo_mem 100 130 (bs "/usr//bin") (bs "/sbin")) as (m' & H & _ & Hc);
    [vm_compute; repeat split; done..|left; vm_compute; done|].
  exists m'. split; [apply H|apply Hc].
Defined.

Lemma strcmp_correct_witness :
  ∃ r, Lib.strcmp 100 130 demo_mem = Ok r demo_mem ∧ (r = 0 ↔ bs "/usr//bin" = bs "/sbin").
Proof.
  apply (strcmp_correct demo_mem 100 130 (bs "/usr//bin") (bs "/sbin"));
    [vm_compute; repeat split; done..| |]; vm_compute; repeat constructor.
Defined.

Lemma strstr_correct_witness :
  ∃ o, Lib.strstr 100 120 demo_mem = Ok o demo_mem ∧ o = Some 100.
Proof.
  destruct (strstr_correct demo_mem 100 120 (bs "/usr//bin") (bs "/")) as (o & H & _);
    [vm_compute; repeat split; done..|done|].
  exists o. split; [apply H|]. vm_compute in H. by injection H as <-.
Defined.

Lemma strtok_r_enumerates_witness :
  ∃ ts m', strtok_all 20 (Some 100) 120 0 demo_mem = Ok ts m' ∧
           Forall2 (cstr m') ts [bs "usr"; bs "bin"].
Proof.
  destruct (strtok_r_enumerates demo_mem 100 120 (bs "/usr//bin") (bs "/") 0 (Some 100) 20)
    as (ts & m' & H & Hf & _); [vm_compute; repeat split; done..|done|right; vm_compute; done|vm_compute; lia|].
  exists ts, m'. split; [apply H|apply Hf].
Defined.

Lemma strncpy_correct_witness :
  ∃ m', Lib.strncpy 100 130 8 demo_mem = Ok 100 m' ∧ bytes_at m' 100 (bs "/sbin" ++ [0; 0; 0]).
Proof.
  destruct (strncpy_correct demo_mem 100 130 (bs "/sbin") 8) as (m' & H & _ & Hb);
    [vm_compute; repeat split; done..|left; vm_compute; done|].
  exists m'. split; [apply H|apply Hb].
Defined.

(** ** Facts about the list-level functions that the clients use *)

Lemma is_str_take n s : is_str s → is_str (take n s).
Proof. apply Forall_take. Qed.

(** [strncmp(s, p, strlen(p)) == 0] tests for a prefix. *)
Lemma s_strncmp_prefix s p :
  is_str s → is_str p → s_strncmp s p (length p) = 0 ↔ ∃ r, s = p ++ r.
Proof.
  intros Hs Hp. rw /s_strncmp (take_ge p) //. rw s_strcmp_eq; [by apply is_str_take|done|]. split.
  - intros Ht. exists (drop (length p) s). by rw -{1}(take_drop (length p) s) Ht.
  - intros [r ->]. by rw take_app_length.
Qed.

Lemma s_strrchr_Some s c k :
  s_strrchr s c = Some k ↔ s !! k = Some c ∧ c ∉ drop (S k) s.
Proof.
  revert k. induction s as [|a s IH]; intros k; simpl; [split; [done|by intros [? _]]|].
  destruct (s_strrchr s c) as [j|] eqn:E.
  - destruct (proj1 (IH j) eq_refl) as [Hj Hn]. split.
    + by intros [= <-].
    + destruct k as [|k]; simpl; [intros [_ Hn0]|].
      * exfalso. apply Hn0. rw drop_0. exact (list_elem_of_lookup_2 _ _ _ Hj).
      * intros H%IH. by simplify_eq.
  - assert (Hn : c ∉ s).
    { intros [k' Hk']%list_elem_of_lookup. clear IH k. revert k' Hk' E.
      induction s as [|b s IHs]; intros k' Hk'; [done|]. simpl. destruct k' as [|k']; simpl in Hk'.
      - destruct (s_strrchr s c); [done|]. simplify_eq. by rw Z.eqb_refl.
      - destruct (s_strrchr s c) eqn:E'; [done|]. by destruct (IHs k' Hk'). }
    destruct (a =? c) eqn:Ea; zbool; split.
    + intros [= <-]. subst. simpl. by rw drop_0.
    + destruct k as [|k]; simpl; [done|]. intros [Hk _]. by apply list_elem_of_lookup_2 in Hk.
    + done.
    + destruct k as [|k]; simpl; [by intros [[= ->] _]|]. intros [Hk _]. by apply list_elem_of_lookup_2 in Hk.
Qed.

Lemma s_strrchr_None s c : s_strrchr s c = None ↔ c ∉ s.
Proof.
  induction s as [|a s IH]; simpl; [set_solver|]. destruct (s_strrchr s c) as [k|] eqn:E.
  - split; [done|]. intros Hn. exfalso. apply Hn. apply s_strrchr_Some in E as [E _].
    apply list_elem_of_further. exact (list_elem_of_lookup_2 _ _ _ E).
  - assert (c ∉ s) by (by apply IH). destruct (a =? c) eqn:Ea; zbool.
    + subst. split; [done|]. intros Hn. exfalso. apply Hn, list_elem_of_here.
    + split; [|done]. intros _ [->|?]%elem_of_cons; done.
Qed.
