(* ===== verification/State.v ===== *)
(** * State: the data of the kernel ([src/include]) and its global variables

    One record per C struct, one component of [kstate] per group of static
    or global variables of a source file.  Objects that [kalloc] returns and
    that are used at one C type only ([struct vfs_file], [struct namespace],
    [struct process]) live in a typed store, keyed by their address; the
    bytes of [heap] are a [mem].  An address in [heap] is its offset. *)

From stdpp Require Import base numbers list gmap strings.
From Corelib Require Import ssreflect.
From S2P Require Import Prelude CString.

Open Scope Z_scope.
Open Scope general_if_scope.

(** ** include/vfs.h *)

Definition VFS_MAX_PATH : Z := 256.

Definition MAX_MOUNTS : Z := 16.

Record dirent := Dirent { d_inode : Z; d_name : str }.

(** The two [struct filesystem_type] objects, and with them their
    [struct vfs_file_operations] tables. *)
Inductive fs_id := ABYSSFS | RAMFS.

#[export] Instance fs_id_eq_dec : EqDecision fs_id.
Proof. solve_decision. Defined.

(** [private_data]: a [struct ramfs_file *] into [files], or the inode number
    that AbyssFS stores in the pointer (NULL is inode 0). *)
Inductive private := Pram (i : nat) | Pino (n : Z).

#[export] Instance private_eq_dec : EqDecision private.
Proof. solve_decision. Defined.

Record vfs_file := VfsFile {
  f_ops : option fs_id;
  f_path : str;
  private_data : private;
  f_pos : Z
}.

Record vfs_super_block := VfsSb { s_magic : Z; s_type : str }.

Record mount := Mount { mnt_path : str; mnt_fs : fs_id; mnt_sb : vfs_super_block }.

Record vfs_state := VfsState {
  registered_fs : list fs_id;
  mount_points : list mount;
  fd_table : list (option Z);
  next_fd : Z
}.

(** ** fs/ramfs.c: the file table *)

Record ramfs_file := RamfsFile {
  rf_path : str;
  rf_content : list Z;
  rf_size : Z;
  rf_used : bool
}.

(** ** include/abyssfs.h and the static variables of fs/abyssfs.c *)

Record abyssfs_super_block := AbyssSb {
  sb_magic : Z;
  sb_block_size : Z;
  sb_total_blocks : Z;
  sb_inode_blocks : Z;
  sb_data_blocks : Z;
  sb_free_blocks : Z;
  sb_first_data_block : Z;
  sb_num_inodes : Z
}.

Record abyss_state := AbyssState {
  ab_sb : abyssfs_super_block;
  ab_blocks : option Z;
  block_bitmap : Z;
  abyssfs_initialized : bool
}.

(** ** include/message.h *)

Definition MAX_MESSAGES : Z := 32.

(** The buffer that [data] points at, read as bytes or as an array of
    [struct dirent] (whose names are given by their text). *)
Inductive buffer := Bytes (l : list Z) | Dirents (l : list dirent).

(** Pointers to text are the text; [m_data] is the content of the buffer it
    points at; [m_argv] the address of the vector and its length. *)
Record message := Message {
  m_type : Z;
  m_path : option str;
  m_argv : option (Z * Z);
  m_data : option buffer;
  m_size : Z;
  m_flags : Z;
  m_fd : Z;
  m_pid : Z;
  m_status : Z;
  m_entry : Z;
  m_dirents : option (list dirent);
  m_dirent_count : Z;
  m_character : Z;
  m_string : option str
}.

Definition message0 : message :=
  Message 0 None None None 0 0 0 0 0 0 None 0 0 None.

Record message_queue := MsgQueue {
  q_messages : list message;
  q_head : Z;
  q_tail : Z;
  q_count : Z
}.

Definition message_queue0 : message_queue :=
  MsgQueue (replicate (Z.to_nat MAX_MESSAGES) message0) 0 0 0.

(** ** include/namespace.h *)

Record namespace := Namespace {
  ns_old_path : str;
  ns_new_path : str;
  ns_flags : Z;
  ns_next : option Z
}.

(** ** include/process.h *)

Definition MAX_PROCESSES : Z := 4.

Definition PROCESS_STACK_SIZE : Z := 4096.

Inductive process_state :=
| PROC_READY | PROC_RUNNING | PROC_BLOCKED | PROC_ZOMBIE | PROC_DEAD.

#[export] Instance process_state_eq_dec : EqDecision process_state.
Proof. solve_decision. Defined.

(** [context_t] as its 34 machine words: [pc], [sp], [lr], [x[0..30]]. *)
Definition context : Type := list Z.

Definition ctx_pc : nat := 0.

Definition ctx_sp : nat := 1.

Definition ctx_lr : nat := 2.

Definition ctx_x (i : nat) : nat := (3 + i)%nat.

(** A [struct process *]: an element of [processes] or a heap object. *)
Inductive pptr := PStatic (i : nat) | PHeap (off : Z).

#[export] Instance pptr_eq_dec : EqDecision pptr.
Proof. solve_decision. Defined.

#[export] Instance pptr_countable : Countable pptr.
Proof.
  refine (inj_countable' (λ p, match p with PStatic i => inl i | PHeap o => inr o end)
            (λ s, match s with inl i => PStatic i | inr o => PHeap o end) _).
  by intros [].
Defined.

Record process := Process {
  p_pid : Z;
  p_parent_pid : Z;
  p_state : process_state;
  p_ns_mounts : option Z;
  p_ctx : context;
  p_sp : Z;
  p_next : option pptr;
  p_exit_status : Z;
  p_msg_queue : message_queue;
  p_msg_blocked : Z;
  p_cwd : str
}.

(** A process object in zeroed memory. *)
Definition process0 : process :=
  Process 0 0 PROC_READY None (replicate 34 0) 0 None 0 message_queue0 0 [].

Record proc_globals := ProcGlobals {
  processes : gmap pptr process;
  process_count : Z;
  ready_queue : option pptr;
  current_process : option pptr;
  process_list : option pptr;
  next_pid : Z
}.

(** The registers that [context_switch] saves and restores: x19 to x30,
    the stack pointer and DAIF. *)
Record cpu := Cpu { cpu_x19_30 : list Z; cpu_sp : Z; cpu_daif : Z }.

(** ** The kernel state

    [ks_mmio] is the log of writes to the registers of the interrupt
    controller, and of the UART's configuration. *)

Record kstate := KState {
  ks_heap : mem;
  ks_heap_pos : Z;
  ks_out : list Z;
  ks_in : list Z;
  ks_ramfs : list ramfs_file;
  ks_abyss : abyss_state;
  ks_vfs : vfs_state;
  ks_files : gmap Z vfs_file;
  ks_namespaces : gmap Z namespace;
  ks_proc : proc_globals;
  ks_cpu : cpu;
  ks_mmio : list (Z * Z)
}.

Abbreviation K := (M kstate).

Definition set_heap v s := KState v (ks_heap_pos s) (ks_out s) (ks_in s) (ks_ramfs s)
  (ks_abyss s) (ks_vfs s) (ks_files s) (ks_namespaces s) (ks_proc s) (ks_cpu s) (ks_mmio s).

Definition set_heap_pos v s := KState (ks_heap s) v (ks_out s) (ks_in s) (ks_ramfs s)
  (ks_abyss s) (ks_vfs s) (ks_files s) (ks_namespaces s) (ks_proc s) (ks_cpu s) (ks_mmio s).

Definition set_out v s := KState (ks_heap s) (ks_heap_pos s) v (ks_in s) (ks_ramfs s)
  (ks_abyss s) (ks_vfs s) (ks_files s) (ks_namespaces s) (ks_proc s) (ks_cpu s) (ks_mmio s).

Definition set_in v s := KState (ks_heap s) (ks_heap_pos s) (ks_out s) v (ks_ramfs s)
  (ks_abyss s) (ks_vfs s) (ks_files s) (ks_namespaces s) (ks_proc s) (ks_cpu s) (ks_mmio s).

Definition set_ramfs v s := KState (ks_heap s) (ks_heap_pos s) (ks_out s) (ks_in s) v
  (ks_abyss s) (ks_vfs s) (ks_files s) (ks_namespaces s) (ks_proc s) (ks_cpu s) (ks_mmio s).

Definition set_abyss v s := KState (ks_heap s) (ks_heap_pos s) (ks_out s) (ks_in s) (ks_ramfs s)
  v (ks_vfs s) (ks_files s) (ks_namespaces s) (ks_proc s) (ks_cpu s) (ks_mmio s).

Definition set_vfs v s := KState (ks_heap s) (ks_heap_pos s) (ks_out s) (ks_in s) (ks_ramfs s)
  (ks_abyss s) v (ks_files s) (ks_namespaces s) (ks_proc s) (ks_cpu s) (ks_mmio s).

Definition set_files v s := KState (ks_heap s) (ks_heap_pos s) (ks_out s) (ks_in s) (ks_ramfs s)
  (ks_abyss s) (ks_vfs s) v (ks_namespaces s) (ks_proc s) (ks_cpu s) (ks_mmio s).

Definition set_namespaces v s := KState (ks_heap s) (ks_heap_pos s) (ks_out s) (ks_in s) (ks_ramfs s)
  (ks_abyss s) (ks_vfs s) (ks_files s) v (ks_proc s) (ks_cpu s) (ks_mmio s).

Definition set_proc v s := KState (ks_heap s) (ks_heap_pos s) (ks_out s) (ks_in s) (ks_ramfs s)
  (ks_abyss s) (ks_vfs s) (ks_files s) (ks_namespaces s) v (ks_cpu s) (ks_mmio s).

Definition set_cpu v s := KState (ks_heap s) (ks_heap_pos s) (ks_out s) (ks_in s) (ks_ramfs s)
  (ks_abyss s) (ks_vfs s) (ks_files s) (ks_namespaces s) (ks_proc s) v (ks_mmio s).

Definition set_mmio v s := KState (ks_heap s) (ks_heap_pos s) (ks_out s) (ks_in s) (ks_ramfs s)
  (ks_abyss s) (ks_vfs s) (ks_files s) (ks_namespaces s) (ks_proc s) (ks_cpu s) v.

(** ** The state before [kernel_main]

    Static storage is zero, except for the initialisers the source gives. *)

Definition HEAP_SIZE : Z := 1024 * 1024.

Definition ramfs_file0 : ramfs_file := RamfsFile [] (replicate 4096 0) 0 false.

Definition kstate0 (input : list Z) : kstate :=
  KState (Mem 0 HEAP_SIZE ∅) 0 [] input (replicate 16 ramfs_file0)
    (AbyssState (AbyssSb 0 0 0 0 0 0 0 0) None 0 false)
    (VfsState [] [] (replicate 32 None) 0) ∅ ∅
    (ProcGlobals (list_to_map ((λ i, (PStatic i, process0)) <$> seq 0 4)) 0 None None None 2)
    (Cpu (replicate 12 0) 0 0) [].

(** ** Character arrays and typed objects *)

(** [strcpy] of the text [src] into a [char] array of [cap] bytes. *)
Definition strcpy_to {S} (cap : Z) (src : str) : M S str :=
  if zlen src + 1 <=? cap then mret src else fault.

(** [strcat] of [src] onto the text [dst] of such an array. *)
Definition strcat_to {S} (cap : Z) (dst src : str) : M S str :=
  if zlen dst + zlen src + 1 <=? cap then mret (dst ++ src) else fault.

Definition get_vfile (fp : Z) : K vfs_file :=
  fs ← gets ks_files; unwrap (fs !! fp).

Definition set_vfile (fp : Z) (f : vfs_file) : K unit :=
  modify (λ s, set_files (<[fp := f]> (ks_files s)) s).

(** A process object, and the processes that [current_process] names. *)
Definition get_proc (p : pptr) : K process :=
  g ← gets ks_proc; unwrap (processes g !! p).

Definition put_proc (p : pptr) (pr : process) : K unit :=
  modify (λ s, let g := ks_proc s in
    set_proc (ProcGlobals (<[p := pr]> (processes g)) (process_count g) (ready_queue g)
                (current_process g) (process_list g) (next_pid g)) s).

Definition get_current_process : K (option pptr) :=
  g ← gets ks_proc; mret (current_process g).

(** [current_process->...]: undefined when there is no current process. *)
Definition current : K process :=
  o ← get_current_process; p ← unwrap o; get_proc p.

(** [sizeof] of the structures that [kalloc] is called for. *)
Definition sizeof_vfs_file : Z := 304.

Definition sizeof_vfs_super_block : Z := 32.

Definition sizeof_namespace : Z := 32.

Definition sizeof_process : Z := 3672.
