(* ===== verification/Kmalloc.v ===== *)
(** * Kmalloc: the kernel heap of [src/src/mm/kmalloc.c]

    A bump allocator over [heap]; [kfree] does nothing. *)

From stdpp Require Import base numbers list gmap strings.
From Corelib Require Import ssreflect.
From S2P Require Import Prelude CString State.

Open Scope Z_scope.
Open Scope general_if_scope.

(** ** Operations *)

(** [size_t] arithmetic wraps at 2^64, in the test and in the update. *)
Definition kalloc (size : Z) : K (option Z) :=
  pos ← gets ks_heap_pos;
  if HEAP_SIZE <? u64 (pos + size) then mret None
  else modify (set_heap_pos (u64 (pos + size)));; mret (Some pos).

Definition kfree (ptr : option Z) : K unit := mret tt.

(** A sequence of allocations, as the components issue them. *)
Fixpoint kallocs (sizes : list Z) : K (list (option Z)) :=
  match sizes with
  | [] => mret []
  | n :: sizes => p ← kalloc n; ps ← kallocs sizes; mret (p :: ps)
  end.

(** ** Properties *)

(** The sizes that cannot wrap the test of [kalloc]. *)
Definition size_ok (n : Z) : Prop := 0 ≤ n < 2 ^ 64 - HEAP_SIZE.

#[export] Instance size_ok_dec n : Decision (size_ok n).
Proof. rw /size_ok. apply _. Defined.

Definition heap_ok (s : kstate) : Prop := 0 ≤ ks_heap_pos s ≤ HEAP_SIZE.

(** The behaviour of [kalloc] on the sizes the kernel asks for. *)
Lemma kalloc_spec n s :
  heap_ok s → size_ok n →
  kalloc n s =
    if ks_heap_pos s + n <=? HEAP_SIZE
    then Ok (Some (ks_heap_pos s)) (set_heap_pos (ks_heap_pos s + n) s)
    else Ok None s.
Proof.
  rw /heap_ok /size_ok /HEAP_SIZE => Hs Hn. rw /kalloc /mbind /M_bind /=.
  rw u64_small; [lia|]. rw /HEAP_SIZE Z.leb_antisym. by destruct (_ <? _).
Qed.

Lemma kalloc_heap_ok n s o s' :
  heap_ok s → size_ok n → kalloc n s = Ok o s' → heap_ok s'.
Proof.
  rw /heap_ok. intros Hs Hn. rw kalloc_spec //. rw /size_ok /HEAP_SIZE in Hn. zcase; intros [= <- <-]; simpl; lia.
Qed.

(** Each block of a sequence of allocations lies in the part of [heap] that
    was free, and no two share a byte. *)
Fixpoint blocks_from (pos : Z) (sizes : list Z) (ps : list (option Z)) : Prop :=
  match sizes, ps with
  | [], [] => True
  | n :: sizes, Some p :: ps => pos ≤ p ∧ p + n ≤ HEAP_SIZE ∧ blocks_from (p + n) sizes ps
  | _ :: sizes, None :: ps => blocks_from pos sizes ps
  | _, _ => False
  end.

Lemma blocks_from_bounds pos sizes ps i n p :
  Forall size_ok sizes → blocks_from pos sizes ps →
  sizes !! i = Some n → ps !! i = Some (Some p) → pos ≤ p ∧ p + n ≤ HEAP_SIZE.
Proof.
  revert pos ps i. induction sizes as [|k sizes IH]; intros pos [|[q|] ps] [|i] Hok Hb; simpl in *; try done;
    apply Forall_cons in Hok as [Hk Hok]; rw /size_ok in Hk; intros Hn Hp.
  - simplify_eq. lia.
  - destruct Hb as (? & ? & Hb). apply (IH _ _ _ Hok Hb Hn) in Hp. lia.
  - by apply (IH _ _ _ Hok Hb Hn).
Qed.

(** The reference: each request that fits what is left gets the next bytes. *)
Fixpoint bump (pos : Z) (sizes : list Z) : list (option Z) :=
  match sizes with
  | [] => []
  | n :: sizes => if pos + n <=? HEAP_SIZE then Some pos :: bump (pos + n) sizes else None :: bump pos sizes
  end.

Lemma kallocs_bump sizes s :
  heap_ok s → Forall size_ok sizes → ∃ s', kallocs sizes s = Ok (bump (ks_heap_pos s) sizes) s'.
Proof.
  revert s. induction sizes as [|n sizes IH]; intros s Hs Hok; [by exists s|].
  apply Forall_cons in Hok as [Hn Hok]. simpl.
  pose proof (kalloc_spec n s Hs Hn) as Hk. destruct (_ <=? _) eqn:E;
    pose proof (kalloc_heap_ok _ _ _ _ Hs Hn Hk) as Hs'; destruct (IH _ Hs' Hok) as (s' & Hm);
    exists s'; rw (bind_Ok _ _ _ _ _ Hk); by mstep.
Qed.

Lemma bump_blocks pos sizes : blocks_from pos sizes (bump pos sizes).
Proof.
  revert pos. induction sizes as [|n sizes IH]; intros pos; [done|]. simpl. zcase; [|apply IH].
  split_and!; [lia|lia|apply IH].
Qed.

Lemma blocks_from_disjoint pos sizes ps i j n k p q :
  Forall size_ok sizes → blocks_from pos sizes ps → (i < j)%nat →
  sizes !! i = Some n → ps !! i = Some (Some p) → sizes !! j = Some k → ps !! j = Some (Some q) → p + n ≤ q.
Proof.
  revert pos ps i j. induction sizes as [|a sizes IH]; intros pos [|b ps] [|i] [|j] Hok Hb Hij Hn Hp Hk Hq;
    simpl in *; try done; try lia; apply Forall_cons in Hok as [_ Hok].
  - simplify_eq. destruct Hb as (_ & _ & Hb). by destruct (blocks_from_bounds _ _ _ _ _ _ Hok Hb Hk Hq).
  - destruct b as [b|]; [destruct Hb as (_ & _ & Hb)|]; (apply (IH _ _ i j Hok Hb); [lia|done..]).
Qed.

(** C34: a sequence of allocations, none of 2^64 - 1 MiB bytes or more, is
    answered like the reference [bump]: each request that fits what is left
    gets a block and the others NULL.  Every block lies in the part of [heap]
    that was free, and no two share a byte. *)
Theorem kalloc_disjoint sizes s :
  heap_ok s → Forall size_ok sizes →
  ∃ ps s', kallocs sizes s = Ok ps s' ∧ ps = bump (ks_heap_pos s) sizes ∧
    (∀ i n p, sizes !! i = Some n → ps !! i = Some (Some p) → ks_heap_pos s ≤ p ∧ p + n ≤ HEAP_SIZE) ∧
    ∀ i j n k p q, (i < j)%nat →
      sizes !! i = Some n → ps !! i = Some (Some p) →
      sizes !! j = Some k → ps !! j = Some (Some q) → p + n ≤ q.
Proof.
  intros Hs Hok. destruct (kallocs_bump sizes s Hs Hok) as (s' & Hm). pose proof (bump_blocks (ks_heap_pos s) sizes) as Hb.
  eexists _, s'. split_and!; [exact Hm|done|..].
  - intros i n p. by apply blocks_from_bounds.
  - intros i j n k p q. by apply blocks_from_disjoint with (ks_heap_pos s).
Qed.

(** [kalloc] succeeds exactly when the request fits in what is left of
    the 1 MiB heap, returns the old bump position and advances it by the
    size; otherwise it returns NULL and changes nothing. *)
Theorem kalloc_exact n s :
  heap_ok s → size_ok n →
  (ks_heap_pos s + n ≤ HEAP_SIZE ∧
   kalloc n s = Ok (Some (ks_heap_pos s)) (set_heap_pos (ks_heap_pos s + n) s)) ∨
  (HEAP_SIZE < ks_heap_pos s + n ∧ kalloc n s = Ok None s).
Proof. intros Hs Hn. rw kalloc_spec //. destruct (_ <=? _) eqn:E; zbool; [left|right]; auto. Qed.

(** The bound test is done after the addition has wrapped: a request of
    2^64 - [heap_pos] bytes is granted and rewinds the allocator to the start
    of the heap, over the blocks already handed out. *)
Theorem kalloc_wraps s :
  0 < ks_heap_pos s ≤ HEAP_SIZE →
  kalloc (2 ^ 64 - ks_heap_pos s) s = Ok (Some (ks_heap_pos s)) (set_heap_pos 0 s).
Proof.
  intros Hs. rw /kalloc /mbind /M_bind /=.
  by rw Zplus_minus.
Qed.

(** ** Witnesses *)

Lemma kalloc_disjoint_witness :
  ∃ ps s', kallocs [304; 32; 262144; 1048576; 16] (kstate0 []) = Ok ps s' ∧
           ps = [Some 0; Some 304; Some 336; None; Some 262480].
Proof.
  destruct (kalloc_disjoint [304; 32; 262144; 1048576; 16] (kstate0 [])) as (ps & s' & H & _);
    [done|by repeat constructor|].
  exists ps, s'. split; [apply H|]. apply (f_equal value) in H. vm_compute in H. by injection H as <-.
Defined.

Lemma kalloc_exact_witness : kalloc 304 (kstate0 []) = Ok (Some 0) (set_heap_pos 304 (kstate0 [])).
Proof.
  destruct (kalloc_exact 304 (kstate0 [])) as [[_ H]|[H _]]; [done|done|apply H|].
  vm_compute in H. discriminate H.
Defined.

Lemma kalloc_wraps_witness :
  kalloc (2 ^ 64 - 304) (set_heap_pos 304 (kstate0 []))
  = Ok (Some 304) (set_heap_pos 0 (set_heap_pos 304 (kstate0 []))).
Proof. apply (kalloc_wraps (set_heap_pos 304 (kstate0 []))). done. Defined.
