(* ===== verification/Uart.v ===== *)
(** * Uart: the PL011 driver of [src/src/drivers/uart.c] and the console

    [Module Driver] is the driver over its memory-mapped registers.  The
    device is not code of the repository: what a read of the flag register
    and of the data register returns is a parameter, a function of the number
    of reads done so far.  [uart_putc], [uart_puts], [uart_hex] and
    [uart_getc] below are the console as the rest of the kernel sees it, a
    transcript of the transmitted bytes and a queue of received ones; the
    theorems show that the driver transmits what they append. *)

From stdpp Require Import base numbers list gmap strings.
From Corelib Require Import ssreflect.
From S2P Require Import Prelude CString State.

Open Scope Z_scope.
Open Scope general_if_scope.

Definition UART_BASE : Z := 0x09000000.

Definition UART_DR : Z := UART_BASE + 0x00.

Definition UART_FR : Z := UART_BASE + 0x18.

Definition UART_IBRD : Z := UART_BASE + 0x24.

Definition UART_FBRD : Z := UART_BASE + 0x28.

Definition UART_LCRH : Z := UART_BASE + 0x2C.

Definition UART_CR : Z := UART_BASE + 0x30.

Definition FR_TXFF : Z := Z.shiftl 1 5.

Definition FR_RXFE : Z := Z.shiftl 1 4.

Definition FR_BUSY : Z := Z.shiftl 1 3.

(** The line discipline of [uart_puts]: a carriage return before each
    newline. *)
Fixpoint crlf (s : str) : str :=
  match s with
  | [] => []
  | c :: s => (if c =? 10 then [13] else []) ++ c :: crlf s
  end.

Lemma crlf_app a b : crlf (a ++ b) = crlf a ++ crlf b.
Proof. induction a as [|c a IH]; simpl; [done|]. rw IH. by destruct (c =? 10). Qed.

(** The 16 hexadecimal digits of [uart_hex]. *)
Definition hex_digit (n i : Z) : Z :=
  let digit := Z.land (Z.shiftr n i) 0xF in
  digit + (if digit <? 10 then 48 else 97 - 10).

Definition hex_digits (n : Z) : str :=
  hex_digit n <$> [60; 56; 52; 48; 44; 40; 36; 32; 28; 24; 20; 16; 12; 8; 4; 0].

(** ** The driver *)

Module Driver.

Section Device.

(** What the flag and the data register hold at their n-th read. *)
Variable fr : nat → Z.
Variable dr : nat → Z.

(** The number of reads of each, and the register writes in order. *)
Record pl011 := Pl011 { fr_reads : nat; dr_reads : nat; writes : list (Z * Z) }.

Definition mmio_write (reg val : Z) : M pl011 unit := λ d,
  Ok tt (Pl011 (fr_reads d) (dr_reads d) (writes d ++ [(reg, val)])).

(** Only the flag and the data register are ever read. *)
Definition mmio_read (reg : Z) : M pl011 Z := λ d,
  if reg =? UART_FR then Ok (fr (fr_reads d)) (Pl011 (S (fr_reads d)) (dr_reads d) (writes d))
  else Ok (dr (dr_reads d)) (Pl011 (fr_reads d) (S (dr_reads d)) (writes d)).

(** [while (mmio_read(UART_FR) & mask) { }]. *)
Definition poll (fuel : nat) (mask : Z) : M pl011 unit :=
  while fuel (λ _, v ← mmio_read UART_FR; mret (negb (Z.land v mask =? 0))) mret tt.

Definition uart_init : M pl011 unit :=
  mmio_write UART_CR 0;;
  mmio_write UART_IBRD 26;;
  mmio_write UART_FBRD 3;;
  mmio_write UART_LCRH (Z.lor (Z.lor (Z.shiftl 1 4) (Z.shiftl 1 5)) (Z.shiftl 1 6));;
  mmio_write UART_CR (Z.lor (Z.lor (Z.shiftl 1 0) (Z.shiftl 1 8)) (Z.shiftl 1 9)).

Definition uart_putc (fuel : nat) (c : Z) : M pl011 unit :=
  poll fuel FR_TXFF;; mmio_write UART_DR c.

(** [p] is the address of the text [s]: after a byte at an address that is 7
    modulo 8 the driver waits for the transmitter to go idle. *)
Fixpoint uart_puts_loop (fuel : nat) (p : Z) (s : str) : M pl011 unit :=
  match s with
  | [] => mret tt
  | c :: s =>
      (if c =? 10 then uart_putc fuel 13 else mret tt);;
      uart_putc fuel c;;
      (if (p + 1) mod 8 =? 0 then poll fuel FR_BUSY else mret tt);;
      uart_puts_loop fuel (p + 1) s
  end.

Definition uart_puts (fuel : nat) (p : Z) (s : str) : M pl011 unit :=
  uart_puts_loop fuel p s;; poll fuel FR_BUSY.

Fixpoint hex_loop (fuel : nat) (n : Z) (js : list Z) : M pl011 unit :=
  match js with
  | [] => mret tt
  | i :: js => uart_putc fuel (hex_digit n i);; hex_loop fuel n js
  end.

(** [p] is the address of the literal "0x". *)
Definition uart_hex (fuel : nat) (p n : Z) : M pl011 unit :=
  uart_puts fuel p (bs "0x");;
  hex_loop fuel n [60; 56; 52; 48; 44; 40; 36; 32; 28; 24; 20; 16; 12; 8; 4; 0].

Definition uart_getc (fuel : nat) : M pl011 Z :=
  poll fuel FR_RXFE;; v ← mmio_read UART_DR; mret (Z.land v 0xFF).

(** The bytes given to the transmitter, in order. *)
Definition sent (d : pl011) : str :=
  snd <$> filter (λ w, fst w = UART_DR) (writes d).

(** Documented behaviour of the device: the transmitter drains, so within
    [B] reads of the flag register "FIFO full" and "busy" are seen clear. *)
Variable B : nat.

Definition drains (mask : Z) : Prop :=
  ∀ n, ∃ k, (k ≤ B)%nat ∧ Z.land (fr (n + k)) mask = 0.

Lemma poll_spec fuel mask d :
  drains mask → (B < fuel)%nat →
  ∃ n, poll fuel mask d = Ok tt (Pl011 n (dr_reads d) (writes d)).
Proof.
  intros Hd Hf. destruct (Hd (fr_reads d)) as (k & Hk & Hz). rw /poll.
  assert (Hlt : (k < fuel)%nat) by lia. clear Hf Hk. revert fuel d Hz Hlt.
  induction k as [|k IH]; intros [|fuel] d Hz Hlt; try lia.
  - rw Nat.add_0_r in Hz. eexists. eapply while_false. rw /mbind /M_bind /= Hz. done.
  - destruct (decide (Z.land (fr (fr_reads d)) mask = 0)) as [E|E].
    + eexists. eapply while_false. rw /mbind /M_bind /= E. done.
    + destruct (IH fuel (Pl011 (S (fr_reads d)) (dr_reads d) (writes d))) as (n & Hn);
        [rw /= -Hz; do 2 f_equal; lia|lia|].
      exists n. erewrite while_true; [apply Hn| |done].
      rw /mbind /M_bind /=. by apply Z.eqb_neq in E as ->.
Qed.

(** [m] returns and transmits exactly [l]. *)
Definition transmits (l : str) (m : M pl011 unit) : Prop :=
  ∀ d, ∃ d', m d = Ok tt d' ∧ sent d' = sent d ++ l ∧ dr_reads d' = dr_reads d.

Lemma transmits_bind l1 l2 m1 m2 :
  transmits l1 m1 → transmits l2 m2 → transmits (l1 ++ l2) (m1;; m2).
Proof.
  intros H1 H2 d. destruct (H1 d) as (d1 & E1 & S1 & R1). destruct (H2 d1) as (d2 & E2 & S2 & R2).
  exists d2. rw (bind_Ok _ _ _ _ _ E1) S2 S1 R2 R1 -app_assoc. done.
Qed.

Lemma transmits_ret : transmits [] (mret tt).
Proof. intros d. exists d. by rw app_nil_r. Qed.

Hypothesis tx_ready : drains FR_TXFF.
Hypothesis tx_idle : drains FR_BUSY.
Variable fuel : nat.
Hypothesis enough : (B < fuel)%nat.

Lemma transmits_busy : transmits [] (poll fuel FR_BUSY).
Proof.
  intros d. destruct (poll_spec fuel FR_BUSY d tx_idle enough) as (n & Hn).
  eexists. rw Hn. split_and!; [done|by rw app_nil_r|done].
Qed.

Lemma transmits_putc c : transmits [c] (uart_putc fuel c).
Proof.
  intros d. destruct (poll_spec fuel FR_TXFF d tx_ready enough) as (n & Hn).
  rw /uart_putc. eexists. rw (bind_Ok _ _ _ _ _ Hn). split_and!; [done| |done].
  by rw /sent /= filter_app fmap_app.
Qed.

Lemma transmits_puts_loop p s : transmits (crlf s) (uart_puts_loop fuel p s).
Proof.
  revert p. induction s as [|c s IH]; intros p; simpl; [apply transmits_ret|].
  apply transmits_bind; [destruct (c =? 10); [apply transmits_putc|apply transmits_ret]|].
  apply (transmits_bind [c]); [apply transmits_putc|]. apply (transmits_bind []); [|done].
  destruct (_ =? 0); [apply transmits_busy|apply transmits_ret].
Qed.

Lemma transmits_puts p s : transmits (crlf s) (uart_puts fuel p s).
Proof.
  rw -[crlf s]app_nil_r. apply transmits_bind; [apply transmits_puts_loop|apply transmits_busy].
Qed.

Lemma transmits_hex_loop n js : transmits (hex_digit n <$> js) (hex_loop fuel n js).
Proof.
  induction js as [|i js IH]; simpl; [apply transmits_ret|].
  apply (transmits_bind [_]); [apply transmits_putc|done].
Qed.

End Device.
End Driver.

(** ** The console of the kernel *)

Definition uart_putc (c : Z) : K unit :=
  modify (λ s, set_out (ks_out s ++ [c]) s).

Definition uart_puts (t : str) : K unit :=
  modify (λ s, set_out (ks_out s ++ crlf t) s).

Definition uart_hex (n : Z) : K unit :=
  uart_puts (bs "0x");; modify (λ s, set_out (ks_out s ++ hex_digits (u64 n)) s).

(** Without input the driver polls for ever. *)
Definition uart_getc : K Z := λ s,
  match ks_in s with
  | [] => Spin
  | c :: r => Ok (Z.land c 0xFF) (set_in r s)
  end.

(** The registers that [uart_init] sets, in order; the console keeps them in
    the log of register writes. *)
Definition uart_setup : list (Z * Z) :=
  [(UART_CR, 0); (UART_IBRD, 26); (UART_FBRD, 3); (UART_LCRH, 0x70); (UART_CR, 0x301)].

Definition uart_init : K unit := modify (λ s, set_mmio (ks_mmio s ++ uart_setup) s).

(** [src/src/drivers/uart_debug.c]. *)
Definition uart_dump_regs (spsr elr sp : Z) : K unit :=
  uart_puts (bs "SPSR_EL1=");; uart_hex spsr;; uart_puts (bs "  ");;
  uart_puts (bs "ELR_EL1=");; uart_hex elr;; uart_puts (bs "  ");;
  uart_puts (bs "SP_EL0=");; uart_hex sp;; uart_puts (ln "").

(** The driver makes exactly these register writes. *)
Lemma uart_init_refines d :
  Driver.uart_init d =
  Ok tt (Driver.Pl011 (Driver.fr_reads d) (Driver.dr_reads d) (Driver.writes d ++ uart_setup)).
Proof. by rw /Driver.uart_init /mbind /M_bind /Driver.mmio_write /= -!app_assoc. Qed.

(** [m] prints [t] and does nothing else. *)
Definition prints (t : str) (m : K unit) : Prop := ∀ s, m s = Ok tt (set_out (ks_out s ++ t) s).

Lemma prints_bind t1 t2 m1 m2 : prints t1 m1 → prints t2 m2 → prints (t1 ++ t2) (m1;; m2).
Proof. intros H1 H2 s. by rw (bind_Ok _ _ _ _ _ (H1 s)) H2 /set_out /= -app_assoc. Qed.

Lemma prints_ret : prints [] (mret tt).
Proof. intros s. rw app_nil_r. by destruct s. Qed.

Lemma prints_putc c : prints [c] (uart_putc c).
Proof. done. Qed.

Lemma prints_puts t : prints (crlf t) (uart_puts t).
Proof. done. Qed.

Lemma prints_hex n : prints (bs "0x" ++ hex_digits (u64 n)) (uart_hex n).
Proof. intros s. by rw /uart_hex /mbind /M_bind /uart_puts /modify /set_out /= -app_assoc. Qed.

(** ** Properties *)

(** C35: on a device whose transmitter drains, the driver's [uart_puts]
    returns after finitely many polls and hands the transmitter exactly the
    bytes of the text with a carriage return before each newline, wherever
    the text is stored; this is what the console [uart_puts] appends. *)
Theorem uart_puts_refines fr dr B fuel p t d st :
  Driver.drains fr B FR_TXFF → Driver.drains fr B FR_BUSY → (B < fuel)%nat →
  ∃ d', Driver.uart_puts fr dr fuel p t d = Ok tt d' ∧
        Driver.sent d' = Driver.sent d ++ crlf t ∧
        uart_puts t st = Ok tt (set_out (ks_out st ++ crlf t) st).
Proof.
  intros H1 H2 H3.
  destruct (Driver.transmits_puts fr dr B H1 H2 fuel H3 p t d) as (d' & E & S & _).
  by exists d'.
Qed.

(** The value of a hexadecimal digit and of a sequence of them. *)
Definition digit_value (c : Z) : Z := if c <? 58 then c - 48 else c - 87.

Definition hex_value (ds : str) : Z := foldl (λ a c, a * 16 + digit_value c) 0 ds.

Lemma digit_value_hex n i : digit_value (hex_digit n i) = Z.land (Z.shiftr n i) 15.
Proof.
  rw /digit_value /hex_digit. change 15 with (Z.ones 4). rw Z.land_ones; [done|].
  pose proof (Z.mod_pos_bound (Z.shiftr n i) (2 ^ 4) ltac:(lia)). repeat zcase; lia.
Qed.

Lemma nibble_step n i : 0 ≤ i → Z.shiftr n (i + 4) * 16 + Z.land (Z.shiftr n i) 15 = Z.shiftr n i.
Proof.
  intros Hi. change 15 with (Z.ones 4). rw Z.land_ones // -Z.shiftr_shiftr //.
  rw (Z.shiftr_div_pow2 _ 4) //. pose proof (Z.div_mod (Z.shiftr n i) (2 ^ 4)). lia.
Qed.

(** The digits that [uart_hex] prints denote the 64-bit value printed:
    reading them back as a hexadecimal number is the identity. *)
Theorem uart_hex_roundtrip n :
  0 ≤ n < 2 ^ 64 → length (hex_digits n) = 16%nat ∧ hex_value (hex_digits n) = n.
Proof.
  intros Hn. split; [done|]. rw /hex_value /hex_digits /= !digit_value_hex.
  assert (H60 : 0 * 16 + Z.land (Z.shiftr n 60) 15 = Z.shiftr n 60).
  { rw -{2}(nibble_step n 60) // (Z.shiftr_div_pow2 n (60 + 4)) // Z.div_small //. }
  rw H60. clear H60.
  do 15 match goal with
  | |- context [Z.shiftr n ?i * 16 + Z.land (Z.shiftr n ?j) 15] =>
      rw (nibble_step n j ltac:(done) : Z.shiftr n i * 16 + Z.land (Z.shiftr n j) 15 = _)
  end.
  apply Z.shiftr_0_r.
Qed.

(** On a device whose transmitter drains, the driver's [uart_hex] hands
    the transmitter "0x" and the 16 digits that the console appends. *)
Theorem uart_hex_refines fr dr B fuel p n d st :
  Driver.drains fr B FR_TXFF → Driver.drains fr B FR_BUSY → (B < fuel)%nat → 0 ≤ n < 2 ^ 64 →
  ∃ d', Driver.uart_hex fr dr fuel p n d = Ok tt d' ∧
        Driver.sent d' = Driver.sent d ++ bs "0x" ++ hex_digits n ∧
        uart_hex n st = Ok tt (set_out (ks_out st ++ bs "0x" ++ hex_digits n) st).
Proof.
  intros H1 H2 H3 Hn.
  destruct (Driver.transmits_bind _ _ _ _ (Driver.transmits_puts fr dr B H1 H2 fuel H3 p (bs "0x"))
    (Driver.transmits_hex_loop fr dr B H1 fuel H3 n
       [60; 56; 52; 48; 44; 40; 36; 32; 28; 24; 20; 16; 12; 8; 4; 0]) d) as (d' & E & S & _).
  exists d'. split_and!; [apply E|apply S|].
  rw /uart_hex u64_small // /mbind /M_bind /= /modify /set_out /= -app_assoc //.
Qed.

(** ** Witnesses *)

(** A device that is full at every even read of the flag register. *)
Definition demo_fr (n : nat) : Z := if Nat.even n then Z.lor FR_TXFF FR_BUSY else 0.

Lemma demo_fr_drains mask : Driver.drains demo_fr 1 mask.
Proof.
  intros n. destruct (Nat.even n) eqn:E; [exists 1%nat|exists 0%nat]; (split; [lia|]); rw /demo_fr.
  - by rw Nat.add_1_r Nat.even_succ -Nat.negb_even E.
  - by rw Nat.add_0_r E.
Qed.

Lemma uart_puts_refines_witness :
  ∃ d', Driver.uart_puts demo_fr (λ _, 0) 2 5 (ln "hi") (Driver.Pl011 0 0 []) = Ok tt d' ∧
        Driver.sent d' = [104; 105; 13; 10].
Proof.
  destruct (uart_puts_refines demo_fr (λ _, 0) 1 2 5 (ln "hi") (Driver.Pl011 0 0 []) (kstate0 []))
    as (d' & E & S & _); [apply demo_fr_drains..|lia|].
  exists d'. split; [apply E|apply S].
Defined.

Lemma uart_hex_refines_witness :
  ∃ d', Driver.uart_hex demo_fr (λ _, 0) 2 8 255 (Driver.Pl011 0 0 []) = Ok tt d' ∧
        Driver.sent d' = bs "0x00000000000000ff".
Proof.
  destruct (uart_hex_refines demo_fr (λ _, 0) 1 2 8 255 (Driver.Pl011 0 0 []) (kstate0 []))
    as (d' & E & S & _); [apply demo_fr_drains..|lia|done|].
  exists d'. split; [apply E|]. rw S. reflexivity.
Defined.

Lemma uart_hex_roundtrip_witness :
  length (hex_digits 0xdeadbeef) = 16%nat ∧ hex_value (hex_digits 0xdeadbeef) = 0xdeadbeef.
Proof. apply (uart_hex_roundtrip 0xdeadbeef). done. Defined.

Arguments crlf : simpl never.
Arguments hex_digits : simpl never.
