(* ===== verification/Paths.v ===== *)
(** * Paths: path normalisation, [vfs_normalize_path] of [src/src/fs/vfs.c]

    The routine rewrites a path in place through a 256-byte buffer.  It is
    modelled on the text of the path, where the buffer is the list of the bytes
    written so far, the last one first, and ([Module InPlace]) over the buffer
    itself with its pointers; the two agree.  The reference is the usual
    component-wise reading of a path. *)

From stdpp Require Import base numbers list gmap strings.
From Corelib Require Import ssreflect.
From S2P Require Import Prelude CString State.

Open Scope Z_scope.
Open Scope general_if_scope.

#[local] Arguments mem_str : simpl never.

Abbreviation SLASH := 47 (only parsing).
Abbreviation DOT := 46 (only parsing).

(** ** The routine *)

(** [*dst++ = c] into [temp[256]]. *)
Definition push (acc : str) (c : Z) : option str :=
  if zlen acc <? 256 then Some (c :: acc) else None.

(** [while (dst > temp && dst[-1] != '/') dst--]. *)
Fixpoint unwind (acc : str) : str :=
  match acc with
  | [] => []
  | c :: acc' => if c =? SLASH then acc else unwind acc'
  end.

(** [*src == '/' || *src == 0]. *)
Definition at_end (src : str) : bool :=
  match src with [] => true | c :: _ => c =? SLASH end.

Fixpoint normalize_loop (src acc : str) : option str :=
  match src with
  | [] => Some acc
  | c :: src1 =>
      if (c =? SLASH) && (match acc with [] => true | d :: _ => d =? SLASH end)
      then normalize_loop src1 acc
      else if c =? SLASH then acc' ← push acc c; normalize_loop src1 acc'
      else if (c =? DOT) && at_end src1 then normalize_loop src1 acc
      else match src1 with
           | d :: src2 =>
               if (c =? DOT) && (d =? DOT) && at_end src2
               then normalize_loop src2 (if 1 <? zlen acc then unwind (tail acc) else acc)
               else acc' ← push acc c; normalize_loop src1 acc'
           | [] => acc' ← push acc c; normalize_loop src1 acc'
           end
  end.

(** The bytes after the loop: "/" for an empty result, no trailing slash. *)
Definition normalize_end (acc : str) : option str :=
  match acc with
  | [] => push acc SLASH
  | d :: acc' => if (1 <? zlen acc) && (d =? SLASH) then Some acc' else Some acc
  end.

(** The path afterwards; [None] when the routine writes past [temp]. *)
Definition vfs_normalize_path (path : str) : option str :=
  acc ← match path with
        | c :: src => if c =? SLASH then acc ← push [] c; normalize_loop src acc
                      else normalize_loop path []
        | [] => normalize_loop path []
        end;
  acc ← normalize_end acc;
  if zlen acc <? 256 then Some (rev acc) else None.

(** ** The routine over its buffer

    The same routine with [temp] as an array of bytes and [dst] as an index
    into it.  A read or write outside of [temp], a read beyond the terminator
    of the path and a pointer below [temp] are undefined: [None]. *)
Module InPlace.

(** [*(src + i)]; the text of [src] is followed by its terminator. *)
Definition src_at (src : str) (i : nat) : option Z :=
  if Nat.eqb i (length src) then Some 0 else src !! i.

Definition get (temp : list Z) (i : Z) : option Z :=
  if 0 <=? i then temp !! Z.to_nat i else None.

(** [*dst++ = c]. *)
Definition put (temp : list Z) (dst c : Z) : option (list Z * Z) :=
  if (0 <=? dst) && (dst <? zlen temp) then Some (<[Z.to_nat dst := c]> temp, dst + 1) else None.

(** [dst--]. *)
Definition back (dst : Z) : option Z := if 0 <? dst then Some (dst - 1) else None.

(** [while (dst > temp && *(dst-1) != '/') dst--]. *)
Fixpoint to_slash (temp : list Z) (n : nat) : option nat :=
  match n with
  | O => Some O
  | S n' => c ← temp !! n'; if c =? SLASH then Some n else to_slash temp n'
  end.

(** The test [*(src+i) == '/' || *(src+i) == 0]. *)
Definition ends (src : str) (i : nat) : option bool :=
  c ← src_at src i; Some ((c =? SLASH) || (c =? 0)).

Definition up_one (temp : list Z) (dst : Z) : option Z :=
  if 1 <? dst then dst ← back dst; n ← to_slash temp (Z.to_nat dst); Some (Z.of_nat n) else Some dst.

(** One turn of the loop per unit of [n]. *)
Fixpoint loop (n : nat) (src : str) (temp : list Z) (dst : Z) : option (list Z * Z) :=
  match n with
  | O => None
  | S n =>
      let copy c := '(temp, dst) ← put temp dst c; loop n (tail src) temp dst in
      c ← src_at src 0;
      if c =? 0 then Some (temp, dst)
      else if c =? SLASH then
        skip ← (if dst =? 0 then Some true else d ← get temp (dst - 1); Some (d =? SLASH));
        if (skip : bool) then loop n (tail src) temp dst else copy c
      else if c =? DOT then
        e ← ends src 1;
        if (e : bool) then loop n (tail src) temp dst
        else
          d ← src_at src 1;
          dots ← (if d =? DOT then ends src 2 else Some false);
          if (dots : bool) then dst ← up_one temp dst; loop n (drop 2 src) temp dst else copy c
      else copy c
  end.

(** The text of [temp]. *)
Fixpoint text (temp : list Z) : option str :=
  match temp with
  | [] => None
  | c :: temp => if c =? 0 then Some [] else cons c <$> text temp
  end.

(** [strcpy(path, temp)] into a buffer of [cap] bytes. *)
Definition copy_back (cap : Z) (temp : list Z) : option str :=
  t ← text temp; if zlen t <? cap then Some t else None.

Definition normalize (cap : Z) (temp : list Z) (path : str) : option str :=
  '(temp, _) ← put temp 0 0;
  c ← src_at path 0;
  '(src, temp, dst) ← (if c =? SLASH then '(temp, dst) ← put temp 0 c; Some (tail path, temp, dst)
                       else Some (path, temp, 0));
  '(temp, dst) ← loop (S (length src)) src temp dst;
  '(temp, dst) ←
    (if dst =? 0 then put temp dst SLASH
     else if 1 <? dst then
       d ← get temp (dst - 1); if d =? SLASH then dst ← back dst; Some (temp, dst) else Some (temp, dst)
     else Some (temp, dst));
  '(temp, _) ← put temp dst 0;
  copy_back cap temp.
End InPlace.

(** ** The reference *)

(** One component of the path applied to the directories above it. *)
Definition step_dir (dirs : list str) (c : str) : list str :=
  if decide (c = [DOT]) then dirs
  else if decide (c = [DOT; DOT]) then removelast dirs
  else dirs ++ [c].

Definition resolve_components (cs : list str) : list str := foldl step_dir [] cs.

Fixpoint join_path (dirs : list str) : str :=
  match dirs with
  | [] => []
  | c :: dirs => SLASH :: c ++ join_path dirs
  end.

Definition show_path (dirs : list str) : str :=
  match dirs with [] => [SLASH] | _ => join_path dirs end.

Definition normalize_ref (path : str) : str :=
  show_path (resolve_components (s_split [SLASH] path)).

(** The components that the routine reads correctly: "." and ".." aside, a
    name must not end in a dot. *)
Definition good_name (c : str) : Prop :=
  c = [DOT] ∨ c = [DOT; DOT] ∨ last c ≠ Some DOT.

#[export] Instance good_name_dec c : Decision (good_name c).
Proof. rw /good_name. apply _. Defined.

(** ** Safety on every input *)

Lemma unwind_length acc : (length (unwind acc) ≤ length acc)%nat.
Proof. induction acc as [|c acc IH]; simpl; [lia|]. destruct (c =? SLASH); simpl; lia. Qed.

Lemma push_Some acc c : (length acc < 256)%nat → push acc c = Some (c :: acc).
Proof. intros H. rw /push. by replace (zlen acc <? 256) with true by lia. Qed.

Lemma normalize_loop_safe src acc :
  (length acc + length src ≤ 256)%nat →
  ∃ acc', normalize_loop src acc = Some acc' ∧ (length acc' ≤ length acc + length src)%nat.
Proof.
  remember (length src) as n eqn:En. revert src acc En.
  induction n as [n IH] using lt_wf_ind; intros [|c src1] acc -> Hl; simpl in *; [exists acc; split; [done|lia]|].
  assert (Hpush : ∃ acc', (acc' ← push acc c; normalize_loop src1 acc') = Some acc' ∧
    (length acc' ≤ length acc + S (length src1))%nat).
  { rw push_Some; [lia|]. simpl. destruct (IH (length src1) ltac:(lia) src1 (c :: acc) eq_refl) as (a & -> & ?);
      simpl in *; [lia|]. exists a. split; [done|lia]. }
  assert (Hskip : ∃ acc', normalize_loop src1 acc = Some acc' ∧ (length acc' ≤ length acc + S (length src1))%nat).
  { destruct (IH (length src1) ltac:(lia) src1 acc eq_refl) as (a & -> & ?); [lia|]. exists a. split; [done|lia]. }
  destruct (_ && _); [done|]. destruct (c =? SLASH); [done|]. destruct (_ && _); [done|].
  destruct src1 as [|d src2]; [done|]. destruct (_ && _); [|done]. clear Hpush Hskip.
  set acc1 := if 1 <? zlen acc then unwind (tail acc) else acc.
  assert (length acc1 ≤ length acc)%nat.
  { rw /acc1. destruct (1 <? zlen acc); [|lia]. pose proof (unwind_length (tail acc)).
    destruct acc; simpl in *; lia. }
  simpl in *. destruct (IH (length src2) ltac:(lia) src2 acc1 eq_refl) as (a & -> & ?); [lia|].
  exists a. split; [done|lia].
Qed.

Lemma normalize_path_safe path :
  (length path ≤ 255)%nat →
  ∃ r, vfs_normalize_path path = Some r ∧ (length r ≤ Nat.max 1 (length path))%nat.
Proof.
  intros Hl. rw /vfs_normalize_path.
  assert (∃ acc, match path with
    | c :: src => if c =? SLASH then acc ← push [] c; normalize_loop src acc else normalize_loop path []
    | [] => normalize_loop path [] end = Some acc ∧ (length acc ≤ length path)%nat) as (acc & -> & Ha).
  { destruct path as [|c src]; [by exists []|]. destruct (c =? SLASH).
    - destruct (normalize_loop_safe src [c]) as (a & ? & ?); simpl in *; [lia|]. by exists a.
    - destruct (normalize_loop_safe (c :: src) []) as (a & ? & ?); simpl in *; [lia|]. by exists a. }
  simpl. rw /normalize_end. destruct acc as [|d acc].
  - exists [SLASH]. split; [done|simpl; lia].
  - destruct (_ && _); simpl in *; eexists; (split; [rw (_ : (_ <? 256) = true); [simpl; lia|done]|]);
      rw ?length_app length_rev; simpl; lia.
Qed.

(** The buffer holds the bytes written so far, up to [dst]. *)
Definition buf_at (temp : list Z) (dst : Z) (acc : str) : Prop :=
  dst = zlen acc ∧ length temp = 256%nat ∧ take (length acc) temp = rev acc ∧ Forall (λ c, c ≠ 0) acc.

Lemma buf_at_length temp dst acc : buf_at temp dst acc → (length acc ≤ 256)%nat.
Proof. intros (_ & Hl & Ht & _). apply (f_equal length) in Ht. rw length_take length_rev in Ht. lia. Qed.

Lemma buf_put temp dst acc c :
  buf_at temp dst acc → c ≠ 0 → (length acc < 256)%nat →
  ∃ temp', InPlace.put temp dst c = Some (temp', dst + 1) ∧ buf_at temp' (dst + 1) (c :: acc).
Proof.
  intros (-> & Hl & Ht & Hz) Hc Hlen. rw /InPlace.put. replace (_ && _) with true by lia. rw Nat2Z.id.
  eexists. split; [done|]. split_and!; [simpl; lia|by rw length_insert| |by constructor].
  cbn [length rev]. rw (take_S_r _ _ c); [by apply list_lookup_insert_eq; lia|]. by rw take_insert_ge // Ht.
Qed.

Lemma buf_last temp dst d acc :
  buf_at temp dst (d :: acc) → temp !! length acc = Some d ∧ buf_at temp (dst - 1) acc.
Proof.
  intros (-> & Hl & Ht & Hz). apply Forall_cons in Hz as [Hd Hz]. cbn [length rev] in Ht. split.
  - rw -(lookup_take_lt _ (S (length acc))); [lia|]. rw Ht. by apply list_lookup_middle; rw length_rev.
  - split_and!; [simpl; lia|done| |done]. apply (f_equal (take (length acc))) in Ht.
    rw take_take Nat.min_l in Ht; [lia|]. rw Ht take_app_length'; [by rw length_rev|done].
Qed.

Lemma buf_get temp dst d acc : buf_at temp dst (d :: acc) → InPlace.get temp (dst - 1) = Some d.
Proof.
  intros Hb. pose proof Hb as (-> & _). destruct (buf_last _ _ _ _ Hb) as [Hd _]. rw /InPlace.get.
  replace (0 <=? _) with true by (simpl; lia). by replace (Z.to_nat _) with (length acc) by (simpl; lia).
Qed.

Lemma buf_unwind temp dst acc :
  buf_at temp dst acc → ∃ n, InPlace.to_slash temp (length acc) = Some n ∧ buf_at temp (Z.of_nat n) (unwind acc).
Proof.
  revert dst. induction acc as [|d acc IH]; intros dst Hb; [exists O; split; [done|]; by destruct Hb as (-> & ?)|].
  destruct (buf_last _ _ _ _ Hb) as [Hd Hb']. simpl. rw Hd /=. destruct (d =? SLASH); [|by apply (IH (dst - 1))].
  eexists. split; [done|]. by destruct Hb as (-> & ?).
Qed.

Lemma buf_up temp dst acc :
  buf_at temp dst acc →
  ∃ dst', InPlace.up_one temp dst = Some dst' ∧ buf_at temp dst' (if 1 <? zlen acc then unwind (tail acc) else acc).
Proof.
  intros Hb. pose proof Hb as (E & _). rw /InPlace.up_one {1}E. destruct (1 <? zlen acc) eqn:H1; zbool; [|by eexists].
  destruct acc as [|d acc]; [simpl in H1; lia|]. destruct (buf_last _ _ _ _ Hb) as [_ Hb'].
  rw /InPlace.back. replace (0 <? dst) with true by lia. simpl.
  destruct (buf_unwind _ _ _ Hb') as (n & Hn & Hb2). exists (Z.of_nat n).
  replace (Z.to_nat (dst - 1)) with (length acc) by (rw E; simpl; lia). by rw Hn.
Qed.

Lemma ends_at_end src1 pre : is_str src1 → InPlace.ends (pre ++ src1) (length pre) = Some (at_end src1).
Proof.
  intros Hs. rw /InPlace.ends /InPlace.src_at length_app. destruct src1 as [|d src].
  - by replace (Nat.eqb _ _) with true by (symmetry; apply Nat.eqb_eq; simpl; lia).
  - replace (Nat.eqb _ _) with false by (symmetry; apply Nat.eqb_neq; simpl; lia). rw list_lookup_middle //.
    apply Forall_cons in Hs as [Hd _]. simpl. by replace (d =? 0) with false by lia; rw orb_false_r.
Qed.

(** The loop over the buffer does what [normalize_loop] does on lists. *)
Lemma in_place_loop n : ∀ src temp dst acc acc',
  (length src < n)%nat → is_str src → buf_at temp dst acc → normalize_loop src acc = Some acc' →
  ∃ temp' dst', InPlace.loop n src temp dst = Some (temp', dst') ∧ buf_at temp' dst' acc'.
Proof.
  induction n as [|n IH]; intros src temp dst acc acc' Hn Hs Hb H; [lia|].
  destruct src as [|c src1]; [injection H as <-; by exists temp, dst|]. pose proof Hs as [Hc Hs1]%Forall_cons.
  cbn [InPlace.loop]. simpl in Hn. rw {1}/InPlace.src_at /=. replace (c =? 0) with false by lia.
  assert (Hcopy : (acc1 ← push acc c; normalize_loop src1 acc1) = Some acc' → ∃ temp' dst',
    ('(temp, dst) ← InPlace.put temp dst c; InPlace.loop n src1 temp dst) = Some (temp', dst') ∧ buf_at temp' dst' acc').
  { rw /push. destruct (_ <? _) eqn:Hl; [|done]. simpl. intros Hp.
    destruct (buf_put temp dst acc c Hb) as (t & -> & Hb'); [lia|lia|]. by apply (IH _ _ _ (c :: acc)); [lia|..]. }
  assert (Hskip : normalize_loop src1 acc = Some acc' → ∃ temp' dst',
    InPlace.loop n src1 temp dst = Some (temp', dst') ∧ buf_at temp' dst' acc') by (by apply IH; [lia|..]).
  cbn [normalize_loop] in H. destruct (c =? SLASH).
  - destruct acc as [|d acc]; [destruct Hb as (-> & ?); by apply Hskip|].
    pose proof Hb as (E & _). replace (dst =? 0) with false by (rw E; simpl; lia). rw (buf_get _ _ _ _ Hb) /=.
    simpl in H. destruct (d =? SLASH); [by apply Hskip|by apply Hcopy].
  - cbn [andb] in H. destruct (c =? DOT); [|destruct src1; by apply Hcopy]. cbn [andb] in H.
    rw (ends_at_end src1 [c] Hs1) /=. destruct (at_end src1) eqn:He1; [by apply Hskip|].
    destruct src1 as [|d src2]; [done|]. apply Forall_cons in Hs1 as [Hd Hs2]. rw /InPlace.src_at /=.
    destruct (d =? DOT); cbn [andb] in H; [|by apply Hcopy].
    rw (ends_at_end src2 [c; d] Hs2) /=. destruct (at_end src2); [|by apply Hcopy].
    destruct (buf_up _ _ _ Hb) as (dst' & -> & Hb'). simpl in *. by apply (IH _ _ _ _ _) with (4 := H); [lia|..].
Qed.

(** The end: "/" for an empty result, no trailing slash, the terminator, and
    the copy back. *)
Lemma text_put temp dst acc :
  buf_at temp dst acc → (length acc < 256)%nat →
  ∃ temp', InPlace.put temp dst 0 = Some (temp', dst + 1) ∧ InPlace.text temp' = Some (rev acc).
Proof.
  intros (-> & Hl & Ht & Hz) Hlen. rw /InPlace.put. replace (_ && _) with true by lia. rw Nat2Z.id.
  eexists. split; [done|]. rw insert_take_drop; [lia|]. rw Ht. apply Forall_rev in Hz. clear Ht.
  induction (rev acc) as [|c l IH]; [done|]. apply Forall_cons in Hz as [Hc Hz]. simpl.
  replace (c =? 0) with false by lia. by rw (IH Hz).
Qed.

Lemma in_place_end temp dst acc acc' :
  buf_at temp dst acc → normalize_end acc = Some acc' →
  ∃ temp' dst', (if dst =? 0 then InPlace.put temp dst SLASH
     else if 1 <? dst then
       d ← InPlace.get temp (dst - 1);
       if d =? SLASH then dst ← InPlace.back dst; Some (temp, dst) else Some (temp, dst)
     else Some (temp, dst)) = Some (temp', dst') ∧ buf_at temp' dst' acc'.
Proof.
  intros Hb. pose proof Hb as (E & _). rw /normalize_end. destruct acc as [|d acc].
  - intros [= <-]. rw E. destruct (buf_put _ _ _ SLASH Hb) as (t & Ht & Hb'); [done|simpl; lia|].
    rw E in Ht. rw Ht. rw E in Hb'. eauto.
  - replace (dst =? 0) with false by (rw E; cbn [length]; lia). rw {1}E. intros H.
    destruct (1 <? zlen (d :: acc)); [|injection H as <-; by eauto]. rw (buf_get _ _ _ _ Hb) /=. cbn [andb] in H.
    destruct (d =? SLASH); injection H as <-; [|by eauto].
    rw /InPlace.back. replace (0 <? dst) with true by (rw E; cbn [length]; lia). simpl.
    destruct (buf_last _ _ _ _ Hb) as [_ Hb']. by eauto.
Qed.

(** C38: on every path of at most 255 bytes, whose own buffer has room for it
    and for "/", the routine stays inside its 256-byte buffer (it neither reads
    nor writes outside of it, forms no pointer below it and does not read past
    the end of the path), terminates, and the copy back fits; the result is
    that of the routine on texts, whatever the buffer held, and is not longer
    than the path, or is "/". *)
Theorem vfs_normalize_path_safe cap temp path :
  length temp = 256%nat → is_str path → (length path ≤ 255)%nat → zlen path < cap → 2 ≤ cap →
  ∃ r, InPlace.normalize cap temp path = Some r ∧ vfs_normalize_path path = Some r ∧
       (length r ≤ Nat.max 1 (length path))%nat.
Proof.
  intros Hl Hs Hp Hcap Hcap2. destruct (normalize_path_safe path Hp) as (r & Hr & Hlen). exists r.
  split; [|done]. revert Hr. rw /vfs_normalize_path /InPlace.normalize.
  set temp0 := <[0%nat := 0]> temp.
  assert (InPlace.put temp 0 0 = Some (temp0, 1)) as -> by (by rw /InPlace.put Hl). cbn [mbind option_bind].
  assert (Hb0 : buf_at temp0 0 []) by (by split_and!; rw ?length_insert).
  assert (Hstart : ∃ c src temp1 dst acc,
    InPlace.src_at path 0 = Some c ∧ is_str src ∧
    (if c =? SLASH then '(temp, dst) ← InPlace.put temp0 0 c; Some (tail path, temp, dst) else Some (path, temp0, 0))
      = Some (src, temp1, dst) ∧ buf_at temp1 dst acc ∧
    match path with
    | c :: src => if c =? SLASH then acc ← push [] c; normalize_loop src acc else normalize_loop path []
    | [] => normalize_loop path []
    end = normalize_loop src acc).
  { destruct path as [|c src]; [by exists 0, [], temp0, 0, []|]. pose proof Hs as [Hc Hs']%Forall_cons. exists c.
    destruct (c =? SLASH) eqn:E; [|by exists (c :: src), temp0, 0, []]. zbool.
    destruct (buf_put temp0 0 [] c Hb0) as (t & Ht & Hb1); [lia|simpl; lia|].
    exists src, t, 1, [c]. rw Ht. by split_and!. }
  destruct Hstart as (c & src & temp1 & dst & acc & -> & Hsrc & Hst & Hb1 & ->).
  cbn [mbind option_bind]. rw Hst. cbn [mbind option_bind].
  intros (acc1 & Hloop & (acc2 & Hend & H)%bind_Some)%bind_Some.
  destruct (in_place_loop (S (length src)) src temp1 dst acc acc1) as (temp2 & dst2 & -> & Hb2); [lia|done..|].
  cbn [mbind option_bind]. destruct (in_place_end _ _ _ _ Hb2 Hend) as (temp3 & dst3 & -> & Hb3).
  cbn [mbind option_bind]. destruct (zlen acc2 <? 256) eqn:E2; [|done]. injection H as <-. zbool.
  destruct (text_put _ _ _ Hb3) as (temp4 & -> & Ht); [lia|]. cbn [mbind option_bind].
  rw /InPlace.copy_back Ht. cbn [mbind option_bind]. by replace (_ <? cap) with true by lia.
Qed.

(** ** Agreement with the reference *)

Section Agreement.

(** The buffer when the directories read so far are [dirs] and a slash has
    just been written. *)
Definition buf (dirs : list str) : str := SLASH :: rev (join_path dirs).

#[local] Arguments buf : simpl never.
#[local] Arguments normalize_end : simpl never.

(** A name: not empty, no slash. *)
Definition is_name (c : str) : Prop := c ≠ [] ∧ Forall (λ b, b ≠ SLASH) c.

Lemma join_path_app d1 d2 : join_path (d1 ++ d2) = join_path d1 ++ join_path d2.
Proof. induction d1 as [|c d1 IH]; simpl; [done|]. by rw IH /= -app_assoc. Qed.

Lemma buf_snoc dirs c : buf (dirs ++ [c]) = SLASH :: rev c ++ buf dirs.
Proof.
  by rw /buf join_path_app /= app_nil_r rev_app_distr /= -app_assoc.
Qed.

Lemma unwind_name c acc : Forall (λ b, b ≠ SLASH) c → unwind (c ++ SLASH :: acc) = SLASH :: acc.
Proof.
  induction 1 as [|b c Hb Hc IH]; simpl; [done|]. by apply Z.eqb_neq in Hb as ->.
Qed.

(** ".." drops the last directory, and stays at the root. *)
Lemma unwind_buf dirs :
  Forall is_name dirs →
  (if 1 <? zlen (buf dirs) then unwind (tail (buf dirs)) else buf dirs) = buf (removelast dirs).
Proof.
  destruct dirs as [|c dirs _] using rev_ind; [done|]. intros [Hd [[Hn Hc] _]%Forall_cons]%Forall_app.
  rw removelast_last buf_snoc. replace (1 <? _) with true.
  - simpl. rw {1}/buf unwind_name //. by apply Forall_rev.
  - symmetry. apply Z.ltb_lt. rw /= length_app /buf /=. lia.
Qed.

Lemma norm_slash src acc : normalize_loop (SLASH :: src) (SLASH :: acc) = normalize_loop src (SLASH :: acc).
Proof. done. Qed.

Lemma norm_slash_push src d acc :
  d ≠ SLASH → (length (d :: acc) < 256)%nat →
  normalize_loop (SLASH :: src) (d :: acc) = normalize_loop src (SLASH :: d :: acc).
Proof. intros Hd Hl. rw /= push_Some //. by apply Z.eqb_neq in Hd as ->. Qed.

Lemma norm_dot src acc : at_end src = true → normalize_loop (DOT :: src) acc = normalize_loop src acc.
Proof. intros H. by rw /= H. Qed.

Lemma norm_dotdot src acc :
  at_end src = true →
  normalize_loop (DOT :: DOT :: src) acc =
  normalize_loop src (if 1 <? zlen acc then unwind (tail acc) else acc).
Proof. intros H. by rw /= H. Qed.

(** A name that does not end in a dot is copied. *)
Lemma norm_name c src acc :
  Forall (λ b, b ≠ SLASH) c → last c ≠ Some DOT →
  (length acc + length c ≤ 256)%nat →
  normalize_loop (c ++ src) acc = normalize_loop src (rev c ++ acc).
Proof.
  revert acc. induction c as [|b c IH]; intros acc Hc Hlast Hl; [done|].
  apply Forall_cons in Hc as [Hb%Z.eqb_neq Hc]. simpl in Hl.
  assert (Hgo : normalize_loop (c ++ src) (b :: acc) = normalize_loop src (rev (b :: c) ++ acc)).
  { rw /= -app_assoc. apply IH; try done; simpl; [|lia].
    destruct c; [done|]. by rw last_cons_cons in Hlast. }
  rw -Hgo. cbn [app normalize_loop]. rw Hb /= push_Some; [lia|].
  destruct c as [|d c].
  { assert (b ≠ DOT) as Hd by (intros ->; done). apply Z.eqb_neq in Hd. rw Hd /=. by destruct src. }
  cbn [app at_end]. pose proof Hc as [Hd%Z.eqb_neq _]%Forall_cons. rw Hd andb_false_r.
  replace ((b =? DOT) && (d =? DOT) && at_end (c ++ src)) with false; [done|]. symmetry.
  apply Forall_cons in Hc as [_ Hc]. destruct c as [|e c]; simpl.
  - destruct (d =? DOT) eqn:Ed; zbool; [by subst|by rw andb_false_r].
  - apply Forall_cons in Hc as [He%Z.eqb_neq _]. by rw He andb_false_r.
Qed.

(** What is left in the buffer is read off as a path. *)
Lemma normalize_end_buf dirs :
  normalize_end (buf dirs) = Some (rev (show_path dirs)).
Proof.
  destruct dirs as [|c dirs]; [done|]. rw /normalize_end /buf. replace (1 <? _) with true; [done|].
  symmetry. apply Z.ltb_lt. rw /= length_app /=. lia.
Qed.

Lemma normalize_end_name c dirs :
  is_name c → normalize_end (rev c ++ buf dirs) = Some (rev (show_path (dirs ++ [c]))).
Proof.
  intros [Hn Hc]. assert (show_path (dirs ++ [c]) = join_path dirs ++ SLASH :: c) as ->.
  { rw /show_path join_path_app /= app_nil_r. by destruct dirs. }
  rw rev_app_distr /= -app_assoc. rw /normalize_end.
  destruct c as [|b c _] using rev_ind; [done|]. rw rev_app_distr /=.
  apply Forall_app in Hc as [_ [Hb%Z.eqb_neq _]%Forall_cons]. by rw Hb andb_false_r.
Qed.

Lemma mem_slash c : mem_str [SLASH] c = (c =? SLASH).
Proof. by rw /mem_str /= orb_false_r. Qed.

(** The first component of a path that does not start with a slash. *)
Lemma split_first_aux s acc :
  acc ≠ [] →
  ∃ c rest, s = c ++ rest ∧ Forall (λ b, b ≠ SLASH) c ∧ (rest = [] ∨ ∃ r, rest = SLASH :: r) ∧
            s_split_aux [SLASH] s acc = (rev acc ++ c) :: s_split [SLASH] (tail rest).
Proof.
  revert acc. induction s as [|b s IH]; intros acc Hacc.
  - exists [], []. split_and!; [done|constructor|by left|]. rw app_nil_r. by destruct acc.
  - simpl. rw mem_slash. destruct (b =? SLASH) eqn:E; zbool.
    + subst b. exists [], (SLASH :: s). split_and!; [done|constructor|right; by eexists|].
      rw app_nil_r. by destruct acc.
    + destruct (IH (b :: acc)) as (c & rest & -> & Hc & Hr & ->); [done|].
      exists (b :: c), rest. split_and!; [done|by constructor|done|]. by rw /= -app_assoc.
Qed.

Lemma split_first b s :
  b ≠ SLASH →
  ∃ c rest, b :: s = c ++ rest ∧ is_name c ∧ (rest = [] ∨ ∃ r, rest = SLASH :: r) ∧
            s_split [SLASH] (b :: s) = c :: s_split [SLASH] (tail rest).
Proof.
  intros Hb. destruct (split_first_aux s [b]) as (c & rest & -> & Hc & Hr & Hs); [done|].
  exists (b :: c), rest. split_and!; [done|split; [done|by constructor]|done|].
  rw /s_split /= mem_slash. apply Z.eqb_neq in Hb as ->. done.
Qed.

Lemma removelast_Forall {A} (P : A → Prop) l : Forall P l → Forall P (removelast l).
Proof.
  destruct l as [|a l _] using rev_ind; [done|]. rw removelast_last. by intros [? _]%Forall_app.
Qed.

Lemma step_dir_names dirs c : Forall is_name dirs → is_name c → Forall is_name (step_dir dirs c).
Proof.
  intros Hd Hc. rw /step_dir. repeat case_decide; [done|by apply removelast_Forall|].
  apply Forall_app. split; [done|by apply Forall_singleton].
Qed.

Lemma buf_removelast_length dirs : (length (buf (removelast dirs)) ≤ length (buf dirs))%nat.
Proof.
  destruct dirs as [|c dirs _] using rev_ind; [done|]. rw removelast_last buf_snoc length_cons length_app. lia.
Qed.

(** One component: the loop arrives at the rest of the path with the
    buffer that the reference step describes. *)
Lemma norm_component c rest dirs :
  Forall is_name dirs → is_name c → good_name c → at_end rest = true →
  (length (buf dirs) + length c ≤ 256)%nat →
  ∃ acc, normalize_loop (c ++ rest) (buf dirs) = normalize_loop rest acc ∧
    ((c ≠ [DOT] ∧ c ≠ [DOT; DOT] ∧ acc = rev c ++ buf dirs) ∨
     (acc = buf (step_dir dirs c) ∧ length acc ≤ length (buf dirs))%nat).
Proof.
  intros Hd [Hn Hc] Hg He Hl. rw /step_dir. case_decide as H1; [|case_decide as H2].
  - subst. exists (buf dirs). cbn [app]. rw norm_dot //. by split; [|right].
  - subst. exists (buf (removelast dirs)). cbn [app]. rw norm_dotdot // unwind_buf //.
    split; [done|right]. split; [done|apply buf_removelast_length].
  - exists (rev c ++ buf dirs). rw norm_name //; [by destruct Hg as [?|[?|?]]|]. split; [done|by left].
Qed.

Lemma normalize_loop_ref src dirs :
  Forall is_name dirs → Forall good_name (s_split [SLASH] src) →
  (length (buf dirs) + length src ≤ 256)%nat →
  (acc ← normalize_loop src (buf dirs); normalize_end acc) =
  Some (rev (show_path (foldl step_dir dirs (s_split [SLASH] src)))).
Proof.
  remember (length src) as n eqn:En. revert src dirs En.
  induction n as [n IH] using lt_wf_ind; intros [|b s] dirs -> Hd Hg Hl.
  { by rw /= normalize_end_buf. }
  destruct (decide (b = SLASH)) as [->|Hb].
  { change (s_split [SLASH] (SLASH :: s)) with (s_split [SLASH] s) in Hg |- *.
    rw length_cons in Hl. rw /buf norm_slash -/(buf dirs). apply (IH (length s)); try done. lia. }
  destruct (split_first b s Hb) as (c & rest & Hcr & Hname & Hrest & Hsp).
  rw Hsp in Hg |- *. rw Hcr in Hl IH |- *. apply Forall_cons in Hg as [Hgc Hg]. rw length_app in Hl.
  assert (Hend : at_end rest = true) by (by destruct Hrest as [->|[r ->]]).
  destruct (norm_component c rest dirs) as (acc & -> & Hacc); [done..|lia|].
  pose proof (step_dir_names dirs c Hd Hname) as Hd'. cbn [foldl].
  destruct Hrest as [->|[r ->]].
  - destruct Hacc as [(H1 & H2 & ->)|[-> _]]; simpl; [|by rw normalize_end_buf].
    rw normalize_end_name // /step_dir. by rw !decide_False.
  - destruct Hname as [Hcn Hcs]. rw length_cons in Hl.
    assert (Hgo : normalize_loop (SLASH :: r) acc = normalize_loop r (buf (step_dir dirs c)) ∧
      (length (buf (step_dir dirs c)) ≤ length (buf dirs) + length c + 1)%nat).
    { destruct Hacc as [(H1 & H2 & ->)|[-> Hle]]; [|split; [done|lia]].
      rw /step_dir !decide_False // buf_snoc. split.
      - destruct c as [|d c _] using rev_ind; [done|]. rw rev_app_distr /=.
        apply Forall_app in Hcs as [_ [Hdn _]%Forall_cons]. apply norm_slash_push; [done|].
        rw length_app in Hl. rw length_cons length_app length_rev. simpl in *. lia.
      - rw length_cons length_app length_rev. lia. }
    destruct Hgo as [-> Hlen]. apply (IH (length r)); try done; [|lia].
    rw length_app /=. lia.
Qed.

End Agreement.

Lemma show_path_buf_rev dirs : rev (rev (show_path dirs)) = show_path dirs.
Proof. apply rev_involutive. Qed.

Lemma normalize_path_ref src :
  (length src ≤ 254)%nat → Forall good_name (s_split [SLASH] src) →
  vfs_normalize_path (SLASH :: src) = Some (normalize_ref (SLASH :: src)).
Proof.
  intros Hl Hg. rw /vfs_normalize_path /=.
  pose proof (normalize_loop_ref src []) as H. simpl in H.
  destruct (normalize_loop_safe src [SLASH]) as (acc & Ha & Hal); [simpl; lia|].
  rw /buf /= Ha /= in H. rw Ha /=. rw H; [done|done|lia|]. simpl.
  rw show_path_buf_rev /normalize_ref. replace (_ <? 256) with true; [done|].
  rw /normalize_end in H. symmetry. apply Z.ltb_lt. rw length_rev.
  specialize (H (Forall_nil_2 _) Hg ltac:(lia)). destruct acc as [|d acc].
  - injection H as H. apply (f_equal length) in H. rw length_rev in H. simpl in H. lia.
  - destruct (_ && _); injection H as H; apply (f_equal length) in H; rw length_rev in H; simpl in *; lia.
Qed.

(** ** Normal forms *)

(** A directory list that the reference produces. *)
Definition is_dir_name (c : str) : Prop := is_name c ∧ c ≠ [DOT] ∧ c ≠ [DOT; DOT] ∧ good_name c.

Lemma s_split_name c s :
  is_name c → (s = [] ∨ ∃ r, s = SLASH :: r) →
  s_split [SLASH] (c ++ s) = c :: s_split [SLASH] s.
Proof.
  intros [Hn Hc] Hs. destruct c as [|b c]; [done|]. apply Forall_cons in Hc as [Hb%Z.eqb_neq Hc].
  rw /s_split /= mem_slash Hb. assert (∀ acc, acc ≠ [] → s_split_aux [SLASH] (c ++ s) acc =
    (rev acc ++ c) :: s_split_aux [SLASH] s []) as ->; [|done|done].
  clear Hn Hb b. induction Hc as [|b c Hb%Z.eqb_neq Hc IH]; intros acc Hacc; simpl.
  - rw app_nil_r. destruct Hs as [->|[r ->]]; simpl; by destruct acc.
  - rw mem_slash Hb IH //. by rw /= -app_assoc.
Qed.

Lemma s_split_join dirs : Forall is_name dirs → s_split [SLASH] (join_path dirs) = dirs.
Proof.
  induction 1 as [|c dirs Hc Hd IH]; [done|].
  change (s_split [SLASH] (join_path (c :: dirs))) with (s_split [SLASH] (c ++ join_path dirs)).
  rw s_split_name // ?IH //. destruct dirs; [by left|right; by eexists].
Qed.

Lemma s_split_names s : Forall is_name (s_split [SLASH] s).
Proof.
  remember (length s) as n eqn:En. revert s En. induction n as [n IH] using lt_wf_ind.
  intros [|b s] ->; [constructor|]. destruct (decide (b = SLASH)) as [->|Hb].
  - change (s_split [SLASH] (SLASH :: s)) with (s_split [SLASH] s).
    apply (IH (length s)); [simpl; lia|done].
  - destruct (split_first b s Hb) as (c & rest & Hcr & Hname & Hrest & ->). constructor; [done|].
    apply (IH (length (tail rest))); [|done]. rw Hcr length_app.
    destruct Hname, c; [done|]. destruct rest; simpl; lia.
Qed.

Lemma resolve_names cs dirs :
  Forall is_name cs → Forall good_name cs → Forall is_dir_name dirs →
  Forall is_dir_name (foldl step_dir dirs cs).
Proof.
  intros Hn. revert dirs. induction Hn as [|c cs Hc Hn IH]; intros dirs Hg Hd; [done|].
  apply Forall_cons in Hg as [Hgc Hg]. apply IH; [done|]. rw /step_dir.
  repeat case_decide; [done|by apply removelast_Forall|].
  apply Forall_app. split; [done|]. apply Forall_singleton. rw /is_dir_name. split_and!; done.
Qed.

Lemma resolve_fixed dirs ds :
  Forall is_dir_name dirs → foldl step_dir ds dirs = ds ++ dirs.
Proof.
  intros Hd. revert ds. induction Hd as [|c dirs (_ & H1 & H2 & _) Hd IH]; intros ds; simpl; [by rw app_nil_r|].
  rw IH /step_dir !decide_False // -app_assoc //.
Qed.

Lemma normalize_ref_dirs src :
  Forall good_name (s_split [SLASH] src) →
  ∃ dirs, Forall is_dir_name dirs ∧ normalize_ref (SLASH :: src) = show_path dirs.
Proof.
  intros Hg. exists (resolve_components (s_split [SLASH] src)). split; [|done].
  apply resolve_names; [apply s_split_names|done|constructor].
Qed.

Lemma normalize_ref_show dirs :
  Forall is_dir_name dirs →
  ∃ src, show_path dirs = SLASH :: src ∧ s_split [SLASH] src = dirs ∧ normalize_ref (SLASH :: src) = show_path dirs.
Proof.
  intros Hd. assert (Hn : Forall is_name dirs) by (apply (Forall_impl _ _ _ Hd); by intros ? [? _]).
  destruct dirs as [|c dirs]; [by exists []|].
  exists (c ++ join_path dirs). pose proof (s_split_join _ Hn) as Hs.
  change (s_split [SLASH] (join_path (c :: dirs))) with (s_split [SLASH] (c ++ join_path dirs)) in Hs.
  split_and!; [done..|]. rw /normalize_ref.
  change (s_split [SLASH] (SLASH :: c ++ join_path dirs)) with (s_split [SLASH] (c ++ join_path dirs)).
  by rw Hs /resolve_components resolve_fixed.
Qed.

Lemma normalize_path_length path r : vfs_normalize_path path = Some r → (length r < 256)%nat.
Proof.
  rw /vfs_normalize_path. intros (acc & _ & (acc' & _ & H)%bind_Some)%bind_Some.
  destruct (_ <? 256) eqn:E; [|done]. zbool. injection H as <-. rw length_rev. lia.
Qed.

(** C14: for an absolute path whose names do not end in a dot ("." and ".."
    themselves aside), the in-place rewriting computes the usual
    normalisation (empty and "." components vanish, ".." removes the
    directory before it and stays at the root, no trailing slash), and
    normalising the result again changes nothing. *)
Theorem vfs_normalize_path_correct src :
  (length src ≤ 254)%nat → Forall good_name (s_split [SLASH] src) →
  vfs_normalize_path (SLASH :: src) = Some (normalize_ref (SLASH :: src)) ∧
  vfs_normalize_path (normalize_ref (SLASH :: src)) = Some (normalize_ref (SLASH :: src)).
Proof.
  intros Hl Hg. pose proof (normalize_path_ref src Hl Hg) as H1. split; [done|].
  apply normalize_path_length in H1. destruct (normalize_ref_dirs src Hg) as (dirs & Hd & E).
  destruct (normalize_ref_show dirs Hd) as (r & Er & Hs & Hn). rw E in H1 |- *. rw Er in H1 Hn |- *.
  rw -{2}Hn. apply normalize_path_ref; [simpl in H1; lia|]. rw Hs.
  apply (Forall_impl _ _ _ Hd). by intros ? (_ & _ & _ & ?).
Qed.

(** A name that ends in a dot is not read as one name: the last dot is
    taken for a "." component, so that "/n." names the file "/n". *)
Theorem vfs_normalize_path_trailing_dot c :
  is_name c → last c ≠ Some DOT → (length c ≤ 253)%nat →
  vfs_normalize_path (SLASH :: c ++ [DOT]) = Some (SLASH :: c).
Proof.
  intros [Hn Hc] Hlast Hl. rw /vfs_normalize_path /=.
  rw norm_name //; [simpl; lia|]. rw norm_dot //=.
  pose proof (normalize_end_name c [] (conj Hn Hc)) as He. rw /buf /= app_nil_r in He. rw He /=.
  rw length_app length_rev. replace (_ <? 256) with true by (simpl; lia). by rw rev_app_distr rev_involutive.
Qed.

(** ** Witnesses *)

Lemma vfs_normalize_path_safe_witness :
  ∃ r, InPlace.normalize 256 (replicate 256 7) (bs "/tmp/./a//../../../b") = Some r ∧ r = bs "/b".
Proof.
  destruct (vfs_normalize_path_safe 256 (replicate 256 7) (bs "/tmp/./a//../../../b")) as (r & H1 & H2 & _).
  - reflexivity.
  - by apply is_str_bool; vm_compute.
  - vm_compute. lia.
  - vm_compute. reflexivity.
  - discriminate.
  - exists r. split; [exact H1|]. vm_compute in H2. by injection H2 as <-.
Defined.

Lemma vfs_normalize_path_correct_witness :
  vfs_normalize_path (bs "/usr//./lib/../bin/..") = Some (bs "/usr") ∧
  vfs_normalize_path (bs "/usr") = Some (bs "/usr").
Proof.
  apply (vfs_normalize_path_correct (bs "usr//./lib/../bin/.."));
    [vm_compute; lia|by apply (bool_decide_unpack _); vm_compute].
Defined.

Lemma vfs_normalize_path_trailing_dot_witness :
  vfs_normalize_path (bs "/notes.") = Some (bs "/notes").
Proof.
  apply (vfs_normalize_path_trailing_dot (bs "notes")); [|done|vm_compute; lia].
  split; [done|]. by apply (bool_decide_unpack _); vm_compute.
Defined.
