(* ===== verification/Ramfs.v ===== *)
(** * Ramfs: the RAM file system of [src/src/fs/ramfs.c]

    A table of 16 files with a path of at most 31 bytes and a content buffer
    of 4096; open files are [struct vfs_file] objects with a position. *)

From stdpp Require Import base numbers list gmap strings.
From Corelib Require Import ssreflect.
From S2P Require Import Prelude CString State Kmalloc Uart.

Open Scope Z_scope.
Open Scope general_if_scope.

Definition RAMFS_MAGIC : Z := 0x52414D46.

Definition MAX_FILES : nat := 16.

Definition MAX_PATH : Z := 32.

Definition MAX_CONTENT : Z := 4096.

(** ** The file table *)

Definition get_rf (i : nat) : K ramfs_file :=
  fs ← gets ks_ramfs; unwrap (fs !! i).

Definition set_rf (i : nat) (rf : ramfs_file) : K unit :=
  modify (λ s, set_ramfs (<[i := rf]> (ks_ramfs s)) s).

Definition with_used (b : bool) (rf : ramfs_file) : ramfs_file :=
  RamfsFile (rf_path rf) (rf_content rf) (rf_size rf) b.

Definition with_size (n : Z) (rf : ramfs_file) : ramfs_file :=
  RamfsFile (rf_path rf) (rf_content rf) n (rf_used rf).

Definition with_path (p : str) (rf : ramfs_file) : ramfs_file :=
  RamfsFile p (rf_content rf) (rf_size rf) (rf_used rf).

Definition with_content (c : list Z) (rf : ramfs_file) : ramfs_file :=
  RamfsFile (rf_path rf) c (rf_size rf) (rf_used rf).

(** The first slot in use under this path ([strcmp] = 0), and the first
    slot not in use. *)
Fixpoint find_path (fs : list ramfs_file) (path : str) : option nat :=
  match fs with
  | [] => None
  | f :: fs => if rf_used f && (s_strcmp (rf_path f) path =? 0) then Some O
               else S <$> find_path fs path
  end.

Fixpoint find_free (fs : list ramfs_file) : option nat :=
  match fs with
  | [] => None
  | f :: fs => if rf_used f then S <$> find_free fs else Some O
  end.

(** [private_data] used as a [struct ramfs_file *]. *)
Definition slot_of (f : vfs_file) : K nat :=
  match private_data f with Pram i => mret i | Pino _ => fault end.

Definition with_pos (p : Z) (f : vfs_file) : vfs_file :=
  VfsFile (f_ops f) (f_path f) (private_data f) p.

(** ** Operations *)

(** The return value, and the bytes stored into the caller's buffer. *)
Definition ramfs_read (fp count : Z) : K (Z * list Z) :=
  file ← get_vfile fp; i ← slot_of file; rf ← get_rf i;
  if rf_size rf <=? f_pos file then mret (0, [])
  else
    let count := if rf_size rf <? u64 (f_pos file + count)
                 then u64 (rf_size rf - f_pos file) else count in
    if f_pos file + count <=? MAX_CONTENT then
      set_vfile fp (with_pos (u64 (f_pos file + count)) file);;
      mret (count, take (Z.to_nat count) (drop (Z.to_nat (f_pos file)) (rf_content rf)))
    else fault.

(** [buf] is the content of the caller's buffer. *)
Definition ramfs_write (fp : Z) (buf : list Z) (count : Z) : K Z :=
  file ← get_vfile fp; i ← slot_of file; rf ← get_rf i;
  count ← (if MAX_CONTENT <? u64 (f_pos file + count) then
             uart_puts (bs "RAMFS: Would overflow, limiting to ");;
             uart_hex (u64 (MAX_CONTENT - f_pos file));;
             uart_puts (ln " bytes");;
             mret (u64 (MAX_CONTENT - f_pos file))
           else mret count);
  if 0 <? count then
    if (f_pos file + count <=? MAX_CONTENT) && (count <=? zlen buf) then
      let rf := with_content (splice (rf_content rf) (Z.to_nat (f_pos file))
                                (take (Z.to_nat count) buf)) rf in
      set_rf i rf;;
      let pos := u64 (f_pos file + count) in
      set_vfile fp (with_pos pos file);;
      (if rf_size rf <? pos then
         uart_puts (bs "RAMFS: Updating size from ");;
         uart_hex (rf_size rf);;
         uart_puts (bs " to ");;
         uart_hex pos;;
         uart_puts (ln "");;
         set_rf i (with_size pos rf)
       else mret tt);;
      mret count
    else fault
  else mret count.

Definition ramfs_open (path : str) : K (option Z) :=
  fs ← gets ks_ramfs;
  match find_path fs path with
  | None => mret None
  | Some i =>
      o ← kalloc sizeof_vfs_file;
      match o with
      | None => mret None
      | Some fp =>
          set_vfile fp (VfsFile (Some RAMFS) (take (Z.to_nat (VFS_MAX_PATH - 1)) path) (Pram i) 0);;
          mret (Some fp)
      end
  end.

Definition ramfs_init : K unit :=
  uart_puts (ln "FORCE DEBUG - Initializing RAMFS");;
  modify (set_ramfs (replicate MAX_FILES ramfs_file0));;
  uart_puts (ln "FORCE DEBUG - All files marked unused").

Definition ramfs_create_file (path content : str) : K Z :=
  fs ← gets ks_ramfs;
  match find_free fs with
  | None => mret (-1)
  | Some i =>
      rf ← get_rf i;
      let rf := with_size 0 (with_used true rf) in
      let rf := with_path (take (Z.to_nat (MAX_PATH - 1)) path) rf in
      let c := take (Z.to_nat (MAX_CONTENT - 1)) content in
      let rf := with_content (splice (rf_content rf) 0 (c ++ [0])) rf in
      set_rf i (with_size (zlen c) rf);;
      mret 0
  end.

(** The comparison loop of [ramfs_read_file] over at most [n] bytes. *)
Fixpoint path_match (n : nat) (a b : str) : bool :=
  match n with
  | O => true
  | S n => let x := default 0 (head a) in let y := default 0 (head b) in
           if negb (x =? y) then false
           else if y =? 0 then true
           else path_match n (tail a) (tail b)
  end.

(** The copy loop: the bytes stored into [out] and the final [c]. *)
Fixpoint copy_text (n : nat) (content : list Z) : option (list Z * Z) :=
  match n with
  | O => Some ([], 0)
  | S n => match content with
           | [] => None
           | b :: content =>
               if b =? 0 then Some ([b], 0)
               else '(l, c) ← copy_text n content; Some (b :: l, c + 1)
           end
  end.

Fixpoint find_match (fs : list ramfs_file) (path : str) : option nat :=
  match fs with
  | [] => None
  | f :: fs => if rf_used f && path_match (Z.to_nat MAX_PATH) (rf_path f) path then Some O
               else S <$> find_match fs path
  end.

Definition ramfs_read_file (path : str) (max_len : Z) : K (Z * list Z) :=
  fs ← gets ks_ramfs;
  match find_match fs path with
  | None => mret (-1, [])
  | Some i => rf ← get_rf i;
              '(out, c) ← unwrap (copy_text (Z.to_nat max_len) (rf_content rf));
              mret (c, out)
  end.

Definition ramfs_mount : K (option vfs_super_block) :=
  uart_puts (ln "RAMFS: Mounting filesystem");;
  o ← kalloc sizeof_vfs_super_block;
  match o with
  | None => uart_puts (ln "RAMFS: Failed to allocate superblock");; mret None
  | Some _ => mret (Some (VfsSb RAMFS_MAGIC (bs "ramfs")))
  end.

Definition has_slash (s : str) : bool := bool_decide (is_Some (s_strrchr s 47)).

Definition is_file_in_dir (file_path dir_path : str) : bool :=
  let dir_len := length dir_path in
  if s_strncmp file_path dir_path dir_len =? 0 then
    if s_strcmp dir_path (bs "/tmp") =? 0 then
      if negb (default 0 (file_path !! dir_len) =? 47) then false
      else negb (has_slash (drop (S dir_len) file_path))
    else match s_strrchr file_path 47 with
         | None => false
         | Some k => Nat.eqb k dir_len
         end
  else false.

Definition get_basename (path : str) : str :=
  match s_strrchr path 47 with Some k => drop (S k) path | None => path end.

(** The loop of [ramfs_read_dir] over the slots from number [i] on. *)
Fixpoint read_dir_loop (fs : list ramfs_file) (i : Z) (path : str) (room : nat) : list dirent :=
  match fs, room with
  | f :: fs, S room' =>
      if rf_used f && is_file_in_dir (rf_path f) path
      then Dirent (i + 2) (get_basename (rf_path f)) :: read_dir_loop fs (i + 1) path room'
      else read_dir_loop fs (i + 1) path room
  | _, _ => []
  end.

(** The entries stored into [dirents]; their number is the return value. *)
Definition ramfs_read_dir (path : str) (max_entries : Z) : K (Z * list dirent) :=
  fs ← gets ks_ramfs;
  let n := Z.to_nat max_entries in
  let dots := take n [Dirent 1 (bs "."); Dirent 1 (bs "..")] in
  let es := dots ++ read_dir_loop fs 0 path (n - length dots) in
  mret (zlen es, es).

Definition ramfs_create (path : str) : K (option Z) :=
  full_path ← (if negb (s_strncmp path (bs "/tmp/") 5 =? 0) then
                 p ← strcpy_to MAX_PATH (bs "/tmp/"); strcat_to MAX_PATH p path
               else strcpy_to MAX_PATH path);
  fs ← gets ks_ramfs;
  match find_free fs with
  | None => uart_puts (ln "RAMFS: No free file slots");; mret None
  | Some i =>
      rf ← get_rf i;
      p ← strcpy_to MAX_PATH full_path;
      let rf := with_size 0 (with_path p (with_used true rf)) in
      set_rf i (with_content (<[0%nat := 0]> (rf_content rf)) rf);;
      o ← kalloc sizeof_vfs_file;
      match o with
      | None => rf ← get_rf i; set_rf i (with_used false rf);; mret None
      | Some fp => set_vfile fp (VfsFile (Some RAMFS) [] (Pram i) 0);; mret (Some fp)
      end
  end.

Definition ramfs_unlink (path : str) : K Z :=
  fs ← gets ks_ramfs;
  match find_path fs path with
  | Some i => rf ← get_rf i; set_rf i (with_size 0 (with_used false rf));; mret 0
  | None => uart_puts (ln "RAMFS: File not found");; mret (-1)
  end.

Definition ramfs_mkdir (path : str) : K Z :=
  fs ← gets ks_ramfs;
  match find_free fs with
  | Some i => rf ← get_rf i;
              p ← strcpy_to MAX_PATH path;
              set_rf i (with_path p (with_size 0 (with_used true rf)));; mret 0
  | None => mret (-1)
  end.

(** ** Invariant *)

Definition rf_ok (rf : ramfs_file) : Prop :=
  (length (rf_path rf) ≤ 31)%nat ∧ length (rf_content rf) = 4096%nat ∧ 0 ≤ rf_size rf ≤ 4096.

(** Every slot is well formed, and every open file on a slot has its
    position inside the content buffer. *)
Definition ramfs_ok (s : kstate) : Prop :=
  length (ks_ramfs s) = MAX_FILES ∧ Forall rf_ok (ks_ramfs s) ∧
  ∀ fp f i, ks_files s !! fp = Some f → private_data f = Pram i →
            (i < MAX_FILES)%nat ∧ 0 ≤ f_pos f ≤ 4096.

(** The bytes of a file. *)
Definition data (rf : ramfs_file) : list Z := take (Z.to_nat (rf_size rf)) (rf_content rf).

Lemma find_free_lt fs i : find_free fs = Some i → (i < length fs)%nat.
Proof.
  revert i. induction fs as [|f fs IH]; intros i; simpl; [done|].
  destruct (rf_used f); [|intros [= <-]; lia]. intros (j & Hj & ->)%fmap_Some. apply IH in Hj. lia.
Qed.

Lemma find_free_unused fs i : find_free fs = Some i → ∃ rf, fs !! i = Some rf ∧ rf_used rf = false.
Proof.
  revert i. induction fs as [|f fs IH]; intros i; simpl; [done|].
  destruct (rf_used f) eqn:E; [|intros [= <-]; by exists f]. intros (j & Hj & ->)%fmap_Some. by apply IH.
Qed.

Lemma find_path_Some fs path i :
  find_path fs path = Some i →
  ∃ rf, fs !! i = Some rf ∧ rf_used rf = true ∧ s_strcmp (rf_path rf) path = 0 ∧
        ∀ j rf', (j < i)%nat → fs !! j = Some rf' → rf_used rf' = true → s_strcmp (rf_path rf') path ≠ 0.
Proof.
  revert i. induction fs as [|f fs IH]; intros i; simpl; [done|].
  destruct (rf_used f && _) eqn:E; zbool.
  - intros [= <-]. exists f. split_and!; [done..|]. intros; lia.
  - intros (j & Hj & ->)%fmap_Some. destruct (IH _ Hj) as (rf & ? & ? & ? & Hf). exists rf. split_and!; [done..|].
    intros [|k] rf' Hk Hl Hu; simpl in Hl.
    + simplify_eq. rw Hu /= in E. lia.
    + apply (Hf k rf'); [lia|done..].
Qed.

Lemma find_path_None fs path :
  find_path fs path = None ↔ ∀ j rf, fs !! j = Some rf → rf_used rf = true → s_strcmp (rf_path rf) path ≠ 0.
Proof.
  induction fs as [|f fs IH]; simpl; [by split|]. destruct (rf_used f && _) eqn:E; zbool.
  - split; [done|]. intros H'. by destruct (H' O f eq_refl).
  - rw fmap_None IH. split.
    + intros H' [|j] rf Hj Hu; simpl in Hj; [|by apply (H' j)]. simplify_eq. rw Hu /= in E. lia.
    + intros H' j rf Hj. by apply (H' (S j)).
Qed.

(** ** Functional behaviour of reading and writing *)

Section Handle.
Context (s : kstate) (fp : Z) (f : vfs_file) (i : nat) (rf : ramfs_file).
Hypothesis Hok : ramfs_ok s.
Hypothesis Hf : ks_files s !! fp = Some f.
Hypothesis Hp : private_data f = Pram i.
Hypothesis Hrf : ks_ramfs s !! i = Some rf.

Lemma handle_bounds : rf_ok rf ∧ 0 ≤ f_pos f ≤ 4096.
Proof.
  destruct Hok as (_ & Hall & Hfs). split; [by apply (Forall_lookup_1 _ _ i _ Hall)|by apply (Hfs fp f i)].
Qed.

Lemma with_pos_id : with_pos (f_pos f) f = f.
Proof. by destruct f. Qed.

Lemma ramfs_read_spec count :
  0 ≤ count < 2 ^ 63 →
  let n := Z.max 0 (Z.min count (rf_size rf - f_pos f)) in
  ramfs_read fp count s =
  Ok (n, take (Z.to_nat n) (drop (Z.to_nat (f_pos f)) (rf_content rf)))
     (set_files (<[fp := with_pos (f_pos f + n) f]> (ks_files s)) s).
Proof.
  intros Hc n. destruct handle_bounds as [(_ & Hlen & Hsz) Hpos].
  rw /ramfs_read /get_vfile /get_rf /slot_of /mbind /M_bind /=. rw Hf /= Hp /= Hrf /=.
  destruct (rf_size rf <=? f_pos f) eqn:E; zbool.
  - replace n with 0 by lia. rw Z.add_0_r with_pos_id insert_id //. by destruct s.
  - rw (u64_small (f_pos f + count)); [lia|]. rw (u64_small (rf_size rf - f_pos f)); [lia|].
    set c := if rf_size rf <? f_pos f + count then rf_size rf - f_pos f else count.
    assert (c = n) as -> by (rw /c /n; zcase; lia).
    replace (f_pos f + n <=? MAX_CONTENT) with true by (rw /MAX_CONTENT; lia).
    rw u64_small; [lia|]. done.
Qed.

(** The slot after writing [n] bytes of [buf] at the position. *)
Definition written (n : Z) (buf : list Z) : ramfs_file :=
  RamfsFile (rf_path rf) (splice (rf_content rf) (Z.to_nat (f_pos f)) (take (Z.to_nat n) buf))
    (if 0 <? n then Z.max (rf_size rf) (f_pos f + n) else rf_size rf) (rf_used rf).

Lemma ramfs_write_spec buf count :
  0 ≤ count < 2 ^ 63 → count ≤ zlen buf →
  let n := Z.min count (4096 - f_pos f) in
  ∃ out, ramfs_write fp buf count s =
         Ok n (set_out out (set_files (<[fp := with_pos (f_pos f + n) f]> (ks_files s))
                 (set_ramfs (<[i := written n buf]> (ks_ramfs s)) s))).
Proof.
  intros Hc Hb n. destruct handle_bounds as [(_ & Hlen & Hsz) Hpos].
  rw /ramfs_write /get_vfile /get_rf /slot_of. erewrite bind_Ok; [|rw /mbind /M_bind /= Hf //].
  rw Hp. erewrite bind_Ok; [|done]. erewrite bind_Ok; [|rw /mbind /M_bind /= Hrf //].
  set lim := (if MAX_CONTENT <? _ then _ else _ : K Z).
  assert (∃ o, lim s = Ok n (set_out o s)) as (o & Hl).
  { rw /lim u64_small; [lia|]. rw /MAX_CONTENT. zcase.
    - rw /mbind /M_bind /= u64_small; [lia|]. replace (4096 - f_pos f) with n by lia. by eexists.
    - replace n with count by lia. exists (ks_out s). by destruct s. }
  rw (bind_Ok _ _ _ _ _ Hl). rw /written. destruct (0 <? n) eqn:E; zbool.
  - replace (_ && _) with true by (rw /MAX_CONTENT; lia). rw u64_small; [lia|].
    rw /mbind /M_bind /=. destruct (rf_size rf <? f_pos f + n) eqn:E'; zbool; simpl.
    + eexists. rw list_insert_insert_eq Z.max_r; [lia|]. done.
    + eexists. rw Z.max_l; [lia|]. done.
  - replace n with 0 by lia. exists o. rw Z.add_0_r with_pos_id (insert_id (ks_files s)) //.
    rw (list_insert_id (ks_ramfs s)); [|by destruct s]. rw Hrf. f_equal. rw /splice /= Nat.add_0_r take_drop.
    by destruct rf.
Qed.

End Handle.

(** ** Preservation of the invariant *)

Lemma ramfs_ok_insert s i rf :
  ramfs_ok s → rf_ok rf → ramfs_ok (set_ramfs (<[i := rf]> (ks_ramfs s)) s).
Proof.
  intros (Hl & Hall & Hfs) Hrf. split_and!; [by rw /= length_insert|by apply Forall_insert|done].
Qed.

Lemma ramfs_ok_file s fp f :
  ramfs_ok s → (∀ i, private_data f = Pram i → (i < MAX_FILES)%nat ∧ 0 ≤ f_pos f ≤ 4096) →
  ramfs_ok (set_files (<[fp := f]> (ks_files s)) s).
Proof.
  intros (Hl & Hall & Hfs) Hf. split_and!; [done..|]. intros fp' f' i. simpl.
  destruct (decide (fp' = fp)) as [->|Hne].
  - rw lookup_insert_eq => [= <-]. apply Hf.
  - rw lookup_insert_ne; [congruence|]. apply Hfs.
Qed.

(** The invariant only reads the file table and the open files. *)
Lemma ramfs_ok_frame s s' :
  ks_ramfs s' = ks_ramfs s → ks_files s' = ks_files s → ramfs_ok s → ramfs_ok s'.
Proof. rw /ramfs_ok. by intros -> ->. Qed.

Lemma splice_Forall_length (l : list Z) off l' :
  length l = 4096%nat → (off + length l' ≤ 4096)%nat → length (splice l off l') = 4096%nat.
Proof. intros H1 H2. rw splice_length; lia. Qed.

Lemma slot_ok s i rf : ramfs_ok s → ks_ramfs s !! i = Some rf → rf_ok rf ∧ (i < MAX_FILES)%nat.
Proof.
  intros (Hl & Hall & _) Hi. split; [by apply (Forall_lookup_1 _ _ i _ Hall)|].
  apply lookup_lt_Some in Hi. by rw Hl in Hi.
Qed.

Lemma kalloc_frame n s o s' :
  kalloc n s = Ok o s' → s' = set_heap_pos (ks_heap_pos s') s.
Proof.
  rw /kalloc /mbind /M_bind /=. destruct (_ <? _); intros [= <- <-]; [by destruct s|done].
Qed.

Lemma written_ok s fp f i rf n buf :
  ramfs_ok s → ks_files s !! fp = Some f → private_data f = Pram i → ks_ramfs s !! i = Some rf →
  0 ≤ n ≤ 4096 - f_pos f → n ≤ zlen buf → rf_ok (written f rf n buf).
Proof.
  intros Hok Hf Hp Hi Hn Hb. destruct (handle_bounds s fp f i rf Hok Hf Hp Hi) as [(H1 & H2 & H3) Hpos].
  split_and!; simpl; [done| |zcase; lia|zcase; lia].
  rw splice_Forall_length // length_take. lia.
Qed.

(** The operations of the file system, as one transition each. *)
Inductive ramfs_step : kstate → kstate → Prop :=
| step_read fp count s r s' :
    0 ≤ count < 2 ^ 63 → ramfs_read fp count s = Ok r s' → ramfs_step s s'
| step_write fp buf count s r s' :
    0 ≤ count < 2 ^ 63 → count ≤ zlen buf → ramfs_write fp buf count s = Ok r s' → ramfs_step s s'
| step_open path s r s' : ramfs_open path s = Ok r s' → ramfs_step s s'
| step_create path s r s' : ramfs_create path s = Ok r s' → ramfs_step s s'
| step_create_file path content s r s' :
    ramfs_create_file path content s = Ok r s' → ramfs_step s s'
| step_unlink path s r s' : ramfs_unlink path s = Ok r s' → ramfs_step s s'
| step_mkdir path s r s' : ramfs_mkdir path s = Ok r s' → ramfs_step s s'
| step_mount s r s' : ramfs_mount s = Ok r s' → ramfs_step s s'
| step_read_dir path n s r s' : ramfs_read_dir path n s = Ok r s' → ramfs_step s s'.

Lemma handle_of s fp f r s' (k : vfs_file → nat → ramfs_file → K r) x :
  ks_files s !! fp = Some f →
  (file ← get_vfile fp; i ← slot_of file; rf ← get_rf i; k file i rf) s = Ok x s' →
  ∃ i rf, private_data f = Pram i ∧ ks_ramfs s !! i = Some rf.
Proof.
  intros Hf H. rw /get_vfile /get_rf /slot_of /mbind /M_bind /= Hf /= in H.
  destruct (private_data f) as [i|]; [|done]. simpl in H.
  destruct (ks_ramfs s !! i) as [rf|] eqn:E; [by exists i, rf|done].
Qed.

Lemma ramfs_handle_step s fp {R} (k : vfs_file → nat → ramfs_file → K R) x s' :
  (file ← get_vfile fp; i ← slot_of file; rf ← get_rf i; k file i rf) s = Ok x s' →
  ∃ f i rf, ks_files s !! fp = Some f ∧ private_data f = Pram i ∧ ks_ramfs s !! i = Some rf.
Proof.
  intros H. destruct (ks_files s !! fp) as [f|] eqn:Hf.
  - destruct (handle_of s fp f R s' k x Hf H) as (i & rf & ? & ?). by exists f, i, rf.
  - rw /get_vfile /mbind /M_bind /= Hf in H. done.
Qed.

Lemma ramfs_read_ok s fp count r s' :
  ramfs_ok s → 0 ≤ count < 2 ^ 63 → ramfs_read fp count s = Ok r s' → ramfs_ok s'.
Proof.
  intros Hok Hc H. destruct (ramfs_handle_step s fp _ r s' H) as (f & i & rf & Hf & Hp & Hi).
  rw (ramfs_read_spec s fp f i rf) // in H. injection H as <- <-.
  destruct (handle_bounds s fp f i rf Hok Hf Hp Hi) as [(_ & _ & Hsz) Hpos].
  apply ramfs_ok_file; [done|]. simpl. intros j Hj.
  destruct (slot_ok s i rf Hok Hi). split; [congruence|lia].
Qed.

Lemma ramfs_write_ok s fp buf count r s' :
  ramfs_ok s → 0 ≤ count < 2 ^ 63 → count ≤ zlen buf →
  ramfs_write fp buf count s = Ok r s' → ramfs_ok s'.
Proof.
  intros Hok Hc Hb H. destruct (ramfs_handle_step s fp _ r s' H) as (f & i & rf & Hf & Hp & Hi).
  destruct (ramfs_write_spec s fp f i rf Hok Hf Hp Hi buf count Hc Hb) as (out & E).
  rw E in H. injection H as <- <-.
  destruct (handle_bounds s fp f i rf Hok Hf Hp Hi) as [(_ & _ & Hsz) Hpos].
  destruct (slot_ok s i rf Hok Hi) as [_ Hlt].
  eapply (ramfs_ok_frame (set_files _ (set_ramfs _ s))); [done..|].
  apply (ramfs_ok_file (set_ramfs _ s)).
  - apply ramfs_ok_insert; [done|]. apply (written_ok s fp f i); [done..|lia|lia].
  - simpl. intros j Hj. split; [congruence|lia].
Qed.

Lemma ramfs_open_ok s path r s' : ramfs_ok s → ramfs_open path s = Ok r s' → ramfs_ok s'.
Proof.
  intros Hok H. rw /ramfs_open in H. minv H. injection E as <- <-.
  destruct (find_path _ path) as [i|] eqn:Ei; [|by injection H as <- <-].
  minv H. apply kalloc_frame in E. destruct a as [fp|]; [|by injection H as <- <-; rw E].
  minv H. injection E0 as <- <-. injection H as <- <-. rw E.
  apply (ramfs_ok_file (set_heap_pos _ s)); [by eapply ramfs_ok_frame|]. simpl. intros j [= <-].
  destruct (find_path_Some _ _ _ Ei) as (rf & Hi & _). destruct (slot_ok s i rf Hok Hi). split; [done|lia].
Qed.

Lemma strcpy_to_inv {S} cap src (s : S) p s' :
  strcpy_to cap src s = Ok p s' → p = src ∧ s' = s ∧ zlen src + 1 ≤ cap.
Proof. rw /strcpy_to. destruct (_ <=? _) eqn:E; [|done]. zbool. by intros [= <- <-]. Qed.

Lemma strcat_to_inv {S} cap dst src (s : S) p s' :
  strcat_to cap dst src s = Ok p s' → p = dst ++ src ∧ s' = s ∧ zlen dst + zlen src + 1 ≤ cap.
Proof. rw /strcat_to. destruct (_ <=? _) eqn:E; [|done]. zbool. by intros [= <- <-]. Qed.

Lemma get_rf_inv i s rf s' : get_rf i s = Ok rf s' → s' = s ∧ ks_ramfs s !! i = Some rf.
Proof.
  rw /get_rf /mbind /M_bind /=. destruct (ks_ramfs s !! i); [|done]. by intros [= <- <-].
Qed.

Lemma uart_puts_inv t s u s' : uart_puts t s = Ok u s' → s' = set_out (ks_out s ++ crlf t) s.
Proof. by intros [= <- <-]. Qed.

Lemma ramfs_ok_out o s : ramfs_ok (set_out o s) ↔ ramfs_ok s.
Proof. done. Qed.

Lemma ramfs_create_ok s path r s' : ramfs_ok s → ramfs_create path s = Ok r s' → ramfs_ok s'.
Proof.
  intros Hok H. rw /ramfs_create in H. minv H.
  assert (s0 = s) as ->.
  { destruct (negb _) in E; [|by apply strcpy_to_inv in E as (_ & -> & _)].
    minv E. apply strcpy_to_inv in E1 as (_ & -> & _). by apply strcat_to_inv in E as (_ & -> & _). }
  injection E0 as <- <-. destruct (find_free (ks_ramfs s)) as [i|] eqn:Ei.
  2: { minv H. apply uart_puts_inv in E0 as ->. by injection H as <- <-. }
  minv H. apply get_rf_inv in E0 as [-> Hi]. apply strcpy_to_inv in E1 as (-> & -> & Hl).
  injection E2 as <- <-. apply kalloc_frame in E3. destruct (slot_ok s i a0 Hok Hi) as [(H1 & H2 & H3) Hlt].
  assert (Hrf : ∀ b, rf_ok (RamfsFile a (<[0%nat:=0]> (rf_content a0)) 0 b)).
  { intros b. rw /MAX_PATH in Hl. split_and!; simpl; [lia|by rw length_insert|lia..]. }
  destruct a3 as [fp|].
  - minv H. injection E0 as <- <-. injection H as <- <-. rw E3.
    eapply (ramfs_ok_file (set_heap_pos _ (set_ramfs _ s))).
    + eapply (ramfs_ok_frame (set_ramfs _ s)); [done..|]. apply ramfs_ok_insert; [done|apply (Hrf true)].
    + simpl. intros j [= <-]. split; [done|lia].
  - minv H. apply get_rf_inv in E0 as [-> Hi']. injection E1 as <- <-. injection H as <- <-.
    rw E3 /= list_lookup_insert_eq in Hi'; [by destruct Hok as (-> & _)|]. injection Hi' as <-.
    rw E3. eapply (ramfs_ok_frame (set_ramfs _ (set_ramfs _ s))); [done..|].
    apply (ramfs_ok_insert (set_ramfs _ s)); [apply ramfs_ok_insert; [done|apply (Hrf true)]|apply (Hrf false)].
Qed.

Lemma ramfs_create_file_ok s path content r s' :
  ramfs_ok s → ramfs_create_file path content s = Ok r s' → ramfs_ok s'.
Proof.
  intros Hok H. rw /ramfs_create_file in H. minv H. injection E as <- <-.
  destruct (find_free (ks_ramfs s)) as [i|] eqn:Ei; [|by injection H as <- <-].
  minv H. apply get_rf_inv in E as [-> Hi]. injection E0 as <- <-. injection H as <- <-.
  destruct (slot_ok s i a Hok Hi) as [(H1 & H2 & H3) Hlt]. apply ramfs_ok_insert; [done|].
  unfold MAX_PATH, MAX_CONTENT. split_and!; simpl; rw ?length_take; [lia| |lia..].
  rw splice_Forall_length // length_app length_take. cbn [length]. lia.
Qed.

Lemma ramfs_unlink_ok s path r s' : ramfs_ok s → ramfs_unlink path s = Ok r s' → ramfs_ok s'.
Proof.
  intros Hok H. rw /ramfs_unlink in H. minv H. injection E as <- <-.
  destruct (find_path _ path) as [i|] eqn:Ei; minv H.
  - apply get_rf_inv in E as [-> Hi]. injection E0 as <- <-. injection H as <- <-.
    destruct (slot_ok s i a Hok Hi) as [(H1 & H2 & H3) Hlt]. apply ramfs_ok_insert; [done|].
    split_and!; simpl; [done..|lia|lia].
  - apply uart_puts_inv in E as ->. by injection H as <- <-.
Qed.

Lemma ramfs_mkdir_ok s path r s' : ramfs_ok s → ramfs_mkdir path s = Ok r s' → ramfs_ok s'.
Proof.
  intros Hok H. rw /ramfs_mkdir in H. minv H. injection E as <- <-.
  destruct (find_free (ks_ramfs s)) as [i|] eqn:Ei; [|by injection H as <- <-].
  minv H. apply get_rf_inv in E as [-> Hi]. apply strcpy_to_inv in E0 as (-> & -> & Hl).
  injection E1 as <- <-. injection H as <- <-. rw /MAX_PATH in Hl.
  destruct (slot_ok s i a Hok Hi) as [(H1 & H2 & H3) Hlt]. apply ramfs_ok_insert; [done|].
  split_and!; simpl; [lia|done|lia..].
Qed.

Lemma ramfs_mount_ok s r s' : ramfs_ok s → ramfs_mount s = Ok r s' → ramfs_ok s'.
Proof.
  intros Hok H. rw /ramfs_mount in H. minv H. apply uart_puts_inv in E as ->. apply kalloc_frame in E0.
  destruct a0; [|minv H; apply uart_puts_inv in E as ->]; injection H as <- <-; by rw E0.
Qed.

Lemma ramfs_init_ok s s' :
  (∀ fp f i, ks_files s !! fp = Some f → private_data f = Pram i → False) →
  ramfs_init s = Ok tt s' → ramfs_ok s'.
Proof.
  intros Hno Hi. rw /ramfs_init /mbind /M_bind /= in Hi. injection Hi as <-. split_and!; simpl; [done| |].
  - apply (Forall_replicate _ MAX_FILES). split_and!; simpl; [lia|done|lia..].
  - intros fp f i Hf Hp. by destruct (Hno fp f i Hf Hp).
Qed.

Lemma ramfs_step_ok s s' : ramfs_step s s' → ramfs_ok s → ramfs_ok s'.
Proof.
  destruct 1 as [fp count s r s' Hc H|fp buf count s r s' Hc Hb H|path s r s' H|path s r s' H
    |path content s r s' H|path s r s' H|path s r s' H|s r s' H|path n s r s' H]; intros Hok.
  - by apply (ramfs_read_ok s fp count r).
  - by apply (ramfs_write_ok s fp buf count r).
  - by apply (ramfs_open_ok s path r).
  - by apply (ramfs_create_ok s path r).
  - by apply (ramfs_create_file_ok s path content r).
  - by apply (ramfs_unlink_ok s path r).
  - by apply (ramfs_mkdir_ok s path r).
  - by apply (ramfs_mount_ok s r).
  - rw /ramfs_read_dir in H. minv H. injection E as <- <-. by injection H as <- <-.
Qed.

(** ** The contracts of the file system *)

(** C28: every state reached from initialisation by the operations of the
    file system is well formed: 16 slots, paths of at most 31 bytes, contents
    of exactly 4096 bytes, sizes within them, and every open file on a slot
    that exists at a position inside the content. *)
Theorem ramfs_reachable_ok s0 s1 s :
  (∀ fp f i, ks_files s0 !! fp = Some f → private_data f = Pram i → False) →
  ramfs_init s0 = Ok tt s1 → rtc ramfs_step s1 s → ramfs_ok s.
Proof.
  intros Hno Hi Hr. pose proof (ramfs_init_ok s0 s1 Hno Hi) as Hok.
  clear Hi Hno s0. induction Hr as [s|s s' s'' Hst Hr IH]; [done|].
  apply IH. by apply (ramfs_step_ok s).
Qed.

(** An open regular file as a sequence of bytes and a position. *)
Definition seq_write (d : list Z) (pos : nat) (bytes : list Z) : list Z :=
  take pos d ++ bytes ++ drop (pos + length bytes) d.

Definition seq_read (d : list Z) (pos n : nat) : list Z := take n (drop pos d).

Lemma data_length rf : rf_ok rf → length (data rf) = Z.to_nat (rf_size rf).
Proof. intros (_ & H & ?). rw /data length_take H. lia. Qed.

Lemma data_read rf pos n :
  rf_ok rf → (pos ≤ Z.to_nat (rf_size rf))%nat →
  take (Nat.min n (Z.to_nat (rf_size rf) - pos)) (drop pos (rf_content rf)) = seq_read (data rf) pos n.
Proof. intros _ H. by rw /seq_read /data -take_take take_drop_commute Nat.add_comm Nat.sub_add. Qed.

Lemma take_splice (l b : list Z) pos k :
  (pos + length b ≤ length l)%nat → (pos ≤ k)%nat →
  take (Nat.max k (pos + length b)) (splice l pos b) = seq_write (take k l) pos b.
Proof.
  intros Hl Hk. rw /splice /seq_write !take_app length_take. f_equal; [|f_equal].
  - rw !take_take. f_equal. lia.
  - apply take_ge. lia.
  - rw take_drop_commute. destruct (decide (k < pos + length b)%nat).
    + rw !drop_ge ?length_take //; lia.
    + do 2 f_equal. lia.
Qed.

Lemma data_write f rf n buf :
  rf_ok rf → 0 ≤ f_pos f ≤ rf_size rf → 0 ≤ n ≤ 4096 - f_pos f → n ≤ zlen buf →
  data (written f rf n buf) = seq_write (data rf) (Z.to_nat (f_pos f)) (take (Z.to_nat n) buf).
Proof.
  intros (_ & Hl & Hs) Hp Hn Hb. rw /data /written. cbn [rf_size rf_content].
  rw -take_splice ?length_take; [lia..|]. f_equal. destruct (0 <? n) eqn:E; zbool; lia.
Qed.

(** C6: a write through an open file replaces the bytes at its position by
    the bytes given, extending the file when it reaches past the end and
    stopping at 4096 bytes; a read returns the bytes at the position up to
    the end of the file; both advance the position by what they transferred.
    Neither faults, whatever the count. *)
Theorem ramfs_refines_bytes s fp f i rf buf count :
  ramfs_ok s → ks_files s !! fp = Some f → private_data f = Pram i → ks_ramfs s !! i = Some rf →
  f_pos f ≤ rf_size rf → 0 ≤ count < 2 ^ 63 → count ≤ zlen buf →
  let r := seq_read (data rf) (Z.to_nat (f_pos f)) (Z.to_nat count) in
  let n := Z.min count (4096 - f_pos f) in
  (∃ s', ramfs_read fp count s = Ok (zlen r, r) s' ∧ ks_ramfs s' = ks_ramfs s ∧
         ks_files s' !! fp = Some (with_pos (f_pos f + zlen r) f)) ∧
  (∃ s' rf', ramfs_write fp buf count s = Ok n s' ∧
         ks_ramfs s' = <[i := rf']> (ks_ramfs s) ∧ rf_path rf' = rf_path rf ∧
         data rf' = seq_write (data rf) (Z.to_nat (f_pos f)) (take (Z.to_nat n) buf) ∧
         ks_files s' !! fp = Some (with_pos (f_pos f + n) f)).
Proof.
  intros Hok Hf Hp Hi Hps Hc Hb r n. destruct (handle_bounds s fp f i rf Hok Hf Hp Hi) as [Hrf Hpos].
  pose proof (data_length rf Hrf) as Hdl. destruct Hrf as (H1 & H2 & H3). split.
  - rw (ramfs_read_spec s fp f i rf) //. set k := Z.max 0 _.
    assert (Hr : take (Z.to_nat k) (drop (Z.to_nat (f_pos f)) (rf_content rf)) = r).
    { rw /r -data_read //; [lia|]. f_equal. lia. }
    assert (Hlr : zlen r = k) by (rw -Hr length_take length_drop; lia).
    eexists. rw Hr Hlr. split_and!; [done..|]. by rw lookup_insert_eq.
  - destruct (ramfs_write_spec s fp f i rf Hok Hf Hp Hi buf count Hc Hb) as (out & E).
    eexists. exists (written f rf n buf). rw E. split_and!; [done..| |by rw lookup_insert_eq].
    apply data_write; [done|lia..].
Qed.

(** What is written is read back: bytes written through one open file
    are what another open file on the same slot, at the position the write
    started from, reads. *)
Theorem ramfs_write_read s fp f fp' f' i rf buf s' n :
  ramfs_ok s → ks_files s !! fp = Some f → private_data f = Pram i → ks_ramfs s !! i = Some rf →
  ks_files s !! fp' = Some f' → private_data f' = Pram i → fp' ≠ fp → f_pos f' = f_pos f →
  f_pos f + zlen buf ≤ 4096 → ramfs_write fp buf (zlen buf) s = Ok n s' →
  ∃ s'', ramfs_read fp' (zlen buf) s' = Ok (zlen buf, buf) s''.
Proof.
  intros Hok Hf Hp Hi Hf' Hp' Hne Hpos Hfit Hw.
  destruct (handle_bounds s fp f i rf Hok Hf Hp Hi) as [(H1 & H2 & H3) Hps].
  pose proof (ramfs_write_ok s fp buf (zlen buf) n s' Hok ltac:(lia) ltac:(lia) Hw) as Hok'.
  destruct (ramfs_write_spec s fp f i rf Hok Hf Hp Hi buf (zlen buf)) as (out & E); [lia..|].
  rw E in Hw. injection Hw as _ <-. rw Z.min_l in Hok' |- *; [lia|].
  set rf' := written f rf (zlen buf) buf in Hok' |- *.
  erewrite (ramfs_read_spec _ fp' f' i rf'); [|done|simpl; rw lookup_insert_ne; [congruence|done]|done| |lia].
  2: { simpl. rw list_lookup_insert_eq //. by apply lookup_lt_Some in Hi. }
  rw /rf' /written /= Nat2Z.id (take_ge buf) // Hpos.
  eexists. f_equal. destruct (0 <? zlen buf) eqn:Eb; zbool.
  - replace (Z.max 0 _) with (zlen buf) by lia. rw Nat2Z.id splice_read_back //. lia.
  - destruct buf; [|simpl in *; lia]. simpl. f_equal; [lia|]. by replace (Z.to_nat _) with 0%nat by lia.
Qed.

Lemma find_path_intro fs path i rf :
  fs !! i = Some rf → rf_used rf = true → s_strcmp (rf_path rf) path = 0 →
  (∀ j rf', (j < i)%nat → fs !! j = Some rf' → rf_used rf' = true → s_strcmp (rf_path rf') path ≠ 0) →
  find_path fs path = Some i.
Proof.
  revert i. induction fs as [|f fs IH]; intros [|i] Hi Hu Hs Hb; simpl in *; try done.
  - simplify_eq. by rw Hu Hs.
  - rw (IH i) //; [intros j rf' Hj; by apply (Hb (S j)); lia|].
    destruct (rf_used f) eqn:Eu; [|done]. replace (_ =? 0) with false; [done|].
    symmetry. apply Z.eqb_neq. apply (Hb O f); [lia|done..].
Qed.

(** The slot that [ramfs_create] fills. *)
Definition fresh_slot (path : str) (rf : ramfs_file) : ramfs_file :=
  RamfsFile path (<[0%nat := 0]> (rf_content rf)) 0 true.

Lemma ramfs_create_spec s path i rf :
  heap_ok s → ks_heap_pos s + sizeof_vfs_file ≤ HEAP_SIZE →
  s_strncmp path (bs "/tmp/") 5 = 0 → (length path ≤ 31)%nat →
  find_free (ks_ramfs s) = Some i → ks_ramfs s !! i = Some rf →
  ramfs_create path s =
  Ok (Some (ks_heap_pos s))
     (set_files (<[ks_heap_pos s := VfsFile (Some RAMFS) [] (Pram i) 0]> (ks_files s))
        (set_heap_pos (ks_heap_pos s + sizeof_vfs_file)
           (set_ramfs (<[i := fresh_slot path rf]> (ks_ramfs s)) s))).
Proof.
  intros Hh Hroom Htmp Hl Hfree Hi. rw /ramfs_create Htmp /=.
  assert (Hcp : strcpy_to MAX_PATH path s = Ok path s).
  { rw /strcpy_to /MAX_PATH. by replace (_ <=? 32) with true by lia. }
  rw (bind_Ok _ _ _ _ _ Hcp). erewrite bind_Ok; [|done]. rw Hfree.
  erewrite bind_Ok; [|rw /get_rf /mbind /M_bind /= Hi //]. rw (bind_Ok _ _ _ _ _ Hcp).
  erewrite bind_Ok; [|done]. rw /mbind {1}/M_bind kalloc_spec //=.
  by replace (_ <=? HEAP_SIZE) with true by lia.
Qed.

Lemma ramfs_open_spec s path i :
  heap_ok s → ks_heap_pos s + sizeof_vfs_file ≤ HEAP_SIZE → find_path (ks_ramfs s) path = Some i →
  ramfs_open path s =
  Ok (Some (ks_heap_pos s))
     (set_files (<[ks_heap_pos s := VfsFile (Some RAMFS) (take 255 path) (Pram i) 0]> (ks_files s))
        (set_heap_pos (ks_heap_pos s + sizeof_vfs_file) s)).
Proof.
  intros Hh Hroom Hf. rw /ramfs_open. erewrite bind_Ok; [|done]. rw Hf.
  rw /mbind {1}/M_bind kalloc_spec //=. by replace (_ <=? HEAP_SIZE) with true by lia.
Qed.

Lemma find_path_fresh fs path i rf :
  find_free fs = Some i → find_path fs path = None →
  find_path (<[i := fresh_slot path rf]> fs) path = Some i.
Proof.
  intros Hfree Hnone. apply (find_path_intro _ _ _ (fresh_slot path rf)); [|done|apply s_strcmp_refl|].
  - apply list_lookup_insert_eq. by apply find_free_lt.
  - intros j rf' Hj. rw list_lookup_insert_ne; [lia|]. by apply find_path_None.
Qed.

(** The life of a file: [ramfs_create] of a fresh path under "/tmp/" of
    at most 31 bytes succeeds while a slot and heap are left, makes an empty
    file, and [ramfs_open] finds it; after [ramfs_unlink] the path is gone
    again. *)
Theorem ramfs_create_open_unlink s path i :
  heap_ok s → ks_heap_pos s + 2 * sizeof_vfs_file ≤ HEAP_SIZE →
  s_strncmp path (bs "/tmp/") 5 = 0 → (length path ≤ 31)%nat →
  find_path (ks_ramfs s) path = None → find_free (ks_ramfs s) = Some i →
  ∃ fp s1 fp' s2 s3 rf,
    ramfs_create path s = Ok (Some fp) s1 ∧ ks_ramfs s1 !! i = Some rf ∧ data rf = [] ∧
    ramfs_open path s1 = Ok (Some fp') s2 ∧ fp' ≠ fp ∧
    ks_files s2 !! fp' = Some (VfsFile (Some RAMFS) (take 255 path) (Pram i) 0) ∧
    ramfs_unlink path s1 = Ok 0 s3 ∧ ramfs_open path s3 = Ok None s3.
Proof.
  intros Hh Hroom Htmp Hl Hnone Hfree. destruct (find_free_unused _ _ Hfree) as (rf & Hi & _).
  assert (Hsz : sizeof_vfs_file = 304) by done. unfold heap_ok in Hh.
  pose proof (ramfs_create_spec s path i rf Hh ltac:(lia) Htmp Hl Hfree Hi) as Hc.
  set s1 := set_files _ _ in Hc.
  pose proof (find_path_fresh (ks_ramfs s) path i rf Hfree Hnone) as Hfp.
  pose proof (ramfs_open_spec s1 path i ltac:(unfold heap_ok; cbn; lia) ltac:(cbn; lia) Hfp) as Ho.
  assert (Hi1 : ks_ramfs s1 !! i = Some (fresh_slot path rf)).
  { simpl. apply list_lookup_insert_eq. by apply find_free_lt. }
  eexists _, _, _, _, _, _. split_and!; [exact Hc|exact Hi1|done|exact Ho|simpl; lia| | |].
  - simpl. by rw lookup_insert_eq.
  - rw /ramfs_unlink. erewrite bind_Ok; [|done]. rw Hfp.
    erewrite bind_Ok; [|rw /get_rf /mbind /M_bind /= Hi1 //]. done.
  - rw /ramfs_open. erewrite bind_Ok; [|done]. simpl. rw list_insert_insert_eq.
    replace (find_path _ path) with (@None nat); [done|]. symmetry. apply find_path_None.
    intros j rf' Hj Hu. destruct (decide (j = i)) as [->|Hne].
    + rw list_lookup_insert_eq in Hj; [by apply find_free_lt|]. by injection Hj as <-.
    + rw list_lookup_insert_ne in Hj; [congruence|]. by apply (proj1 (find_path_None _ _) Hnone j).
Qed.

(** [ramfs_create] copies the path into a 32-byte buffer without a
    check: a path under "/tmp/" of 32 bytes or more, which the 256-byte
    buffers of the VFS allow, is a buffer overflow. *)
Theorem ramfs_create_overflow s path :
  s_strncmp path (bs "/tmp/") 5 = 0 → (32 ≤ length path)%nat → ramfs_create path s = Fault.
Proof.
  intros Htmp Hl. rw /ramfs_create Htmp /= /mbind /M_bind /strcpy_to /MAX_PATH.
  by replace (_ <=? 32) with false by lia.
Qed.

(** [is_file_in_dir] holds exactly of the files whose parent directory
    is the given one: the path is the directory, a slash, and a last
    component. *)
Theorem is_file_in_dir_iff f d :
  is_str f → is_str d →
  is_file_in_dir f d = true ↔ ∃ b, f = d ++ 47 :: b ∧ 47 ∉ b.
Proof.
  intros Hf Hd. rw /is_file_in_dir.
  destruct (s_strncmp f d (length d) =? 0) eqn:E; zbool.
  - apply s_strncmp_prefix in E as [r ->]; [|done..].
    rw lookup_app_r // Nat.sub_diag drop_app_ge; [lia|]. replace (S (length d) - length d)%nat with 1%nat by lia.
    assert (Hiff : (∃ b, d ++ r = d ++ 47 :: b ∧ 47 ∉ b) ↔ r !! 0%nat = Some 47 ∧ 47 ∉ drop 1 r).
    { split; [intros (b & Hb%app_inv_head & Hn); by subst|]. destruct r as [|c r]; [by intros [? _]|].
      intros [[= ->] Hn]. rw /= drop_0 in Hn. by exists r. }
    rw Hiff. zcase.
    + rw /has_slash. destruct (r !! 0%nat) as [c|] eqn:Er; simpl; [|split; [done|by intros [? _]]].
      destruct (c =? 47) eqn:Ec; zbool; simpl; [|split; [done|intros [? _]; congruence]]. subst c.
      rw negb_true_iff bool_decide_eq_false -eq_None_not_Some s_strrchr_None. tauto.
    + destruct (s_strrchr (d ++ r) 47) as [k|] eqn:Ek.
      * rw Nat.eqb_eq. apply s_strrchr_Some in Ek as [Ek Hn]. split.
        -- intros ->. rw lookup_app_r // Nat.sub_diag in Ek. rw drop_app_ge in Hn; [lia|].
           by replace (S (length d) - length d)%nat with 1%nat in Hn by lia.
        -- intros [H1 H2]. assert (Hs : s_strrchr (d ++ r) 47 = Some (length d)).
           { apply s_strrchr_Some. rw lookup_app_r // Nat.sub_diag drop_app_ge; [lia|].
             by replace (S (length d) - length d)%nat with 1%nat by lia. }
           assert (Hs' : s_strrchr (d ++ r) 47 = Some k) by (by apply s_strrchr_Some). congruence.
      * split; [done|]. intros [H1 _]. apply s_strrchr_None in Ek. exfalso. apply Ek.
        apply elem_of_app. right. by apply (list_elem_of_lookup_2 _ 0).
  - split; [done|]. intros (b & -> & _). exfalso. apply E. apply s_strncmp_prefix; [done..|by eexists].
Qed.

(** ** Witnesses *)

(** After boot: "/tmp/a" created (open file 0) and opened (open file 304). *)
Definition demo0 : kstate := default (kstate0 []) (final (ramfs_init (kstate0 []))).

Definition demo1 : kstate := default demo0 (final (ramfs_create (bs "/tmp/a") demo0)).

Definition demo2 : kstate := default demo1 (final (ramfs_open (bs "/tmp/a") demo1)).

Definition demo_file (p : str) : vfs_file := VfsFile (Some RAMFS) p (Pram 0) 0.

Lemma demo0_ok : ramfs_ok demo0.
Proof. apply (ramfs_init_ok (kstate0 [])); [done|reflexivity]. Qed.

Lemma demo2_ok : ramfs_ok demo2.
Proof.
  apply (ramfs_open_ok demo1 (bs "/tmp/a") (Some 304)); [|vm_compute; reflexivity].
  apply (ramfs_create_ok demo0 (bs "/tmp/a") (Some 0)); [apply demo0_ok|vm_compute; reflexivity].
Qed.

Lemma demo2_slot : ∃ rf, ks_ramfs demo2 !! 0%nat = Some rf ∧ rf_size rf = 0.
Proof. eexists. split; vm_compute; reflexivity. Qed.

Lemma ramfs_reachable_ok_witness : ramfs_ok demo2.
Proof.
  apply (ramfs_reachable_ok (kstate0 []) demo0); [done|reflexivity|].
  apply (rtc_l _ _ demo1).
  - apply (step_create (bs "/tmp/a") _ (Some 0)). vm_compute. reflexivity.
  - apply rtc_once, (step_open (bs "/tmp/a") _ (Some 304)). vm_compute. reflexivity.
Defined.

(** "hello" written through the first handle. *)
Definition ram_hello : kstate := default demo2 (final (ramfs_write 0 (bs "hello") 5 demo2)).

Lemma ram_hello_ok : ramfs_ok ram_hello.
Proof. apply (ramfs_write_ok demo2 0 (bs "hello") 5 5); [apply demo2_ok|done|done|vm_compute; reflexivity]. Qed.

Lemma ram_hello_slot : ∃ rf, ks_ramfs ram_hello !! 0%nat = Some rf ∧ rf_size rf = 5 ∧ data rf = bs "hello".
Proof. eexists. split; [vm_compute; reflexivity|split; vm_compute; reflexivity]. Qed.

(** A read of three bytes through the second handle, and a write that reaches
    past the end through the first one. *)
Lemma ramfs_refines_bytes_witness :
  (∃ s', ramfs_read 304 3 ram_hello = Ok (3, bs "hel") s') ∧
  (∃ s' rf', ramfs_write 0 (bs " world") 6 ram_hello = Ok 6 s' ∧ ks_ramfs s' = <[0%nat := rf']> (ks_ramfs ram_hello) ∧
             data rf' = bs "hello world").
Proof.
  destruct ram_hello_slot as (rf & Hrf & Hsz & Hd). split.
  - destruct (ramfs_refines_bytes ram_hello 304 (demo_file (bs "/tmp/a")) 0 rf (bs "xyz") 3) as ((s' & H & _) & _);
      [apply ram_hello_ok|vm_compute; reflexivity|reflexivity|exact Hrf|rw Hsz; done|done|done|].
    exists s'. rw Hd in H. exact H.
  - destruct (ramfs_refines_bytes ram_hello 0 (with_pos 5 (demo_file [])) 0 rf (bs " world") 6)
      as (_ & (s' & rf' & H1 & H2 & _ & H3 & _));
      [apply ram_hello_ok|vm_compute; reflexivity|reflexivity|exact Hrf|rw Hsz; done|done|done|].
    exists s', rf'. rw Hd in H3. split; [exact H1|]. split; [exact H2|exact H3].
Defined.

Lemma ramfs_write_read_witness :
  ∃ s'', ramfs_read 304 5 (default demo2 (final (ramfs_write 0 (bs "hello") 5 demo2))) = Ok (5, bs "hello") s''.
Proof.
  destruct demo2_slot as (rf & Hrf & _).
  apply (ramfs_write_read demo2 0 (demo_file []) 304 (demo_file (bs "/tmp/a")) 0 rf (bs "hello") _ 5);
    [apply demo2_ok|reflexivity|reflexivity|exact Hrf|reflexivity|reflexivity|done|done|done|].
  vm_compute. reflexivity.
Defined.

Lemma ramfs_create_open_unlink_witness :
  ∃ s3, ramfs_unlink (bs "/tmp/a") demo1 = Ok 0 s3 ∧ ramfs_open (bs "/tmp/a") s3 = Ok None s3.
Proof.
  destruct (ramfs_create_open_unlink demo0 (bs "/tmp/a") 0) as (fp & s1 & fp' & s2 & s3 & rf & H1 & _ & _ & _ & _ & _ & H2 & H3);
    [done|done|reflexivity|vm_compute; lia|reflexivity|reflexivity|].
  exists s3. rw /demo1 H1. done.
Defined.

Lemma ramfs_create_overflow_witness :
  ramfs_create (bs "/tmp/a-file-name-of-some-length.txt") demo0 = Fault.
Proof. apply ramfs_create_overflow; [reflexivity|vm_compute; lia]. Defined.

Lemma is_file_in_dir_iff_witness : is_file_in_dir (bs "/tmp/data/x") (bs "/tmp/data") = true.
Proof.
  apply (is_file_in_dir_iff (bs "/tmp/data/x") (bs "/tmp/data"));
    [by apply (bool_decide_unpack _); vm_compute..|].
  exists (bs "x"). split; [reflexivity|]. by apply (bool_decide_unpack _); vm_compute.
Defined.
