(* ===== verification/Abyss.v ===== *)
(** * Abyss: the block file system of [src/src/fs/abyssfs.c]

    64 blocks of 4096 bytes inside the kernel heap: block 0 is not used,
    blocks 1 to 8 hold 512 inodes of 64 bytes, block 9 is the root directory.
    The operations run over the bytes of the heap, with the little-endian
    fields of [struct abyssfs_inode] and of the packed [struct
    abyssfs_dir_entry].  A directory entry or inode pointer is an address of
    the heap, NULL is [None]. *)

From stdpp Require Import base numbers list gmap strings.
From Corelib Require Import ssreflect.
From S2P Require Import Prelude CString State Kmalloc Uart.

Open Scope Z_scope.
Open Scope general_if_scope.

(** ** Access to the heap *)

Abbreviation on_heap := (zoom ks_heap set_heap).

Definition ld8 (p : Z) : K Z := on_heap (load p).

Definition st8 (p v : Z) : K unit := on_heap (store p (u8 v)).

Definition ld32 (p : Z) : K Z :=
  a ← ld8 p; b ← ld8 (p + 1); c ← ld8 (p + 2); d ← ld8 (p + 3);
  mret (a + 2 ^ 8 * b + 2 ^ 16 * c + 2 ^ 24 * d).

Definition st32 (p v : Z) : K unit :=
  st8 p v;; st8 (p + 1) (v / 2 ^ 8);; st8 (p + 2) (v / 2 ^ 16);; st8 (p + 3) (v / 2 ^ 24).

(** [memcpy] from a buffer given by value. *)
Fixpoint st_bytes (p : Z) (l : list Z) : K unit :=
  match l with
  | [] => mret tt
  | b :: l => st8 p b;; st_bytes (p + 1) l
  end.

(** [memcpy] into a buffer given by value. *)
Fixpoint ld_bytes (p : Z) (n : nat) : K (list Z) :=
  match n with
  | O => mret []
  | S n => b ← ld8 p; l ← ld_bytes (p + 1) n; mret (b :: l)
  end.

Definition strcpy_at (p : Z) (t : str) : K unit := st_bytes p (t ++ [0]).

(** [strcpy] from the heap into a [char] array of [n] bytes. *)
Fixpoint strcpy_from (n : nat) (p : Z) : K str :=
  match n with
  | O => fault
  | S n => b ← ld8 p;
           if b =? 0 then mret [] else t ← strcpy_from n (p + 1); mret (b :: t)
  end.

(** [strcmp] of the text at [p] with [t]. *)
Fixpoint strcmp_at (p : Z) (t : str) : K Z :=
  a ← ld8 p;
  match t with
  | [] => mret a
  | b :: t => if negb (a =? 0) && (a =? b) then strcmp_at (p + 1) t else mret (a - b)
  end.

(** [memset] and [memmove]; a size that leaves the heap faults. *)
Definition in_heap (p n : Z) (m : mem) : bool := (m_lo m <=? p) && (p + n <=? m_hi m).

Definition memset_at (p c n : Z) : K unit :=
  m ← gets ks_heap;
  if in_heap p n m then on_heap (Lib.memset p c n);; mret tt else fault.

Definition memmove_at (d s n : Z) : K unit :=
  m ← gets ks_heap;
  if in_heap d n m && in_heap s n m then on_heap (Lib.memmove d s n);; mret tt else fault.

Definition heap_span : K nat := on_heap span.

(** ** Constants and layout *)

Definition BLOCK_SIZE : Z := 4096.

Definition NUM_BLOCKS : Z := 64.

Definition ABYSSFS_MAGIC : Z := 0xABCD1234.

Definition sizeof_inode : Z := 64.

Definition FIXED_SIZE : Z := 6.

Definition i_mode (p : Z) : Z := p.

Definition i_size (p : Z) : Z := p + 4.

Definition i_blocks (p : Z) : Z := p + 8.

Definition e_inode (p : Z) : Z := p.

Definition e_name_len (p : Z) : Z := p + 4.

Definition e_rec_len (p : Z) : Z := p + 5.

Definition e_name (p : Z) : Z := p + 6.

(** The arguments and the result are [uint8_t]. *)
Definition round_up (val align : Z) : Z :=
  u8 (Z.land (u8 val + u8 align - 1) (Z.lnot (u8 align - 1))).

Definition set_sb (sb : abyssfs_super_block) : K unit :=
  modify (λ s, let a := ks_abyss s in
    set_abyss (AbyssState sb (ab_blocks a) (block_bitmap a) (abyssfs_initialized a)) s).

Definition set_blocks (p : option Z) : K unit :=
  modify (λ s, let a := ks_abyss s in
    set_abyss (AbyssState (ab_sb a) p (block_bitmap a) (abyssfs_initialized a)) s).

Definition set_bitmap (b : Z) : K unit :=
  modify (λ s, let a := ks_abyss s in
    set_abyss (AbyssState (ab_sb a) (ab_blocks a) b (abyssfs_initialized a)) s).

Definition with_free (n : Z) (sb : abyssfs_super_block) : abyssfs_super_block :=
  AbyssSb (sb_magic sb) (sb_block_size sb) (sb_total_blocks sb) (sb_inode_blocks sb)
    (sb_data_blocks sb) n (sb_first_data_block sb) (sb_num_inodes sb).

Definition get_sb : K abyssfs_super_block := a ← gets ks_abyss; mret (ab_sb a).

Definition blocks_ptr : K Z := a ← gets ks_abyss; unwrap (ab_blocks a).

(** A leading slash is skipped. *)
Definition skip_slash (path : str) : str :=
  match path with c :: p => if c =? 47 then p else path | [] => [] end.

Module Abyss.

(** ** Blocks and inodes *)

Definition get_block (block_num : Z) : K (option Z) :=
  sb ← get_sb;
  if sb_total_blocks sb <=? block_num then mret None
  else b ← blocks_ptr; mret (Some (b + block_num * BLOCK_SIZE)).

(** The scan of the bitmap over the [n] blocks from [i] on. *)
Fixpoint alloc_block_loop (n : nat) (i : Z) : K Z :=
  match n with
  | O => mret 0
  | S n =>
      a ← gets ks_abyss;
      if Z.land (block_bitmap a) (Z.shiftl 1 i) =? 0 then
        set_bitmap (Z.lor (block_bitmap a) (Z.shiftl 1 i));;
        set_sb (with_free (u32 (sb_free_blocks (ab_sb a) - 1)) (ab_sb a));;
        mret i
      else alloc_block_loop n (i + 1)
  end.

Definition alloc_block : K Z :=
  sb ← get_sb;
  alloc_block_loop (Z.to_nat (sb_total_blocks sb - sb_first_data_block sb)) (sb_first_data_block sb).

Definition free_block (block_num : Z) : K unit :=
  a ← gets ks_abyss;
  if block_num <? sb_total_blocks (ab_sb a) then
    set_bitmap (u64 (Z.land (block_bitmap a) (Z.lnot (Z.shiftl 1 block_num))));;
    set_sb (with_free (u32 (sb_free_blocks (ab_sb a) + 1)) (ab_sb a))
  else mret tt.

Definition get_inode (inode_num : Z) : K (option Z) :=
  sb ← get_sb;
  if u32 (sb_inode_blocks sb * BLOCK_SIZE) / sizeof_inode <=? inode_num then mret None
  else
    let inodes_per_block := BLOCK_SIZE / sizeof_inode in
    let block := 1 + inode_num / inodes_per_block in
    let offset := inode_num `mod` inodes_per_block in
    o ← get_block block;
    match o with
    | None => mret None
    | Some block_ptr => mret (Some (block_ptr + offset * sizeof_inode))
    end.

Fixpoint alloc_inode_loop (n : nat) (i : Z) : K Z :=
  match n with
  | O => uart_puts (ln "No free inodes found");; mret 0
  | S n =>
      o ← get_inode i;
      match o with
      | None =>
          uart_puts (bs "Failed to get inode ");; uart_putc (u8 (48 + i));; uart_puts (ln "");;
          alloc_inode_loop n (i + 1)
      | Some inode =>
          mode ← ld32 (i_mode inode);
          if mode =? 0 then
            memset_at inode 0 sizeof_inode;;
            st32 (i_mode inode) 0x1FF;;
            mret i
          else alloc_inode_loop n (i + 1)
      end
  end.

Definition alloc_inode : K Z :=
  sb ← get_sb;
  let inodes_per_block := BLOCK_SIZE / sizeof_inode in
  let max_inodes := u32 (sb_inode_blocks sb * inodes_per_block) in
  alloc_inode_loop (Z.to_nat (max_inodes - 1)) 1.

(** ** Directories *)

(** [while (dir && dir->rec_len > 0)]: the first entry from [dir] on whose
    name is [name]. *)
Fixpoint find_entry (fuel : nat) (dir : Z) (name : str) : K (option Z) :=
  match fuel with
  | O => nofuel
  | S fuel =>
      rec ← ld8 (e_rec_len dir);
      if 0 <? rec then
        c ← strcmp_at (e_name dir) name;
        if c =? 0 then mret (Some dir)
        else rec ← ld8 (e_rec_len dir); find_entry fuel (dir + rec) name
      else mret None
  end.

(** The loop over the tokens of the path. *)
Fixpoint walk_path (inode : Z) (tokens : list str) : K (option Z) :=
  match tokens with
  | [] => mret (Some inode)
  | token :: tokens =>
      dir_block ← ld32 (i_blocks inode);
      if dir_block =? 0 then uart_puts (ln "Invalid directory block");; mret None
      else
        o ← get_block dir_block;
        r ← match o with
            | None => mret None
            | Some dir => fuel ← heap_span; find_entry fuel dir token
            end;
        match r with
        | None =>
            uart_puts (bs "Path component not found: ");; uart_puts token;; uart_puts (ln "");;
            mret None
        | Some dir =>
            n ← ld32 (e_inode dir);
            o ← get_inode n;
            match o, tokens with
            | Some inode, _ => walk_path inode tokens
            | None, [] => mret None
            | None, _ => fault
            end
        end
  end.

(** [strtok_r] over a local copy of the path yields its components. *)
Definition get_inode_by_path (path : str) : K (option Z) :=
  inode ← get_inode 1;
  let path := skip_slash path in
  match path with
  | [] => mret inode
  | _ => let path_copy := take 255 path in
         inode ← unwrap inode;
         walk_path inode (s_split (bs "/") path_copy)
  end.

(** The last entry of the directory block ([prev]), if it has one. *)
Fixpoint last_entry (fuel : nat) (block_end : Z) (prev : option Z) (entry : Z) : K (option Z) :=
  match fuel with
  | O => nofuel
  | S fuel =>
      if entry <? block_end then
        rec ← ld8 (e_rec_len entry);
        if 0 <? rec then last_entry fuel block_end (Some entry) (entry + rec) else mret prev
      else mret prev
  end.

(** The fields of the new entry. *)
Definition put_entry (entry inode_num : Z) (filename : str) : K unit :=
  st32 (e_inode entry) inode_num;;
  st8 (e_name_len entry) (zlen filename);;
  nl ← ld8 (e_name_len entry);
  st8 (e_rec_len entry) (round_up (FIXED_SIZE + nl + 1) 4);;
  nl ← ld8 (e_name_len entry);
  st_bytes (e_name entry) (take (Z.to_nat nl) filename);;
  nl ← ld8 (e_name_len entry);
  st8 (e_name entry + nl) 0.

(** The part that [create_file] and [abyssfs_mkdir] share: the new entry
    goes after the last one, which is cut to its minimal size. *)
Definition add_entry (block_start inode_num : Z) (filename : str) : K unit :=
  let block_end := block_start + BLOCK_SIZE in
  o ← last_entry (S (Z.to_nat BLOCK_SIZE)) block_end None block_start;
  entry ← match o with
          | Some prev =>
              nl ← ld8 (e_name_len prev);
              let prev_min := round_up (FIXED_SIZE + nl + 1) 4 in
              st8 (e_rec_len prev) prev_min;;
              memset_at (prev + prev_min) 0 (u64 (block_end - (prev + prev_min)));;
              mret (prev + prev_min)
          | None => mret block_start
          end;
  put_entry entry inode_num filename.

(** [dir_inode->blocks], the root directory's when the root's is 0. *)
Definition dir_block_of (dir_inode : Z) (complaint : str) : K (option Z) :=
  dir_block ← ld32 (i_blocks dir_inode);
  if dir_block =? 0 then
    root ← get_inode 1;
    if bool_decide (root = Some dir_inode) then
      sb ← get_sb; mret (Some (u32 (sb_inode_blocks sb + 1)))
    else uart_puts complaint;; mret None
  else mret (Some dir_block).

Definition create_file (name : str) (inode_num : Z) : K Z :=
  let path_copy := take 255 name in
  r ← match s_strrchr path_copy 47 with
      | Some k =>
          let filename := drop (S k) path_copy in
          let path_copy := take k path_copy in
          match path_copy with
          | [] => o ← get_inode 1; mret (Some (filename, o))
          | _ =>
              o ← get_inode_by_path path_copy;
              match o with
              | None =>
                  uart_puts (bs "DEBUG: Failed to get directory inode for path: ");;
                  uart_puts path_copy;; uart_puts (ln "");; mret None
              | Some _ => mret (Some (filename, o))
              end
          end
      | None =>
          cur ← current;
          if negb (s_strcmp (p_cwd cur) (bs "/") =? 0) then
            o ← get_inode_by_path (tail (p_cwd cur));
            match o with
            | None => uart_puts (ln "Failed to get directory inode");; mret None
            | Some _ => mret (Some (name, o))
            end
          else o ← get_inode 1; mret (Some (name, o))
      end;
  match r with
  | None => mret (-1)
  | Some (filename, o) =>
      dir_inode ← unwrap o;
      b ← dir_block_of dir_inode (ln "Invalid directory block");
      match b with
      | None => mret (-1)
      | Some dir_block =>
          o ← get_block dir_block; block_start ← unwrap o;
          add_entry block_start inode_num filename;; mret 0
      end
  end.

(** ** Initialisation and mounting *)

Fixpoint zero_inodes (n : nat) (i : Z) : K unit :=
  match n with
  | O => mret tt
  | S n =>
      o ← get_inode i;
      match o with Some p => memset_at p 0 sizeof_inode | None => mret tt end;;
      zero_inodes n (i + 1)
  end.

Fixpoint mark_blocks (n : nat) (i : Z) : K unit :=
  match n with
  | O => mret tt
  | S n => a ← gets ks_abyss; set_bitmap (Z.lor (block_bitmap a) (Z.shiftl 1 i));; mark_blocks n (i + 1)
  end.

(** The "." and ".." entries of a new directory. *)
Definition init_dir (dir inode_num parent_num : Z) : K unit :=
  st32 (e_inode dir) inode_num;;
  st8 (e_name_len dir) 1;;
  let rec := round_up (FIXED_SIZE + 1 + 1) 4 in
  st8 (e_rec_len dir) rec;;
  strcpy_at (e_name dir) (bs ".");;
  let dotdot := dir + rec in
  st32 (e_inode dotdot) parent_num;;
  st8 (e_name_len dotdot) 2;;
  st8 (e_rec_len dotdot) (BLOCK_SIZE - rec);;
  strcpy_at (e_name dotdot) (bs "..").

Definition abyssfs_init : K unit :=
  a ← gets ks_abyss;
  if abyssfs_initialized a then uart_puts (ln "FORCE DEBUG - AbyssFS already initialized")
  else
    let total_size := BLOCK_SIZE * 64 in
    o ← kalloc total_size;
    set_blocks o;;
    match o with
    | None => uart_puts (ln "Failed to allocate AbyssFS blocks")
    | Some blocks =>
        memset_at blocks 0 total_size;;
        let inode_blocks := 8 in
        let data_blocks := 64 - inode_blocks - 1 in
        sb ← get_sb;
        set_sb (AbyssSb ABYSSFS_MAGIC BLOCK_SIZE 64 inode_blocks data_blocks data_blocks
                  (inode_blocks + 1) (sb_num_inodes sb));;
        uart_puts (bs "AbyssFS initialized with ");;
        uart_putc (u8 (48 + 64 / 10));;
        uart_putc (u8 (48 + 64 `mod` 10));;
        uart_puts (bs " blocks (");;
        uart_putc (u8 (48 + inode_blocks));;
        uart_puts (ln " inode blocks)");;
        zero_inodes (Z.to_nat inode_blocks) 0;;
        set_bitmap 0;;
        mark_blocks (S (Z.to_nat inode_blocks)) 0;;
        root ← get_inode 1;
        match root with
        | None => mret tt
        | Some root_inode =>
            st32 (i_mode root_inode) 0x4000;;
            st32 (i_size root_inode) BLOCK_SIZE;;
            st32 (i_blocks root_inode) (inode_blocks + 1);;
            b ← ld32 (i_blocks root_inode);
            o ← get_block b;
            match o with None => mret tt | Some root_dir => init_dir root_dir 1 1 end
        end;;
        a ← gets ks_abyss;
        set_bitmap (Z.lor (block_bitmap a) (Z.shiftl 1 (inode_blocks + 1)));;
        modify (λ s, let a := ks_abyss s in
          set_abyss (AbyssState (ab_sb a) (ab_blocks a) (block_bitmap a) true) s);;
        uart_puts (ln "FORCE DEBUG - AbyssFS initialized for first time")
    end.

Definition abyssfs_mount : K (option vfs_super_block) :=
  o ← kalloc sizeof_vfs_super_block;
  match o with
  | None => mret None
  | Some _ => abyssfs_init;; mret (Some (VfsSb ABYSSFS_MAGIC (bs "abyssfs")))
  end.

(** ** Files *)

(** [private_data] used as an inode number. *)
Definition inode_of (f : vfs_file) : K Z :=
  match private_data f with Pino n => mret (u32 n) | Pram _ => fault end.

(** The return value, and the bytes stored into the caller's buffer. *)
Definition abyssfs_read (fp count : Z) : K (Z * list Z) :=
  file ← get_vfile fp; inode_num ← inode_of file;
  o ← get_inode inode_num;
  match o with
  | None => mret (-1, [])
  | Some inode =>
      size ← ld32 (i_size inode);
      if size <=? f_pos file then mret (0, [])
      else
        let count := if size <? u64 (f_pos file + count) then u64 (size - f_pos file) else count in
        block ← ld32 (i_blocks inode);
        base ← blocks_ptr;
        buf ← ld_bytes (base + u32 (block * BLOCK_SIZE) + f_pos file) (Z.to_nat count);
        set_vfile fp (VfsFile (f_ops file) (f_path file) (private_data file) (u64 (f_pos file + count)));;
        mret (count, buf)
  end.

Definition write_to_blocks (inode : Z) (buf : list Z) (count : Z) : K Z :=
  let count := if BLOCK_SIZE <? count then BLOCK_SIZE else count in
  block ← ld32 (i_blocks inode);
  ok ← (if block =? 0 then
          block_num ← alloc_block;
          if block_num =? 0 then mret false else st32 (i_blocks inode) block_num;; mret true
        else mret true);
  if (ok : bool) then
    block ← ld32 (i_blocks inode);
    base ← blocks_ptr;
    if count <=? zlen buf then
      st_bytes (base + u32 (block * BLOCK_SIZE)) (take (Z.to_nat count) buf);; mret count
    else fault
  else mret 0.

Definition abyssfs_write (fp : Z) (buf : list Z) (count : Z) : K Z :=
  file ← get_vfile fp; inode_num ← inode_of file;
  o ← get_inode inode_num;
  match o with
  | None => mret (-1)
  | Some inode =>
      written ← write_to_blocks inode buf count;
      (if 0 <? written then
         size ← ld32 (i_size inode); st32 (i_size inode) (u32 (size + written))
       else mret tt);;
      mret written
  end.

Definition abyssfs_create (path : str) : K (option Z) :=
  let path := skip_slash path in
  inode_num ← alloc_inode;
  if inode_num =? 0 then mret None
  else
    inode ← get_inode inode_num;
    match inode with
    | None => mret None
    | Some _ =>
        r ← create_file path inode_num;
        if r <? 0 then mret None
        else
          o ← kalloc sizeof_vfs_file;
          match o with
          | None => mret None
          | Some fp => set_vfile fp (VfsFile (Some ABYSSFS) [] (Pino inode_num) 0);; mret (Some fp)
          end
    end.

(** The static duplicate of [abyssfs_create] that nothing calls. *)
Definition abyssfs_create_file (path : str) : K (option Z) :=
  let path := skip_slash path in
  inode_num ← alloc_inode;
  if inode_num =? 0 then uart_puts (ln "AbyssFS: Failed to allocate inode");; mret None
  else
    r ← create_file path inode_num;
    if r <? 0 then uart_puts (ln "AbyssFS: Failed to create file");; mret None
    else
      o ← kalloc sizeof_vfs_file;
      match o with
      | None => mret None
      | Some fp =>
          set_vfile fp (VfsFile (Some ABYSSFS) (take (Z.to_nat (VFS_MAX_PATH - 1)) path) (Pino inode_num) 0);;
          mret (Some fp)
      end.

(** [private_data] is NULL, which the other operations read as inode 0;
    [f_pos] keeps the 0 of fresh heap memory. *)
Definition abyssfs_open (path : str) : K (option Z) :=
  o ← kalloc sizeof_vfs_file;
  match o with
  | None => mret None
  | Some fp =>
      set_vfile fp (VfsFile (Some ABYSSFS) (take (Z.to_nat (VFS_MAX_PATH - 1)) path) (Pino 0) 0);;
      mret (Some fp)
  end.

(** [while (dir && dir->rec_len > 0 && entry_count < max_entries)]. *)
Fixpoint read_entries (fuel : nat) (dir room : Z) : K (list dirent) :=
  match fuel with
  | O => nofuel
  | S fuel =>
      rec ← ld8 (e_rec_len dir);
      if (0 <? rec) && (0 <? room) then
        n ← ld32 (e_inode dir);
        name ← strcpy_from 256 (e_name dir);
        rec ← ld8 (e_rec_len dir);
        l ← read_entries fuel (dir + rec) (room - 1);
        mret (Dirent n name :: l)
      else mret []
  end.

(** The entries stored into [dirents]; their number is the return value. *)
Definition abyssfs_read_dir (path : str) (max_entries : Z) : K (Z * list dirent) :=
  let path := skip_slash path in
  r ← match path with
      | [] => sb ← get_sb; mret (Some (u32 (sb_inode_blocks sb + 1)))
      | _ =>
          o ← get_inode_by_path path;
          match o with
          | None => mret None
          | Some dir_inode => b ← ld32 (i_blocks dir_inode); mret (Some b)
          end
      end;
  match r with
  | None => mret (-1, [])
  | Some dir_block =>
      o ← get_block dir_block;
      match o with
      | None => uart_puts (ln "DEBUG: Failed to get directory block");; mret (-1, [])
      | Some dir =>
          fuel ← heap_span;
          l ← read_entries fuel dir (u64 max_entries);
          mret (zlen l, l)
      end
  end.

Definition abyssfs_unlink (path : str) : K Z :=
  let path := skip_slash path in
  sb ← get_sb;
  let root_block := u32 (sb_inode_blocks sb + 1) in
  o ← get_block root_block;
  r ← match o with
      | None => mret None
      | Some dir => fuel ← heap_span; find_entry fuel dir path
      end;
  match r with
  | None => uart_puts (ln "AbyssFS: Entry not found");; mret (-1)
  | Some dir =>
      n ← ld32 (e_inode dir);
      inode ← get_inode n;
      match inode with
      | None => mret tt
      | Some inode =>
          st32 (i_mode inode) 0;;
          b ← ld32 (i_blocks inode);
          if negb (b =? 0) then free_block b else mret tt
      end;;
      rec ← ld8 (e_rec_len dir);
      let next := dir + rec in
      next_rec ← ld8 (e_rec_len next);
      (if 0 <? next_rec then
         o ← get_block root_block; root ← unwrap o;
         memmove_at dir next (u64 (BLOCK_SIZE - (next - root)))
       else rec ← ld8 (e_rec_len dir); memset_at dir 0 rec);;
      mret 0
  end.

(** The loop that looks for the number of [parent_inode]. *)
Fixpoint inode_number (n : nat) (i parent_inode : Z) : K Z :=
  match n with
  | O => mret 1
  | S n => o ← get_inode i;
           if bool_decide (o = Some parent_inode) then mret i else inode_number n (i + 1) parent_inode
  end.

Definition abyssfs_mkdir (path : str) : K Z :=
  path_copy ← strcpy_to VFS_MAX_PATH path;
  match s_strrchr path_copy 47 with
  | None => mret (-1)
  | Some k =>
      let basename := drop (S k) path_copy in
      if zlen basename =? 0 then uart_puts (ln "AbyssFS: Empty basename");; mret (-1)
      else
        let parent_path := take k path_copy in
        let parent_path := if zlen parent_path =? 0 then bs "/" else parent_path in
        parent ← (if s_strcmp parent_path (bs "/") =? 0 then
                    p ← get_inode 1; mret (Some (p, 1))
                  else
                    o ← get_inode_by_path (tail parent_path);
                    match o with
                    | None => uart_puts (ln "AbyssFS: Parent directory not found");; mret None
                    | Some p => n ← inode_number 512 1 p; mret (Some (o, n))
                    end);
        match parent with
        | None => mret (-1)
        | Some (parent_inode, parent_inode_num) =>
            inode_num ← alloc_inode;
            if inode_num =? 0 then mret (-1)
            else
              o ← get_inode inode_num;
              match o with
              | None => mret (-1)
              | Some inode =>
                  dir_block ← alloc_block;
                  if dir_block =? 0 then mret (-1)
                  else
                    st32 (i_blocks inode) dir_block;;
                    st32 (i_size inode) BLOCK_SIZE;;
                    mode ← ld32 (i_mode inode);
                    st32 (i_mode inode) (Z.lor mode 0x4000);;
                    o ← get_block dir_block;
                    match o with
                    | None => mret (-1)
                    | Some dir =>
                        init_dir dir inode_num parent_inode_num;;
                        parent_inode ← unwrap parent_inode;
                        b ← dir_block_of parent_inode (ln "Invalid parent directory block");
                        match b with
                        | None => mret (-1)
                        | Some parent_block =>
                            o ← get_block parent_block; block_start ← unwrap o;
                            add_entry block_start inode_num basename;; mret 0
                        end
                    end
              end
        end
  end.

(** Each call extends the path by at least a slash. *)
Fixpoint abyssfs_remove_recursive (fuel : nat) (path : str) : K Z :=
  match fuel with
  | O => nofuel
  | S fuel =>
      '(_, entries) ← abyssfs_read_dir path 256;
      (fix remove (entries : list dirent) : K unit :=
         match entries with
         | [] => mret tt
         | e :: entries =>
             (if (s_strcmp (d_name e) (bs ".") =? 0) || (s_strcmp (d_name e) (bs "..") =? 0)
              then mret tt
              else
                full_path ← strcpy_to VFS_MAX_PATH path;
                full_path ← strcat_to VFS_MAX_PATH full_path (bs "/");
                full_path ← strcat_to VFS_MAX_PATH full_path (d_name e);
                o ← get_inode (d_inode e);
                dir ← match o with
                      | None => mret false
                      | Some inode => mode ← ld32 (i_mode inode);
                                      mret (negb (Z.land mode 0x4000 =? 0))
                      end;
                (if (dir : bool) then abyssfs_remove_recursive fuel full_path
                 else abyssfs_unlink full_path);; mret tt);;
             remove entries
         end) entries;;
      abyssfs_unlink path
  end.

Definition test_abyssfs : K unit :=
  uart_puts (ln "" ++ ln "=== Testing AbyssFS ===");;
  uart_puts (ln "Testing inode allocation:");;
  inode_num ← alloc_inode;
  uart_puts (bs "Allocated inode: ");; uart_putc (u8 (48 + inode_num));; uart_puts (ln "");;
  o ← get_inode inode_num;
  match o with
  | None => uart_puts (ln "Failed to get inode")
  | Some inode =>
      st32 (i_mode inode) 0x1FF;;
      st32 (i_size inode) 0;;
      st32 (i_blocks inode) 0;;
      uart_puts (ln "Inode set up successfully");;
      uart_puts (bs "About to create file with inode: ");;
      uart_putc (u8 (48 + inode_num));; uart_puts (ln "");;
      let test_file := bs "hello.txt" in
      r ← create_file test_file inode_num;
      if r =? 0 then
        uart_puts (bs "Created file: /");; uart_puts test_file;; uart_puts (ln "")
      else uart_puts (ln "Failed to create file")
  end.

(** Two static helpers of the file: the prefix test on paths and the lazy
    allocation of the blocks. *)
Fixpoint strip_common (dir file : str) : str * str :=
  match dir, file with
  | a :: dir', b :: file' => if a =? b then strip_common dir' file' else (dir, file)
  | _, _ => (dir, file)
  end.

Definition is_file_in_dir (file_path dir_path : str) : bool :=
  let '(dir, file) := strip_common (skip_slash dir_path) (skip_slash file_path) in
  match dir, file with
  | [], [] => true
  | [], b :: _ => b =? 47
  | _, _ => false
  end.

Definition allocate_blocks : K Z :=
  a ← gets ks_abyss;
  match ab_blocks a with
  | Some _ => mret 0
  | None =>
      o ← kalloc (BLOCK_SIZE * NUM_BLOCKS);
      set_blocks o;;
      match o with None => mret (-1) | Some _ => mret 0 end
  end.

(** ** Debugging aids of the file *)

Definition debug_dir_entry (dir : Z) : K unit :=
  inode ← ld32 (e_inode dir);
  uart_puts (bs "Dir entry: inode=");; uart_putc (u8 (48 + inode));;
  span ← heap_span; name ← strcpy_from span (e_name dir);
  uart_puts (bs ", name=");; uart_puts name;; uart_puts (ln "").

Definition test_inode_alloc : K unit :=
  inode ← alloc_inode;
  uart_puts (bs "Allocated inode: ");; uart_putc (u8 (48 + inode));; uart_puts (ln "").

Definition abyssfs_run_test : K unit := test_abyssfs.

Definition get_basename (path : str) : str :=
  match s_strrchr path 47 with Some i => drop (S i) path | None => path end.

End Abyss.
