(* ===== verification/AbyssDir.v ===== *)
(** * AbyssDir: directories of AbyssFS as lists of entries

    A directory block is a chain of records, each of which says how far the
    next one is.  The theorems relate the loops of [src/src/fs/abyssfs.c]
    that walk and extend the chain to the list of entries it represents. *)

From stdpp Require Import base numbers list gmap strings.
From Corelib Require Import ssreflect.
From S2P Require Import Prelude CString State Kmalloc Uart Abyss.

Open Scope Z_scope.
Open Scope general_if_scope.

(** ** Heap accesses that succeed *)

(** The memory after storing the bytes [l] from [p] on. *)
Fixpoint upd (m : mem) (p : Z) (l : list Z) : mem :=
  match l with
  | [] => m
  | b :: l => upd (put m p b) (p + 1) l
  end.

Definition byte (b : Z) : Prop := 0 ≤ b < 256.

Definition le32 (v : Z) : list Z := [u8 v; u8 (v / 2 ^ 8); u8 (v / 2 ^ 16); u8 (v / 2 ^ 24)].

Lemma upd_bounds m p l : m_lo (upd m p l) = m_lo m ∧ m_hi (upd m p l) = m_hi m.
Proof. revert m p. induction l as [|b l IH]; intros m p; [done|]. simpl. by destruct (IH (put m p b) (p + 1)) as [-> ->]. Qed.

Lemma room_upd m p l q n : room (upd m p l) q n ↔ room m q n.
Proof. rw /room. by destruct (upd_bounds m p l) as [-> ->]. Qed.

Lemma upd_app m p l1 l2 : upd m p (l1 ++ l2) = upd (upd m p l1) (p + zlen l1) l2.
Proof.
  revert m p. induction l1 as [|b l1 IH]; intros m p; simpl; [by rw Z.add_0_r|].
  rw IH. f_equal. lia.
Qed.

Lemma rd_upd_ne m p l q : ¬ (p ≤ q < p + zlen l) → room m p (zlen l) → rd (upd m p l) q = rd m q.
Proof.
  revert m p. induction l as [|b l IH]; intros m p Hq Hr; [done|]. rw /room /= in Hq, Hr.
  simpl. rw IH; [lia|rw /room /=; lia|]. rw rd_put; [lia|]. rw decide_False; [lia|done].
Qed.

Lemma bytes_at_upd m p l : room m p (zlen l) → bytes_at (upd m p l) p l.
Proof.
  revert m p. induction l as [|b l IH]; intros m p Hr; [done|]. rw /room /= in Hr. simpl. split.
  - rw rd_upd_ne; [lia|rw /room /=; lia|]. rw rd_put; [lia|]. by rw decide_True.
  - apply IH. rw /room /=. lia.
Qed.

Lemma rd_upd_eq m p v : room m p 1 → rd (upd m p [v]) p = Some v.
Proof. intros Hr. by apply (bytes_at_upd m p [v]). Qed.

Lemma upd_only_changes m p l : room m p (zlen l) → only_changes p (zlen l) m (upd m p l).
Proof. intros Hr. destruct (upd_bounds m p l). split_and!; [done..|]. intros q Hq. by apply rd_upd_ne. Qed.

Lemma set_heap_id s : set_heap (ks_heap s) s = s.
Proof. by destruct s. Qed.

Lemma ld8_Ok s p v : rd (ks_heap s) p = Some v → ld8 p s = Ok v s.
Proof. intros H. rw /ld8 /zoom (load_Ok _ _ _ H). by rw set_heap_id. Qed.

Lemma st8_Ok s p v :
  room (ks_heap s) p 1 → st8 p v s = Ok tt (set_heap (upd (ks_heap s) p [u8 v]) s).
Proof. rw /room => H. rw /st8 /zoom store_Ok //. lia. Qed.

Lemma st_bytes_Ok s p l :
  room (ks_heap s) p (zlen l) → Forall byte l →
  st_bytes p l s = Ok tt (set_heap (upd (ks_heap s) p l) s).
Proof.
  revert s p. induction l as [|b l IH]; intros s p Hr Hb; simpl; [by rw set_heap_id|].
  apply Forall_cons in Hb as [Hb Hl]. rw /room /= in Hr.
  rw (bind_Ok _ _ _ _ _ (st8_Ok s p b ltac:(rw /room; lia))). rw u8_small //.
  rw IH //; rw /room /=; lia.
Qed.

Lemma st32_Ok s p v :
  room (ks_heap s) p 4 → st32 p v s = Ok tt (set_heap (upd (ks_heap s) p (le32 v)) s).
Proof.
  rw /room /st32 => H.
  do 3 (erewrite bind_Ok; [|apply st8_Ok; rw /room /=; lia]).
  rw st8_Ok; [rw /room /=; lia|]. by rw /= -!Z.add_assoc.
Qed.

Lemma ld_bytes_Ok s p l : bytes_at (ks_heap s) p l → ld_bytes p (length l) s = Ok l s.
Proof.
  revert p. induction l as [|b l IH]; intros p; [done|]. intros [Hb Hl]. simpl.
  rw (bind_Ok _ _ _ _ _ (ld8_Ok _ _ _ Hb)). by rw (bind_Ok _ _ _ _ _ (IH _ Hl)).
Qed.

Lemma le32_value v : 0 ≤ v < 2 ^ 32 →
  u8 v + 2 ^ 8 * u8 (v / 2 ^ 8) + 2 ^ 16 * u8 (v / 2 ^ 16) + 2 ^ 24 * u8 (v / 2 ^ 24) = v.
Proof.
  intros Hv. rw /u8. change (2 ^ 8) with 256. change (2 ^ 16) with (256 * 256).
  change (2 ^ 24) with (256 * 256 * 256). change (2 ^ 32) with (256 * 256 * 256 * 256) in Hv.
  rw -!Z.div_div; [lia..|]. pose proof (Z.div_mod v 256). pose proof (Z.div_mod (v / 256) 256).
  pose proof (Z.div_mod (v / 256 / 256) 256).
  rw (Z.mod_small (v / 256 / 256 / 256)); [|lia].
  split; [repeat apply Z.div_pos; lia|]. repeat (apply Z.div_lt_upper_bound; [lia|]). lia.
Qed.

Lemma ld32_Ok s p v : 0 ≤ v < 2 ^ 32 → bytes_at (ks_heap s) p (le32 v) → ld32 p s = Ok v s.
Proof.
  intros Hv. rw /le32 /= -!Z.add_assoc. intros (H0 & H1 & H2 & H3 & _). rw /ld32.
  rw (bind_Ok _ _ _ _ _ (ld8_Ok _ _ _ H0)) (bind_Ok _ _ _ _ _ (ld8_Ok _ _ _ H1)).
  rw (bind_Ok _ _ _ _ _ (ld8_Ok _ _ _ H2)) (bind_Ok _ _ _ _ _ (ld8_Ok _ _ _ H3)).
  by rw (le32_value v Hv).
Qed.

(** The 32-bit word at [p]. *)
Definition rd32 (m : mem) (p : Z) : option Z :=
  a ← rd m p; b ← rd m (p + 1); c ← rd m (p + 2); d ← rd m (p + 3);
  Some (a + 2 ^ 8 * b + 2 ^ 16 * c + 2 ^ 24 * d).

Lemma ld32_rd s p v : rd32 (ks_heap s) p = Some v → ld32 p s = Ok v s.
Proof.
  rw /rd32 /ld32 => H. apply bind_Some in H as (a & Ha & H). apply bind_Some in H as (b & Hb & H).
  apply bind_Some in H as (c & Hc & H). apply bind_Some in H as (d & Hd & H). injection H as <-.
  rw (bind_Ok _ _ _ _ _ (ld8_Ok _ _ _ Ha)) (bind_Ok _ _ _ _ _ (ld8_Ok _ _ _ Hb)).
  by rw (bind_Ok _ _ _ _ _ (ld8_Ok _ _ _ Hc)) (bind_Ok _ _ _ _ _ (ld8_Ok _ _ _ Hd)).
Qed.

Lemma rd32_room m p : room m p 4 → is_Some (rd32 m p).
Proof.
  rw /room /rd32 => H. destruct (rd_valid m p) as [a ->]; [lia|]. destruct (rd_valid m (p + 1)) as [b ->]; [lia|].
  destruct (rd_valid m (p + 2)) as [c ->]; [lia|]. destruct (rd_valid m (p + 3)) as [d ->]; [lia|]. by eexists.
Qed.

Lemma rd32_bytes m p v : 0 ≤ v < 2 ^ 32 → bytes_at m p (le32 v) → rd32 m p = Some v.
Proof.
  intros Hv. rw /le32 /= -!Z.add_assoc. intros (H0 & H1 & H2 & H3 & _). rw /rd32 H0 /= H1 /= H2 /= H3 /=.
  by rw (le32_value v Hv).
Qed.

Lemma rd32_same m m' p : (∀ q, p ≤ q < p + 4 → rd m' q = rd m q) → rd32 m' p = rd32 m p.
Proof. intros H. by rw /rd32 !H; [lia..|]. Qed.

Lemma rd32_upd m p v : 0 ≤ v < 2 ^ 32 → room m p 4 → rd32 (upd m p (le32 v)) p = Some v.
Proof. intros Hv Hr. apply rd32_bytes; [done|]. by apply bytes_at_upd. Qed.

Lemma rd32_upd_ne m p l q :
  room m p (zlen l) → q + 4 ≤ p ∨ p + zlen l ≤ q → rd32 (upd m p l) q = rd32 m q.
Proof. intros Hr Hq. apply rd32_same. intros x Hx. apply rd_upd_ne; [lia|done]. Qed.

Lemma le32_byte v : Forall byte (le32 v).
Proof. repeat constructor; apply u8_range. Qed.

Lemma memset_loop_upd n m p c :
  room m p (Z.of_nat n) → Lib.memset_loop n p c m = Ok tt (upd m p (replicate n (u8 c))).
Proof.
  rw /room. revert m p. induction n as [|n IH]; intros m p Hr; [done|]. simpl.
  rw (bind_Ok _ _ _ _ _ (store_Ok m p (u8 c) ltac:(lia))). apply IH. simpl. lia.
Qed.

Lemma memset_at_Ok s p c (n : nat) :
  room (ks_heap s) p (Z.of_nat n) →
  memset_at p c (Z.of_nat n) s = Ok tt (set_heap (upd (ks_heap s) p (replicate n (u8 c))) s).
Proof.
  intros Hr. rw /memset_at /in_heap /mbind /M_bind /=. rw /room in Hr.
  replace (_ && _) with true by lia. rw /zoom /Lib.memset Nat2Z.id.
  by rw /mbind /M_bind /= memset_loop_upd.
Qed.

Lemma strcmp_at_Ok s p name t :
  cstr (ks_heap s) p name → strcmp_at p t s = Ok (s_strcmp name t) s.
Proof.
  revert p name. induction t as [|b t IH]; intros p [|a name]; simpl.
  - intros H. by rw (bind_Ok _ _ _ _ _ (ld8_Ok _ _ _ H)).
  - intros (H & _ & _). rw (bind_Ok _ _ _ _ _ (ld8_Ok _ _ _ H)). by rw Z.sub_0_r.
  - intros H. by rw (bind_Ok _ _ _ _ _ (ld8_Ok _ _ _ H)).
  - intros (H & Ha & Hn). rw (bind_Ok _ _ _ _ _ (ld8_Ok _ _ _ H)).
    destruct (a =? 0) eqn:E; zbool; [done|]. simpl. destruct (a =? b); [by apply IH|done].
Qed.

Lemma strcpy_from_Ok s p name n :
  cstr (ks_heap s) p name → (length name < n)%nat → strcpy_from n p s = Ok name s.
Proof.
  revert p name. induction n as [|n IH]; intros p [|a name]; simpl; [lia..| |].
  - intros H _. by rw (bind_Ok _ _ _ _ _ (ld8_Ok _ _ _ H)).
  - intros (H & Ha & Hn) Hl. rw (bind_Ok _ _ _ _ _ (ld8_Ok _ _ _ H)).
    destruct (a =? 0) eqn:E; zbool; [done|]. by rw (bind_Ok _ _ _ _ _ (IH _ _ Hn ltac:(lia))).
Qed.

(** ** Entries *)

Record dentry := Dentry { de_inode : Z; de_name : str; de_rec : Z }.

(** The bytes of an entry, up to the terminator of its name. *)
Definition enc_entry (d : dentry) : list Z :=
  le32 (de_inode d) ++ [zlen (de_name d); de_rec d] ++ de_name d ++ [0].

Definition min_rec (name : str) : Z := round_up (FIXED_SIZE + zlen name + 1) 4.

(** Names of at most 245 bytes: the record length fits [uint8_t]. *)
Definition name_ok (name : str) : Prop := is_str name ∧ (length name ≤ 245)%nat.

Definition entry_ok (d : dentry) : Prop :=
  0 ≤ de_inode d < 2 ^ 32 ∧ name_ok (de_name d) ∧ zlen (de_name d) + 7 ≤ de_rec d < 256.

Definition entry_at (m : mem) (p : Z) (d : dentry) : Prop :=
  bytes_at m p (enc_entry d) ∧ entry_ok d.

(** The chain of entries from [p] on ends at [e]. *)
Fixpoint dir_at (m : mem) (p : Z) (ds : list dentry) (e : Z) : Prop :=
  match ds with
  | [] => p = e
  | d :: ds => entry_at m p d ∧ dir_at m (p + de_rec d) ds e
  end.

(** The chain is followed by a record of length 0. *)
Definition dir_list (m : mem) (p : Z) (ds : list dentry) (e : Z) : Prop :=
  dir_at m p ds e ∧ rd m (e + 5) = Some 0.

Lemma min_rec_bounds name :
  (length name ≤ 245)%nat → zlen name + 7 ≤ min_rec name ≤ zlen name + 10 ∧ min_rec name < 256.
Proof.
  intros Hl. set f := λ n, let r := round_up (FIXED_SIZE + n + 1) 4 in
    (n + 7 <=? r) && (r <=? n + 10) && (r <? 256).
  assert (forallb f (seqZ 0 246) = true) as Hf by (vm_compute; done).
  rw forallb_forall in Hf. specialize (Hf (zlen name)).
  assert (f (zlen name) = true) as Hn by (apply Hf, list_elem_of_In, elem_of_seqZ; lia).
  rw /f in Hn. zbool. rw /min_rec. lia.
Qed.

Lemma enc_entry_length d : zlen (enc_entry d) = zlen (de_name d) + 7.
Proof. rw /enc_entry !length_app /=. lia. Qed.

Lemma entry_at_rec m p d : entry_at m p d → rd m (e_rec_len p) = Some (de_rec d).
Proof.
  intros [Hb _]. rw bytes_at_lookup in Hb. by apply (Hb 5%nat).
Qed.

Lemma entry_at_name_len m p d : entry_at m p d → rd m (e_name_len p) = Some (zlen (de_name d)).
Proof. intros [Hb _]. rw bytes_at_lookup in Hb. by apply (Hb 4%nat). Qed.

Lemma entry_at_inode m p d : entry_at m p d → bytes_at m (e_inode p) (le32 (de_inode d)).
Proof. intros [Hb _]. rw /enc_entry bytes_at_app in Hb. apply Hb. Qed.

Lemma entry_at_name m p d : entry_at m p d → cstr m (e_name p) (de_name d).
Proof.
  intros [Hb (_ & [Hn _] & _)]. rw /enc_entry !bytes_at_app /= in Hb. destruct Hb as (_ & _ & Hb).
  apply cstr_bytes. split.
  - apply bytes_at_app. rw /e_name. by replace (p + 6) with (p + 4 + 2) by lia.
  - eapply Forall_impl; [exact Hn|]. simpl. lia.
Qed.

Lemma entry_at_same m m' p d :
  (∀ q, p ≤ q < p + de_rec d → rd m' q = rd m q) → entry_at m p d → entry_at m' p d.
Proof.
  intros Hs [Hb Hok]. split; [|done]. apply (bytes_at_same m); [|done].
  intros q. rw enc_entry_length. destruct Hok as (_ & _ & Hr). intros. apply Hs. lia.
Qed.

Lemma dir_at_app m p ds1 ds2 e :
  dir_at m p (ds1 ++ ds2) e ↔ ∃ q, dir_at m p ds1 q ∧ dir_at m q ds2 e.
Proof.
  revert p. induction ds1 as [|d ds1 IH]; intros p; simpl.
  - split; [intros; by exists p|]. by intros (q & -> & ?).
  - rw IH. split; [intros (? & q & ? & ?); by exists q|intros (q & [??] & ?); split; [done|by exists q]].
Qed.

Lemma dir_at_le m p ds e : dir_at m p ds e → p + 7 * zlen ds ≤ e.
Proof.
  revert p. induction ds as [|d ds IH]; intros p; simpl; [intros ->; lia|].
  intros [[_ (_ & _ & Hr)] Hd%IH]. lia.
Qed.

Lemma dir_at_end m m' p ds e e' : dir_at m p ds e → dir_at m' p ds e' → e' = e.
Proof.
  revert p. induction ds as [|d ds IH]; intros p; simpl; [congruence|]. intros [_ H] [_ H']. by apply (IH _ H H').
Qed.

Lemma dir_at_same m m' p ds e :
  (∀ q, p ≤ q < e → rd m' q = rd m q) → dir_at m p ds e → dir_at m' p ds e.
Proof.
  revert p. induction ds as [|d ds IH]; intros p Hs; simpl; [done|]. intros [Hd Hds].
  pose proof (dir_at_le _ _ _ _ Hds). assert (7 ≤ de_rec d) by (destruct Hd as [_ (_ & _ & ?)]; lia).
  split; [apply (entry_at_same m); [|done]; intros; apply Hs; lia|].
  apply IH; [|done]. intros. apply Hs. lia.
Qed.

(** ** Walking the chain *)

Definition to_dirent (d : dentry) : dirent := Dirent (de_inode d) (de_name d).

(** The address of the first entry with this name. *)
Fixpoint entry_addr (p : Z) (ds : list dentry) (name : str) : option (Z * dentry) :=
  match ds with
  | [] => None
  | d :: ds => if s_strcmp (de_name d) name =? 0 then Some (p, d)
               else entry_addr (p + de_rec d) ds name
  end.

Lemma find_entry_Ok s p ds e name fuel :
  dir_list (ks_heap s) p ds e → (length ds < fuel)%nat →
  Abyss.find_entry fuel p name s = Ok (fst <$> entry_addr p ds name) s.
Proof.
  intros [Hd He]. revert p fuel Hd. induction ds as [|d ds IH]; intros p [|fuel] Hd Hf; simpl in *; try lia.
  - subst p. by rw (bind_Ok _ _ _ _ _ (ld8_Ok _ _ _ He)).
  - destruct Hd as [Hd Hds]. pose proof (ld8_Ok _ _ _ (entry_at_rec _ _ _ Hd)) as Hr.
    rw (bind_Ok _ _ _ _ _ Hr). assert (7 ≤ de_rec d) by (destruct Hd as [_ (_ & _ & ?)]; lia).
    replace (0 <? de_rec d) with true by lia.
    rw (bind_Ok _ _ _ _ _ (strcmp_at_Ok _ _ _ name (entry_at_name _ _ _ Hd))).
    destruct (s_strcmp (de_name d) name =? 0); [done|].
    rw (bind_Ok _ _ _ _ _ Hr). apply IH; [done|lia].
Qed.

Lemma read_entries_Ok s p ds e k fuel :
  dir_list (ks_heap s) p ds e → (length ds < fuel)%nat → 0 ≤ k →
  Abyss.read_entries fuel p k s = Ok (take (Z.to_nat k) (to_dirent <$> ds)) s.
Proof.
  intros [Hd He]. revert p fuel k Hd. induction ds as [|d ds IH]; intros p [|fuel] k Hd Hf Hk; simpl in *; try lia.
  - subst p. rw (bind_Ok _ _ _ _ _ (ld8_Ok _ _ _ He)). by rw take_nil.
  - destruct Hd as [Hd Hds]. pose proof (ld8_Ok _ _ _ (entry_at_rec _ _ _ Hd)) as Hr.
    rw (bind_Ok _ _ _ _ _ Hr). pose proof Hd as [_ (Hi & [_ Hl] & Hrec)].
    replace (0 <? de_rec d) with true by lia. simpl. destruct (0 <? k) eqn:E; zbool.
    + rw (bind_Ok _ _ _ _ _ (ld32_Ok _ _ _ Hi (entry_at_inode _ _ _ Hd))).
      rw (bind_Ok _ _ _ _ _ (strcpy_from_Ok _ _ _ 256 (entry_at_name _ _ _ Hd) ltac:(lia))).
      rw (bind_Ok _ _ _ _ _ Hr). rw (bind_Ok _ _ _ _ _ (IH _ fuel (k - 1) Hds ltac:(lia) ltac:(lia))).
      by replace (Z.to_nat k) with (S (Z.to_nat (k - 1))) by lia.
    + by replace k with 0 by lia.
Qed.

(** [last_entry] over a chain that ends in a record of length 0 or at the
    end of the block. *)
Lemma last_entry_Ok s bend p ds q d e prev fuel :
  dir_at (ks_heap s) p ds q → entry_at (ks_heap s) q d → q < bend → e = q + de_rec d →
  bend ≤ e ∨ rd (ks_heap s) (e + 5) = Some 0 →
  (S (length ds) < fuel)%nat →
  Abyss.last_entry fuel bend prev p s = Ok (Some q) s.
Proof.
  intros Hds Hd Hq -> He. revert p prev fuel Hds.
  induction ds as [|d' ds IH]; intros p prev [|fuel] Hds Hf; simpl in *; try lia.
  - subst p. replace (q <? bend) with true by lia.
    rw (bind_Ok _ _ _ _ _ (ld8_Ok _ _ _ (entry_at_rec _ _ _ Hd))).
    assert (7 ≤ de_rec d) by (destruct Hd as [_ (_ & _ & ?)]; lia).
    replace (0 <? de_rec d) with true by lia. destruct fuel; [lia|]. simpl.
    destruct (q + de_rec d <? bend) eqn:E; zbool; [|done].
    destruct He as [|He]; [lia|]. by rw (bind_Ok _ _ _ _ _ (ld8_Ok _ _ _ He)).
  - destruct Hds as [Hd' Hds]. pose proof (dir_at_le _ _ _ _ Hds).
    assert (7 ≤ de_rec d') by (destruct Hd' as [_ (_ & _ & ?)]; lia).
    replace (p <? bend) with true by lia.
    rw (bind_Ok _ _ _ _ _ (ld8_Ok _ _ _ (entry_at_rec _ _ _ Hd'))).
    replace (0 <? de_rec d') with true by lia. apply IH; [done|lia].
Qed.

(** ** Extending the chain *)

Lemma put_entry_Ok s p n name :
  room (ks_heap s) p (zlen name + 7) → name_ok name →
  Abyss.put_entry p n name s =
  Ok tt (set_heap (upd (ks_heap s) p (enc_entry (Dentry n name (min_rec name)))) s).
Proof.
  rw /room. intros Hr [Hn Hl]. rw /Abyss.put_entry /e_inode /e_name_len /e_rec_len /e_name.
  assert (Hb : Forall byte name) by (eapply Forall_impl; [exact Hn|]; rw /byte; simpl; lia).
  destruct (min_rec_bounds name Hl) as [Hm1 Hm2].
  rw (bind_Ok _ _ _ _ _ (st32_Ok s p n ltac:(rw /room; lia))).
  erewrite bind_Ok; [|apply st8_Ok; rw room_upd /room /=; lia].
  set m1 := upd _ (p + 4) _. assert (Hnl : rd m1 (p + 4) = Some (zlen name)).
  { rw /m1 (u8_small (zlen name)); [lia|]. apply rd_upd_eq. rw room_upd /room /=. lia. }
  rw (bind_Ok _ _ _ _ _ (ld8_Ok (set_heap m1 s) _ _ Hnl)).
  erewrite bind_Ok; [|apply st8_Ok; rw !room_upd /room /=; lia].
  fold (min_rec name). set m2 := upd _ (p + 5) _. assert (Hnl2 : rd m2 (p + 4) = Some (zlen name)).
  { rw /m2 rd_upd_ne //=; [lia|]. rw !room_upd /room. lia. }
  rw (bind_Ok _ _ _ _ _ (ld8_Ok (set_heap m2 s) _ _ Hnl2)). rw Nat2Z.id firstn_all.
  erewrite bind_Ok; [|apply st_bytes_Ok; [rw !room_upd /room /=; lia|done]].
  set m3 := upd _ (p + 6) _. assert (Hnl3 : rd m3 (p + 4) = Some (zlen name)).
  { rw /m3 rd_upd_ne //=; [lia|]. rw !room_upd /room. lia. }
  rw (bind_Ok _ _ _ _ _ (ld8_Ok (set_heap m3 s) _ _ Hnl3)).
  rw st8_Ok; [rw !room_upd /room /=; lia|].
  f_equal. rw /enc_entry /= /m3 /m2 /m1 /=. change (u8 0) with 0.
  rw (u8_small (zlen name)); [lia|]. rw (u8_small (min_rec name)); [lia|].
  rw upd_app /= -!Z.add_assoc. reflexivity.
Qed.

(** An entry whose record length is cut to the minimum for its name. *)
Definition cut (d : dentry) : dentry := Dentry (de_inode d) (de_name d) (min_rec (de_name d)).

Lemma entry_at_cut m p d :
  room m p (de_rec d) → entry_at m p d → entry_at (upd m (p + 5) [min_rec (de_name d)]) p (cut d).
Proof.
  rw /room. intros Hr [Hb Hok]. pose proof Hok as (Hi & [Hn Hl] & Hrec).
  pose proof (min_rec_bounds _ Hl) as [Hm Hm']. split; [|rw /entry_ok /=; split_and?; try done; lia].
  rw /enc_entry /= in Hb. rw /enc_entry /cut /=. 
  destruct Hb as (H0 & H1 & H2 & H3 & H4 & H5 & Hb). split_and!.
  1-5: rw rd_put; [lia|]; rw decide_False //; lia.
  - rw rd_put; [lia|]. rw decide_True //. lia.
  - apply (bytes_at_same m); [|done]. intros q Hq. rw rd_put; [lia|]. rw decide_False //. lia.
Qed.

(** The directory after [add_entry], [b] its block. *)
Lemma add_entry_Ok s b ds q d e n name :
  room (ks_heap s) b BLOCK_SIZE →
  dir_at (ks_heap s) b ds q → entry_at (ks_heap s) q d → e = q + de_rec d → e ≤ b + BLOCK_SIZE →
  e = b + BLOCK_SIZE ∨ rd (ks_heap s) (e + 5) = Some 0 →
  name_ok name → 0 ≤ n < 2 ^ 32 →
  let r := q + min_rec (de_name d) in
  r + min_rec name + 6 ≤ b + BLOCK_SIZE →
  ∃ m', Abyss.add_entry b n name s = Ok tt (set_heap m' s) ∧
        only_changes b BLOCK_SIZE (ks_heap s) m' ∧
        dir_list m' b (ds ++ [cut d; Dentry n name (min_rec name)]) (r + min_rec name).
Proof.
  intros Hb Hds Hd -> Heb He Hname Hn r Hfit. rw /room /BLOCK_SIZE in Hb, Heb, He, Hfit |- *.
  pose proof (dir_at_le _ _ _ _ Hds) as Hqb. pose proof Hd as [_ (_ & [_ Hl] & Hrec)].
  destruct (min_rec_bounds _ Hl) as [Hmin Hmin']. destruct (min_rec_bounds _ (proj2 Hname)) as [Hnew Hnew'].
  set bend := b + 4096. set m := ks_heap s.
  assert (Hcount : (7 * length ds ≤ 4096)%nat) by lia.
  set m1 := upd m (q + 5) [min_rec (de_name d)].
  set m2 := upd m1 r (replicate (Z.to_nat (bend - r)) 0).
  set m3 := upd m2 r (enc_entry (Dentry n name (min_rec name))).
  assert (Hrun : Abyss.add_entry b n name s = Ok tt (set_heap m3 s)).
  { rw /Abyss.add_entry /BLOCK_SIZE -/bend.
    rw (bind_Ok _ _ _ _ _ (last_entry_Ok s bend b ds q d (q + de_rec d) None (S (Z.to_nat 4096)) Hds Hd
                             ltac:(lia) eq_refl ltac:(destruct He; [left; lia|by right]) ltac:(lia))).
    erewrite bind_Ok; last first.
    { rw (bind_Ok _ _ _ _ _ (ld8_Ok s _ _ (entry_at_name_len _ _ _ Hd))). fold (min_rec (de_name d)). cbv zeta.
      erewrite bind_Ok; [|apply st8_Ok; rw /room /e_rec_len; lia]. fold r.
      rw u64_small; [rw /bend; lia|]. rw -{1}(Z2Nat.id (bend - r)); [lia|].
      erewrite bind_Ok; [|apply memset_at_Ok; rw room_upd /room; lia]. reflexivity. }
    rw put_entry_Ok //; [rw !room_upd /room; lia|]. rw /e_rec_len (u8_small (min_rec (de_name d))) //. lia. }
  assert (Hlen : zlen (enc_entry (Dentry n name (min_rec name))) = zlen name + 7) by apply enc_entry_length.
  assert (Hm1 : ∀ x, x ≠ q + 5 → rd m1 x = rd m x).
  { intros x Hx. apply rd_upd_ne; simpl; [lia|]. rw /room -/m in Hb |- *. lia. }
  assert (Hm2 : ∀ x, ¬ (r ≤ x < bend) → rd m2 x = rd m1 x).
  { intros x Hx. apply rd_upd_ne; rw length_replicate; [lia|]. rw room_upd /room -/m in Hb |- *. lia. }
  assert (Hm3 : ∀ x, ¬ (r ≤ x < r + zlen name + 7) → rd m3 x = rd m2 x).
  { intros x Hx. apply rd_upd_ne; rw Hlen; [lia|]. rw !room_upd /room -/m in Hb |- *. lia. }
  exists m3. split_and!; [done| |].
  - split_and!; [by rw !(proj1 (upd_bounds _ _ _))|by rw !(proj2 (upd_bounds _ _ _))|].
    intros x Hx. rw Hm3; [lia|]. rw Hm2; [lia|]. rw Hm1 //. lia.
  - split.
    + apply dir_at_app. exists q. split; [|split; [|split; [|done]]].
      * apply (dir_at_same m); [|done]. intros x Hx. rw Hm3; [lia|]. rw Hm2; [lia|]. rw Hm1 //. lia.
      * apply (entry_at_same m1).
        { simpl. intros x Hx. rw Hm3; [lia|]. rw Hm2 //. lia. }
        apply entry_at_cut; [|done]. rw /room -/m in Hb |- *. lia.
      * split; [|rw /entry_ok /=; split_and?; try done; lia].
        apply bytes_at_upd. rw Hlen. rw !room_upd /room -/m in Hb |- *. simpl. lia.
    + rw Hm3; [lia|]. assert (Hz : bytes_at m2 r (replicate (Z.to_nat (bend - r)) 0)).
      { apply bytes_at_upd. rw length_replicate. rw room_upd /room -/m in Hb |- *. lia. }
      rw bytes_at_lookup in Hz. replace (r + min_rec name + 5) with (r + Z.of_nat (Z.to_nat (min_rec name + 5))) by lia.
      apply Hz. apply lookup_replicate. split; [done|]. lia.
Qed.
