(* ===== verification/AbyssAlloc.v ===== *)
(** * AbyssAlloc: the block bitmap and the inode table of AbyssFS

    [alloc_block], [free_block], [get_inode] and [alloc_inode] of
    [src/src/fs/abyssfs.c] on an initialised file system. *)

From stdpp Require Import base numbers list gmap strings.
From Corelib Require Import ssreflect.
From S2P Require Import Prelude CString State Kmalloc Uart Abyss AbyssDir.

Open Scope Z_scope.
Open Scope general_if_scope.

(** The file system is initialised, its blocks start at [base]. *)
Definition abyss_ok (s : kstate) (base : Z) : Prop :=
  ab_blocks (ks_abyss s) = Some base ∧
  sb_total_blocks (ab_sb (ks_abyss s)) = 64 ∧
  sb_inode_blocks (ab_sb (ks_abyss s)) = 8 ∧
  sb_first_data_block (ab_sb (ks_abyss s)) = 9 ∧
  room (ks_heap s) base (64 * BLOCK_SIZE).

(** ** Blocks *)

Definition block_free (s : kstate) (i : Z) : bool := negb (Z.testbit (block_bitmap (ks_abyss s)) i).

Lemma land_bit b i : 0 ≤ i → (Z.land b (Z.shiftl 1 i) =? 0) = negb (Z.testbit b i).
Proof.
  intros Hi. destruct (Z.testbit b i) eqn:E; simpl.
  - apply Z.eqb_neq. intros H. apply (f_equal (λ x, Z.testbit x i)) in H.
    rw Z.land_spec Z.shiftl_spec // Z.sub_diag E Z.bits_0 in H. done.
  - apply Z.eqb_eq, Z.bits_inj'. intros j Hj. rw Z.land_spec Z.bits_0 Z.shiftl_1_l.
    destruct (decide (j = i)) as [->|Hn]; [by rw E|]. rw Z.pow2_bits_false; [lia|]. apply andb_false_r.
Qed.

Lemma lor_bit b i j : 0 ≤ i → Z.testbit (Z.lor b (Z.shiftl 1 i)) j = (Z.testbit b j || (j =? i)).
Proof.
  intros Hi. rw Z.lor_spec Z.shiftl_1_l Z.pow2_bits_eqb //. f_equal. apply Z.eqb_sym.
Qed.

Lemma clear_bit b i j :
  0 ≤ i < 64 → 0 ≤ j < 64 →
  Z.testbit (u64 (Z.land b (Z.lnot (Z.shiftl 1 i)))) j = (Z.testbit b j && negb (j =? i)).
Proof.
  intros Hi Hj. rw /u64 Z.mod_pow2_bits_low; [lia|]. rw Z.land_spec Z.lnot_spec; [lia|].
  rw Z.shiftl_1_l Z.pow2_bits_eqb; [lia|]. by rw Z.eqb_sym.
Qed.

Definition with_bitmap (b free : Z) (s : kstate) : kstate :=
  set_abyss (AbyssState (with_free free (ab_sb (ks_abyss s))) (ab_blocks (ks_abyss s)) b
               (abyssfs_initialized (ks_abyss s))) s.

(** The state after block [i] has been taken, and after it has been given back. *)
Definition took (i : Z) (s : kstate) : kstate :=
  with_bitmap (Z.lor (block_bitmap (ks_abyss s)) (Z.shiftl 1 i))
    (u32 (sb_free_blocks (ab_sb (ks_abyss s)) - 1)) s.

Definition gave (i : Z) (s : kstate) : kstate :=
  with_bitmap (u64 (Z.land (block_bitmap (ks_abyss s)) (Z.lnot (Z.shiftl 1 i))))
    (u32 (sb_free_blocks (ab_sb (ks_abyss s)) + 1)) s.

Lemma alloc_block_step n i s :
  0 ≤ i → Abyss.alloc_block_loop (S n) i s =
          if block_free s i then Ok i (took i s) else Abyss.alloc_block_loop n (i + 1) s.
Proof. intros Hi. rw /= {1}/mbind /M_bind /= land_bit //. by rw /block_free; destruct (Z.testbit _ _). Qed.

Lemma alloc_block_loop_Ok n i s :
  0 ≤ i →
  (∃ r, Abyss.alloc_block_loop n i s = Ok r (took r s) ∧ i ≤ r < i + Z.of_nat n ∧
        block_free s r = true ∧ ∀ j, i ≤ j < r → block_free s j = false) ∨
  (Abyss.alloc_block_loop n i s = Ok 0 s ∧ ∀ j, i ≤ j < i + Z.of_nat n → block_free s j = false).
Proof.
  revert i. induction n as [|n IH]; intros i Hi; [right; split; [done|lia]|].
  rw alloc_block_step //.
  destruct (block_free s i) eqn:E.
  - left. exists i. split_and!; [|lia|lia|done|lia]. done.
  - destruct (IH (i + 1)) as [(r & Hr & Hb & Hf & Hl)|[Hr Hl]]; [lia|left|right].
    + exists r. split_and!; [done|lia|lia|done|]. intros j Hj. destruct (decide (j = i)) as [->|]; [done|]. apply Hl. lia.
    + split; [done|]. intros j Hj. destruct (decide (j = i)) as [->|]; [done|]. apply Hl. lia.
Qed.

Section Ready.
Context (s : kstate) (base : Z).
Hypothesis Hok : abyss_ok s base.

Lemma alloc_block_Ok :
  (∃ r, Abyss.alloc_block s = Ok r (took r s) ∧ 9 ≤ r < 64 ∧
        block_free s r = true ∧ ∀ j, 9 ≤ j < r → block_free s j = false) ∨
  (Abyss.alloc_block s = Ok 0 s ∧ ∀ j, 9 ≤ j < 64 → block_free s j = false).
Proof.
  destruct Hok as (_ & Ht & _ & Hf & _). rw /Abyss.alloc_block /get_sb /mbind /M_bind /= Ht Hf.
  by apply (alloc_block_loop_Ok 55 9).
Qed.

Lemma free_block_Ok i : 0 ≤ i < 64 → Abyss.free_block i s = Ok tt (gave i s).
Proof.
  intros Hi. destruct Hok as (_ & Ht & _ & Hf & _). rw /Abyss.free_block /mbind /M_bind /= Ht.
  by replace (i <? 64) with true by lia.
Qed.

Lemma get_block_Ok i :
  Abyss.get_block i s = Ok (if 64 <=? i then None else Some (base + i * BLOCK_SIZE)) s.
Proof.
  destruct Hok as (Hb & Ht & _). rw /Abyss.get_block /get_sb /blocks_ptr /mbind /M_bind /= Ht.
  destruct (64 <=? i); [done|]. by rw Hb.
Qed.

(** ** Inodes *)

Definition inode_addr (n : Z) : Z := base + BLOCK_SIZE + n * sizeof_inode.

Lemma get_inode_Ok n :
  0 ≤ n → Abyss.get_inode n s = Ok (if 512 <=? n then None else Some (inode_addr n)) s.
Proof.
  intros Hn. pose proof Hok as (_ & _ & Hi & _). rw /Abyss.get_inode {1}/get_sb {1 3}/mbind /M_bind /= Hi.
  change (u32 _ / _) with 512. destruct (512 <=? n) eqn:E; zbool; [done|].
  change (BLOCK_SIZE / sizeof_inode) with 64. rw (bind_Ok _ _ _ _ _ (get_block_Ok _)).
  assert (n / 64 < 8) by (apply Z.div_lt_upper_bound; lia).
  replace (64 <=? 1 + n / 64) with false by lia. f_equal. f_equal. rw /inode_addr /BLOCK_SIZE /sizeof_inode.
  pose proof (Z.div_mod n 64). lia.
Qed.

Lemma inode_room n : 0 ≤ n < 512 → room (ks_heap s) (inode_addr n) 64.
Proof. destruct Hok as (_ & _ & _ & _ & Hr). rw /room /inode_addr /BLOCK_SIZE /sizeof_inode in Hr |- *. lia. Qed.
End Ready.

(** ** The accounting of blocks *)

Lemma filter_flip (f g : Z → bool) (i : Z) (l : list Z) :
  NoDup l → i ∈ l → f i = true → g i = false → (∀ j, j ∈ l → j ≠ i → f j = g j) →
  length (List.filter f l) = S (length (List.filter g l)).
Proof.
  intros Hn Hi Hf Hg. induction Hn as [|j l Hj Hn IH]; [by apply not_elem_of_nil in Hi|]. intros Hs. simpl.
  destruct (decide (j = i)) as [->|Hne].
  - rw Hf Hg /=. f_equal. f_equal. apply List.filter_ext_in. intros k Hk%list_elem_of_In.
    apply Hs; [by apply list_elem_of_further|]. by intros ->.
  - apply elem_of_cons in Hi as [->|Hi]; [done|]. rw (Hs j); [apply list_elem_of_here|done|].
    assert (length (List.filter f l) = S (length (List.filter g l))) as Hl.
    { apply IH; [done|]. intros k Hk. apply Hs. by apply list_elem_of_further. }
    destruct (g j); simpl; lia.
Qed.

Definition data_blocks : list Z := seqZ 9 55.

Definition count_free (s : kstate) : Z := zlen (List.filter (block_free s) data_blocks).

Definition blocks_inv (s : kstate) (base : Z) : Prop :=
  abyss_ok s base ∧ 0 ≤ block_bitmap (ks_abyss s) < 2 ^ 64 ∧ block_free s 9 = false ∧
  sb_free_blocks (ab_sb (ks_abyss s)) = count_free s + 1.

(** A release that does not free a data block that is taken: of a data block
    that is free already, or of one below the data blocks.  [free_block] checks
    neither. *)
Definition stray (s : kstate) (i : Z) : bool := (i <? 9) || ((i <? 64) && block_free s i).

(** Allocations and releases in any order: the blocks released, and how many
    of the releases were stray. *)
Inductive block_trace : kstate → list Z → Z → kstate → Prop :=
| trace_end s : block_trace s [] 0 s
| trace_alloc s r s1 rel d s2 :
    Abyss.alloc_block s = Ok r s1 → block_trace s1 rel d s2 → block_trace s rel d s2
| trace_free s i s1 rel d s2 :
    0 ≤ i → Abyss.free_block i s = Ok tt s1 → block_trace s1 rel d s2 →
    block_trace s (i :: rel) ((if stray s i then 1 else 0) + d) s2.

(** The counter when [d] releases were stray. *)
Definition counted (s : kstate) (base d : Z) : Prop :=
  abyss_ok s base ∧ 0 ≤ block_bitmap (ks_abyss s) < 2 ^ 64 ∧
  sb_free_blocks (ab_sb (ks_abyss s)) = u32 (count_free s + 1 + d).

Lemma count_free_le s : count_free s ≤ 55.
Proof.
  rw /count_free. pose proof (List.filter_length_le (block_free s) data_blocks) as H.
  change (length data_blocks) with 55%nat in H. lia.
Qed.

Lemma took_free s i j : 0 ≤ i → block_free (took i s) j = block_free s j && negb (j =? i).
Proof. intros Hi. rw /block_free /= lor_bit // negb_orb. done. Qed.

Lemma gave_free s i j :
  0 ≤ i < 64 → 0 ≤ j < 64 → block_free (gave i s) j = block_free s j || (j =? i).
Proof. intros. rw /block_free /= clear_bit // negb_andb negb_involutive. done. Qed.

Lemma elem_data i : 9 ≤ i < 64 → i ∈ data_blocks.
Proof. intros. apply elem_of_seqZ. lia. Qed.

Lemma took_count s r : 9 ≤ r < 64 → block_free s r = true → count_free s = count_free (took r s) + 1.
Proof.
  intros Hr Hf. rw /count_free (filter_flip (block_free s) (block_free (took r s)) r); [apply NoDup_seqZ|by apply elem_data|done|rw took_free; [lia|]; by rw Z.eqb_refl andb_false_r| |lia].
  intros j _ Hj. rw took_free; [lia|]. by rw (proj2 (Z.eqb_neq j r) Hj) andb_true_r.
Qed.

Lemma gave_count s i : 9 ≤ i < 64 → block_free s i = false → count_free (gave i s) = count_free s + 1.
Proof.
  intros Hi Hf. rw /count_free (filter_flip (block_free (gave i s)) (block_free s) i); [apply NoDup_seqZ|by apply elem_data|rw gave_free; [lia..|]; by rw Z.eqb_refl orb_true_r|done| |lia].
  intros j Hj%elem_of_seqZ Hne. rw gave_free; [lia..|]. by rw (proj2 (Z.eqb_neq j i) Hne) orb_false_r.
Qed.

Lemma gave_count_stray s i : 0 ≤ i < 64 → stray s i = true → count_free (gave i s) = count_free s.
Proof.
  rw /stray. intros Hi Hs. rw /count_free. do 2 f_equal. apply List.filter_ext_in. intros j Hj%list_elem_of_In%elem_of_seqZ.
  rw gave_free; [lia..|]. destruct (j =? i) eqn:E; zbool; [|by rw orb_false_r].
  subst i. replace (j <? 9) with false in Hs by lia. replace (j <? 64) with true in Hs by lia. simpl in Hs. by rw Hs.
Qed.

Lemma u32_add a b : u32 (u32 a + b) = u32 (a + b).
Proof. rw /u32. apply Zplus_mod_idemp_l. Qed.

Lemma took_counted s base d r :
  counted s base d → 9 ≤ r < 64 → block_free s r = true → counted (took r s) base d.
Proof.
  intros (Hok & Hb & Hc) Hr Hf. pose proof (took_count s r Hr Hf).
  assert (0 ≤ Z.shiftl 1 r) by (rw Z.shiftl_nonneg; lia).
  split_and!; [done|simpl; apply Z.lor_nonneg; lia| |].
  - simpl. apply Z.log2_lt_cancel. rw Z.log2_lor //; [lia|].
    rw Z.shiftl_1_l !Z.log2_pow2; [lia..|]. apply Z.max_lub_lt; [|lia].
    destruct (decide (block_bitmap (ks_abyss s) = 0)) as [->|]; [done|]. apply Z.log2_lt_pow2; lia.
  - cbn [took with_bitmap ks_abyss set_abyss ab_sb with_free sb_free_blocks]. rw Hc.
    replace (u32 (count_free s + 1 + d) - 1) with (u32 (count_free s + 1 + d) + -1) by lia. rw u32_add. f_equal. lia.
Qed.

Lemma gave_counted s base d i :
  counted s base d → 0 ≤ i < 64 → counted (gave i s) base (d + if stray s i then 1 else 0).
Proof.
  intros (Hok & Hb & Hc) Hi. split_and!; [done|apply u64_range..|].
  cbn [gave with_bitmap ks_abyss set_abyss ab_sb with_free sb_free_blocks]. rw Hc u32_add. f_equal.
  destruct (stray s i) eqn:E; [rw gave_count_stray //; lia|]. rw /stray in E. zbool.
  rw gave_count; [lia| |lia]. destruct (block_free s i); [|done]. lia.
Qed.

Lemma trace_counted s rel d s' base d0 :
  block_trace s rel d s' → counted s base d0 →
  counted s' base (d0 + d) ∧ (9 ∉ rel → block_free s 9 = false → block_free s' 9 = false).
Proof.
  intros Ht. revert d0. induction Ht as [s|s r s1 rel d s2 Hr _ IH|s i s1 rel d s2 Hi Hr _ IH]; intros d0 Hc; pose proof Hc as (Hok & _).
  - rw Z.add_0_r. by split.
  - destruct (alloc_block_Ok s base Hok) as [(r' & Hr' & Hb & Hf & _)|[Hr' _]]; rw Hr' in Hr; simplify_eq; [|by apply IH].
    destruct (IH d0) as [H1 H2]; [by apply took_counted|]. split; [done|]. intros Hi H9. apply H2; [done|].
    rw took_free; [lia|]. by rw H9.
  - destruct (decide (i < 64)) as [Hlt|Hge].
    + rw (free_block_Ok s base Hok) in Hr; [lia|]. simplify_eq.
      destruct (IH (d0 + if stray s i then 1 else 0)) as [H1 H2]; [by apply gave_counted|]. split; [by rw Z.add_assoc|].
      intros [Hne Hi9]%not_elem_of_cons H9. apply H2; [done|]. rw gave_free; [lia..|]. rw H9. by apply Z.eqb_neq.
    + rw /Abyss.free_block /mbind /M_bind /= in Hr. pose proof Hok as (_ & Htot & _). rw Htot in Hr.
      replace (i <? 64) with false in Hr by lia. apply ret_inv in Hr as [_ ->].
      replace (if stray s i then 1 else 0) with 0 by (rw /stray; replace (i <? 9) with false by lia; by replace (i <? 64) with false by lia).
      destruct (IH d0 Hc) as [H1 H2]. split; [done|]. intros [_ Hi9]%not_elem_of_cons. by apply H2.
Qed.

(** C20: [alloc_block] on an initialised file system returns the lowest data
    block whose bit is clear, never the root directory's or an inode block,
    marks exactly that block, and [free_block] of it gives the bitmap back;
    it returns 0 and changes nothing exactly when every data block is taken. *)
Theorem alloc_block_correct s base :
  blocks_inv s base →
  (∃ r s', Abyss.alloc_block s = Ok r s' ∧ 9 < r < 64 ∧ block_free s r = true ∧
     (∀ j, 9 ≤ j < r → block_free s j = false) ∧
     (∀ j, block_free s' j = block_free s j && negb (j =? r)) ∧
     ∃ s'', Abyss.free_block r s' = Ok tt s'' ∧ ∀ j, 0 ≤ j < 64 → block_free s'' j = block_free s j) ∨
  (Abyss.alloc_block s = Ok 0 s ∧ ∀ j, 9 ≤ j < 64 → block_free s j = false).
Proof.
  intros Hinv. pose proof Hinv as (Hok & _ & H9 & _).
  destruct (alloc_block_Ok s base Hok) as [(r & Hr & Hb & Hf & Hl)|?]; [left|by right].
  assert (r ≠ 9) by (intros ->; congruence).
  exists r, (took r s). split_and!; [done|lia|lia|done|done|intros; apply took_free; lia|].
  exists (gave r (took r s)). split; [by apply (free_block_Ok _ base); [|lia]|].
  intros j Hj. rw gave_free; [lia..|]. rw took_free; [lia|].
  destruct (j =? r) eqn:E; zbool; simpl; [|by rw andb_true_r orb_false_r].
  by rw E Hf.
Qed.

(** C33: however blocks are allocated and released after initialisation, with
    any block number, [free_blocks] of the superblock exceeds the number of
    blocks that [alloc_block] can still hand out by one (the root directory's
    block is marked in the bitmap but was never subtracted) plus one for every
    stray release, modulo 2^32; the bitmap stays a 64-bit value, and the root
    block stays taken as long as nobody releases it. *)
Theorem free_blocks_accounting s0 rel d s base :
  blocks_inv s0 base → block_trace s0 rel d s →
  sb_free_blocks (ab_sb (ks_abyss s)) = u32 (count_free s + 1 + d) ∧
  0 ≤ block_bitmap (ks_abyss s) < 2 ^ 64 ∧ (9 ∉ rel → block_free s 9 = false).
Proof.
  intros (Hok & Hb & H9 & Hc) Hr.
  assert (counted s0 base 0) as H0.
  { split_and!; [done|lia|lia|]. pose proof (count_free_le s0). rw Hc Z.add_0_r u32_small; [|done].
    rw /count_free in H |- *. lia. }
  destruct (trace_counted _ _ _ _ _ _ Hr H0) as [(_ & ? & ?) H]. rw Z.add_0_l in H2. split_and!; [done|lia|lia|auto].
Qed.

(** ** The inode table *)

(** The heap after inode [n] has been initialised by [alloc_inode]. *)
Definition fresh_inode (base n : Z) (m : mem) : mem :=
  upd (upd m (inode_addr base n) (replicate 64 0)) (inode_addr base n) (le32 0x1FF).

Definition mode_of (s : kstate) (base n : Z) : option Z := rd32 (ks_heap s) (i_mode (inode_addr base n)).

Lemma alloc_inode_loop_Ok s base n i :
  abyss_ok s base → 0 ≤ i → i + Z.of_nat n = 512 →
  (∃ r, Abyss.alloc_inode_loop n i s = Ok r (set_heap (fresh_inode base r (ks_heap s)) s) ∧
        i ≤ r < 512 ∧ mode_of s base r = Some 0 ∧ ∀ j, i ≤ j < r → mode_of s base j ≠ Some 0) ∨
  (∃ out, Abyss.alloc_inode_loop n i s = Ok 0 (set_out out s) ∧
          ∀ j, i ≤ j < 512 → mode_of s base j ≠ Some 0).
Proof.
  intros Hok. revert i. induction n as [|n IH]; intros i Hi Hn.
  { right. eexists. split; [done|lia]. }
  pose proof (inode_room s base Hok i ltac:(lia)) as Hr.
  destruct (rd32_room (ks_heap s) (inode_addr base i)) as [mode Hm]; [rw /room in Hr |- *; lia|].
  simpl. rw (bind_Ok _ _ _ _ _ (get_inode_Ok s base Hok i Hi)). replace (512 <=? i) with false by lia.
  rw (bind_Ok _ _ _ _ _ (ld32_rd s _ _ Hm)). destruct (mode =? 0) eqn:E; zbool.
  - left. exists i. split_and!; [|lia|lia|by rw /mode_of /i_mode Hm E|lia].
    rw (bind_Ok _ _ _ _ _ (memset_at_Ok s (inode_addr base i) 0 64 Hr)).
    erewrite bind_Ok; [|apply st32_Ok; rw room_upd; rw /room /i_mode in Hr |- *; lia]. done.
  - assert (Hne : mode_of s base i ≠ Some 0) by (rw /mode_of /i_mode Hm; congruence).
    destruct (IH (i + 1)) as [(r & Hrun & Hb & H0 & Hl)|(out & Hrun & Hl)]; [lia..|left|right].
    + exists r. split_and!; [done|lia|lia|done|]. intros j Hj. destruct (decide (j = i)) as [->|]; [done|apply Hl; lia].
    + exists out. split; [done|]. intros j Hj. destruct (decide (j = i)) as [->|]; [done|apply Hl; lia].
Qed.

Lemma alloc_inode_Ok s base :
  abyss_ok s base →
  (∃ r, Abyss.alloc_inode s = Ok r (set_heap (fresh_inode base r (ks_heap s)) s) ∧
        1 ≤ r < 512 ∧ mode_of s base r = Some 0 ∧ ∀ j, 1 ≤ j < r → mode_of s base j ≠ Some 0) ∨
  (∃ out, Abyss.alloc_inode s = Ok 0 (set_out out s) ∧ ∀ j, 1 ≤ j < 512 → mode_of s base j ≠ Some 0).
Proof.
  intros Hok. pose proof Hok as (_ & _ & Hi & _). rw /Abyss.alloc_inode /get_sb {1 3}/mbind /M_bind /= Hi.
  by apply (alloc_inode_loop_Ok s base 511 1).
Qed.

Lemma fresh_inode_changes base n m :
  room m (inode_addr base n) 64 → only_changes (inode_addr base n) 64 m (fresh_inode base n m).
Proof.
  rw /room => Hr. apply (only_changes_trans _ _ _ (upd m (inode_addr base n) (replicate 64 0))).
  - by apply (upd_only_changes m _ (replicate 64 0)).
  - eapply only_changes_weaken; [apply upd_only_changes; rw room_upd /room; simpl; lia|lia|simpl; lia].
Qed.

Lemma fresh_inode_fields base n m :
  room m (inode_addr base n) 64 →
  rd32 (fresh_inode base n m) (i_mode (inode_addr base n)) = Some 0x1FF ∧
  rd32 (fresh_inode base n m) (i_size (inode_addr base n)) = Some 0 ∧
  rd32 (fresh_inode base n m) (i_blocks (inode_addr base n)) = Some 0.
Proof.
  intros Hr. rw /fresh_inode. set p := inode_addr base n in Hr |- *. set m0 := upd m p (replicate 64 0).
  assert (Hr0 : room m0 p 4) by (rw /m0 room_upd; rw /room in Hr |- *; lia).
  assert (Hz : ∀ k, 0 ≤ k ≤ 60 → rd32 m0 (p + k) = Some 0).
  { intros k Hk. pose proof (bytes_at_upd m p (replicate 64 0) Hr) as Hb. rw bytes_at_lookup in Hb.
    apply rd32_bytes; [done|]. apply bytes_at_lookup. intros i a Hi.
    change (le32 0) with (replicate 4 0) in Hi. apply lookup_replicate in Hi as [-> Hi].
    replace (p + k + Z.of_nat i) with (p + Z.of_nat (Z.to_nat k + i)) by lia. apply Hb.
    apply lookup_replicate. split; [done|lia]. }
  split_and!; [by apply rd32_upd| |]; rw rd32_upd_ne /i_size /i_blocks; simpl; try lia; try done; by apply Hz; lia.
Qed.

(** [alloc_inode] returns the lowest free inode number from 1 to 511,
    with mode 0x1FF, size 0 and no block, and touches no other byte of the
    heap; it returns 0, leaving the table as it is, exactly when no inode
    above 0 is free. *)
Theorem alloc_inode_correct s base :
  abyss_ok s base →
  (∃ r s' , Abyss.alloc_inode s = Ok r s' ∧ 1 ≤ r < 512 ∧
     mode_of s base r = Some 0 ∧ (∀ j, 1 ≤ j < r → mode_of s base j ≠ Some 0) ∧
     mode_of s' base r = Some 0x1FF ∧
     rd32 (ks_heap s') (i_size (inode_addr base r)) = Some 0 ∧
     rd32 (ks_heap s') (i_blocks (inode_addr base r)) = Some 0 ∧
     only_changes (inode_addr base r) sizeof_inode (ks_heap s) (ks_heap s')) ∨
  (∃ s', Abyss.alloc_inode s = Ok 0 s' ∧ ks_heap s' = ks_heap s ∧
         ∀ j, 1 ≤ j < 512 → mode_of s base j ≠ Some 0).
Proof.
  intros Hok. destruct (alloc_inode_Ok s base Hok) as [(r & Hr & Hb & H0 & Hl)|(out & Hr & Hl)]; [left|right].
  - pose proof (inode_room s base Hok r ltac:(lia)) as Hroom.
    destruct (fresh_inode_fields base r (ks_heap s) Hroom) as (Hm & Hs & Hbl).
    exists r, (set_heap (fresh_inode base r (ks_heap s)) s).
    split_and!; [exact Hr|lia|lia|exact H0|exact Hl|exact Hm|exact Hs|exact Hbl|by apply fresh_inode_changes].
  - exists (set_out out s). split_and!; [exact Hr|done|exact Hl].
Qed.

(** ** Witnesses *)

Definition abyss1 : kstate := default (kstate0 []) (final (Abyss.abyssfs_init (kstate0 []))).

Lemma abyss1_inv : blocks_inv abyss1 0.
Proof.
  split_and!; vm_compute; done.
Qed.

Lemma abyss1_values :
  value (Abyss.alloc_block abyss1) = Some 10 ∧ value (Abyss.alloc_inode abyss1) = Some 2 ∧
  count_free abyss1 = 54.
Proof. split_and!; vm_compute; reflexivity. Qed.

Lemma alloc_block_correct_witness :
  ∃ s', Abyss.alloc_block abyss1 = Ok 10 s' ∧ block_free s' 10 = false.
Proof.
  destruct abyss1_values as (Hv & _ & _).
  destruct (alloc_block_correct abyss1 0 abyss1_inv) as [(r & s' & H & Hr & _ & _ & Hf & _)|[H _]];
    rw H /= in Hv; injection Hv as Hv.
  - subst r. exists s'. split; [exact H|]. by rw Hf andb_false_r.
  - discriminate Hv.
Defined.

(** Two allocations, a release, the same release again, and one more
    allocation: the counter is two above the blocks that are free. *)
Definition take_block (s : kstate) : kstate := default s (final (Abyss.alloc_block s)).

Definition give_block (i : Z) (s : kstate) : kstate := default s (final (Abyss.free_block i s)).

Lemma trace_take s rel d s' :
  value (Abyss.alloc_block s) ≠ None → block_trace (take_block s) rel d s' → block_trace s rel d s'.
Proof.
  rw /take_block. intros Hv. destruct (Abyss.alloc_block s) as [r s1| | | |] eqn:E; try done. by apply (trace_alloc _ r).
Qed.

Lemma trace_give s i b rel d s' :
  0 ≤ i → value (Abyss.free_block i s) ≠ None → stray s i = b →
  block_trace (give_block i s) rel d s' → block_trace s (i :: rel) ((if b then 1 else 0) + d) s'.
Proof.
  rw /give_block. intros Hi Hv <-. destruct (Abyss.free_block i s) as [[]| | | |] eqn:E; try done. by apply trace_free.
Qed.

Definition abyss1_steps : kstate := take_block (give_block 10 (give_block 10 (take_block (take_block abyss1)))).

Lemma abyss1_trace : block_trace abyss1 [10; 10] 1 abyss1_steps.
Proof.
  unfold abyss1_steps. do 2 (apply trace_take; [vm_compute; discriminate|]).
  apply (trace_give _ 10 false [10] 1); [done|vm_compute; discriminate|vm_compute; reflexivity|].
  apply (trace_give _ 10 true [] 0); [done|vm_compute; discriminate|vm_compute; reflexivity|].
  apply trace_take; [vm_compute; discriminate|]. apply trace_end.
Qed.

Lemma free_blocks_accounting_witness :
  count_free abyss1_steps = 52 ∧ sb_free_blocks (ab_sb (ks_abyss abyss1_steps)) = 54 ∧
  block_free abyss1_steps 9 = false.
Proof.
  assert (H9 : 9 ∉ [10; 10]) by (by rw !not_elem_of_cons; split_and!; [lia|lia|apply not_elem_of_nil]).
  assert (Hc : count_free abyss1_steps = 52) by (vm_compute; reflexivity). split; [exact Hc|].
  destruct (free_blocks_accounting abyss1 [10; 10] 1 abyss1_steps 0 abyss1_inv abyss1_trace) as (H1 & _ & H2).
  rw Hc in H1. split; [exact H1|exact (H2 H9)].
Defined.

Lemma alloc_inode_correct_witness :
  ∃ s', Abyss.alloc_inode abyss1 = Ok 2 s' ∧ mode_of s' 0 2 = Some 0x1FF.
Proof.
  destruct abyss1_values as (_ & Hv & _).
  destruct (alloc_inode_correct abyss1 0 (proj1 abyss1_inv)) as [(r & s' & H & _ & _ & _ & Hm & _)|(s' & H & _)];
    rw H /= in Hv; injection Hv as Hv.
  - subst r. exists s'. split; [exact H|exact Hm].
  - discriminate Hv.
Defined.
