(* ===== verification/AbyssFs.v ===== *)
(** * AbyssFs: the operations of AbyssFS on a well-formed file system

    Path resolution, directory listing, creation of files, reading and
    writing of [src/src/fs/abyssfs.c], against the directory contents that
    the heap represents; termination of the recursive removal. *)

From stdpp Require Import base numbers list gmap strings.
From Corelib Require Import ssreflect.
From S2P Require Import Prelude CString State Kmalloc Uart Paths Abyss AbyssDir AbyssAlloc.

Open Scope Z_scope.
Open Scope general_if_scope.

Lemma set_out_id s : set_out (ks_out s) s = s.
Proof. by destruct s. Qed.

(** ** Path resolution *)

(** The first entry with this name. *)
Fixpoint dir_lookup (ds : list dentry) (name : str) : option dentry :=
  match ds with
  | [] => None
  | d :: ds => if s_strcmp (de_name d) name =? 0 then Some d else dir_lookup ds name
  end.

(** The block of inode [n] holds the directory [ds]. *)
Definition dir_rep (s : kstate) (base n : Z) (ds : list dentry) : Prop :=
  0 ≤ n < 512 ∧ Forall (λ d, 0 ≤ de_inode d < 512) ds ∧
  ∃ b e, rd32 (ks_heap s) (i_blocks (inode_addr base n)) = Some b ∧ 0 < b < 64 ∧
         dir_list (ks_heap s) (base + b * BLOCK_SIZE) ds e.

(** Resolution of a path from inode [n] on, where [view] says what the
    directories hold: [None] when the path goes through an inode that [view]
    does not describe, [Some None] when a component is missing. *)
Fixpoint resolve (view : Z → option (list dentry)) (n : Z) (tokens : list str) : option (option Z) :=
  match tokens with
  | [] => Some (Some n)
  | t :: tokens =>
      ds ← view n;
      match dir_lookup ds t with
      | None => Some None
      | Some d => resolve view (de_inode d) tokens
      end
  end.

Lemma entry_addr_lookup m p ds e name :
  dir_at m p ds e →
  match dir_lookup ds name with
  | None => entry_addr p ds name = None
  | Some d => ∃ a, entry_addr p ds name = Some (a, d) ∧ entry_at m a d ∧ d ∈ ds ∧ p ≤ a
  end.
Proof.
  revert p. induction ds as [|d ds IH]; intros p; simpl; [done|]. intros [Hd Hds].
  destruct (s_strcmp (de_name d) name =? 0); [exists p; split_and!; [done|done|left|lia]|].
  assert (7 ≤ de_rec d) by (destruct Hd as [_ (_ & _ & ?)]; lia).
  specialize (IH _ Hds). destruct (dir_lookup ds name) as [d'|]; [|done].
  destruct IH as (a & ? & ? & ? & ?). exists a. split_and!; [done..|by right|lia].
Qed.

Lemma dir_list_fuel m p ds e :
  dir_list m p ds e → m_lo m ≤ p → (length ds < S (Z.to_nat (m_hi m - m_lo m)))%nat.
Proof. intros [Hd%dir_at_le He%rd_Some_valid] Hp. lia. Qed.

Lemma heap_span_Ok s : heap_span s = Ok (S (Z.to_nat (m_hi (ks_heap s) - m_lo (ks_heap s)))) s.
Proof. rw /heap_span /zoom /=. by rw set_heap_id. Qed.

Lemma find_in_dir s p ds e name :
  dir_list (ks_heap s) p ds e → m_lo (ks_heap s) ≤ p →
  (fuel ← heap_span; Abyss.find_entry fuel p name) s = Ok (fst <$> entry_addr p ds name) s.
Proof.
  intros Hd Hp. rw (bind_Ok _ _ _ _ _ (heap_span_Ok s)). apply (find_entry_Ok _ _ _ _ _ _ Hd).
  by apply (dir_list_fuel _ _ _ _ Hd).
Qed.

Lemma abyss_ok_out s base out : abyss_ok s base → abyss_ok (set_out out s) base.
Proof. done. Qed.

(** The tail of [abyssfs_read_dir], once the block is known. *)
Lemma read_block_Ok s base ds b e k :
  abyss_ok s base →
  0 ≤ k < 2 ^ 64 → 0 < b < 64 → dir_list (ks_heap s) (base + b * BLOCK_SIZE) ds e →
  (o ← Abyss.get_block b;
   match o with
   | None => uart_puts (ln "DEBUG: Failed to get directory block");; mret (-1, [])
   | Some dir => fuel ← heap_span; l ← Abyss.read_entries fuel dir (u64 k); mret (zlen l, l)
   end) s =
  let l := take (Z.to_nat k) (to_dirent <$> ds) in Ok (zlen l, l) s.
Proof.
  intros Hok Hk Hb Hd. rw (bind_Ok _ _ _ _ _ (get_block_Ok s base Hok b)). replace (64 <=? b) with false by lia.
  rw (bind_Ok _ _ _ _ _ (heap_span_Ok s)). rw u64_small //.
  assert (Hp : m_lo (ks_heap s) ≤ base + b * BLOCK_SIZE).
  { destruct Hok as (_ & _ & _ & _ & Hr). rw /room /BLOCK_SIZE in Hr |- *. lia. }
  by rw (bind_Ok _ _ _ _ _ (read_entries_Ok _ _ _ _ k _ Hd (dir_list_fuel _ _ _ _ Hd Hp) (proj1 Hk))).
Qed.

Section Resolve.
Context (s : kstate) (base : Z) (view : Z → option (list dentry)).
Hypothesis Hok : abyss_ok s base.
Hypothesis Hview : ∀ n ds, view n = Some ds → dir_rep s base n ds.

Lemma walk_path_Ok n tokens r :
  resolve view n tokens = Some r →
  ∃ out, Abyss.walk_path (inode_addr base n) tokens s = Ok (inode_addr base <$> r) (set_out out s).
Proof.
  revert n. induction tokens as [|t tokens IH]; intros n; simpl.
  - intros [= <-]. exists (ks_out s). by rw set_out_id.
  - intros (ds & Hds & H)%bind_Some. destruct (Hview _ _ Hds) as (Hn & Hnum & b & e & Hb & Hb64 & Hd).
    rw (bind_Ok _ _ _ _ _ (ld32_rd s _ _ Hb)). replace (b =? 0) with false by lia.
    rw (bind_Ok _ _ _ _ _ (get_block_Ok s base Hok b)). replace (64 <=? b) with false by lia.
    assert (Hp : m_lo (ks_heap s) ≤ base + b * BLOCK_SIZE).
    { destruct Hok as (_ & _ & _ & _ & Hr). rw /room /BLOCK_SIZE in Hr |- *. lia. }
    rw (bind_Ok _ _ _ _ _ (find_in_dir s _ _ _ t Hd Hp)).
    pose proof (entry_addr_lookup _ _ _ _ t (proj1 Hd)) as He. destruct (dir_lookup ds t) as [d|].
    + destruct He as (a & -> & Ha & Hin & _). simpl. pose proof (proj1 (Forall_forall _ _) Hnum d Hin) as Hi. simpl in Hi.
      rw (bind_Ok _ _ _ _ _ (ld32_Ok s _ (de_inode d) ltac:(lia) (entry_at_inode _ _ _ Ha))).
      rw (bind_Ok _ _ _ _ _ (get_inode_Ok s base Hok (de_inode d) ltac:(lia))).
      replace (512 <=? de_inode d) with false by lia. by apply IH.
    + rw He /=. injection H as <-. by eexists.
Qed.

Lemma get_inode_by_path_Ok path r :
  resolve view 1 (s_split (bs "/") (take 255 (skip_slash path))) = Some r →
  ∃ out, Abyss.get_inode_by_path path s = Ok (inode_addr base <$> r) (set_out out s).
Proof.
  intros H. rw /Abyss.get_inode_by_path.
  rw (bind_Ok _ _ _ _ _ (get_inode_Ok s base Hok 1 ltac:(lia))).
  destruct (skip_slash path) as [|c p] eqn:E; [|by apply walk_path_Ok].
  simpl in H. injection H as <-. exists (ks_out s). by rw set_out_id.
Qed.

Hypothesis Hroot : rd32 (ks_heap s) (i_blocks (inode_addr base 1)) = Some 9.

Lemma read_dir_Ok path r k :
  resolve view 1 (s_split (bs "/") (take 255 (skip_slash (skip_slash path)))) = Some r →
  0 ≤ k < 2 ^ 64 →
  ∃ out, match r with
  | None => Abyss.abyssfs_read_dir path k s = Ok (-1, []) (set_out out s)
  | Some n => ∀ ds, view n = Some ds →
      let l := take (Z.to_nat k) (to_dirent <$> ds) in
      Abyss.abyssfs_read_dir path k s = Ok (zlen l, l) (set_out out s)
  end.
Proof.
  intros H Hk. rw /Abyss.abyssfs_read_dir. destruct (skip_slash path) as [|c p] eqn:E.
  - simpl in H. injection H as <-. exists (ks_out s). intros ds Hv. cbv zeta. rw set_out_id.
    destruct (Hview _ _ Hv) as (Hn & _ & b & e & Hb & Hb64 & Hd). simplify_eq.
    pose proof Hok as (_ & _ & Hi & _). erewrite bind_Ok; [|rw /get_sb /mbind /M_bind /= Hi //].
    change (u32 (8 + 1)) with 9. by apply (read_block_Ok s base ds 9 e k Hok Hk).
  - destruct (get_inode_by_path_Ok (c :: p) r H) as (out & Hg). exists out. destruct r as [n|].
    + intros ds Hv. cbv zeta. destruct (Hview _ _ Hv) as (Hn & _ & b & e & Hb & Hb64 & Hd).
      erewrite bind_Ok; last first.
      { rw (bind_Ok _ _ _ _ _ Hg) /=. rw (bind_Ok _ _ _ _ _ (ld32_rd (set_out out s) _ _ Hb)). done. }
      by apply (read_block_Ok (set_out out s) base ds b e k Hok Hk).
    + erewrite bind_Ok; [|rw (bind_Ok _ _ _ _ _ Hg) //]. done.
Qed.

(** C7: on a well-formed file system, [get_inode_by_path] walks the
    components of the path (at most 255 bytes of it) from the root inode and
    returns the inode that the directory contents designate, or NULL when a
    component is missing; [abyssfs_read_dir] of that path lists exactly the
    entries of the directory, in order and cut to the caller's array, or
    returns -1 when the path is missing.  Neither changes anything but the
    console. *)
Theorem abyss_paths_correct path r k :
  resolve view 1 (s_split (bs "/") (take 255 (skip_slash (skip_slash path)))) = Some r →
  0 ≤ k < 2 ^ 64 →
  (∃ out, Abyss.get_inode_by_path (skip_slash path) s = Ok (inode_addr base <$> r) (set_out out s)) ∧
  ∃ out, match r with
  | None => Abyss.abyssfs_read_dir path k s = Ok (-1, []) (set_out out s)
  | Some n => ∀ ds, view n = Some ds →
      let l := take (Z.to_nat k) (to_dirent <$> ds) in
      Abyss.abyssfs_read_dir path k s = Ok (zlen l, l) (set_out out s)
  end.
Proof. intros H Hk. split; [by apply get_inode_by_path_Ok|by apply read_dir_Ok]. Qed.
End Resolve.

(** ** Creating a file in the root directory *)

Definition root_block (base : Z) : Z := base + 9 * BLOCK_SIZE.

(** The root directory holds [ds], and last the entry [d] at [q]. *)
Definition root_dir (s : kstate) (base : Z) (ds : list dentry) (q : Z) (d : dentry) : Prop :=
  rd32 (ks_heap s) (i_blocks (inode_addr base 1)) = Some 9 ∧
  mode_of s base 1 ≠ Some 0 ∧
  dir_at (ks_heap s) (root_block base) ds q ∧ entry_at (ks_heap s) q d ∧
  q + de_rec d + 6 ≤ root_block base + BLOCK_SIZE ∧
  rd (ks_heap s) (q + de_rec d + 5) = Some 0.

(** There is room after [d] for an entry with this name. *)
Definition fits (base q : Z) (d : dentry) (name : str) : Prop :=
  q + min_rec (de_name d) + min_rec name + 6 ≤ root_block base + BLOCK_SIZE.

Lemma no_slash_strrchr name : 47 ∉ name → s_strrchr name 47 = None.
Proof. by rw s_strrchr_None. Qed.

Lemma skip_slash_name name : 47 ∉ name → skip_slash name = name.
Proof.
  destruct name as [|c name]; [done|]. intros H. rw /skip_slash.
  destruct (c =? 47) eqn:E; zbool; [|done]. subst c. by destruct H; left.
Qed.

Lemma dir_list_root s base ds q d :
  root_dir s base ds q d → dir_list (ks_heap s) (root_block base) (ds ++ [d]) (q + de_rec d).
Proof. intros (_ & _ & Hds & Hd & _ & He). split; [|done]. apply dir_at_app. by exists q. Qed.

Lemma abyss_ok_heap s base m p n :
  abyss_ok s base → only_changes p n (ks_heap s) m → abyss_ok (set_heap m s) base.
Proof. intros (? & ? & ? & ? & Hr) (Hlo & Hhi & _). split_and!; try done. by rw /room /= Hlo Hhi. Qed.

(** [fresh_inode] of another inode leaves the root directory alone. *)
Lemma root_dir_fresh s base ds q d n :
  abyss_ok s base → root_dir s base ds q d → 1 < n < 512 →
  root_dir (set_heap (fresh_inode base n (ks_heap s)) s) base ds q d.
Proof.
  intros Hok (Hb & Hm & Hds & Hd & Hq & He) Hn.
  pose proof (fresh_inode_changes base n _ (inode_room s base Hok n ltac:(lia))) as (_ & _ & Hoc).
  assert (Hl := dir_at_le _ _ _ _ Hds). assert (7 ≤ de_rec d) by (destruct Hd as [_ (_ & _ & ?)]; lia).
  assert (Hdir : ∀ x, root_block base ≤ x → rd (fresh_inode base n (ks_heap s)) x = rd (ks_heap s) x).
  { intros x Hx. apply Hoc. rw /root_block /inode_addr /BLOCK_SIZE /sizeof_inode in Hx |- *. lia. }
  assert (Hino : ∀ k, 0 ≤ k ≤ 8 → rd32 (fresh_inode base n (ks_heap s)) (inode_addr base 1 + k)
                                  = rd32 (ks_heap s) (inode_addr base 1 + k)).
  { intros k Hk. apply rd32_same. intros x Hx. apply Hoc. rw /inode_addr /BLOCK_SIZE /sizeof_inode in Hx |- *. lia. }
  split_and!; simpl.
  - by rw /i_blocks Hino.
  - rw /mode_of /i_mode /=. rw -(Z.add_0_r (inode_addr base 1)) Hino // Z.add_0_r. done.
  - apply (dir_at_same (ks_heap s)); [|done]. intros. apply Hdir. lia.
  - apply (entry_at_same (ks_heap s)); [|done]. intros. apply Hdir. lia.
  - lia.
  - rw Hdir //. lia.
Qed.

(** [add_entry] on the root directory. *)
Lemma add_root_entry s base ds q d n name :
  abyss_ok s base → root_dir s base ds q d → fits base q d name → name_ok name → 0 ≤ n < 2 ^ 32 →
  ∃ m', Abyss.add_entry (root_block base) n name s = Ok tt (set_heap m' s) ∧
        abyss_ok (set_heap m' s) base ∧
        only_changes (root_block base) BLOCK_SIZE (ks_heap s) m' ∧
        root_dir (set_heap m' s) base (ds ++ [cut d]) (q + min_rec (de_name d))
          (Dentry n name (min_rec name)).
Proof.
  intros Hok (Hb & Hm & Hds & Hd & Hq & He) Hfit Hname Hn. pose proof Hok as (_ & _ & _ & _ & Hr).
  destruct (add_entry_Ok s (root_block base) ds q d (q + de_rec d) n name) as (m' & Hrun & Hoc & Hdir);
    [rw /room /root_block /BLOCK_SIZE in Hr |- *; lia|done|done|done|lia|by right|done|done|done|].
  exists m'. split_and!; [done|by apply (abyss_ok_heap s base m' _ _ Hok Hoc)|done|].
  destruct Hdir as [Hdir Hend]. apply dir_at_app in Hdir as (q' & Hds' & Hcut & Hnew & _).
  assert (q' = q) as -> by (apply (dir_at_end _ _ _ _ _ _ Hds Hds')).
  assert (Hino : ∀ k, 0 ≤ k ≤ 8 → rd32 m' (inode_addr base 1 + k) = rd32 (ks_heap s) (inode_addr base 1 + k)).
  { intros k Hk. apply rd32_same. intros x Hx. apply Hoc.
    rw /root_block /inode_addr /BLOCK_SIZE /sizeof_inode in Hx |- *. lia. }
  split_and!; simpl.
  - by rw /i_blocks Hino.
  - rw /mode_of /i_mode /=. rw -(Z.add_0_r (inode_addr base 1)) Hino // Z.add_0_r. done.
  - apply dir_at_app. exists q. split; [done|]. split; done.
  - done.
  - rw /fits in Hfit. lia.
  - done.
Qed.

Lemma current_heap s cur m : current s = Ok cur s → current (set_heap m s) = Ok cur (set_heap m s).
Proof.
  rw /current /get_current_process /get_proc /mbind /M_bind /=.
  destruct (current_process _) as [p|]; simpl; [|done]. by destruct (_ !! p); simpl; [intros [= ->]|].
Qed.

Lemma create_file_root s base ds q d n name cur :
  abyss_ok s base → root_dir s base ds q d → fits base q d name → name_ok name → 47 ∉ name →
  0 ≤ n < 2 ^ 32 → current s = Ok cur s → p_cwd cur = bs "/" →
  ∃ m', Abyss.create_file name n s = Ok 0 (set_heap m' s) ∧
        abyss_ok (set_heap m' s) base ∧
        only_changes (root_block base) BLOCK_SIZE (ks_heap s) m' ∧
        root_dir (set_heap m' s) base (ds ++ [cut d]) (q + min_rec (de_name d))
          (Dentry n name (min_rec name)).
Proof.
  intros Hok Hroot Hfit Hname Hsl Hn Hcur Hcwd. pose proof Hroot as (Hb & _).
  destruct (add_root_entry s base ds q d n name Hok Hroot Hfit Hname Hn) as (m' & Hrun & Hres).
  exists m'. split; [|done]. rw /Abyss.create_file. rw take_ge; [destruct Hname; lia|].
  rw (no_slash_strrchr _ Hsl). erewrite bind_Ok; last first.
  { rw (bind_Ok _ _ _ _ _ Hcur) Hcwd. change (negb _) with false. cbv iota.
    rw (bind_Ok _ _ _ _ _ (get_inode_Ok s base Hok 1 ltac:(lia))). reflexivity. }
  cbn beta iota. erewrite bind_Ok; [|reflexivity]. erewrite bind_Ok; last first.
  { rw /Abyss.dir_block_of. rw (bind_Ok _ _ _ _ _ (ld32_rd s _ _ Hb)). reflexivity. }
  cbn beta iota. rw (bind_Ok _ _ _ _ _ (get_block_Ok s base Hok 9)). cbn beta iota.
  erewrite bind_Ok; [|reflexivity]. fold (root_block base). by rw (bind_Ok _ _ _ _ _ Hrun).
Qed.

Lemma no_slash_name name : name ≠ [] → 47 ∉ name → is_name name.
Proof. intros Hne Hsl. split; [done|]. apply Forall_forall. intros b Hb ->. done. Qed.

Lemma split_name name : name ≠ [] → 47 ∉ name → s_split (bs "/") name = [name].
Proof.
  intros Hne Hsl. pose proof (s_split_name name [] (no_slash_name _ Hne Hsl) (or_introl eq_refl)) as H.
  by rw app_nil_r in H.
Qed.

(** The view in which the root directory alone is described. *)
Definition root_view (ds : list dentry) (n : Z) : option (list dentry) :=
  if n =? 1 then Some ds else None.

Lemma root_view_rep s base ds q d :
  root_dir s base ds q d → Forall (λ d, 0 ≤ de_inode d < 512) (ds ++ [d]) →
  ∀ n ds', root_view (ds ++ [d]) n = Some ds' → dir_rep s base n ds'.
Proof.
  intros Hroot Hnum n ds'. rw /root_view. destruct (n =? 1) eqn:E; zbool; [|done]. intros [= <-]. subst n.
  pose proof Hroot as (Hb & _). split_and!; [lia|lia|done|]. exists 9, (q + de_rec d).
  split_and!; [done|lia|lia|]. by apply dir_list_root.
Qed.

Lemma dir_lookup_app ds ds' name :
  dir_lookup ds name = None → dir_lookup (ds ++ ds') name = dir_lookup ds' name.
Proof. induction ds as [|d ds IH]; simpl; [done|]. by destruct (_ =? 0). Qed.

Lemma dir_lookup_snoc_None ds d name :
  dir_lookup (ds ++ [d]) name = None → dir_lookup ds name = None ∧ (s_strcmp (de_name d) name =? 0) = false.
Proof.
  induction ds as [|d' ds IH]; simpl; [by destruct (_ =? 0)|]. by destruct (s_strcmp (de_name d') name =? 0).
Qed.

Lemma root_listing s base ds q d k :
  abyss_ok s base → root_dir s base ds q d → Forall (λ d, 0 ≤ de_inode d < 512) (ds ++ [d]) → 0 ≤ k < 2 ^ 64 →
  let l := take (Z.to_nat k) (to_dirent <$> ds ++ [d]) in
  ∃ out, Abyss.abyssfs_read_dir (bs "/") k s = Ok (zlen l, l) (set_out out s).
Proof.
  intros Hok Hroot Hnum Hk. pose proof Hroot as (Hb & _).
  destruct (read_dir_Ok s base (root_view (ds ++ [d])) Hok (root_view_rep _ _ _ _ _ Hroot Hnum) Hb (bs "/") (Some 1) k
              eq_refl Hk) as (out & H).
  exists out. by apply H.
Qed.

Lemma root_lookup s base ds q d name d' :
  abyss_ok s base → root_dir s base ds q d → Forall (λ d, 0 ≤ de_inode d < 512) (ds ++ [d]) →
  (length name ≤ 255)%nat → name ≠ [] → 47 ∉ name → dir_lookup (ds ++ [d]) name = Some d' →
  ∃ out, Abyss.get_inode_by_path (47 :: name) s = Ok (Some (inode_addr base (de_inode d'))) (set_out out s).
Proof.
  intros Hok Hroot Hnum Hlen Hne Hsl Hl.
  apply (get_inode_by_path_Ok s base (root_view (ds ++ [d])) Hok (root_view_rep _ _ _ _ _ Hroot Hnum) (47 :: name) (Some (de_inode d'))).
  rw /= take_ge // split_name //=. by rw Hl.
Qed.

(** C13: creating "/name" with "/" as the working directory, when the root
    block has room for the entry and an inode and a file object are free:
    the call returns a handle, at position 0, on the lowest free inode;
    listing the root afterwards gives the old entries in order and then the
    new one; and, when the name is new, the path now resolves to that inode. *)
Theorem abyssfs_create_lists s base ds q d name cur k :
  abyss_ok s base → root_dir s base ds q d → Forall (λ d, 0 ≤ de_inode d < 512) (ds ++ [d]) →
  fits base q d name → name_ok name → 47 ∉ name → name ≠ [] →
  current s = Ok cur s → p_cwd cur = bs "/" →
  heap_ok s → ks_heap_pos s + sizeof_vfs_file ≤ HEAP_SIZE →
  (∃ j, 1 ≤ j < 512 ∧ mode_of s base j = Some 0) → 0 ≤ k < 2 ^ 64 →
  ∃ fp n s', Abyss.abyssfs_create (47 :: name) s = Ok (Some fp) s' ∧
    ks_files s' !! fp = Some (VfsFile (Some ABYSSFS) [] (Pino n) 0) ∧
    1 ≤ n < 512 ∧ mode_of s base n = Some 0 ∧ (∀ j, 1 ≤ j < n → mode_of s base j ≠ Some 0) ∧
    (let l := take (Z.to_nat k) ((to_dirent <$> ds ++ [d]) ++ [Dirent n name]) in
     ∃ out, Abyss.abyssfs_read_dir (bs "/") k s' = Ok (zlen l, l) (set_out out s')) ∧
    (dir_lookup (ds ++ [d]) name = None →
     ∃ out, Abyss.get_inode_by_path (47 :: name) s' = Ok (Some (inode_addr base n)) (set_out out s')).
Proof.
  intros Hok Hroot Hnum Hfit Hname Hsl Hne Hcur Hcwd Hheap Hpos (j & Hj & Hj0) Hk.
  destruct (alloc_inode_Ok s base Hok) as [(n & Ha & Hn & Hn0 & Hnl)|(out & _ & Hl)]; [|by destruct (Hl j Hj)].
  pose proof Hroot as (_ & Hm1 & _). assert (n ≠ 1) by (intros ->; done).
  set s1 := set_heap (fresh_inode base n (ks_heap s)) s in Ha.
  assert (Hok1 : abyss_ok s1 base).
  { apply (abyss_ok_heap s base _ _ _ Hok (fresh_inode_changes base n _ (inode_room s base Hok n ltac:(lia)))). }
  pose proof (root_dir_fresh s base ds q d n Hok Hroot ltac:(lia)) as Hroot1.
  assert (Hcur1 : current s1 = Ok cur s1) by (apply (current_heap _ _ _ Hcur)).
  destruct (create_file_root s1 base ds q d n name cur Hok1 Hroot1 Hfit Hname Hsl ltac:(lia) Hcur1 Hcwd)
    as (m' & Hc & Hok2 & _ & Hroot2).
  set s2 := set_heap m' s1 in Hc, Hok2, Hroot2.
  pose proof (kalloc_spec sizeof_vfs_file s2 Hheap ltac:(done)) as Hal.
  change (ks_heap_pos s2) with (ks_heap_pos s) in Hal. rw (proj2 (Z.leb_le _ _) Hpos) in Hal.
  set s3 := set_heap_pos (ks_heap_pos s + sizeof_vfs_file) s2 in Hal.
  set s' := set_files (<[ks_heap_pos s := VfsFile (Some ABYSSFS) [] (Pino n) 0]> (ks_files s3)) s3.
  assert (Hnum2 : Forall (λ d, 0 ≤ de_inode d < 512) ((ds ++ [cut d]) ++ [Dentry n name (min_rec name)])).
  { apply Forall_app in Hnum as [Hds Hd]. rw Forall_singleton in Hd. rw !Forall_app !Forall_singleton. split; [split; [exact Hds|exact Hd]|simpl; lia]. }
  assert (Hents : to_dirent <$> (ds ++ [cut d]) ++ [Dentry n name (min_rec name)] =
                  (to_dirent <$> ds ++ [d]) ++ [Dirent n name]) by (by rw !fmap_app).
  exists (ks_heap_pos s), n, s'. split_and!; [| |lia|lia|done|done| |].
  - rw /Abyss.abyssfs_create /=. rw (bind_Ok _ _ _ _ _ Ha). replace (n =? 0) with false by lia.
    rw (bind_Ok _ _ _ _ _ (get_inode_Ok s1 base Hok1 n ltac:(lia))). replace (512 <=? n) with false by lia.
    rw (bind_Ok _ _ _ _ _ Hc) /=. by rw (bind_Ok _ _ _ _ _ Hal).
  - by rw /s' /= lookup_insert_eq.
  - cbv zeta. rw -Hents. by apply (root_listing s' base _ _ _ k Hok2 Hroot2 Hnum2).
  - intros Hnew. apply (root_lookup s' base _ _ _ name (Dentry n name (min_rec name)) Hok2 Hroot2 Hnum2); try done.
    { destruct Hname. lia. }
    rw -app_assoc. rw dir_lookup_app; [by apply dir_lookup_snoc_None in Hnew as [? _]|].
    apply dir_lookup_snoc_None in Hnew as [_ Hd]. by rw /= Hd s_strcmp_refl.
Qed.

(** ** Reading and writing *)

(** Inode [n] has data block [b] and size [sz]. *)
Definition inode_data (s : kstate) (base n b sz : Z) : Prop :=
  0 ≤ n < 512 ∧ rd32 (ks_heap s) (i_blocks (inode_addr base n)) = Some b ∧
  rd32 (ks_heap s) (i_size (inode_addr base n)) = Some sz.

Section Data.
Context (s : kstate) (base fp n b sz : Z) (f : vfs_file).
Hypothesis Hok : abyss_ok s base.
Hypothesis Hf : ks_files s !! fp = Some f.
Hypothesis Hp : private_data f = Pino n.
Hypothesis Hi : inode_data s base n b sz.

Lemma open_inode {A} (g : vfs_file → option Z → K A) :
  (file ← get_vfile fp; k ← Abyss.inode_of file; o ← Abyss.get_inode k; g file o) s =
  g f (Some (inode_addr base n)) s.
Proof.
  destruct Hi as (Hn & _). erewrite bind_Ok; [|rw /get_vfile /mbind /M_bind /= Hf //].
  erewrite bind_Ok; [|rw /Abyss.inode_of Hp //]. rw u32_small; [lia|].
  rw (bind_Ok _ _ _ _ _ (get_inode_Ok s base Hok n ltac:(lia))). by replace (512 <=? n) with false by lia.
Qed.

Lemma read_Ok l count :
  9 ≤ b < 64 → zlen l = sz → bytes_at (ks_heap s) (base + b * BLOCK_SIZE) l →
  0 ≤ sz < 2 ^ 32 → 0 ≤ f_pos f < 2 ^ 63 → 0 ≤ count < 2 ^ 63 →
  let k := Z.max 0 (Z.min count (sz - f_pos f)) in
  ∃ s', Abyss.abyssfs_read fp count s = Ok (k, take (Z.to_nat k) (drop (Z.to_nat (f_pos f)) l)) s' ∧
        ks_heap s' = ks_heap s ∧ ks_abyss s' = ks_abyss s.
Proof.
  intros Hb Hl Hbytes Hsz Hpos Hc k. rw /Abyss.abyssfs_read open_inode.
  destruct Hi as (Hn & Hblk & Hsize). rw (bind_Ok _ _ _ _ _ (ld32_rd s _ _ Hsize)).
  destruct (sz <=? f_pos f) eqn:E; zbool.
  { exists s. split; [|done]. by replace k with 0 by lia. }
  rw (u64_small (f_pos f + count)); [lia|]. rw (u64_small (sz - f_pos f)); [lia|].
  set c := if sz <? f_pos f + count then sz - f_pos f else count.
  assert (c = k) as -> by (rw /c /k; zcase; lia).
  rw (bind_Ok _ _ _ _ _ (ld32_rd s _ _ Hblk)).
  destruct Hok as (Hbase & _). erewrite bind_Ok; [|rw /blocks_ptr /mbind /M_bind /= Hbase //].
  rw u32_small; [rw /BLOCK_SIZE; lia|].
  set l' := take (Z.to_nat k) (drop (Z.to_nat (f_pos f)) l).
  assert (Hl' : length l' = Z.to_nat k) by (rw /l' length_take length_drop; lia).
  erewrite bind_Ok; last first.
  { rw -Hl'. apply ld_bytes_Ok. rw -(take_drop (Z.to_nat (f_pos f)) l) in Hbytes.
    apply bytes_at_app in Hbytes as [_ Hd]. rw -(take_drop (Z.to_nat k) (drop _ l)) in Hd.
    apply bytes_at_app in Hd as [Hd _]. rw length_take in Hd.
    replace (f_pos f) with (Z.of_nat (Z.to_nat (f_pos f) `min` length l)) at 1 by lia. exact Hd. }
  eexists. split; [reflexivity|done].
Qed.

(** The heap after writing [l] to block [b] and [sz'] to the size field. *)
Definition wrote (l : list Z) (sz' : Z) : mem :=
  upd (upd (ks_heap s) (base + b * BLOCK_SIZE) l) (i_size (inode_addr base n)) (le32 sz').

Lemma write_Ok buf count :
  9 ≤ b < 64 → 0 < count < 2 ^ 63 → count ≤ zlen buf → Forall byte buf →
  let c := Z.min count BLOCK_SIZE in
  Abyss.abyssfs_write fp buf count s =
  Ok c (set_heap (wrote (take (Z.to_nat c) buf) (u32 (sz + c))) s).
Proof.
  intros Hb Hc Hbuf Hbytes c. rw /Abyss.abyssfs_write open_inode.
  pose proof Hi as (Hn & Hblk & Hsize). pose proof Hok as (Hbase & _ & _ & _ & Hroom).
  pose proof (inode_room s base Hok n Hn) as Hir.
  assert (Hdisj : inode_addr base n + 64 ≤ base + b * BLOCK_SIZE).
  { rw /inode_addr /BLOCK_SIZE /sizeof_inode. lia. }
  assert (Hcr : 0 < c ≤ 4096 ∧ c ≤ count) by (rw /c /BLOCK_SIZE; lia).
  assert (Hlen : zlen (take (Z.to_nat c) buf) = c) by (rw length_take; lia).
  assert (Hbr : room (ks_heap s) (base + b * BLOCK_SIZE) (zlen (take (Z.to_nat c) buf))).
  { rw Hlen. rw /room /BLOCK_SIZE in Hroom |- *. lia. }
  erewrite bind_Ok; last first.
  { rw /Abyss.write_to_blocks. rw (bind_Ok _ _ _ _ _ (ld32_rd s _ _ Hblk)).
    replace (b =? 0) with false by lia. erewrite bind_Ok; [|reflexivity]. cbv iota.
    rw (bind_Ok _ _ _ _ _ (ld32_rd s _ _ Hblk)).
    erewrite bind_Ok; [|rw /blocks_ptr /mbind /M_bind /= Hbase //].
    replace (if BLOCK_SIZE <? count then BLOCK_SIZE else count) with c by (rw /c; zcase; lia).
    replace (c <=? zlen buf) with true by lia. rw u32_small; [rw /BLOCK_SIZE; lia|].
    rw (bind_Ok _ _ _ _ _ (st_bytes_Ok s _ _ Hbr ltac:(by apply Forall_take))). reflexivity. }
  cbn beta. replace (0 <? c) with true by lia. erewrite bind_Ok; [|]; last first.
  { erewrite bind_Ok; last first.
    - apply ld32_rd. simpl. rw rd32_upd_ne //; [rw /i_size; lia|]. exact Hsize.
    - apply st32_Ok. simpl. rw room_upd. rw /room /i_size in Hir |- *. lia. }
  reflexivity.
Qed.
End Data.

Lemma wrote_data s base n b sz l sz' :
  abyss_ok s base → inode_data s base n b sz → 9 ≤ b < 64 → (length l ≤ 4096)%nat → 0 ≤ sz' < 2 ^ 32 →
  let s' := set_heap (wrote s base n b l sz') s in
  abyss_ok s' base ∧ inode_data s' base n b sz' ∧ bytes_at (ks_heap s') (base + b * BLOCK_SIZE) l.
Proof.
  intros Hok (Hn & Hblk & Hsize) Hb Hl Hsz s'. pose proof Hok as (_ & _ & _ & _ & Hroom).
  pose proof (inode_room s base Hok n Hn) as Hir.
  assert (Hdisj : inode_addr base n + 64 ≤ base + b * BLOCK_SIZE).
  { rw /inode_addr /BLOCK_SIZE /sizeof_inode. lia. }
  set m := ks_heap s in Hblk, Hsize, Hroom, Hir. set p := base + b * BLOCK_SIZE in Hdisj |- *.
  assert (Hbr : room m p (zlen l)) by (rw /room /p /BLOCK_SIZE in Hroom |- *; lia).
  assert (Hsr : room (upd m p l) (i_size (inode_addr base n)) 4) by (rw room_upd; rw /room /i_size in Hir |- *; lia).
  split_and!.
  - destruct Hok as (? & ? & ? & ? & _). split_and!; try done. rw /s' /= /wrote !room_upd. exact Hroom.
  - split; [exact Hn|split; [|by apply rd32_upd]].
    rw /s' /= /wrote -/m -/p rd32_upd_ne; [exact Hsr|rw /i_size /i_blocks /=; lia|].
    rw rd32_upd_ne; [exact Hbr|rw /i_blocks /=; lia|]. exact Hblk.
  - rw /s' /= /wrote -/m -/p. apply (bytes_at_same (upd m p l)); [|by apply bytes_at_upd].
    intros x Hx. apply rd_upd_ne; [rw /i_size /=; lia|exact Hsr].
Qed.

(** The state after [write_to_blocks] has given inode [n] the block [r]. *)
Definition got_block (s : kstate) (base n r : Z) : kstate :=
  set_heap (upd (ks_heap s) (i_blocks (inode_addr base n)) (le32 r)) (took r s).

Lemma got_block_data s base n r sz :
  abyss_ok s base → inode_data s base n 0 sz → 9 ≤ r < 64 →
  abyss_ok (got_block s base n r) base ∧ inode_data (got_block s base n r) base n r sz.
Proof.
  intros Hok (Hn & Hblk & Hsize) Hr. pose proof (inode_room s base Hok n Hn) as Hir.
  assert (Hbr : room (ks_heap s) (i_blocks (inode_addr base n)) 4) by (rw /room /i_blocks in Hir |- *; lia).
  split.
  - destruct Hok as (? & ? & ? & ? & Hroom). split_and!; try done.
  - split; [exact Hn|split].
    + apply rd32_upd; [lia|exact Hbr].
    + etrans; [apply rd32_upd_ne; [exact Hbr|rw /i_size /i_blocks /=; lia]|exact Hsize].
Qed.

Lemma write_fresh s base fp n f sz r buf count :
  abyss_ok s base → ks_files s !! fp = Some f → private_data f = Pino n →
  inode_data s base n 0 sz → Abyss.alloc_block s = Ok r (took r s) → 9 ≤ r < 64 →
  Abyss.abyssfs_write fp buf count s = Abyss.abyssfs_write fp buf count (got_block s base n r).
Proof.
  intros Hok Hf Hp Hi Ha Hr. destruct (got_block_data s base n r sz Hok Hi Hr) as [Hok' Hi'].
  rw /Abyss.abyssfs_write (open_inode s base fp n 0 sz f Hok Hf Hp Hi).
  rw (open_inode (got_block s base n r) base fp n r sz f Hok' Hf Hp Hi'). apply bind_congr.
  rw /Abyss.write_to_blocks. destruct Hi as (Hn & Hblk & _). destruct Hi' as (_ & Hblk' & _).
  rw (bind_Ok _ _ _ _ _ (ld32_rd s _ _ Hblk)) (bind_Ok _ _ _ _ _ (ld32_rd _ _ _ Hblk')).
  replace (r =? 0) with false by lia. change (0 =? 0) with true. cbv iota. apply bind_congr.
  rw (bind_Ok _ _ _ _ _ Ha). replace (r =? 0) with false by lia.
  pose proof (inode_room s base Hok n Hn) as Hir.
  erewrite bind_Ok; [|apply st32_Ok; simpl; rw /room /i_blocks in Hir |- *; lia]. reflexivity.
Qed.

Lemma write_then_read s base fp fp' n f f' buf count count' :
  abyss_ok s base → ks_files s !! fp = Some f → private_data f = Pino n →
  ks_files s !! fp' = Some f' → private_data f' = Pino n → f_pos f' = 0 →
  inode_data s base n 0 0 → (∃ j, 9 ≤ j < 64 ∧ block_free s j = true) →
  0 < count ≤ 4096 → count ≤ zlen buf → Forall byte buf → 0 ≤ count' < 2 ^ 63 →
  ∃ s' s'', Abyss.abyssfs_write fp buf count s = Ok count s' ∧
    Abyss.abyssfs_read fp' count' s' =
      Ok (Z.min count' count, take (Z.to_nat (Z.min count' count)) buf) s''.
Proof.
  intros Hok Hf Hp Hf' Hp' Hpos Hi (j & Hj & Hjf) Hc Hbuf Hbytes Hc'.
  destruct (alloc_block_Ok s base Hok) as [(r & Ha & Hr & _)|[_ Hl]]; [|by rw (Hl j Hj) in Hjf].
  destruct (got_block_data s base n r 0 Hok Hi Hr) as [Hok1 Hi1].
  pose proof (write_Ok (got_block s base n r) base fp n r 0 f Hok1 Hf Hp Hi1 buf count Hr ltac:(lia) Hbuf Hbytes) as Hw.
  cbv zeta in Hw.
  rw -(write_fresh s base fp n f 0 r buf count Hok Hf Hp Hi Ha Hr) Z.min_l in Hw; [rw /BLOCK_SIZE; lia|].
  rw u32_small in Hw; [lia|].
  set l := take (Z.to_nat count) buf in Hw. assert (Hl : zlen l = count) by (rw /l length_take; lia).
  destruct (wrote_data (got_block s base n r) base n r 0 l (0 + count) Hok1 Hi1 Hr) as (Hok2 & Hi2 & Hb2); [lia..|].
  eexists. destruct (read_Ok _ base fp' n r (0 + count) f' Hok2 Hf' Hp' Hi2 l count' Hr ltac:(lia) Hb2)
    as (s'' & Hrd & _); [lia..|].
  exists s''. split; [exact Hw|]. rw Hrd Hpos /=. f_equal. rw Z.sub_0_r Z.max_r; [lia|]. f_equal.
  by rw /l take_take Nat.min_l; [lia|].
Qed.

(** C30: the first write to an empty file, of up to one block, through any
    handle on it, takes a free block and returns the number of bytes; a
    handle on the same file at position 0 then reads back exactly the bytes
    written. *)
Theorem abyssfs_write_read s base fp fp' n f f' buf count count' :
  abyss_ok s base → ks_files s !! fp = Some f → private_data f = Pino n →
  ks_files s !! fp' = Some f' → private_data f' = Pino n → f_pos f' = 0 →
  inode_data s base n 0 0 → (∃ j, 9 ≤ j < 64 ∧ block_free s j = true) →
  0 < count ≤ 4096 → count ≤ zlen buf → Forall byte buf → 0 ≤ count' < 2 ^ 63 →
  ∃ s' s'', Abyss.abyssfs_write fp buf count s = Ok count s' ∧
    Abyss.abyssfs_read fp' count' s' =
      Ok (Z.min count' count, take (Z.to_nat (Z.min count' count)) buf) s''.
Proof. apply write_then_read. Qed.

(** A write to a file that has a block stores its bytes at the start of
    the block whatever the position of the handle, and adds their number to
    the size: a second write replaces the data of the first instead of
    following it, while the size counts both. *)
Theorem abyssfs_write_at_start s base fp n b sz f buf count :
  abyss_ok s base → ks_files s !! fp = Some f → private_data f = Pino n →
  inode_data s base n b sz → 9 ≤ b < 64 → 0 < count ≤ 4096 → count ≤ zlen buf → Forall byte buf →
  0 ≤ sz + count < 2 ^ 32 →
  ∃ s', Abyss.abyssfs_write fp buf count s = Ok count s' ∧
        inode_data s' base n b (sz + count) ∧
        bytes_at (ks_heap s') (base + b * BLOCK_SIZE) (take (Z.to_nat count) buf) ∧
        ks_files s' = ks_files s.
Proof.
  intros Hok Hf Hp Hi Hb Hc Hbuf Hbytes Hsz.
  pose proof (write_Ok s base fp n b sz f Hok Hf Hp Hi buf count Hb ltac:(lia) Hbuf Hbytes) as Hw.
  cbv zeta in Hw.
  rw Z.min_l in Hw; [rw /BLOCK_SIZE; lia|]. rw u32_small // in Hw. eexists. split; [exact Hw|].
  destruct (wrote_data s base n b sz (take (Z.to_nat count) buf) (sz + count) Hok Hi Hb) as (_ & H1 & H2);
    [rw length_take; lia|lia|done].
Qed.

Lemma open_Ok s path :
  heap_ok s → ks_heap_pos s + sizeof_vfs_file ≤ HEAP_SIZE →
  ∃ f, Abyss.abyssfs_open path s =
       Ok (Some (ks_heap_pos s))
          (set_files (<[ks_heap_pos s := f]> (ks_files s)) (set_heap_pos (ks_heap_pos s + sizeof_vfs_file) s)) ∧
       private_data f = Pino 0 ∧ f_pos f = 0.
Proof.
  intros Hs Hp. exists (VfsFile (Some ABYSSFS) (take (Z.to_nat (VFS_MAX_PATH - 1)) path) (Pino 0) 0).
  split; [|done]. rw /Abyss.abyssfs_open.
  pose proof (kalloc_spec sizeof_vfs_file s Hs ltac:(done)) as Ha. rw (proj2 (Z.leb_le _ _) Hp) in Ha.
  by rw (bind_Ok _ _ _ _ _ Ha).
Qed.

(** [abyssfs_open] does not look at the path: two opens of any two paths,
    existing or not, both succeed and give handles on inode 0, so that what
    is written through one is read through the other. *)
Theorem abyssfs_open_aliases s base p1 p2 buf count :
  abyss_ok s base → heap_ok s → ks_heap_pos s + 2 * sizeof_vfs_file ≤ HEAP_SIZE →
  inode_data s base 0 0 0 → (∃ j, 9 ≤ j < 64 ∧ block_free s j = true) →
  0 < count ≤ 4096 → count ≤ zlen buf → Forall byte buf →
  ∃ fp1 fp2 s', fp1 ≠ fp2 ∧
    (o1 ← Abyss.abyssfs_open p1; o2 ← Abyss.abyssfs_open p2; mret (o1, o2)) s = Ok (Some fp1, Some fp2) s' ∧
    ∃ s'' s3, Abyss.abyssfs_write fp1 buf count s' = Ok count s'' ∧
      Abyss.abyssfs_read fp2 count s'' = Ok (count, take (Z.to_nat count) buf) s3.
Proof.
  intros Hok Hheap Hpos Hi Hfree Hc Hbuf Hbytes.
  destruct (open_Ok s p1 Hheap) as (f1 & Ho1 & Hp1 & Hf1); [rw /sizeof_vfs_file in Hpos |- *; lia|].
  set s1 := set_files _ _ in Ho1.
  assert (Hheap1 : heap_ok s1) by (rw /heap_ok /= /sizeof_vfs_file in Hheap, Hpos |- *; lia).
  destruct (open_Ok s1 p2 Hheap1) as (f2 & Ho2 & Hp2 & Hf2); [rw /= /sizeof_vfs_file in Hpos |- *; lia|].
  set s2 := set_files _ _ in Ho2. exists (ks_heap_pos s), (ks_heap_pos s1), s2.
  split; [rw /= /sizeof_vfs_file; lia|]. split; [by rw (bind_Ok _ _ _ _ _ Ho1) (bind_Ok _ _ _ _ _ Ho2)|].
  destruct (write_then_read s2 base (ks_heap_pos s) (ks_heap_pos s1) 0 f1 f2 buf count count)
    as (s3 & s4 & Hw & Hr); try done.
  - rw /s2 /= lookup_insert_ne; [rw /sizeof_vfs_file; lia|]. by rw lookup_insert_eq.
  - by rw /s2 /= lookup_insert_eq.
  - lia.
  - exists s3, s4. split; [exact Hw|]. by rw Z.min_id in Hr.
Qed.

(** ** Removing a file *)

Lemma bytes_at_shift m m' p k l :
  (∀ x, p ≤ x < p + zlen l → rd m' (x - k) = rd m x) → bytes_at m p l → bytes_at m' (p - k) l.
Proof.
  intros Hs. rw !bytes_at_lookup. intros Hb i a Hi. pose proof (lookup_lt_Some _ _ _ Hi).
  replace (p - k + Z.of_nat i) with (p + Z.of_nat i - k) by lia. rw Hs; [lia|]. by apply Hb.
Qed.

Lemma dir_at_shift m m' p ds e k :
  (∀ x, p ≤ x < e → rd m' (x - k) = rd m x) → dir_at m p ds e → dir_at m' (p - k) ds (e - k).
Proof.
  revert p. induction ds as [|d ds IH]; intros p Hs; simpl; [lia|]. intros [[Hb Hd] Hds].
  pose proof (dir_at_le _ _ _ _ Hds). pose proof Hd as (_ & _ & Hr). split.
  - split; [|done]. apply (bytes_at_shift m); [|done]. rw enc_entry_length. intros. apply Hs. lia.
  - replace (p - k + de_rec d) with (p + de_rec d - k) by lia. apply IH; [|done]. intros. apply Hs. lia.
Qed.

Lemma entry_addr_app m p ds1 q d ds2 name :
  dir_at m p ds1 q → dir_lookup ds1 name = None → s_strcmp (de_name d) name = 0 →
  entry_addr p (ds1 ++ d :: ds2) name = Some (q, d).
Proof.
  revert p. induction ds1 as [|d1 ds1 IH]; intros p; simpl; [by intros -> _ ->|]. intros [_ Hds].
  destruct (s_strcmp (de_name d1) name =? 0); [done|]. by apply IH.
Qed.

Lemma memmove_at_Ok s d p (n : nat) :
  room (ks_heap s) d (Z.of_nat n) → room (ks_heap s) p (Z.of_nat n) →
  ∃ m', memmove_at d p (Z.of_nat n) s = Ok tt (set_heap m' s) ∧
        only_changes d (Z.of_nat n) (ks_heap s) m' ∧
        ∀ i, 0 ≤ i < Z.of_nat n → rd m' (d + i) = rd (ks_heap s) (p + i).
Proof.
  intros Hd Hp. destruct (memmove_spec (ks_heap s) d p n Hd Hp) as (m' & Hm & Hrest). exists m'. split; [|done].
  rw /memmove_at /in_heap /mbind /M_bind /=. rw /room in Hd, Hp. replace (_ && _) with true by lia.
  by rw /zoom Hm.
Qed.

(** The part of [abyssfs_unlink] that closes the gap left by the entry. *)
Lemma close_gap s base ds1 q d ds2 e :
  abyss_ok s base → dir_at (ks_heap s) (root_block base) ds1 q → dir_at (ks_heap s) q (d :: ds2) e →
  rd (ks_heap s) (e + 5) = Some 0 → e + 6 ≤ root_block base + BLOCK_SIZE →
  ∃ m', (rec ← ld8 (e_rec_len q);
         next_rec ← ld8 (e_rec_len (q + rec));
         (if 0 <? next_rec then
            o ← Abyss.get_block 9; root ← unwrap o;
            memmove_at q (q + rec) (u64 (BLOCK_SIZE - (q + rec - root)))
          else rec ← ld8 (e_rec_len q); memset_at q 0 rec);;
         mret 0) s = Ok 0 (set_heap m' s) ∧
        only_changes (root_block base) BLOCK_SIZE (ks_heap s) m' ∧
        ∃ e', dir_list m' (root_block base) (ds1 ++ ds2) e'.
Proof.
  intros Hok Hds1 [Hd Hds2] He Hfit. pose proof Hok as (_ & _ & _ & _ & Hr). rw /room in Hr.
  pose proof (dir_at_le _ _ _ _ Hds1) as Hq. pose proof (dir_at_le _ _ _ _ Hds2) as Hn.
  pose proof (entry_at_rec _ _ _ Hd) as Hrec. assert (Hr7 : 7 ≤ de_rec d) by (destruct Hd as [_ (_ & _ & ?)]; lia).
  rw (bind_Ok _ _ _ _ _ (ld8_Ok s _ _ Hrec)). set next := q + de_rec d in Hds2, Hn |- *.
  assert (Hrb : root_block base = base + 36864) by (rw /root_block /BLOCK_SIZE; lia).
  rw /BLOCK_SIZE in Hfit, Hr |- *. destruct ds2 as [|d2 ds2].
  - simpl in Hds2. subst e. rw (bind_Ok _ _ _ _ _ (ld8_Ok s _ _ He)). change (0 <? 0) with false. cbv iota.
    assert (Hmr : room (ks_heap s) q (Z.of_nat (Z.to_nat (de_rec d)))) by (rw /room; lia).
    erewrite bind_Ok; last first.
    { rw (bind_Ok _ _ _ _ _ (ld8_Ok s _ _ Hrec)). rw -{1}(Z2Nat.id (de_rec d)); [lia|]. by apply memset_at_Ok. }
    eexists. split; [reflexivity|]. set l := replicate _ _.
    assert (Hl : zlen l = de_rec d) by (rw /l length_replicate; lia).
    assert (Hlr : room (ks_heap s) q (zlen l)) by (rw Hl /room; lia).
    split; [apply (only_changes_weaken q (zlen l)); [by apply upd_only_changes|lia|lia]|]. exists q. split.
    + rw app_nil_r. apply (dir_at_same (ks_heap s)); [|done]. intros x Hx. apply rd_upd_ne; [lia|done].
    + pose proof (bytes_at_upd _ _ _ Hlr) as Hb. rw bytes_at_lookup in Hb. apply (Hb 5%nat).
      apply lookup_replicate. split; [done|lia].
  - pose proof Hds2 as [Hd2 _]. assert (Hr2 : 7 ≤ de_rec d2) by (destruct Hd2 as [_ (_ & _ & ?)]; lia).
    rw (bind_Ok _ _ _ _ _ (ld8_Ok s _ _ (entry_at_rec _ _ _ Hd2))). replace (0 <? de_rec d2) with true by lia.
    set n := Z.to_nat (root_block base + 4096 - next).
    destruct (memmove_at_Ok s q next n) as (m' & Hm & Hoc & Hmv); [rw /room; lia|rw /room; lia|].
    exists m'. split; [|split; [|exists (e - de_rec d); split]].
    + erewrite bind_Ok; [|rw (bind_Ok _ _ _ _ _ (get_block_Ok s base Hok 9)); change (64 <=? 9) with false; cbv iota;
        erewrite bind_Ok; [|reflexivity]; fold (root_block base);
        replace (u64 _) with (Z.of_nat n); [exact Hm|rw u64_small; lia]]. reflexivity.
    + apply (only_changes_weaken q (Z.of_nat n)); [done|lia|lia].
    + apply dir_at_app. exists q. destruct Hoc as (_ & _ & Hoc). split.
      * apply (dir_at_same (ks_heap s)); [|done]. intros x Hx. apply Hoc. lia.
      * replace q with (next - de_rec d) by lia. apply (dir_at_shift (ks_heap s)); [|done].
        intros x Hx. replace (x - de_rec d) with (q + (x - next)) by lia. rw Hmv; [lia|]. f_equal. lia.
    + replace (e - de_rec d + 5) with (q + (e + 5 - next)) by lia. rw Hmv; [lia|]. rw -He. f_equal. lia.
Qed.

(** Marking inode [n] free touches only its mode. *)
Lemma clear_mode_Ok s base n :
  abyss_ok s base → 0 ≤ n < 512 →
  ∃ s' , (inode ← Abyss.get_inode n;
          match inode with
          | None => mret tt
          | Some inode =>
              st32 (i_mode inode) 0;;
              b ← ld32 (i_blocks inode);
              if negb (b =? 0) then Abyss.free_block b else mret tt
          end) s = Ok tt s' ∧
  only_changes (inode_addr base n) 4 (ks_heap s) (ks_heap s') ∧ abyss_ok s' base ∧
  mode_of s' base n = Some 0 ∧
  (∀ b, rd32 (ks_heap s) (i_blocks (inode_addr base n)) = Some b → 0 < b < 64 → block_free s' b = true).
Proof.
  intros Hok Hn. pose proof (inode_room s base Hok n Hn) as Hir.
  rw (bind_Ok _ _ _ _ _ (get_inode_Ok s base Hok n ltac:(lia))). replace (512 <=? n) with false by lia.
  assert (Hr : room (ks_heap s) (inode_addr base n) 4) by (rw /room in Hir |- *; lia).
  rw (bind_Ok _ _ _ _ _ (st32_Ok s (i_mode (inode_addr base n)) 0 Hr)). rw /i_mode.
  set s1 := set_heap _ s. assert (Hoc : only_changes (inode_addr base n) 4 (ks_heap s) (ks_heap s1)).
  { by apply (upd_only_changes (ks_heap s) _ (le32 0)). }
  assert (Hok1 : abyss_ok s1 base) by (by apply (abyss_ok_heap s base _ (inode_addr base n) 4)).
  assert (Hsame : rd32 (ks_heap s1) (i_blocks (inode_addr base n)) = rd32 (ks_heap s) (i_blocks (inode_addr base n))).
  { apply rd32_upd_ne; [done|]. rw /i_blocks /=. lia. }
  destruct (rd32_room (ks_heap s) (i_blocks (inode_addr base n))) as [b Hb]; [rw /room /i_blocks in Hir |- *; lia|].
  rw -Hsame in Hb. rw (bind_Ok _ _ _ _ _ (ld32_rd s1 _ _ Hb)).
  assert (Hm : rd32 (ks_heap s1) (inode_addr base n) = Some 0) by (by apply rd32_upd).
  rw Hsame in Hb. destruct (b =? 0) eqn:E; zbool; simpl.
  { exists s1. split_and!; [done|exact Hoc|exact Hok1|exact Hm|]. intros b' Hb' ?. rw Hb in Hb'. simplify_eq. lia. }
  destruct (decide (b < 64)) as [Hlt|Hge].
  - destruct (decide (0 ≤ b)) as [H0|H0]; last first.
    { pose proof Hok1 as (_ & Ht & _). exists (gave b s1). split_and!; [|exact Hoc|exact Hok1|exact Hm|].
      - rw /Abyss.free_block /mbind /M_bind /= Ht. by replace (b <? 64) with true by lia.
      - intros b' Hb' ?. rw Hb in Hb'. injection Hb' as <-. lia. }
    exists (gave b s1). split_and!; [by apply (free_block_Ok s1 base Hok1)|exact Hoc|exact Hok1|exact Hm|].
    intros b' Hb' Hr'. rw Hb in Hb'. injection Hb' as <-. rw gave_free; [lia..|]. by rw Z.eqb_refl orb_true_r.
  - exists s1. pose proof Hok1 as (_ & Ht & _). split_and!; [|exact Hoc|exact Hok1|exact Hm|].
    + rw /Abyss.free_block /mbind /M_bind /= Ht. by replace (b <? 64) with false by lia.
    + intros b' Hb' Hr'. rw Hb in Hb'. injection Hb' as <-. lia.
Qed.

(** What [abyssfs_unlink] does to an entry of the root directory. *)
Lemma unlink_root_Ok s base ds1 q d ds2 e name k :
  abyss_ok s base →
  dir_at (ks_heap s) (root_block base) ds1 q → dir_at (ks_heap s) q (d :: ds2) e →
  rd (ks_heap s) (e + 5) = Some 0 → e + 6 ≤ root_block base + BLOCK_SIZE →
  skip_slash name = de_name d → dir_lookup ds1 (de_name d) = None → 0 ≤ de_inode d < 512 →
  0 ≤ k < 2 ^ 64 →
  ∃ s', Abyss.abyssfs_unlink name s = Ok 0 s' ∧ abyss_ok s' base ∧
    mode_of s' base (de_inode d) = Some 0 ∧
    (∀ n, 0 ≤ n < 512 → n ≠ de_inode d → mode_of s' base n = mode_of s base n) ∧
    (∀ b, rd32 (ks_heap s) (i_blocks (inode_addr base (de_inode d))) = Some b → 0 < b < 64 → block_free s' b = true) ∧
    let l := take (Z.to_nat k) (to_dirent <$> ds1 ++ ds2) in
    ∃ s'', Abyss.abyssfs_read_dir (bs "/") k s' = Ok (zlen l, l) s''.
Proof.
  intros Hok Hds1 Hds2 He Hfit Hname Hnew Hi Hk.
  destruct (clear_mode_Ok s base (de_inode d) Hok Hi) as (s1 & Hclear & (Hlo & Hhi & Hoc) & Hok1 & Hmode & Hfree).
  assert (Hsame : ∀ x, root_block base ≤ x → rd (ks_heap s1) x = rd (ks_heap s) x).
  { intros x Hx. apply Hoc. rw /root_block /inode_addr /BLOCK_SIZE /sizeof_inode in Hx |- *. lia. }
  pose proof (dir_at_le _ _ _ _ Hds1) as Hq. pose proof (dir_at_le _ _ _ _ Hds2) as Hqe.
  destruct (close_gap s1 base ds1 q d ds2 e Hok1) as (m' & Hgap & Hocm & e' & Hdir); [| | |done|].
  { apply (dir_at_same (ks_heap s)); [|done]. intros. apply Hsame. lia. }
  { apply (dir_at_same (ks_heap s)); [|done]. intros. apply Hsame. lia. }
  { rw Hsame //. lia. }
  set s2 := set_heap m' s1. assert (Hok2 : abyss_ok s2 base) by (by apply (abyss_ok_heap s1 base m' _ _ Hok1 Hocm)).
  exists s2. split_and!.
  - rw /Abyss.abyssfs_unlink Hname. pose proof Hok as (_ & _ & Hib & _ & Hroom).
    erewrite bind_Ok; [|reflexivity]. rw /= Hib. change (u32 (8 + 1)) with 9.
    rw (bind_Ok _ _ _ _ _ (get_block_Ok s base Hok 9)). change (64 <=? 9) with false. cbv iota. fold (root_block base).
    assert (Hdl : dir_list (ks_heap s) (root_block base) (ds1 ++ d :: ds2) e).
    { split; [|done]. apply dir_at_app. by exists q. }
    erewrite bind_Ok; [|apply (find_in_dir s _ _ _ (de_name d) Hdl); rw /room /root_block /BLOCK_SIZE in Hroom |- *; lia].
    rw (entry_addr_app _ _ _ _ _ ds2 _ Hds1 Hnew (s_strcmp_refl _)) /=.
    destruct Hds2 as [Hd _].
    rw (bind_Ok _ _ _ _ _ (ld32_Ok s q (de_inode d) ltac:(lia) (entry_at_inode _ _ _ Hd))).
    rw (bind_assoc_Ok _ _ _ _ _ _ Hclear). exact Hgap.
  - exact Hok2.
  - rw /mode_of. etrans; [|exact Hmode]. apply rd32_same. intros x Hx. apply Hocm.
    rw /i_mode /root_block /inode_addr /BLOCK_SIZE /sizeof_inode in Hx |- *. lia.
  - intros n Hn Hne. rw /mode_of. etransitivity; apply rd32_same; intros x Hx; [apply Hocm|apply Hoc];
      rw /i_mode /root_block /inode_addr /BLOCK_SIZE /sizeof_inode in Hx |- *; lia.
  - exact Hfree.
  - exists s2. rw /Abyss.abyssfs_read_dir. pose proof Hok2 as (_ & _ & Hib & _).
    erewrite bind_Ok; [|reflexivity]. rw Hib. change (u32 (8 + 1)) with 9.
    by apply (read_block_Ok s2 base (ds1 ++ ds2) 9 e' k Hok2 Hk).
Qed.

(** C31: [abyssfs_unlink] of a file of the root directory returns 0, removes
    the first entry with that name and keeps the others in order (so that a
    listing of the root shows exactly them), marks the inode free and gives
    its block back. *)
Theorem abyssfs_unlink_correct s base ds1 q d ds2 e name k :
  abyss_ok s base →
  dir_at (ks_heap s) (root_block base) ds1 q → dir_at (ks_heap s) q (d :: ds2) e →
  rd (ks_heap s) (e + 5) = Some 0 → e + 6 ≤ root_block base + BLOCK_SIZE →
  skip_slash name = de_name d → dir_lookup ds1 (de_name d) = None → 0 ≤ de_inode d < 512 →
  0 ≤ k < 2 ^ 64 →
  ∃ s', Abyss.abyssfs_unlink name s = Ok 0 s' ∧ abyss_ok s' base ∧
    mode_of s' base (de_inode d) = Some 0 ∧
    (∀ b, rd32 (ks_heap s) (i_blocks (inode_addr base (de_inode d))) = Some b → 0 < b < 64 → block_free s' b = true) ∧
    let l := take (Z.to_nat k) (to_dirent <$> ds1 ++ ds2) in
    ∃ s'', Abyss.abyssfs_read_dir (bs "/") k s' = Ok (zlen l, l) s''.
Proof.
  intros Hok Hds1 Hds2 He Hfit Hname Hnew Hi Hk.
  destruct (unlink_root_Ok s base ds1 q d ds2 e name k) as (s' & ? & ? & ? & _ & ? & ?); [done..|].
  exists s'. by split_and!.
Qed.

(** [abyssfs_unlink] searches the root directory for the whole path: a
    path with a slash in it (a file of a subdirectory) is never found, -1 is
    returned and nothing is removed. *)
Theorem abyssfs_unlink_nested_fails s base ds e path :
  abyss_ok s base → dir_list (ks_heap s) (root_block base) ds e →
  Forall (λ d, 47 ∉ de_name d) ds → is_str path → 47 ∈ skip_slash path →
  ∃ out, Abyss.abyssfs_unlink path s = Ok (-1) (set_out out s).
Proof.
  intros Hok Hd Hns Hp Hsl. rw /Abyss.abyssfs_unlink. pose proof Hok as (_ & _ & Hib & _ & Hroom).
  erewrite bind_Ok; [|reflexivity]. rw /= Hib. change (u32 (8 + 1)) with 9.
  rw (bind_Ok _ _ _ _ _ (get_block_Ok s base Hok 9)). change (64 <=? 9) with false. cbv iota. fold (root_block base).
  erewrite bind_Ok; [|apply (find_in_dir s _ _ _ (skip_slash path) Hd); rw /room /root_block /BLOCK_SIZE in Hroom |- *; lia].
  assert (dir_lookup ds (skip_slash path) = None) as Hl.
  { assert (is_str (skip_slash path)) as Hs.
    { destruct path as [|c path]; [done|]. apply Forall_cons in Hp as Hp'. rw /skip_slash. by destruct (c =? 47); [apply Hp'|]. }
    destruct Hd as [Hd _]. clear -Hd Hns Hsl Hs. revert Hd. generalize (root_block base).
    induction ds as [|d ds IH]; intros p; simpl; [done|]. intros [[_ (_ & [Hn _] & _)] Hds].
    apply Forall_cons in Hns as [Hd Hns]. destruct (_ =? 0) eqn:E; zbool; [|by apply (IH Hns _ Hds)].
    apply s_strcmp_eq in E; [|done..]. by rw -E in Hsl. }
  pose proof (entry_addr_lookup _ _ _ _ (skip_slash path) (proj1 Hd)) as Ha. rw Hl in Ha. rw Ha. by eexists.
Qed.

(** ** Termination *)

Lemma fueled_load p : fueled (load p).
Proof. intros m. rw /load. by destruct (rd m p). Qed.

Lemma fueled_store p v : fueled (store p v).
Proof. intros m. rw /store. by destruct (wr m p v). Qed.

#[local] Hint Resolve fueled_load fueled_store : fueled.

Lemma fueled_ld8 p : fueled (ld8 p).
Proof. rw /ld8. fuel_auto. Qed.

Lemma fueled_st8 p v : fueled (st8 p v).
Proof. rw /st8. fuel_auto. Qed.

#[local] Hint Resolve fueled_ld8 fueled_st8 : fueled.

Lemma fueled_ld32 p : fueled (ld32 p).
Proof. rw /ld32. fuel_auto. Qed.

Lemma fueled_st32 p v : fueled (st32 p v).
Proof. rw /st32. fuel_auto. Qed.

Lemma fueled_memset_loop n p c : fueled (Lib.memset_loop n p c).
Proof. revert p. induction n as [|n IH]; intros p; simpl; [|apply fueled_bind; [|done]]; fuel_auto. Qed.

Lemma fueled_memcpy_loop n d p : fueled (Lib.memcpy_loop n d p).
Proof.
  revert d p. induction n as [|n IH]; intros d p; simpl; [fuel_auto|].
  do 2 (apply fueled_bind; [fuel_auto|intros ?]). done.
Qed.

Lemma fueled_memmove_back n d p : fueled (Lib.memmove_back n d p).
Proof.
  revert d p. induction n as [|n IH]; intros d p; simpl; [fuel_auto|].
  do 2 (apply fueled_bind; [fuel_auto|intros ?]). done.
Qed.

#[local] Hint Resolve fueled_ld32 fueled_st32 fueled_memset_loop fueled_memcpy_loop fueled_memmove_back : fueled.

Lemma fueled_memset_at p c n : fueled (memset_at p c n).
Proof. rw /memset_at /Lib.memset. fuel_auto. Qed.

Lemma fueled_memmove_at d p n : fueled (memmove_at d p n).
Proof. rw /memmove_at /Lib.memmove. fuel_auto; apply fueled_zoom; fuel_auto. Qed.

Lemma fueled_strcmp_at p t : fueled (strcmp_at p t).
Proof.
  revert p. induction t as [|b t IH]; intros p; simpl; (apply fueled_bind; [fuel_auto|intros a]); [fuel_auto|].
  destruct (_ && _); [apply IH|fuel_auto].
Qed.

Lemma fueled_strcpy_from n p : fueled (strcpy_from n p).
Proof.
  revert p. induction n as [|n IH]; intros p; simpl; [fuel_auto|]. apply fueled_bind; [fuel_auto|intros a].
  destruct (a =? 0); [fuel_auto|]. apply fueled_bind; [apply IH|intros ?; fuel_auto].
Qed.

Lemma fueled_get_block b : fueled (Abyss.get_block b).
Proof. rw /Abyss.get_block /get_sb /blocks_ptr. fuel_auto. Qed.

#[local] Hint Resolve fueled_memset_at fueled_memmove_at fueled_strcmp_at fueled_strcpy_from fueled_get_block : fueled.

Lemma fueled_get_inode n : fueled (Abyss.get_inode n).
Proof. rw /Abyss.get_inode /get_sb. fuel_auto. Qed.

Lemma fueled_free_block b : fueled (Abyss.free_block b).
Proof. rw /Abyss.free_block /set_bitmap /set_sb. fuel_auto. Qed.

Lemma fueled_uart_puts t : fueled (uart_puts t).
Proof. rw /uart_puts. fuel_auto. Qed.

#[local] Hint Resolve fueled_get_inode fueled_free_block fueled_uart_puts : fueled.

(** The loads and comparisons leave the state alone. *)
Lemma ld8_same p s v s' : ld8 p s = Ok v s' → rd (ks_heap s) p = Some v ∧ s' = s.
Proof.
  rw /ld8 /zoom /load. destruct (rd (ks_heap s) p); [|done]. intros [= <- <-]. by rw set_heap_id.
Qed.

Lemma strcmp_at_same p t s v s' : strcmp_at p t s = Ok v s' → s' = s.
Proof.
  revert p s. induction t as [|b t IH]; intros p s; simpl; intros (a & s1 & [_ ->]%ld8_same & H)%bind_inv.
  - by apply ret_inv in H as [_ ->].
  - destruct (_ && _); [by apply (IH _ _ H)|by apply ret_inv in H as [_ ->]].
Qed.

Lemma strcpy_from_same n p s v s' : strcpy_from n p s = Ok v s' → s' = s.
Proof.
  revert p s v s'. induction n as [|n IH]; intros p s v s'; simpl; [done|].
  intros (a & s1 & [_ ->]%ld8_same & H)%bind_inv. destruct (a =? 0); [by apply ret_inv in H as [_ ->]|].
  apply bind_inv in H as (t & s2 & ->%IH & H). by apply ret_inv in H as [_ ->].
Qed.

Lemma ld32_same p s v s' : ld32 p s = Ok v s' → s' = s.
Proof.
  rw /ld32. intros H. minv H. repeat match goal with E : ld8 _ _ = Ok _ _ |- _ => apply ld8_same in E as [_ ->] end.
  by apply ret_inv in H as [_ ->].
Qed.

(** How many more steps a walk from [p] can make before it leaves the heap. *)
Definition steps_left (m : mem) (p : Z) : nat := Z.to_nat (m_hi m - Z.max (m_lo m) (p + 5)).

Lemma steps_left_lt m p v rec :
  rd m (e_rec_len p) = Some v → 0 < rec → (steps_left m (p + rec) < steps_left m p)%nat.
Proof. rw /steps_left /e_rec_len. intros H%rd_Some_valid Hr. lia. Qed.

Lemma find_entry_fueled fuel p name s :
  (steps_left (ks_heap s) p < fuel)%nat → Abyss.find_entry fuel p name s ≠ NoFuel.
Proof.
  revert p. induction fuel as [|fuel IH]; intros p Hf; [lia|]. simpl. rw /mbind /M_bind.
  destruct (ld8 (e_rec_len p) s) as [rec s1| | | |] eqn:E; try done; [|by apply fueled_ld8 in E].
  apply ld8_same in E as [E ->]. destruct (0 <? rec) eqn:Er; zbool; [|done].
  destruct (strcmp_at (e_name p) name s) as [c s1| | | |] eqn:Ec; try done; [|by apply fueled_strcmp_at in Ec].
  apply strcmp_at_same in Ec as ->. destruct (c =? 0); [done|].
  rw (ld8_Ok _ _ _ E). apply IH. pose proof (steps_left_lt _ _ _ rec E Er). lia.
Qed.

Lemma read_entries_fueled fuel p k s :
  (steps_left (ks_heap s) p < fuel)%nat → Abyss.read_entries fuel p k s ≠ NoFuel.
Proof.
  revert p k. induction fuel as [|fuel IH]; intros p k Hf; [lia|]. cbn [Abyss.read_entries]. rw /mbind /M_bind.
  destruct (ld8 (e_rec_len p) s) as [rec s1| | | |] eqn:E; try done; [|by apply fueled_ld8 in E].
  apply ld8_same in E as [E ->]. destruct (0 <? rec) eqn:Er; zbool; [rw andb_true_l|done]. destruct (0 <? k); [|done].
  destruct (ld32 (e_inode p) s) as [n s1| | | |] eqn:En; try done; [|by apply fueled_ld32 in En].
  apply ld32_same in En as ->.
  destruct (strcpy_from 256 (e_name p) s) as [t s1| | | |] eqn:Et; try done; [|by apply fueled_strcpy_from in Et].
  apply strcpy_from_same in Et as ->. rw (ld8_Ok _ _ _ E).
  pose proof (steps_left_lt _ _ _ rec E Er). specialize (IH (p + rec) (k - 1)).
  destruct (Abyss.read_entries fuel (p + rec) (k - 1) s); try done. by destruct IH; [lia|].
Qed.

Lemma span_fueled {A} (f : nat → K A) p :
  (∀ fuel s, (steps_left (ks_heap s) p < fuel)%nat → f fuel s ≠ NoFuel) → fueled (fuel ← heap_span; f fuel).
Proof.
  intros Hf s. rw (bind_Ok _ _ _ _ _ (heap_span_Ok s)). apply Hf. rw /steps_left. lia.
Qed.

Lemma fueled_find p name : fueled (fuel ← heap_span; Abyss.find_entry fuel p name).
Proof. apply (span_fueled _ p). intros. by apply find_entry_fueled. Qed.

Lemma fueled_read_entries p k :
  fueled (fuel ← heap_span; l ← Abyss.read_entries fuel p k; mret (zlen l, l)).
Proof.
  apply (span_fueled _ p). intros fuel s Hf. pose proof (read_entries_fueled fuel p k s Hf) as H.
  rw /mbind /M_bind. by destruct (Abyss.read_entries fuel p k s).
Qed.

#[local] Hint Resolve fueled_find fueled_read_entries : fueled.

Lemma fueled_walk_path inode tokens : fueled (Abyss.walk_path inode tokens).
Proof.
  revert inode. induction tokens as [|t tokens IH]; intros inode; simpl; [fuel_auto|].
  apply fueled_bind; [fuel_auto|intros b]. destruct (b =? 0); [fuel_auto|].
  apply fueled_bind; [fuel_auto|intros o]. apply fueled_bind; [destruct o; [apply fueled_find|fuel_auto]|intros r].
  destruct r; [|fuel_auto]. do 2 (apply fueled_bind; [fuel_auto|intros ?]).
  destruct a0; [apply IH|destruct tokens; fuel_auto].
Qed.

#[local] Hint Resolve fueled_walk_path : fueled.

Lemma fueled_get_inode_by_path path : fueled (Abyss.get_inode_by_path path).
Proof. rw /Abyss.get_inode_by_path. fuel_auto. Qed.

#[local] Hint Resolve fueled_get_inode_by_path : fueled.

Lemma fueled_read_dir path k : fueled (Abyss.abyssfs_read_dir path k).
Proof.
  rw /Abyss.abyssfs_read_dir /get_sb. apply fueled_bind; [fuel_auto|intros r]. destruct r; [|fuel_auto].
  apply fueled_bind; [fuel_auto|intros o]. destruct o; [apply fueled_read_entries|fuel_auto].
Qed.

Lemma fueled_unlink path : fueled (Abyss.abyssfs_unlink path).
Proof.
  rw /Abyss.abyssfs_unlink /get_sb. apply fueled_bind; [fuel_auto|intros sb]. cbv zeta.
  apply fueled_bind; [fuel_auto|intros o]. apply fueled_bind; [destruct o; [apply fueled_find|fuel_auto]|intros r].
  fuel_auto.
Qed.

#[local] Hint Resolve fueled_read_dir fueled_unlink : fueled.

Lemma fueled_strcpy {A} cap src (f : str → K A) :
  (zlen src + 1 ≤ cap → fueled (f src)) → fueled (strcpy_to cap src ≫= f).
Proof.
  rw /strcpy_to. destruct (_ <=? _) eqn:E; zbool; intros Hf; [by apply Hf|by intros s].
Qed.

Lemma fueled_strcat {A} cap dst src (f : str → K A) :
  (zlen (dst ++ src) + 1 ≤ cap → fueled (f (dst ++ src))) → fueled (strcat_to cap dst src ≫= f).
Proof.
  rw /strcat_to length_app. destruct (_ <=? _) eqn:E; zbool; intros Hf; [apply Hf; lia|by intros s].
Qed.

(** The recursion of [abyssfs_remove_recursive] never exceeds a call depth of
    257, whatever the directories hold, cycles and corrupt records included:
    each level extends the path, and a path of 256 bytes overflows the
    buffer. *)
Theorem abyssfs_remove_recursive_terminates path s :
  Abyss.abyssfs_remove_recursive 257 path s ≠ NoFuel.
Proof.
  assert (∀ fuel path, (0 < fuel)%nat → (257 ≤ fuel + length path)%nat → fueled (Abyss.abyssfs_remove_recursive fuel path)) as H;
    [|by apply H; lia]. clear.
  intros fuel. induction fuel as [|fuel IH]; intros path Hf Hl; [lia|]. simpl.
  apply fueled_bind; [fuel_auto|intros [c es]]. apply fueled_bind; [|intros ?; fuel_auto].
  induction es as [|e es IHes]; [fuel_auto|]. apply fueled_bind; [|intros; apply IHes].
  destruct (_ || _); [fuel_auto|].
  apply fueled_strcpy. intros _. apply fueled_strcat. intros _. apply fueled_strcat. intros Hfit.
  rw !length_app /VFS_MAX_PATH /= in Hfit.
  do 2 (apply fueled_bind; [fuel_auto|intros ?]). apply fueled_bind; [|intros ?; fuel_auto].
  destruct a0; [|fuel_auto]. apply IH; rw ?length_app /=; lia.
Qed.

(** ** Witnesses *)

Definition demo_process : process :=
  Process 1 0 PROC_RUNNING None (replicate 34 0) 0 None 0 message_queue0 0 (bs "/").

(** An initialised file system with a current process whose directory is "/". *)
Definition abyss2 : kstate :=
  set_proc (ProcGlobals {[PStatic 0 := demo_process]} 1 None (Some (PStatic 0)) (Some (PStatic 0)) 2) abyss1.

Definition dot : dentry := Dentry 1 (bs ".") 8.

Definition dotdot : dentry := Dentry 1 (bs "..") 248.

Ltac by_compute := solve [vm_compute; repeat split; first [done | reflexivity | discriminate]].

Lemma name_ok_bool s : bool_decide (is_str s) && (zlen s <=? 245) = true → name_ok s.
Proof. intros H. zbool. split; [by apply is_str_bool|lia]. Qed.

Lemma abyss2_ok : abyss_ok abyss2 0.
Proof. split_and!; by_compute. Qed.

Lemma abyss2_entries :
  entry_at (ks_heap abyss2) 36864 dot ∧ entry_at (ks_heap abyss2) 36872 dotdot.
Proof. split; (split; [by_compute|split; [done|split; [by apply name_ok_bool; vm_compute|done]]]). Qed.

Lemma abyss2_root : root_dir abyss2 0 [dot] 36872 dotdot.
Proof.
  destruct abyss2_entries as [H1 H2]. split_and!; [by_compute|by_compute| |exact H2|done|by_compute].
  split; [exact H1|reflexivity].
Qed.

Lemma abyss2_facts :
  current abyss2 = Ok demo_process abyss2 ∧ heap_ok abyss2 ∧ ks_heap_pos abyss2 = 262144 ∧
  mode_of abyss2 0 2 = Some 0 ∧ inode_data abyss2 0 0 0 0 ∧ block_free abyss2 10 = true.
Proof.
  split_and!; [reflexivity|by_compute|by_compute|by_compute|split; [done|split; by_compute]|by_compute].
Qed.

Lemma abyss_paths_correct_witness :
  (∃ out, Abyss.get_inode_by_path (bs "..") abyss2 = Ok (Some (inode_addr 0 1)) (set_out out abyss2)) ∧
  ∃ out, Abyss.abyssfs_read_dir (bs "/..") 32 abyss2 =
         Ok (2, [Dirent 1 (bs "."); Dirent 1 (bs "..")]) (set_out out abyss2).
Proof.
  assert (Hnum : Forall (λ d, 0 ≤ de_inode d < 512) ([dot] ++ [dotdot])) by (by repeat constructor).
  assert (Hres : resolve (root_view ([dot] ++ [dotdot])) 1
                   (s_split (bs "/") (take 255 (skip_slash (skip_slash (bs "/.."))))) = Some (Some 1)) by reflexivity.
  assert (Hk : 0 ≤ 32 < 2 ^ 64) by done.
  destruct (abyss_paths_correct abyss2 0 _ abyss2_ok (root_view_rep _ _ _ _ _ abyss2_root Hnum) (proj1 abyss2_root)
              (bs "/..") (Some 1) 32 Hres Hk) as [H1 (out & H2)].
  split; [exact H1|]. exists out. exact (H2 _ eq_refl).
Defined.

Lemma abyssfs_create_lists_witness :
  ∃ fp n s' out, Abyss.abyssfs_create (bs "/a.txt") abyss2 = Ok (Some fp) s' ∧
    Abyss.abyssfs_read_dir (bs "/") 32 s' =
      Ok (3, [Dirent 1 (bs "."); Dirent 1 (bs ".."); Dirent n (bs "a.txt")]) (set_out out s').
Proof.
  destruct abyss2_facts as (Hcur & Hheap & Hpos & Hm & _).
  destruct (abyssfs_create_lists abyss2 0 [dot] 36872 dotdot (bs "a.txt") demo_process 32)
    as (fp & n & s' & Hc & _ & _ & _ & _ & (out & Hl) & _).
  - exact abyss2_ok.
  - exact abyss2_root.
  - by repeat constructor.
  - by_compute.
  - by apply name_ok_bool; vm_compute.
  - apply (bool_decide_unpack _). vm_compute. done.
  - discriminate.
  - exact Hcur.
  - reflexivity.
  - exact Hheap.
  - rw Hpos /sizeof_vfs_file /HEAP_SIZE. lia.
  - exists 2. split; [lia|exact Hm].
  - lia.
  - exists fp, n, s', out. split; [exact Hc|exact Hl].
Defined.

Lemma hello_bytes : Forall byte (bs "hello").
Proof. by repeat constructor. Qed.

(** Two files opened on inode 2, which is empty. *)
Definition abyss3 : kstate :=
  set_files {[0 := VfsFile (Some ABYSSFS) [] (Pino 2) 0; 304 := VfsFile (Some ABYSSFS) [] (Pino 2) 0]} abyss2.

Lemma abyss_ok_files s base fs : abyss_ok s base → abyss_ok (set_files fs s) base.
Proof. done. Qed.

Lemma block_free_files s fs i : block_free (set_files fs s) i = block_free s i.
Proof. done. Qed.

Lemma abyssfs_write_read_witness :
  ∃ s' s'', Abyss.abyssfs_write 0 (bs "hello") 5 abyss3 = Ok 5 s' ∧
            Abyss.abyssfs_read 304 10 s' = Ok (5, bs "hello") s''.
Proof.
  destruct abyss2_facts as (_ & _ & _ & _ & _ & Hb).
  apply (abyssfs_write_read abyss3 0 0 304 2 (VfsFile (Some ABYSSFS) [] (Pino 2) 0)
           (VfsFile (Some ABYSSFS) [] (Pino 2) 0) (bs "hello") 5 10).
  - exact (abyss_ok_files _ _ _ abyss2_ok).
  - reflexivity.
  - reflexivity.
  - reflexivity.
  - reflexivity.
  - reflexivity.
  - split; [lia|split; by_compute].
  - exists 10. split; [lia|]. rw block_free_files. exact Hb.
  - lia.
  - vm_compute. discriminate.
  - apply hello_bytes.
  - lia.
Defined.

(** A file of 5 bytes in block 10, opened at position 5. *)
Definition abyss4 : kstate :=
  set_heap (upd (upd (upd (ks_heap abyss2) (i_blocks (inode_addr 0 2)) (le32 10))
                     (i_size (inode_addr 0 2)) (le32 5)) 40960 (bs "hello"))
    (set_files {[0 := VfsFile (Some ABYSSFS) [] (Pino 2) 5]} abyss2).

Lemma abyssfs_write_at_start_witness :
  ∃ s', Abyss.abyssfs_write 0 (bs "abc") 3 abyss4 = Ok 3 s' ∧ inode_data s' 0 2 10 8 ∧
        bytes_at (ks_heap s') 40960 (bs "abc").
Proof.
  destruct (abyssfs_write_at_start abyss4 0 0 2 10 5 (VfsFile (Some ABYSSFS) [] (Pino 2) 5) (bs "abc") 3)
    as (s' & Hw & Hi & Hb & _).
  - split_and!; by_compute.
  - reflexivity.
  - reflexivity.
  - split; [lia|split; by_compute].
  - lia.
  - lia.
  - vm_compute. discriminate.
  - by repeat constructor.
  - lia.
  - exists s'. split; [exact Hw|split; [exact Hi|exact Hb]].
Defined.

Lemma abyssfs_open_aliases_witness :
  ∃ fp1 fp2 s', fp1 ≠ fp2 ∧
    (o1 ← Abyss.abyssfs_open (bs "/x"); o2 ← Abyss.abyssfs_open (bs "/y"); mret (o1, o2)) abyss2
      = Ok (Some fp1, Some fp2) s' ∧
    ∃ s'' s3, Abyss.abyssfs_write fp1 (bs "hello") 5 s' = Ok 5 s'' ∧
      Abyss.abyssfs_read fp2 5 s'' = Ok (5, bs "hello") s3.
Proof.
  destruct abyss2_facts as (_ & Hheap & Hpos & _ & Hi & Hb).
  apply (abyssfs_open_aliases abyss2 0 (bs "/x") (bs "/y") (bs "hello") 5).
  - exact abyss2_ok.
  - exact Hheap.
  - rw Hpos /sizeof_vfs_file /HEAP_SIZE. lia.
  - exact Hi.
  - exists 10. split; [lia|exact Hb].
  - lia.
  - vm_compute. discriminate.
  - apply hello_bytes.
Defined.

(** The root directory with a file "a" in it. *)
Definition abyss5 : kstate := default abyss2 (final (Abyss.abyssfs_create (bs "/a") abyss2)).

Definition entry_a : dentry := Dentry 2 (bs "a") 8.

Lemma abyss5_dir :
  abyss_ok abyss5 0 ∧ dir_at (ks_heap abyss5) 36864 [dot; cut dotdot] 36884 ∧
  dir_at (ks_heap abyss5) 36884 [entry_a] 36892 ∧ rd (ks_heap abyss5) 36897 = Some 0.
Proof.
  split_and!; [split_and!; by_compute| | |by_compute].
  - split; [|split; [|reflexivity]];
      (split; [by_compute|split; [done|split; [by apply name_ok_bool; vm_compute|done]]]).
  - split; [|reflexivity].
    split; [by_compute|split; [done|split; [by apply name_ok_bool; vm_compute|done]]].
Qed.

Lemma abyssfs_unlink_correct_witness :
  ∃ s' s'', Abyss.abyssfs_unlink (bs "/a") abyss5 = Ok 0 s' ∧
    Abyss.abyssfs_read_dir (bs "/") 32 s' = Ok (2, [Dirent 1 (bs "."); Dirent 1 (bs "..")]) s''.
Proof.
  destruct abyss5_dir as (Hok & Hd1 & Hd2 & He).
  destruct (abyssfs_unlink_correct abyss5 0 [dot; cut dotdot] 36884 entry_a [] 36892 (bs "/a") 32 Hok Hd1 Hd2 He)
    as (s' & Hu & _ & _ & _ & (s'' & Hl)).
  - vm_compute. discriminate.
  - reflexivity.
  - reflexivity.
  - vm_compute. split; [discriminate|reflexivity].
  - lia.
  - exists s', s''. split; [exact Hu|exact Hl].
Defined.

Lemma abyssfs_unlink_nested_fails_witness :
  ∃ out, Abyss.abyssfs_unlink (bs "/d/a") abyss5 = Ok (-1) (set_out out abyss5).
Proof.
  destruct abyss5_dir as (Hok & Hd1 & Hd2 & He).
  apply (abyssfs_unlink_nested_fails abyss5 0 ([dot; cut dotdot] ++ [entry_a]) 36892 (bs "/d/a") Hok).
  - split; [|exact He]. apply dir_at_app. exists 36884. split; [exact Hd1|exact Hd2].
  - by apply (bool_decide_unpack _); vm_compute.
  - by apply is_str_bool; vm_compute.
  - by apply (bool_decide_unpack _); vm_compute.
Defined.

(** ** Two concrete runs

    Both start from the initialised file system of [abyss2]. *)

Definition chdir (path : str) : K unit :=
  o ← get_current_process; p ← unwrap o; pr ← get_proc p;
  put_proc p (Process (p_pid pr) (p_parent_pid pr) (p_state pr) (p_ns_mounts pr) (p_ctx pr) (p_sp pr)
                (p_next pr) (p_exit_status pr) (p_msg_queue pr) (p_msg_blocked pr) path).

(** The leading slash of a path is dropped before [create_file] decides
    between an absolute and a relative name: with "/sub" as the working
    directory, creating the absolute path "/x" puts the file into "/sub" and
    not into the root. *)
Theorem abyssfs_create_absolute_in_cwd :
  value ((Abyss.abyssfs_mkdir (bs "/sub");; chdir (bs "/sub");; Abyss.abyssfs_create (bs "/x");;
          r ← Abyss.abyssfs_read_dir (bs "/") 32; d ← Abyss.abyssfs_read_dir (bs "/sub") 32;
          mret (d_name <$> r.2, d_name <$> d.2)) abyss2)
  = Some ([bs "."; bs ".."; bs "sub"], [bs "."; bs ".."; bs "x"]).
Proof. vm_compute. reflexivity. Qed.

(** [abyssfs_mkdir] does not clear the block it allocates: after a file
    of 300 bytes has been removed, a new directory that gets its block lists
    a third entry, made of the old file's bytes. *)
Theorem abyssfs_mkdir_stale_block :
  value ((o ← Abyss.abyssfs_create (bs "/f"); fp ← unwrap o;
          Abyss.abyssfs_write fp (replicate 300 65) 300;; Abyss.abyssfs_unlink (bs "/f");;
          Abyss.abyssfs_mkdir (bs "/d");; d ← Abyss.abyssfs_read_dir (bs "/d") 32; mret d.2) abyss2)
  = Some [Dirent 2 (bs "."); Dirent 1 (bs ".."); Dirent 0x41414141 (replicate 38 65)].
Proof. vm_compute. reflexivity. Qed.
