(* ===== verification/AbyssTree.v ===== *)
(** * AbyssTree: recursive removal in AbyssFS

    [abyssfs_remove_recursive] of [src/src/fs/abyssfs.c] on a directory tree:
    it visits every entry below a directory and calls [abyssfs_unlink] with
    the path of each, which looks for the whole path in the root directory. *)

From stdpp Require Import base numbers list gmap strings.
From Corelib Require Import ssreflect.
From S2P Require Import Prelude CString State Kmalloc Uart Paths Abyss AbyssDir AbyssAlloc AbyssFs.

Open Scope Z_scope.
Open Scope general_if_scope.

(** ** The loop over the entries of a directory *)

Definition special (name : str) : bool :=
  (s_strcmp name (bs ".") =? 0) || (s_strcmp name (bs "..") =? 0).

(** The body of the loop, with the recursive call as an argument. *)
Definition remove_entry (rec : str → K Z) (path : str) (e : dirent) : K unit :=
  if special (d_name e) then mret tt
  else
    full_path ← strcpy_to VFS_MAX_PATH path;
    full_path ← strcat_to VFS_MAX_PATH full_path (bs "/");
    full_path ← strcat_to VFS_MAX_PATH full_path (d_name e);
    o ← Abyss.get_inode (d_inode e);
    dir ← match o with
          | None => mret false
          | Some inode => mode ← ld32 (i_mode inode); mret (negb (Z.land mode 0x4000 =? 0))
          end;
    (if (dir : bool) then rec full_path else Abyss.abyssfs_unlink full_path);; mret tt.

Definition remove_entries (rec : str → K Z) (path : str) : list dirent → K unit :=
  fix remove es :=
    match es with
    | [] => mret tt
    | e :: es => remove_entry rec path e;; remove es
    end.

Lemma remove_recursive_S fuel path :
  Abyss.abyssfs_remove_recursive (S fuel) path =
  ('(_, es) ← Abyss.abyssfs_read_dir path 256;
   remove_entries (Abyss.abyssfs_remove_recursive fuel) path es;; Abyss.abyssfs_unlink path).
Proof. reflexivity. Qed.

(** ** Paths below a directory *)

Lemma s_split_snoc path name :
  is_name name → s_split [47] (path ++ 47 :: name) = s_split [47] path ++ [name].
Proof.
  intros Hn. remember (length path) as k eqn:Ek. revert path Ek. induction k as [k IH] using lt_wf_ind.
  intros [|b path] ->.
  - change (s_split [47] ([] ++ 47 :: name)) with (s_split [47] name).
    rw -{1}(app_nil_r name) s_split_name //. by left.
  - destruct (decide (b = 47)) as [->|Hb]; [exact (IH (length path) ltac:(simpl; lia) path eq_refl)|].
    destruct (split_first b path Hb) as (c & rest & E & Hc & Hr & Hs). rw Hs E -app_assoc.
    assert (length rest < length (b :: path))%nat as Hlt.
    { rw E length_app. destruct Hc as [Hc _]. destruct c; [done|simpl; lia]. }
    rw s_split_name //; [destruct Hr as [->|[r ->]]; right; by eexists|].
    rw (IH (length rest) Hlt rest eq_refl). destruct Hr as [->|[r ->]]; done.
Qed.

Lemma skip_slash_split path : s_split [47] (skip_slash path) = s_split [47] path.
Proof. destruct path as [|c path]; [done|]. rw /skip_slash. destruct (c =? 47) eqn:E; zbool; by subst. Qed.

Lemma skip_slash_length path : (length (skip_slash path) ≤ length path)%nat.
Proof. destruct path as [|c path]; [done|]. rw /skip_slash. destruct (c =? 47); simpl; lia. Qed.

Lemma resolve_snoc view n ts m ds d t :
  resolve view n ts = Some (Some m) → view m = Some ds → dir_lookup ds t = Some d →
  resolve view n (ts ++ [t]) = Some (Some (de_inode d)).
Proof.
  intros H Hv Hd. revert n H. induction ts as [|t' ts IH]; intros n; simpl; [intros [= ->]; by rw Hv /= Hd|].
  intros (ds' & -> & H)%bind_Some. simpl. destruct (dir_lookup ds' t'); [by apply IH|done].
Qed.

(** ** A directory tree *)

Lemma dir_at_names m p ds e d : dir_at m p ds e → d ∈ ds → is_str (de_name d).
Proof.
  revert p. induction ds as [|d' ds IH]; intros p; simpl; [by intros _ ?%not_elem_of_nil|].
  intros [[_ (_ & [Hn _] & _)] Hds] [->|Hin]%elem_of_cons; [done|by apply (IH _ Hds)].
Qed.

Section Tree.
Context (s : kstate) (base : Z) (view : Z → option (list dentry)).
Hypothesis Hok : abyss_ok s base.
Hypothesis Hview : ∀ n ds, view n = Some ds → dir_rep s base n ds.
Hypothesis Hroot : rd32 (ks_heap s) (i_blocks (inode_addr base 1)) = Some 9.
Hypothesis Hnames : ∀ n ds, view n = Some ds → Forall (λ d, is_name (de_name d)) ds.
Hypothesis Hview1 : is_Some (view 1).

Definition is_dir (n : Z) : bool :=
  match mode_of s base n with Some mode => negb (Z.land mode 0x4000 =? 0) | None => false end.

(** Below directory [n], whose path has [len] bytes: names are unique in their
    directory, there are at most [depth] levels and every path has at most 255
    bytes. *)
Fixpoint tree_ok (depth len : nat) (n : Z) : Prop :=
  match depth with
  | O => False
  | S depth => ∃ ds, view n = Some ds ∧ Forall (λ d, special (de_name d) = true ∨
      let len' := (len + S (length (de_name d)))%nat in
      dir_lookup ds (de_name d) = Some d ∧ (len' ≤ 255)%nat ∧
      (is_dir (de_inode d) = true → tree_ok depth len' (de_inode d))) ds
  end.

Definition at_path (path : str) (n : Z) : Prop :=
  is_str path ∧ path ≠ [] ∧ (length path ≤ 255)%nat ∧ resolve view 1 (s_split [47] path) = Some (Some n).

Lemma read_dir_at path n ds o :
  at_path path n → view n = Some ds →
  ∃ o', Abyss.abyssfs_read_dir path 256 (set_out o s) =
    Ok (zlen (take 256 (to_dirent <$> ds)), take 256 (to_dirent <$> ds)) (set_out o' s).
Proof.
  intros (_ & _ & Hl & Hr) Hv.
  destruct (read_dir_Ok (set_out o s) base view Hok Hview Hroot path (Some n) 256) as (o' & H); [|lia|].
  - rw take_ge; [|by rw !skip_slash_split].
    pose proof (skip_slash_length path). pose proof (skip_slash_length (skip_slash path)). lia.
  - exists o'. by apply H.
Qed.

(** The path of an entry is that of its inode, and has an inner slash. *)
Lemma child_at path n ds d :
  at_path path n → view n = Some ds → d ∈ ds → dir_lookup ds (de_name d) = Some d →
  (length path + S (length (de_name d)) ≤ 255)%nat →
  let child := path ++ bs "/" ++ de_name d in at_path child (de_inode d) ∧ 47 ∈ skip_slash child.
Proof.
  intros (Hs & Hne & Hl & Hr) Hv Hin Hd Hlen child.
  pose proof (proj1 (Forall_forall _ _) (Hnames _ _ Hv) d Hin) as Hn. simpl in Hn.
  split; [split_and!|].
  - apply Forall_app. split; [done|]. apply Forall_cons. split; [done|].
    destruct (Hview _ _ Hv) as (_ & _ & b & e & _ & _ & Hdir & _). by apply (dir_at_names _ _ _ _ _ Hdir Hin).
  - by destruct path.
  - rw /child !length_app /=. lia.
  - rw /child /= s_split_snoc //. by apply (resolve_snoc _ _ _ n ds).
  - rw /child. destruct path as [|c path]; [done|]. rw /skip_slash /=. destruct (c =? 47).
    + apply elem_of_app. right. left.
    + right. apply elem_of_app. right. left.
Qed.

Lemma unlink_inner path o :
  is_str path → 47 ∈ skip_slash path → ∃ o', Abyss.abyssfs_unlink path (set_out o s) = Ok (-1) (set_out o' s).
Proof.
  intros Hs Hsl. destruct Hview1 as [ds Hv]. destruct (Hview _ _ Hv) as (_ & _ & b & e & Hb & _ & Hd).
  rw Hroot in Hb. injection Hb as <-.
  destruct (abyssfs_unlink_nested_fails (set_out o s) base ds e path) as (o' & H); [done|exact Hd| |done|done|by exists o'].
  apply (Forall_impl _ _ _ (Hnames _ _ Hv)). intros d [_ Hd']. rw Forall_forall in Hd'. intros H. by apply Hd' in H.
Qed.

Lemma get_mode n o : 0 ≤ n < 512 →
  (o ← Abyss.get_inode n;
   match o with
   | None => mret false
   | Some inode => mode ← ld32 (i_mode inode); mret (negb (Z.land mode 0x4000 =? 0))
   end) (set_out o s) = Ok (is_dir n) (set_out o s).
Proof.
  intros Hn. rw (bind_Ok _ _ _ _ _ (get_inode_Ok (set_out o s) base Hok n ltac:(lia))).
  replace (512 <=? n) with false by lia. rw /is_dir /mode_of.
  destruct (rd32_room (ks_heap s) (i_mode (inode_addr base n))) as [mode Hm].
  { pose proof (inode_room s base Hok n Hn) as H. rw /room /i_mode in H |- *. lia. }
  rw Hm. by rw (bind_Ok _ _ _ _ _ (ld32_rd (set_out o s) _ _ Hm)).
Qed.

Lemma remove_entry_Ok rec path n ds d o :
  at_path path n → view n = Some ds → d ∈ ds →
  special (de_name d) = true ∨
    dir_lookup ds (de_name d) = Some d ∧ (length path + S (length (de_name d)) ≤ 255)%nat ∧
    (is_dir (de_inode d) = true →
     ∀ o, ∃ r o', rec (path ++ bs "/" ++ de_name d) (set_out o s) = Ok r (set_out o' s)) →
  ∃ o', remove_entry rec path (to_dirent d) (set_out o s) = Ok tt (set_out o' s).
Proof.
  intros Hp Hv Hin H. rw /remove_entry. cbn [to_dirent d_name d_inode].
  destruct (special (de_name d)) eqn:Hsp; [by exists o|]. destruct H as [?|(Hd & Hl & Hrec)]; [done|].
  destruct (child_at path n ds d Hp Hv Hin Hd Hl) as [(Hs & _) Hsl].
  destruct (Hview _ _ Hv) as (_ & Hnum & _). pose proof (proj1 (Forall_forall _ _) Hnum d Hin) as Hi. simpl in Hi.
  rw /strcpy_to /strcat_to /VFS_MAX_PATH. change (zlen (bs "/")) with 1.
  replace (zlen path + 1 <=? 256) with true by lia. erewrite bind_Ok; [|apply ret_Ok].
  replace (_ <=? 256) with true by lia. erewrite bind_Ok; [|apply ret_Ok].
  replace (_ <=? 256) with true by (rw length_app /=; lia). erewrite bind_Ok; [|apply ret_Ok]. rw -app_assoc.
  rw (bind_assoc_Ok _ _ _ _ _ _ (get_mode (de_inode d) o Hi)).
  destruct (is_dir (de_inode d)).
  - destruct (Hrec eq_refl o) as (r & o' & E). exists o'. by rw (bind_Ok _ _ _ _ _ E).
  - destruct (unlink_inner _ o Hs Hsl) as (o' & E). exists o'. by rw (bind_Ok _ _ _ _ _ E).
Qed.

Lemma remove_entries_Ok rec path ds : (∀ d o, d ∈ ds → ∃ o', remove_entry rec path (to_dirent d) (set_out o s) = Ok tt (set_out o' s)) →
  ∀ o, ∃ o', remove_entries rec path (to_dirent <$> ds) (set_out o s) = Ok tt (set_out o' s).
Proof.
  induction ds as [|d ds IH]; intros H o; [by exists o|]. destruct (H d o) as (o1 & E); [left|].
  destruct (IH (λ d o Hd, H d o (list_elem_of_further _ _ _ Hd)) o1) as (o2 & E2). exists o2.
  simpl. by rw (bind_Ok _ _ _ _ _ E).
Qed.

(** Everything below a directory is visited, and nothing but the console
    changes: the paths have inner slashes, and are not names of the root. *)
Lemma visit_Ok depth fuel path n o :
  (∀ path n o, tree_ok depth (length path) n → at_path path n → 47 ∈ skip_slash path →
     ∃ o', Abyss.abyssfs_remove_recursive fuel path (set_out o s) = Ok (-1) (set_out o' s)) →
  tree_ok (S depth) (length path) n → at_path path n →
  ∃ o', Abyss.abyssfs_remove_recursive (S fuel) path (set_out o s) = Abyss.abyssfs_unlink path (set_out o' s).
Proof.
  intros IH (ds & Hv & Hds) Hp. rw remove_recursive_S.
  destruct (read_dir_at path n ds o Hp Hv) as (o1 & E). rw (bind_Ok _ _ _ _ _ E).
  destruct (remove_entries_Ok (Abyss.abyssfs_remove_recursive fuel) path (take 256 ds)) with (o := o1) as (o2 & E2).
  - intros d o0 (i & Hin%list_elem_of_lookup_2 & _)%elem_of_take. apply (remove_entry_Ok _ path n ds); [done..|].
    rw Forall_forall in Hds. destruct (Hds d Hin) as [?|(Hd & Hl & Hsub)]; [by left|right]. split_and!; [done..|].
    intros Hdir o0'. destruct (child_at path n ds d Hp Hv Hin Hd Hl) as [Hc Hsl].
    destruct (IH (path ++ bs "/" ++ de_name d) (de_inode d) o0') as (o' & E'); [|done..|by eauto].
    rw !length_app. by apply Hsub.
  - exists o2. rw fmap_take in E2. by rw (bind_Ok _ _ _ _ _ E2).
Qed.

Lemma remove_inner depth : ∀ fuel path n o,
  (depth ≤ fuel)%nat → tree_ok depth (length path) n → at_path path n → 47 ∈ skip_slash path →
  ∃ o', Abyss.abyssfs_remove_recursive fuel path (set_out o s) = Ok (-1) (set_out o' s).
Proof.
  induction depth as [|depth IH]; intros [|fuel] path n o Hf Ht Hp Hsl; [done|done|lia|].
  destruct (visit_Ok depth fuel path n o) as (o1 & ->); [|done..|by apply unlink_inner; [apply Hp|]].
  intros path' n' o'. apply IH. lia.
Qed.

(** C32: [abyssfs_remove_recursive] of a directory "/name" whose tree has
    paths of at most 255 bytes returns 0.  The entry is gone from the root,
    whose other entries stay in order, and the inode of the directory is free.
    Everything below was visited, but no inode other than the directory's was
    released: the files of the tree keep theirs. *)
Theorem abyssfs_remove_recursive_correct depth ds1 q d ds2 e k :
  view 1 = Some (ds1 ++ d :: ds2) →
  dir_at (ks_heap s) (root_block base) ds1 q → dir_at (ks_heap s) q (d :: ds2) e →
  rd (ks_heap s) (e + 5) = Some 0 → e + 6 ≤ root_block base + BLOCK_SIZE →
  dir_lookup ds1 (de_name d) = None →
  (depth ≤ 257)%nat → tree_ok depth (S (length (de_name d))) (de_inode d) → 0 ≤ k < 2 ^ 64 →
  ∃ s', Abyss.abyssfs_remove_recursive 257 (47 :: de_name d) s = Ok 0 s' ∧ abyss_ok s' base ∧
    mode_of s' base (de_inode d) = Some 0 ∧
    (∀ n, 0 ≤ n < 512 → n ≠ de_inode d → mode_of s' base n = mode_of s base n) ∧
    let l := take (Z.to_nat k) (to_dirent <$> ds1 ++ ds2) in
    ∃ s'', Abyss.abyssfs_read_dir (bs "/") k s' = Ok (zlen l, l) s''.
Proof.
  intros Hv Hds1 Hds2 He Hfit Hnew Hdepth Ht Hk.
  assert (Hin : d ∈ ds1 ++ d :: ds2) by (apply elem_of_app; right; left).
  destruct (Hview _ _ Hv) as (_ & Hnum & _). pose proof (proj1 (Forall_forall _ _) Hnum d Hin) as Hi. simpl in Hi.
  pose proof (proj1 (Forall_forall _ _) (Hnames _ _ Hv) d Hin) as Hn. simpl in Hn.
  pose proof Hds2 as [[_ (_ & [Hstr Hlen] & _)] _].
  assert (Hp : at_path (47 :: de_name d) (de_inode d)).
  { split_and!; [by constructor|done|simpl; lia|]. rw (s_split_snoc [] _ Hn). apply (resolve_snoc _ _ [] 1 _ d _ eq_refl Hv).
    rw dir_lookup_app //=. by rw s_strcmp_refl. }
  destruct depth as [|depth]; [done|].
  destruct (visit_Ok depth 256 (47 :: de_name d) (de_inode d) (ks_out s)) as (o & E); [|done..|].
  { intros path n o. apply remove_inner. lia. }
  rw set_out_id in E. rw E.
  destruct (unlink_root_Ok (set_out o s) base ds1 q d ds2 e (47 :: de_name d) k) as (s' & ? & ? & ? & ? & _ & ?);
    [done..|]. exists s'. by split_and!.
Qed.
End Tree.

(** ** Witness *)

(** A directory "/d" with a file "x" and a directory "e" in it, and a file
    "y" in the root after it. *)
Definition tree1 : kstate :=
  default abyss2 (final ((Abyss.abyssfs_mkdir (bs "/d");; chdir (bs "/d");; Abyss.abyssfs_create (bs "/x");;
    Abyss.abyssfs_mkdir (bs "/d/e");; chdir (bs "/");; Abyss.abyssfs_create (bs "/y")) abyss2)).

Definition tree_root : list dentry := [Dentry 1 (bs ".") 8; Dentry 1 (bs "..") 12].

Definition tree_d : dentry := Dentry 2 (bs "d") 8.

Definition tree_y : dentry := Dentry 5 (bs "y") 8.

Definition tree_view (n : Z) : option (list dentry) :=
  match n with
  | 1 => Some (tree_root ++ [tree_d; tree_y])
  | 2 => Some [Dentry 2 (bs ".") 8; Dentry 1 (bs "..") 12; Dentry 3 (bs "x") 8; Dentry 4 (bs "e") 8]
  | 4 => Some [Dentry 4 (bs ".") 8; Dentry 2 (bs "..") 248]
  | _ => None
  end.

Ltac entries :=
  repeat (split; [split; [by_compute|split; [done|split; [by apply name_ok_bool; vm_compute|done]]]|]); by_compute.

Lemma tree_view_cases n ds :
  tree_view n = Some ds → (n = 1 ∨ n = 2 ∨ n = 4) ∧ tree_view n = Some ds.
Proof. intros H. split; [|done]. rw /tree_view in H. repeat case_match; try done; auto. Qed.

Lemma tree1_ok : abyss_ok tree1 0.
Proof. split_and!; by_compute. Qed.

Lemma tree1_root : dir_at (ks_heap tree1) 36864 tree_root 36884.
Proof. entries. Qed.

Lemma tree1_rest : dir_at (ks_heap tree1) 36884 [tree_d; tree_y] 36900.
Proof. entries. Qed.

Lemma tree1_view n ds : tree_view n = Some ds → dir_rep tree1 0 n ds.
Proof.
  intros [[->|[->| ->]] [= <-]]%tree_view_cases; (split; [lia|split; [repeat constructor; simpl; lia|]]).
  - exists 9, 36900. split; [by_compute|]. split; [lia|]. split; [|by_compute].
    apply (dir_at_app _ _ tree_root). exists 36884. split; [exact tree1_root|exact tree1_rest].
  - exists 10, 40996. split; [by_compute|]. split; [lia|]. split; [entries|by_compute].
  - exists 11, 45312. split; [by_compute|]. split; [lia|]. split; [entries|by_compute].
Qed.

Lemma tree1_names n ds : tree_view n = Some ds → Forall (λ d, is_name (de_name d)) ds.
Proof.
  intros [[->|[->| ->]] [= <-]]%tree_view_cases; repeat constructor; discriminate.
Qed.

Lemma tree1_modes : is_dir tree1 0 3 = false ∧ is_dir tree1 0 4 = true.
Proof. split; vm_compute; reflexivity. Qed.

Lemma tree1_tree : tree_ok tree1 0 tree_view 2 2 2.
Proof.
  destruct tree1_modes as [H3 H4]. eexists. split; [reflexivity|]. repeat apply Forall_cons_2; [by left..| | |constructor].
  - right. split; [reflexivity|split; [simpl; lia|]]. cbn [de_inode]. by rw H3.
  - right. split; [reflexivity|split; [simpl; lia|]]. cbn [de_inode]. intros _. eexists. split; [reflexivity|].
    repeat apply Forall_cons_2; [by left..|constructor].
Qed.

Lemma abyssfs_remove_recursive_correct_witness :
  ∃ s' s'', Abyss.abyssfs_remove_recursive 257 (bs "/d") tree1 = Ok 0 s' ∧
    Abyss.abyssfs_read_dir (bs "/") 32 s' =
      Ok (3, [Dirent 1 (bs "."); Dirent 1 (bs ".."); Dirent 5 (bs "y")]) s'' ∧
    mode_of s' 0 2 = Some 0 ∧ mode_of s' 0 3 = mode_of tree1 0 3.
Proof.
  assert (H3 : 0 ≤ 3 < 512) by lia. assert (H3' : 3 ≠ de_inode tree_d) by discriminate.
  destruct (abyssfs_remove_recursive_correct tree1 0 tree_view tree1_ok tree1_view)
    with (depth := 2%nat) (ds1 := tree_root) (q := 36884) (d := tree_d) (ds2 := [tree_y]) (e := 36900) (k := 32)
    as (s' & Hu & _ & Hm & Hf & (s'' & Hl)).
  - vm_compute. reflexivity.
  - exact tree1_names.
  - by eexists.
  - reflexivity.
  - exact tree1_root.
  - exact tree1_rest.
  - vm_compute. reflexivity.
  - vm_compute. discriminate.
  - reflexivity.
  - lia.
  - exact tree1_tree.
  - lia.
  - exists s', s''. split; [exact Hu|]. split; [exact Hl|]. split; [exact Hm|exact (Hf 3 H3 H3')].
Defined.
