(* ===== verification/Vfs.v ===== *)
(** * Vfs: the virtual file system of [src/src/fs/vfs.c]

    Mount table, file descriptors, namespace resolution, and the operations
    that dispatch to a file system.  A [struct filesystem_type] is a record of
    operations; [Class FsLaws] states what the layer relies on, and the RAM
    file system and AbyssFS are its instances. *)

From stdpp Require Import base numbers list gmap strings.
From Corelib Require Import ssreflect.
From S2P Require Import Prelude CString State Kmalloc Uart Paths Ramfs Abyss.

Open Scope Z_scope.
Open Scope general_if_scope.

Definition MAX_FS : Z := 4.

Definition MAX_FD : Z := 32.

(** ** The operations tables *)

Record vfs_file_operations := Fops {
  fop_read : Z → Z → K (Z * list Z);
  fop_write : Z → list Z → Z → K Z;
  fop_close : option (Z → K Z)
}.

Record filesystem_type := FsType {
  fs_name : str;
  fs_mount : K (option vfs_super_block);
  fs_open : str → K (option Z);
  fs_create : str → K (option Z);
  fs_unlink : str → K Z;
  fs_read_dir : str → Z → K (Z * list dirent);
  fs_mkdir : str → K Z;
  fs_remove_recursive : option (str → K Z)
}.

Definition ramfs_fops : vfs_file_operations := Fops ramfs_read ramfs_write None.

Definition abyssfs_fops : vfs_file_operations := Fops Abyss.abyssfs_read Abyss.abyssfs_write None.

Definition ramfs_fs_type : filesystem_type :=
  FsType (bs "ramfs") ramfs_mount ramfs_open ramfs_create ramfs_unlink ramfs_read_dir ramfs_mkdir None.

(** 257 calls deep is enough for any path. *)
Definition abyssfs_remove (path : str) : K Z := Abyss.abyssfs_remove_recursive 257 path.

Definition abyssfs_fs_type : filesystem_type :=
  FsType (bs "abyssfs") Abyss.abyssfs_mount Abyss.abyssfs_open Abyss.abyssfs_create Abyss.abyssfs_unlink
    Abyss.abyssfs_read_dir Abyss.abyssfs_mkdir (Some abyssfs_remove).

Definition fs_type (id : fs_id) : filesystem_type :=
  match id with RAMFS => ramfs_fs_type | ABYSSFS => abyssfs_fs_type end.

Definition f_ops_table (id : fs_id) : vfs_file_operations :=
  match id with RAMFS => ramfs_fops | ABYSSFS => abyssfs_fops end.

(** ** Mounts *)

Definition with_mounts (l : list mount) (v : vfs_state) : vfs_state :=
  VfsState (registered_fs v) l (fd_table v) (next_fd v).

Definition register_filesystem (fs : fs_id) : K Z :=
  v ← gets ks_vfs;
  if MAX_FS <=? zlen (registered_fs v) then mret (-1)
  else modify (set_vfs (VfsState (registered_fs v ++ [fs]) (mount_points v) (fd_table v) (next_fd v)));; mret 0.

Definition vfs_mount (path : str) (fs : fs_id) : K Z :=
  v ← gets ks_vfs;
  if MAX_MOUNTS <=? zlen (mount_points v) then mret (-1)
  else
    sb ← fs_mount (fs_type fs);
    match sb with
    | None => mret (-1)
    | Some sb =>
        modify (λ s, set_vfs (with_mounts (mount_points (ks_vfs s) ++ [Mount path fs sb]) (ks_vfs s)) s);;
        mret 0
    end.

(** The loop of [find_mount]. *)
Fixpoint find_mount_loop (ms : list mount) (path : str) (best : option mount) (best_len : nat) : option mount :=
  match ms with
  | [] => best
  | m :: ms =>
      let mount_len := length (mnt_path m) in
      if (s_strncmp path (mnt_path m) mount_len =? 0) && Nat.ltb best_len mount_len
      then find_mount_loop ms path (Some m) mount_len
      else find_mount_loop ms path best best_len
  end.

Definition find_mount (ms : list mount) (path : str) : option mount :=
  if (match path with [] => true | _ => false end) || (s_strcmp path (bs "/") =? 0) then head ms
  else find_mount_loop ms path None 0.

Definition mount_of (path : str) : K (option mount) :=
  v ← gets ks_vfs; mret (find_mount (mount_points v) path).

(** ** File descriptors *)

Definition alloc_fd (file : Z) : K Z :=
  v ← gets ks_vfs;
  if MAX_FD <=? next_fd v then uart_puts (ln "VFS: No free file descriptors");; mret (-1)
  else
    modify (set_vfs (VfsState (registered_fs v) (mount_points v)
                       (<[Z.to_nat (next_fd v) := Some file]> (fd_table v)) (next_fd v + 1)));;
    mret (next_fd v).

Definition get_file (fd : Z) : K (option Z) :=
  if (fd <? 0) || (MAX_FD <=? fd) then mret None
  else v ← gets ks_vfs; o ← unwrap (fd_table v !! Z.to_nat fd); mret o.

(** ** Namespaces *)

Definition get_ns (p : Z) : K namespace := t ← gets ks_namespaces; unwrap (t !! p).

(** [path + n], undefined beyond the terminator. *)
Definition text_from (path : str) (n : nat) : K str :=
  if Nat.leb n (length path) then mret (drop n path) else fault.

(** The last byte of a text, as [t[strlen(t)-1]]. *)
Definition last_byte (t : str) : K Z := unwrap (last t).

Fixpoint ns_resolve (fuel : nat) (ns : option Z) (path : str) : K str :=
  match ns with
  | None => mret path
  | Some p =>
      match fuel with
      | O => nofuel
      | S fuel =>
          n ← get_ns p;
          let new_len := length (ns_new_path n) in
          if s_strncmp path (ns_new_path n) new_len =? 0 then
            o ← kalloc VFS_MAX_PATH;
            match o with
            | None => mret path
            | Some _ =>
                resolved ← strcpy_to VFS_MAX_PATH (ns_old_path n);
                rest ← text_from path new_len;
                match rest with
                | [] => mret resolved
                | c :: _ =>
                    resolved ← (if negb (c =? 47) then
                                  l ← last_byte resolved;
                                  if negb (l =? 47) then strcat_to VFS_MAX_PATH resolved (bs "/")
                                  else mret resolved
                                else mret resolved);
                    strcat_to VFS_MAX_PATH resolved rest
                end
            end
          else ns_resolve fuel (ns_next n) path
      end
  end.

(** A chain without cycles has at most as many nodes as there are objects. *)
Definition ns_fuel : K nat := t ← gets ks_namespaces; mret (S (size t)).

Definition resolve_namespace_path (path : str) : K str :=
  o ← get_current_process;
  match o with
  | None => mret path
  | Some p => pr ← get_proc p; fuel ← ns_fuel; ns_resolve fuel (p_ns_mounts pr) path
  end.

Fixpoint path_resolve (fuel : nat) (ns : option Z) (path : str) : K str :=
  match ns with
  | None => strcpy_to VFS_MAX_PATH path
  | Some p =>
      match fuel with
      | O => nofuel
      | S fuel =>
          n ← get_ns p;
          let old_len := length (ns_old_path n) in
          if s_strncmp path (ns_old_path n) old_len =? 0 then
            resolved ← strcpy_to VFS_MAX_PATH (ns_new_path n);
            rest ← text_from path old_len;
            strcat_to VFS_MAX_PATH resolved rest
          else path_resolve fuel (ns_next n) path
      end
  end.

(** The return value is always 0; [resolved] is the result. *)
Definition resolve_path (path : str) : K str :=
  pr ← current; fuel ← ns_fuel; path_resolve fuel (p_ns_mounts pr) path.

(** ** Operations on paths *)

Definition vfs_open (path : str) : K Z :=
  resolved_path ← resolve_path path;
  let fs := if s_strncmp resolved_path (bs "/tmp/") 5 =? 0 then RAMFS else ABYSSFS in
  o ← fs_open (fs_type fs) resolved_path;
  match o with
  | None => uart_puts (ln "VFS: Failed to open file");; mret (-1)
  | Some file =>
      fd ← alloc_fd file;
      if fd <? 0 then uart_puts (ln "VFS: Failed to allocate fd");; mret (-1) else mret fd
  end.

Definition get_fs_file (path : str) : K (option Z) :=
  fs_open (fs_type (if s_strncmp path (bs "/tmp/") 5 =? 0 then RAMFS else ABYSSFS)) path.

(** The common prologue: a relative path is taken from the working directory. *)
Definition full_path_of (path : str) : K str :=
  if negb (default 0 (head path) =? 47) then
    cur ← current;
    full_path ← strcpy_to VFS_MAX_PATH (p_cwd cur);
    l ← last_byte full_path;
    full_path ← (if negb (l =? 47) then strcat_to VFS_MAX_PATH full_path (bs "/") else mret full_path);
    strcat_to VFS_MAX_PATH full_path path
  else strcpy_to VFS_MAX_PATH path.

Definition vfs_create (path : str) : K Z :=
  full_path ← full_path_of path;
  if (s_strncmp full_path (bs "/tmp/") 5 =? 0) || (s_strcmp full_path (bs "/tmp") =? 0) then
    o ← fs_create ramfs_fs_type full_path;
    match o with
    | None => uart_puts (ln "VFS: Failed to create file in RAMFS");; mret (-1)
    | Some file => alloc_fd file
    end
  else
    mp ← mount_of full_path;
    match mp with
    | None => uart_puts (ln "VFS: No mount point or create operation for path");; mret (-1)
    | Some m =>
        o ← fs_create (fs_type (mnt_fs m)) full_path;
        match o with
        | None => uart_puts (ln "VFS: Failed to create file in filesystem");; mret (-1)
        | Some file => alloc_fd file
        end
    end.

Definition vfs_unlink (path : str) : K Z :=
  full_path ← full_path_of path;
  mp ← mount_of full_path;
  match mp with
  | None => uart_puts (ln "VFS: No mount point found");; mret (-1)
  | Some m => fs_unlink (fs_type (mnt_fs m)) path
  end.

Definition vfs_mkdir (path : str) : K Z :=
  full_path ← full_path_of path;
  mp ← mount_of full_path;
  match mp with
  | None => uart_puts (ln "VFS: No mount point found");; mret (-1)
  | Some m => fs_mkdir (fs_type (mnt_fs m)) full_path
  end.

Definition vfs_remove_recursive (path : option str) : K Z :=
  match path with
  | None => mret (-1)
  | Some path =>
      full_path ← full_path_of path;
      mp ← mount_of full_path;
      match mp with
      | None => uart_puts (ln "VFS: Filesystem does not support recursive remove");; mret (-1)
      | Some m =>
          match fs_remove_recursive (fs_type (mnt_fs m)) with
          | None => uart_puts (ln "VFS: Filesystem does not support recursive remove");; mret (-1)
          | Some rm => rm full_path
          end
      end
  end.

Definition vfs_read_dir (path : str) (max_entries : Z) : K (Z * list dirent) :=
  resolved_path ← resolve_namespace_path path;
  mp ← mount_of resolved_path;
  match mp with
  | None => uart_puts (ln "VFS: No mount point found for path");; mret (-1, [])
  | Some m => fs_read_dir (fs_type (mnt_fs m)) resolved_path max_entries
  end.

(** ** Operations on descriptors *)

Definition bad_fd (fd : Z) : K bool :=
  if (fd <? 0) || (MAX_FD <=? fd) then mret true
  else v ← gets ks_vfs; o ← unwrap (fd_table v !! Z.to_nat fd); mret (bool_decide (o = None)).

Definition vfs_read (fd count : Z) : K (Z * list Z) :=
  b ← bad_fd fd;
  if (b : bool) then uart_puts (ln "VFS: Invalid file descriptor");; mret (-1, [])
  else
    o ← get_file fd; fp ← unwrap o; file ← get_vfile fp;
    match f_ops file with
    | None => uart_puts (ln "VFS: No read operation");; mret (-1, [])
    | Some id => fop_read (f_ops_table id) fp count
    end.

(** The result is returned as [int]. *)
Definition vfs_write (fd : Z) (buf : list Z) (count : Z) : K Z :=
  o ← get_file fd;
  match o with
  | None => uart_puts (ln "VFS: Invalid file descriptor");; mret (-1)
  | Some fp =>
      file ← get_vfile fp;
      match f_ops file with
      | None => uart_puts (ln "VFS: No write operation available");; mret (-1)
      | Some id => n ← fop_write (f_ops_table id) fp buf count; mret (i32 n)
      end
  end.

Definition vfs_close (fd : Z) : K Z :=
  b ← bad_fd fd;
  if (b : bool) then mret (-1)
  else
    o ← get_file fd; fp ← unwrap o; file ← get_vfile fp;
    match f_ops file with
    | None => mret tt
    | Some id => match fop_close (f_ops_table id) with None => mret tt | Some c => c fp;; mret tt end
    end;;
    kfree (Some fp);;
    modify (λ s, let v := ks_vfs s in
      set_vfs (VfsState (registered_fs v) (mount_points v) (<[Z.to_nat fd := None]> (fd_table v)) (next_fd v)) s);;
    mret 0.

Definition vfs_init : K unit :=
  uart_puts (ln "Initializing VFS...");;
  Abyss.abyssfs_init;;
  ramfs_init;;
  vfs_mount (bs "/") ABYSSFS;;
  vfs_mount (bs "/tmp") RAMFS;;
  Abyss.test_abyssfs.

(** The dirents of the listing go to [msg->data] when it is given and has
    room, [sizeof(struct dirent)] being 264. *)
Definition handle_read_dir_message (msg : message) : K (Z * message) :=
  match m_path msg with
  | None => uart_puts (ln "VFS: ERROR - msg->path is NULL");; mret (-1, msg)
  | Some path =>
      '(entry_count, es) ← vfs_read_dir path 32;
      if 0 <=? entry_count then
        let with_data d n := Message (m_type msg) (m_path msg) (m_argv msg) d (m_size msg) (m_flags msg)
          (m_fd msg) (m_pid msg) (m_status msg) (m_entry msg) (m_dirents msg) n (m_character msg) (m_string msg) in
        match m_data msg with
        | Some _ =>
            if u64 (entry_count * 264) <=? m_size msg
            then mret (entry_count, with_data (Some (Dirents es)) entry_count)
            else uart_puts (ln "VFS: No space provided for directory entries");;
                 mret (entry_count, with_data (m_data msg) 0)
        | None => uart_puts (ln "VFS: No space provided for directory entries");;
                  mret (entry_count, with_data None 0)
        end
      else mret (entry_count, msg)
  end.
