(* ===== verification/VfsLaws.v ===== *)
(** * VfsLaws: what the VFS relies on from a file system

    [fs_frame]: an operation of a file system touches neither the tables of
    the VFS, nor the processes, nor the namespaces, and frees no open file.
    [Class FsLaws] collects this for the operations of a [filesystem_type]
    and of its [vfs_file_operations], with the fact that a handle returned
    is an open file; the two file systems are instances. *)

From stdpp Require Import base numbers list gmap strings.
From Corelib Require Import ssreflect.
From S2P Require Import Prelude CString State Kmalloc Uart Paths Ramfs Abyss Vfs.

Open Scope Z_scope.
Open Scope general_if_scope.

Definition fs_frame (s s' : kstate) : Prop :=
  ks_vfs s' = ks_vfs s ∧ ks_proc s' = ks_proc s ∧ ks_namespaces s' = ks_namespaces s ∧
  ∀ fp, is_Some (ks_files s !! fp) → is_Some (ks_files s' !! fp).

#[export] Instance fs_frame_preorder : PreOrder fs_frame.
Proof.
  split.
  - intros s. split_and!; [done..|auto].
  - intros s1 s2 s3 (E1 & E2 & E3 & E4) (F1 & F2 & F3 & F4). split_and!; [congruence..|auto].
Qed.

Class FsLaws (fs : filesystem_type) (ops : vfs_file_operations) : Prop := {
  laws_mount : respects fs_frame (fs_mount fs);
  laws_open p : respects fs_frame (fs_open fs p);
  laws_create p : respects fs_frame (fs_create fs p);
  laws_unlink p : respects fs_frame (fs_unlink fs p);
  laws_read_dir p n : respects fs_frame (fs_read_dir fs p n);
  laws_mkdir p : respects fs_frame (fs_mkdir fs p);
  laws_remove f p : fs_remove_recursive fs = Some f → respects fs_frame (f p);
  laws_read fp n : respects fs_frame (fop_read ops fp n);
  laws_write fp l n : respects fs_frame (fop_write ops fp l n);
  laws_close f fp : fop_close ops = Some f → respects fs_frame (f fp);
  laws_open_handle p s fp s' : fs_open fs p s = Ok (Some fp) s' → is_Some (ks_files s' !! fp);
  laws_create_handle p s fp s' : fs_create fs p s = Ok (Some fp) s' → is_Some (ks_files s' !! fp)
}.

(** ** The primitives *)

Lemma frame_files s fs :
  (∀ fp, is_Some (ks_files s !! fp) → is_Some (fs !! fp)) → fs_frame s (set_files fs s).
Proof. by intros. Qed.

Lemma frame_same s s' :
  ks_vfs s' = ks_vfs s → ks_proc s' = ks_proc s → ks_namespaces s' = ks_namespaces s →
  ks_files s' = ks_files s → fs_frame s s'.
Proof. intros ??? E. split_and!; [done..|]. by rw E. Qed.

#[export] Hint Extern 1 (fs_frame _ _) => apply frame_same; reflexivity : respects.

Lemma frame_set_vfile fp f : respects fs_frame (set_vfile fp f).
Proof.
  apply respects_modify. intros s. apply frame_files. intros p Hp.
  destruct (decide (p = fp)) as [->|]; [rw lookup_insert_eq; by eexists|].
  by rw lookup_insert_ne; [congruence|].
Qed.

Lemma frame_get_vfile fp : respects fs_frame (get_vfile fp).
Proof. rw /get_vfile. respect_auto. Qed.

Lemma frame_uart_puts t : respects fs_frame (uart_puts t).
Proof. rw /uart_puts. respect_auto. Qed.

Lemma frame_uart_putc t : respects fs_frame (uart_putc t).
Proof. rw /uart_putc. respect_auto. Qed.

#[export] Hint Resolve frame_set_vfile frame_get_vfile frame_uart_puts frame_uart_putc : respects.

Lemma frame_uart_hex n : respects fs_frame (uart_hex n).
Proof. rw /uart_hex. respect_auto. Qed.

Lemma frame_kalloc n : respects fs_frame (kalloc n).
Proof. rw /kalloc. respect_auto. Qed.

Lemma frame_strcpy_to cap t : respects fs_frame (strcpy_to cap t).
Proof. rw /strcpy_to. respect_auto. Qed.

Lemma frame_strcat_to cap d t : respects fs_frame (strcat_to cap d t).
Proof. rw /strcat_to. respect_auto. Qed.

Lemma frame_current : respects fs_frame current.
Proof. rw /current /get_current_process /get_proc. respect_auto. Qed.

#[export] Hint Resolve frame_uart_hex frame_kalloc frame_strcpy_to frame_strcat_to frame_current : respects.

(** ** The RAM file system *)

Lemma frame_get_rf i : respects fs_frame (get_rf i).
Proof. rw /get_rf. respect_auto. Qed.

Lemma frame_set_rf i rf : respects fs_frame (set_rf i rf).
Proof. rw /set_rf. respect_auto. Qed.

Lemma frame_slot_of f : respects fs_frame (slot_of f).
Proof. rw /slot_of. respect_auto. Qed.

#[export] Hint Resolve frame_get_rf frame_set_rf frame_slot_of : respects.

Lemma handle_in s fp f : is_Some (<[fp := f]> (ks_files s) !! fp).
Proof. rw lookup_insert_eq. by eexists. Qed.

Lemma set_vfile_handle fp f s o s' :
  (set_vfile fp f;; mret (Some fp)) s = Ok (Some o) s' → is_Some (ks_files s' !! o).
Proof. intros [= <- <-]. apply handle_in. Qed.

#[export] Instance ramfs_laws : FsLaws ramfs_fs_type ramfs_fops.
Proof.
  split; simpl; try done; intros.
  - rw /ramfs_mount. respect_auto.
  - rw /ramfs_open. respect_auto.
  - rw /ramfs_create. respect_auto.
  - rw /ramfs_unlink. respect_auto.
  - rw /ramfs_read_dir. respect_auto.
  - rw /ramfs_mkdir. respect_auto.
  - rw /ramfs_read. respect_auto.
  - rw /ramfs_write. respect_auto.
  - rw /ramfs_open in H. apply bind_inv in H as (t & s1 & _ & H).
    destruct (find_path t p); [|done]. apply bind_inv in H as ([q|] & s2 & _ & H); [|done].
    by apply set_vfile_handle in H.
  - rw /ramfs_create in H. apply bind_inv in H as (fpath & s1 & _ & H). apply bind_inv in H as (t & s2 & _ & H).
    destruct (find_free t); [|by minv H].
    do 3 (apply bind_inv in H as (? & ? & _ & H)). apply bind_inv in H as ([q|] & s6 & _ & H); [|by minv H].
    by apply set_vfile_handle in H.
Qed.

(** ** AbyssFS *)

Lemma frame_ld8 p : respects fs_frame (ld8 p).
Proof. rw /ld8. respect_auto. Qed.

Lemma frame_st8 p v : respects fs_frame (st8 p v).
Proof. rw /st8. respect_auto. Qed.

#[export] Hint Resolve frame_ld8 frame_st8 : respects.

Lemma frame_ld32 p : respects fs_frame (ld32 p).
Proof. rw /ld32. respect_auto. Qed.

Lemma frame_st32 p v : respects fs_frame (st32 p v).
Proof. rw /st32. respect_auto. Qed.

Lemma frame_st_bytes p l : respects fs_frame (st_bytes p l).
Proof. revert p. induction l; intros; simpl; respect_auto. Qed.

Lemma frame_ld_bytes p n : respects fs_frame (ld_bytes p n).
Proof. revert p. induction n; intros; simpl; respect_auto. Qed.

Lemma frame_strcpy_from p n : respects fs_frame (strcpy_from n p).
Proof. revert p. induction n; intros; simpl; respect_auto. Qed.

Lemma frame_strcmp_at p t : respects fs_frame (strcmp_at p t).
Proof. revert p. induction t; intros; simpl; respect_auto. Qed.

Lemma frame_memset_at p c n : respects fs_frame (memset_at p c n).
Proof. rw /memset_at. respect_auto. Qed.

Lemma frame_memmove_at d p n : respects fs_frame (memmove_at d p n).
Proof. rw /memmove_at. respect_auto. Qed.

Lemma frame_heap_span : respects fs_frame heap_span.
Proof. rw /heap_span. respect_auto. Qed.

Lemma frame_get_block b : respects fs_frame (Abyss.get_block b).
Proof. rw /Abyss.get_block /get_sb /blocks_ptr. respect_auto. Qed.

#[export] Hint Resolve frame_ld32 frame_st32 frame_st_bytes frame_ld_bytes frame_strcpy_from frame_strcmp_at
  frame_memset_at frame_memmove_at frame_heap_span frame_get_block : respects.

Lemma frame_get_inode n : respects fs_frame (Abyss.get_inode n).
Proof. rw /Abyss.get_inode /get_sb. respect_auto. Qed.

#[export] Hint Resolve frame_get_inode : respects.

Lemma frame_alloc_block_loop n i : respects fs_frame (Abyss.alloc_block_loop n i).
Proof. revert i. induction n; intros; simpl; rw /set_bitmap /set_sb; respect_auto. Qed.

Lemma frame_alloc_inode_loop n i : respects fs_frame (Abyss.alloc_inode_loop n i).
Proof. revert i. induction n; intros; simpl; respect_auto. Qed.

#[export] Hint Resolve frame_alloc_block_loop frame_alloc_inode_loop : respects.

Lemma frame_alloc_block : respects fs_frame Abyss.alloc_block.
Proof. rw /Abyss.alloc_block /get_sb. respect_auto. Qed.

Lemma frame_free_block b : respects fs_frame (Abyss.free_block b).
Proof. rw /Abyss.free_block /set_bitmap /set_sb. respect_auto. Qed.

Lemma frame_alloc_inode : respects fs_frame Abyss.alloc_inode.
Proof. rw /Abyss.alloc_inode /get_sb. respect_auto. Qed.

Lemma frame_find_entry fuel p name : respects fs_frame (Abyss.find_entry fuel p name).
Proof. revert p. induction fuel; intros; simpl; respect_auto. Qed.

Lemma frame_read_entries fuel p k : respects fs_frame (Abyss.read_entries fuel p k).
Proof. revert p k. induction fuel; intros; cbn [Abyss.read_entries]; respect_auto. Qed.

Lemma frame_last_entry fuel e o p : respects fs_frame (Abyss.last_entry fuel e o p).
Proof. revert o p. induction fuel; intros; simpl; respect_auto. Qed.

#[export] Hint Resolve frame_alloc_block frame_free_block frame_alloc_inode frame_find_entry frame_read_entries
  frame_last_entry : respects.

Lemma frame_walk_path inode tokens : respects fs_frame (Abyss.walk_path inode tokens).
Proof. revert inode. induction tokens; intros; simpl; respect_auto. Qed.

#[export] Hint Resolve frame_walk_path : respects.

Lemma frame_get_inode_by_path p : respects fs_frame (Abyss.get_inode_by_path p).
Proof. rw /Abyss.get_inode_by_path. respect_auto. Qed.

Lemma frame_add_entry b n t : respects fs_frame (Abyss.add_entry b n t).
Proof. rw /Abyss.add_entry /Abyss.put_entry. respect_auto. Qed.

Lemma frame_dir_block_of i c : respects fs_frame (Abyss.dir_block_of i c).
Proof. rw /Abyss.dir_block_of /get_sb. respect_auto. Qed.

#[export] Hint Resolve frame_get_inode_by_path frame_add_entry frame_dir_block_of : respects.

Lemma frame_create_file p n : respects fs_frame (Abyss.create_file p n).
Proof. rw /Abyss.create_file. respect_auto. Qed.

Lemma frame_init_dir d n p : respects fs_frame (Abyss.init_dir d n p).
Proof. rw /Abyss.init_dir /strcpy_at. respect_auto. Qed.

Lemma frame_zero_inodes n i : respects fs_frame (Abyss.zero_inodes n i).
Proof. revert i. induction n; intros; simpl; respect_auto. Qed.

Lemma frame_mark_blocks n i : respects fs_frame (Abyss.mark_blocks n i).
Proof. revert i. induction n; intros; simpl; rw /set_bitmap; respect_auto. Qed.

Lemma frame_inode_number n i p : respects fs_frame (Abyss.inode_number n i p).
Proof. revert i. induction n; intros; simpl; respect_auto. Qed.

#[export] Hint Resolve frame_create_file frame_init_dir frame_zero_inodes frame_mark_blocks frame_inode_number : respects.

Lemma frame_abyssfs_init : respects fs_frame Abyss.abyssfs_init.
Proof. rw /Abyss.abyssfs_init /set_blocks /set_sb /get_sb /set_bitmap. respect_auto. Qed.

Lemma frame_read_dir p n : respects fs_frame (Abyss.abyssfs_read_dir p n).
Proof. rw /Abyss.abyssfs_read_dir /get_sb. respect_auto. Qed.

Lemma frame_unlink p : respects fs_frame (Abyss.abyssfs_unlink p).
Proof. rw /Abyss.abyssfs_unlink /get_sb. respect_auto. Qed.

#[export] Hint Resolve frame_abyssfs_init frame_read_dir frame_unlink : respects.

Lemma frame_remove_recursive fuel p : respects fs_frame (Abyss.abyssfs_remove_recursive fuel p).
Proof.
  revert p. induction fuel as [|fuel IH]; intros p; simpl; [respect_auto|].
  apply respects_bind; [apply _|respect_auto|intros [c es]].
  apply respects_bind; [apply _| |intros; respect_auto].
  induction es as [|e es IHes]; respect_auto.
Qed.

#[export] Instance abyssfs_laws : FsLaws abyssfs_fs_type abyssfs_fops.
Proof.
  split; try done; intros.
  - rw /= /Abyss.abyssfs_mount. respect_auto.
  - rw /= /Abyss.abyssfs_open. respect_auto.
  - rw /= /Abyss.abyssfs_create. respect_auto.
  - apply frame_unlink.
  - apply frame_read_dir.
  - rw /= /Abyss.abyssfs_mkdir. respect_auto.
  - injection H as <-. apply frame_remove_recursive.
  - rw /= /Abyss.abyssfs_read /Abyss.inode_of /blocks_ptr. respect_auto.
  - rw /= /Abyss.abyssfs_write /Abyss.inode_of /Abyss.write_to_blocks /blocks_ptr. respect_auto.
  - rw /= /Abyss.abyssfs_open in H. apply bind_inv in H as ([q|] & s1 & _ & H); [|done].
    by apply set_vfile_handle in H.
  - rw /= /Abyss.abyssfs_create in H. apply bind_inv in H as (n & s1 & _ & H). destruct (n =? 0); [done|].
    apply bind_inv in H as ([i|] & s2 & _ & H); [|done]. apply bind_inv in H as (r & s3 & _ & H).
    destruct (r <? 0); [done|]. apply bind_inv in H as ([q|] & s4 & _ & H); [|done].
    by apply set_vfile_handle in H.
Qed.

#[export] Instance fs_type_laws id : FsLaws (fs_type id) (f_ops_table id).
Proof. destruct id; apply _. Qed.
