(* ===== verification/VfsSpec.v ===== *)
(** * VfsSpec: correctness of the VFS layer

    Descriptors, mounts and namespaces of [src/src/fs/vfs.c]; what is proved
    about a file system's operations is used through [FsLaws] only. *)

From stdpp Require Import base numbers list gmap strings.
From Corelib Require Import ssreflect.
From S2P Require Import Prelude Chain CString State Kmalloc Uart Paths Ramfs Abyss Vfs VfsLaws.

Open Scope Z_scope.
Open Scope general_if_scope.

(** ** File descriptors *)

(** Descriptors from [next_fd] on have never been used; the others are closed
    or name an open file. *)
Definition vfs_ok (s : kstate) : Prop :=
  length (fd_table (ks_vfs s)) = 32%nat ∧ 0 ≤ next_fd (ks_vfs s) ≤ 32 ∧
  (∀ i, (Z.to_nat (next_fd (ks_vfs s)) ≤ i < 32)%nat → fd_table (ks_vfs s) !! i = Some None) ∧
  ∀ i fp, fd_table (ks_vfs s) !! i = Some (Some fp) → is_Some (ks_files s !! fp).

(** The descriptor table after a step: valid, and no number has come back. *)
Definition fd_le (s s' : kstate) : Prop :=
  vfs_ok s → vfs_ok s' ∧ next_fd (ks_vfs s) ≤ next_fd (ks_vfs s').

#[export] Instance fd_le_preorder : PreOrder fd_le.
Proof.
  split; [intros s H; split; [done|lia]|]. intros s1 s2 s3 H12 H23 H. destruct (H12 H) as [H2 ?]. destruct (H23 H2). split; [done|lia].
Qed.

Lemma frame_fd_le s s' : fs_frame s s' → fd_le s s'.
Proof.
  intros (Ev & _ & _ & Hf) (H1 & H2 & H3 & H4). rw /vfs_ok Ev. split; [|lia]. split_and!; [done|lia|lia|done|].
  intros i fp Hi. apply Hf. by apply (H4 i).
Qed.

Lemma frame_respects {A} (m : K A) : respects fs_frame m → respects fd_le m.
Proof. intros H s a s' Hm. apply frame_fd_le. by apply (H s a s'). Qed.

#[local] Hint Resolve frame_respects laws_mount laws_open laws_create laws_unlink laws_read_dir laws_mkdir laws_read
  laws_write fs_type_laws : respects.

Lemma fd_ns_resolve fuel o p : respects fs_frame (ns_resolve fuel o p).
Proof.
  revert o. induction fuel; intros [q|]; simpl; rw /get_ns /text_from /last_byte; respect_auto.
Qed.

Lemma fd_path_resolve fuel o p : respects fs_frame (path_resolve fuel o p).
Proof. revert o. induction fuel; intros [q|]; simpl; rw /get_ns /text_from; respect_auto. Qed.

#[local] Hint Resolve fd_ns_resolve fd_path_resolve : respects.

Lemma fd_resolve_path p : respects fs_frame (resolve_path p).
Proof. rw /resolve_path /ns_fuel. respect_auto. Qed.

Lemma fd_resolve_namespace_path p : respects fs_frame (resolve_namespace_path p).
Proof. rw /resolve_namespace_path /get_current_process /get_proc /ns_fuel. respect_auto. Qed.

Lemma fd_full_path_of p : respects fs_frame (full_path_of p).
Proof. rw /full_path_of /last_byte. respect_auto. Qed.

Lemma fd_mount_of p : respects fs_frame (mount_of p).
Proof. rw /mount_of. respect_auto. Qed.

#[local] Hint Resolve fd_resolve_path fd_resolve_namespace_path fd_full_path_of fd_mount_of : respects.

(** What [alloc_fd] does with an open file. *)
Lemma alloc_fd_Ok s fp :
  vfs_ok s → is_Some (ks_files s !! fp) →
  ∃ s', (next_fd (ks_vfs s) = 32 ∧ alloc_fd fp s = Ok (-1) s' ∧ fs_frame s s') ∨
        (next_fd (ks_vfs s) < 32 ∧ alloc_fd fp s = Ok (next_fd (ks_vfs s)) s' ∧ vfs_ok s' ∧
         next_fd (ks_vfs s') = next_fd (ks_vfs s) + 1 ∧ ks_files s' = ks_files s ∧
         fd_table (ks_vfs s') !! Z.to_nat (next_fd (ks_vfs s)) = Some (Some fp)).
Proof.
  intros (H1 & H2 & H3 & H4) Hfp. rw /alloc_fd /MAX_FD /mbind /M_bind /=.
  destruct (32 <=? next_fd (ks_vfs s)) eqn:E; zbool.
  - eexists. left. split_and!; [lia|done|]. by apply frame_same.
  - eexists. right. split_and!; [lia|done| |done|done|].
    + split_and!; simpl; [by rw length_insert|lia|lia| |].
      * intros i Hi. rw list_lookup_insert_ne; [lia|]. apply H3. lia.
      * intros i q. destruct (decide (i = Z.to_nat (next_fd (ks_vfs s)))) as [->|].
        -- rw list_lookup_insert_eq; [lia|]. by intros [= <-].
        -- rw list_lookup_insert_ne; [congruence|]. apply H4.
    + rw list_lookup_insert_eq; [lia|done].
Qed.

(** The common end of [vfs_open] and [vfs_create]: a handle from the file
    system, then a descriptor for it. *)
Lemma install_fd s (m : K (option Z)) (fail : str) fd s' :
  vfs_ok s → respects fs_frame m → (∀ s fp s', m s = Ok (Some fp) s' → is_Some (ks_files s' !! fp)) →
  (o ← m; match o with None => uart_puts fail;; mret (-1) | Some file => alloc_fd file end) s = Ok fd s' →
  vfs_ok s' ∧
  ((fd = -1 ∧ next_fd (ks_vfs s') = next_fd (ks_vfs s)) ∨
   (fd = next_fd (ks_vfs s) ∧ next_fd (ks_vfs s') = fd + 1 ∧ fd < 32 ∧
    ∃ fp, fd_table (ks_vfs s') !! Z.to_nat fd = Some (Some fp) ∧ is_Some (ks_files s' !! fp))).
Proof.
  intros Hok Hfr Hh (o & s1 & Hm & H)%bind_inv. pose proof (Hfr _ _ _ Hm) as Hf1.
  destruct (frame_fd_le _ _ Hf1 Hok) as [Hok1 _]. destruct Hf1 as (Ev & _). destruct o as [fp|].
  - apply Hh in Hm. destruct (alloc_fd_Ok s1 fp Hok1 Hm) as (s2 & [(Hn & Ha & Hf2)|(Hn & Ha & Hok2 & Hn2 & Hfl & Hl)]);
      rw Ha in H; simplify_eq.
    + destruct (frame_fd_le _ _ Hf2 Hok1) as [Hok2 _]. split; [done|]. left. destruct Hf2 as (-> & _). by rw Ev.
    + split; [done|]. right. rw -Ev. split_and!; [done|done|done|]. exists fp. by rw Hfl.
  - minv H. apply frame_uart_puts in E as Hf2. apply ret_inv in H as [-> ->].
    destruct (frame_fd_le _ _ Hf2 Hok1) as [Hok2 _]. split; [done|]. left. destruct Hf2 as (-> & _). by rw Ev.
Qed.

(** [vfs_open] and [vfs_create] both end so. *)
Definition opens (op : K Z) : Prop := ∀ s fd s', vfs_ok s → op s = Ok fd s' →
  vfs_ok s' ∧
  ((fd = -1 ∧ next_fd (ks_vfs s') = next_fd (ks_vfs s)) ∨
   (fd = next_fd (ks_vfs s) ∧ next_fd (ks_vfs s') = fd + 1 ∧ fd < 32 ∧
    ∃ fp, fd_table (ks_vfs s') !! Z.to_nat fd = Some (Some fp) ∧ is_Some (ks_files s' !! fp))).

Lemma opens_bind {A} (m : K A) (f : A → K Z) :
  respects fs_frame m → (∀ a, opens (f a)) → opens (m ≫= f).
Proof.
  intros Hm Hf s fd s' Hok (a & s1 & H1 & H2)%bind_inv. apply Hm in H1 as Hfr.
  destruct (frame_fd_le _ _ Hfr Hok) as [Hok1 _]. destruct Hfr as (Ev & _).
  pose proof (Hf a s1 fd s' Hok1 H2) as H. by rw Ev in H.
Qed.

Lemma opens_fail t : opens (uart_puts t;; mret (-1)).
Proof.
  intros s fd s' Hok H. minv H. apply ret_inv in H as [-> ->]. apply frame_uart_puts in E as Hf.
  destruct (frame_fd_le _ _ Hf Hok) as [Hok1 _]. split; [done|]. left. by destruct Hf as (-> & _).
Qed.

Lemma opens_create id path fail :
  opens (o ← fs_create (fs_type id) path;
         match o with None => uart_puts fail;; mret (-1) | Some file => alloc_fd file end).
Proof.
  intros s fd s' Hok H. apply (install_fd s _ fail fd s' Hok (laws_create (FsLaws := fs_type_laws id) path)); [|done].
  intros s1 fp s2. apply (laws_create_handle (FsLaws := fs_type_laws id)).
Qed.

Lemma opens_vfs_create path : opens (vfs_create path).
Proof.
  rw /vfs_create. apply opens_bind; [respect_auto|intros fp].
  destruct (_ || _); [apply (opens_create RAMFS)|].
  apply opens_bind; [respect_auto|intros [m|]]; [apply opens_create|apply opens_fail].
Qed.

Lemma opens_vfs_open path : opens (vfs_open path).
Proof.
  rw /vfs_open. apply opens_bind; [respect_auto|intros rp]. cbv zeta.
  match goal with |- context [fs_type ?x] => generalize x as id end. intros id s fd s' Hok H. apply bind_inv in H as (o & s1 & Hm & H).
  pose proof (laws_open (FsLaws := fs_type_laws id) rp _ _ _ Hm) as Hf1.
  destruct (frame_fd_le _ _ Hf1 Hok) as [Hok1 _]. destruct Hf1 as (Ev & _). rw -Ev. destruct o as [fp|]; [|by apply opens_fail in H].
  apply (laws_open_handle (FsLaws := fs_type_laws id)) in Hm. destruct (alloc_fd_Ok s1 fp Hok1 Hm)
    as (s2 & [(Hn & Ha & Hf2)|(Hn & Ha & Hok2 & Hn2 & Hfl & Hl)]); rw (bind_Ok _ _ _ _ _ Ha) in H.
  - destruct (frame_fd_le _ _ Hf2 Hok1) as [Hok2 _]. destruct Hf2 as (Ev2 & _).
    apply opens_fail in H; [|done]. by rw Ev2 in H.
  - pose proof Hok1 as (_ & ? & _). replace (next_fd (ks_vfs s1) <? 0) with false in H by lia.
    apply ret_inv in H as [-> ->]. split; [done|]. right. split_and!; [done|done|done|]. exists fp. by rw Hfl.
Qed.

Lemma get_vfile_Ok s fp f : ks_files s !! fp = Some f → get_vfile fp s = Ok f s.
Proof. intros H. by rw /get_vfile /mbind /M_bind /= H. Qed.

(** The descriptors that the operations refuse. *)
Definition fd_bad (s : kstate) (fd : Z) : bool :=
  negb ((0 <=? fd) && (fd <? 32)) ||
  match fd_table (ks_vfs s) !! Z.to_nat fd with Some (Some _) => false | _ => true end.

Lemma bad_fd_Ok s fd : vfs_ok s → bad_fd fd s = Ok (fd_bad s fd) s.
Proof.
  intros (Hl & _). rw /bad_fd /fd_bad /MAX_FD. destruct (_ || _) eqn:E.
  - by replace ((0 <=? fd) && (fd <? 32)) with false by lia.
  - replace ((0 <=? fd) && (fd <? 32)) with true by lia. zbool.
    destruct (lookup_lt_is_Some_2 (fd_table (ks_vfs s)) (Z.to_nat fd)) as [o Ho]; [lia|].
    rw /mbind /M_bind /= Ho /=. by destruct o.
Qed.

(** An open descriptor. *)
Definition fd_open (s : kstate) (fd fp : Z) : Prop :=
  0 ≤ fd < 32 ∧ fd_table (ks_vfs s) !! Z.to_nat fd = Some (Some fp).

Lemma fd_bad_open s fd : fd_bad s fd = false → ∃ fp, fd_open s fd fp.
Proof.
  rw /fd_bad. intros H. zbool. destruct (fd_table (ks_vfs s) !! Z.to_nat fd) as [[fp|]|] eqn:E; try done.
  exists fp. split; [lia|done].
Qed.

Lemma bad_fd_open s fd fp : vfs_ok s → fd_open s fd fp → bad_fd fd s = Ok false s.
Proof. intros Hok [H1 H2]. rw bad_fd_Ok // /fd_bad H2. by replace ((0 <=? fd) && (fd <? 32)) with true by lia. Qed.

Lemma get_file_open s fd fp : fd_open s fd fp → get_file fd s = Ok (Some fp) s.
Proof.
  intros [H1 H2]. rw /get_file /MAX_FD. replace (_ || _) with false by lia. by rw /mbind /M_bind /= H2.
Qed.

Definition closed (fd : Z) (s : kstate) : kstate :=
  set_vfs (VfsState (registered_fs (ks_vfs s)) (mount_points (ks_vfs s))
             (<[Z.to_nat fd := None]> (fd_table (ks_vfs s))) (next_fd (ks_vfs s))) s.

Lemma vfs_close_Ok s fd fp : vfs_ok s → fd_open s fd fp → vfs_close fd s = Ok 0 (closed fd s).
Proof.
  intros Hok Ho. rw /vfs_close (bind_Ok _ _ _ _ _ (bad_fd_open _ _ _ Hok Ho)) (bind_Ok _ _ _ _ _ (get_file_open _ _ _ Ho)).
  erewrite bind_Ok; [|reflexivity]. destruct Hok as (_ & _ & _ & H4). destruct Ho as [_ Ho].
  destruct (H4 _ _ Ho) as [f Hf]. erewrite bind_Ok; [|rw /get_vfile /mbind /M_bind /= Hf //].
  by destruct (f_ops f) as [[]|].
Qed.

Lemma closed_ok s fd : vfs_ok s → vfs_ok (closed fd s).
Proof.
  intros (H1 & H2 & H3 & H4). split_and!; simpl; [by rw length_insert|lia|lia| |].
  - intros i Hi. destruct (decide (i = Z.to_nat fd)) as [->|]; [|rw list_lookup_insert_ne; [congruence|by apply H3]].
    rw list_lookup_insert_eq //. lia.
  - intros i fp. destruct (decide (i = Z.to_nat fd)) as [->|]; [|rw list_lookup_insert_ne; [congruence|by apply H4]].
    intros Hl. apply list_lookup_insert_Some in Hl as [(_ & [=] & _)|[? _]]; done.
Qed.

Lemma closed_bad s fd : vfs_ok s → bad_fd fd (closed fd s) = Ok true (closed fd s).
Proof.
  intros Hok. rw (bad_fd_Ok _ _ (closed_ok s fd Hok)). f_equal. rw /fd_bad /=.
  destruct (<[_:=_]> _ !! _) as [[fp|]|] eqn:E; [|by rw orb_true_r..].
  apply list_lookup_insert_Some in E as [(_ & [=] & _)|[? _]]; done.
Qed.

Lemma fd_vfs_close fd : respects fd_le (vfs_close fd).
Proof.
  intros s r s' H Hok. pose proof (bad_fd_Ok s fd Hok) as Hb. destruct (fd_bad s fd) eqn:Hd.
  - rw /vfs_close (bind_Ok _ _ _ _ _ Hb) in H. apply ret_inv in H as [-> ->]. split; [done|lia].
  - apply fd_bad_open in Hd as (fp & Ho). rw (vfs_close_Ok s fd fp Hok Ho) in H. simplify_eq.
    split; [by apply closed_ok|simpl; lia].
Qed.

Lemma frame_get_file fd : respects fs_frame (get_file fd).
Proof. rw /get_file. respect_auto. Qed.

Lemma frame_bad_fd fd : respects fs_frame (bad_fd fd).
Proof. rw /bad_fd. respect_auto. Qed.

#[local] Hint Resolve frame_get_file frame_bad_fd : respects.

Lemma frame_vfs_read fd n : respects fs_frame (vfs_read fd n).
Proof. rw /vfs_read. respect_auto. Qed.

Lemma frame_vfs_write fd l n : respects fs_frame (vfs_write fd l n).
Proof. rw /vfs_write. respect_auto. Qed.

Lemma frame_vfs_unlink p : respects fs_frame (vfs_unlink p).
Proof. rw /vfs_unlink. respect_auto. Qed.

Lemma frame_vfs_mkdir p : respects fs_frame (vfs_mkdir p).
Proof. rw /vfs_mkdir. respect_auto. Qed.

Lemma frame_vfs_remove p : respects fs_frame (vfs_remove_recursive p).
Proof.
  rw /vfs_remove_recursive. destruct p as [p|]; [|respect_auto].
  do 2 (apply respects_bind; [apply _|respect_auto|intros ?]). destruct a0 as [m|]; [|respect_auto].
  destruct (fs_remove_recursive (fs_type (mnt_fs m))) as [f|] eqn:E; [|respect_auto].
  by apply (laws_remove (FsLaws := fs_type_laws (mnt_fs m))).
Qed.

Lemma frame_vfs_read_dir p n : respects fs_frame (vfs_read_dir p n).
Proof. rw /vfs_read_dir. respect_auto. Qed.

(** The calls that reach the layer, in any order. *)
Inductive vfs_step : kstate → kstate → Prop :=
| vs_open path s r s' : vfs_open path s = Ok r s' → vfs_step s s'
| vs_create path s r s' : vfs_create path s = Ok r s' → vfs_step s s'
| vs_close fd s r s' : vfs_close fd s = Ok r s' → vfs_step s s'
| vs_read fd n s r s' : vfs_read fd n s = Ok r s' → vfs_step s s'
| vs_write fd l n s r s' : vfs_write fd l n s = Ok r s' → vfs_step s s'
| vs_unlink path s r s' : vfs_unlink path s = Ok r s' → vfs_step s s'
| vs_mkdir path s r s' : vfs_mkdir path s = Ok r s' → vfs_step s s'
| vs_remove path s r s' : vfs_remove_recursive path s = Ok r s' → vfs_step s s'
| vs_read_dir path n s r s' : vfs_read_dir path n s = Ok r s' → vfs_step s s'
| vs_mount path fs s r s' : vfs_mount path fs s = Ok r s' → vfs_step s s'
| vs_register fs s r s' : register_filesystem fs s = Ok r s' → vfs_step s s'.

(** The mount table and the table of registered file systems fit their
    arrays, *)
Definition mounts_ok (s : kstate) : Prop :=
  zlen (mount_points (ks_vfs s)) ≤ MAX_MOUNTS ∧ zlen (registered_fs (ks_vfs s)) ≤ MAX_FS.

(** and a step only appends to them. *)
Definition mounts_le (s s' : kstate) : Prop :=
  mounts_ok s → mounts_ok s' ∧ mount_points (ks_vfs s) `prefix_of` mount_points (ks_vfs s') ∧
    registered_fs (ks_vfs s) `prefix_of` registered_fs (ks_vfs s').

#[export] Instance mounts_le_preorder : PreOrder mounts_le.
Proof.
  split; [intros s H; split; [done|split; reflexivity]|]. intros s1 s2 s3 H12 H23 H. destruct (H12 H) as (H2 & ? & ?). destruct (H23 H2) as (? & ? & ?).
  split; [done|split; (eapply transitivity; eassumption)].
Qed.

Lemma mounts_le_same s s' :
  mount_points (ks_vfs s') = mount_points (ks_vfs s) → registered_fs (ks_vfs s') = registered_fs (ks_vfs s) → mounts_le s s'.
Proof. intros E1 E2 H. rw /mounts_ok E1 E2. split; [done|split; reflexivity]. Qed.

Lemma frame_mounts {A} (m : K A) : respects fs_frame m → respects mounts_le m.
Proof. intros H s a s' Hm. apply mounts_le_same; by destruct (H s a s' Hm) as (-> & _). Qed.

#[local] Hint Resolve frame_mounts : respects.
#[local] Hint Extern 1 (mounts_le _ _) => apply mounts_le_same; reflexivity : respects.

Lemma mounts_alloc_fd fp : respects mounts_le (alloc_fd fp).
Proof.
  intros s r s' H. rw /alloc_fd /mbind /M_bind /= in H. destruct (_ <=? _); apply ret_inv in H as [-> ->]; apply mounts_le_same; reflexivity.
Qed.

#[local] Hint Resolve mounts_alloc_fd : respects.

Lemma mounts_vfs_open p : respects mounts_le (vfs_open p).
Proof. rw /vfs_open. respect_auto. Qed.

Lemma mounts_vfs_create p : respects mounts_le (vfs_create p).
Proof. rw /vfs_create. respect_auto. Qed.

Lemma frame_close_file id fp :
  respects fs_frame (match fop_close (f_ops_table id) with None => mret tt | Some c => c fp;; mret tt end).
Proof.
  destruct (fop_close (f_ops_table id)) as [c|] eqn:E; [|respect_auto].
  apply respects_bind; [apply _|by apply (laws_close (FsLaws := fs_type_laws id))|intros ?; respect_auto].
Qed.

Lemma mounts_vfs_close fd : respects mounts_le (vfs_close fd).
Proof. rw /vfs_close /kfree. repeat (cbv zeta; first [by apply frame_mounts, frame_close_file|respect_step]). Qed.

(** [vfs_mount] appends an entry when there is room and the file system
    mounts; nothing else of the layer changes. *)
Lemma vfs_mount_inv p fs s r s' :
  vfs_mount p fs s = Ok r s' →
  (r = -1 ∧ fs_frame s s') ∨
  (r = 0 ∧ zlen (mount_points (ks_vfs s)) < MAX_MOUNTS ∧ ∃ s1 sb, fs_frame s s1 ∧
   s' = set_vfs (with_mounts (mount_points (ks_vfs s) ++ [Mount p fs sb]) (ks_vfs s)) s1).
Proof.
  rw /vfs_mount. intros H. minv H. injection E as <- <-. destruct (_ <=? _) eqn:Hm; zbool.
  - apply ret_inv in H as [-> ->]. left. split; [done|reflexivity].
  - minv H. apply (laws_mount (FsLaws := fs_type_laws fs)) in E as Hf. destruct a as [sb|].
    + minv H. apply ret_inv in H as [-> ->]. injection E0 as _ <-. right. split_and!; [done|done|].
      pose proof Hf as (Ev & _). eexists _, sb. split; [exact Hf|]. by rw Ev.
    + apply ret_inv in H as [-> ->]. by left.
Qed.

Lemma opens_fd_le op s fd s' : opens op → op s = Ok fd s' → fd_le s s'.
Proof. intros Ho H Hok. destruct (Ho s fd s' Hok H) as [? [[_ ?]|(? & ? & _)]]; split; [done|lia|done|lia]. Qed.

Lemma vfs_step_le s s' : vfs_step s s' → fd_le s s'.
Proof.
  intros [path s0 r s1 H|path s0 r s1 H|fd s0 r s1 H|fd n s0 r s1 H|fd l n s0 r s1 H|path s0 r s1 H|path s0 r s1 H
         |path s0 r s1 H|path n s0 r s1 H|path fs s0 r s1 H|fs s0 r s1 H].
  - apply (opens_fd_le _ _ _ _ (opens_vfs_open path) H).
  - apply (opens_fd_le _ _ _ _ (opens_vfs_create path) H).
  - by apply fd_vfs_close in H.
  - apply frame_fd_le. by apply frame_vfs_read in H.
  - apply frame_fd_le. by apply frame_vfs_write in H.
  - apply frame_fd_le. by apply frame_vfs_unlink in H.
  - apply frame_fd_le. by apply frame_vfs_mkdir in H.
  - apply frame_fd_le. by apply frame_vfs_remove in H.
  - apply frame_fd_le. by apply frame_vfs_read_dir in H.
  - apply vfs_mount_inv in H as [[_ Hf]|(_ & _ & s2 & sb & Hf & ->)]; [by apply frame_fd_le|].
    intros Hok. destruct (frame_fd_le _ _ Hf Hok) as [Hok2 ?]. destruct Hf as (Ev & _). rw /vfs_ok Ev in Hok2. split; [exact Hok2|simpl; lia].
  - rw /register_filesystem in H. minv H. injection E as <- <-. destruct (_ <=? _); minv H; apply ret_inv in H as [-> ->];
      [reflexivity|]. injection E as _ <-. intros Hok. split; [exact Hok|simpl; lia].
Qed.

Lemma vfs_step_mounts s s' : vfs_step s s' → mounts_le s s'.
Proof.
  intros [path s0 r s1 H|path s0 r s1 H|fd s0 r s1 H|fd n s0 r s1 H|fd l n s0 r s1 H|path s0 r s1 H|path s0 r s1 H
         |path s0 r s1 H|path n s0 r s1 H|path fs s0 r s1 H|fs s0 r s1 H].
  - by apply mounts_vfs_open in H.
  - by apply mounts_vfs_create in H.
  - by apply mounts_vfs_close in H.
  - by apply (frame_mounts _ (frame_vfs_read _ _)) in H.
  - by apply (frame_mounts _ (frame_vfs_write _ _ _)) in H.
  - by apply (frame_mounts _ (frame_vfs_unlink _)) in H.
  - by apply (frame_mounts _ (frame_vfs_mkdir _)) in H.
  - by apply (frame_mounts _ (frame_vfs_remove _)) in H.
  - by apply (frame_mounts _ (frame_vfs_read_dir _ _)) in H.
  - apply vfs_mount_inv in H as [[_ (Ev & _)]|(_ & Hl & s2 & sb & Hf & ->)]; [by apply mounts_le_same; rw Ev|].
    intros [H1 H2]. split; [split; [|done]|split; [by apply prefix_app_r|done]]. simpl. rw length_app /=. lia.
  - rw /register_filesystem in H. minv H. injection E as <- <-. destruct (_ <=? _) eqn:Hl; minv H;
      apply ret_inv in H as [-> ->]; [reflexivity|]. injection E as _ <-. zbool.
    intros [H1 H2]. split; [split; [done|]|split; [done|by apply prefix_app_r]]. simpl. rw length_app /=. lia.
Qed.

Lemma bad_get_file s fd : vfs_ok s → fd_bad s fd = true → get_file fd s = Ok None s.
Proof.
  intros (Hl & _). rw /fd_bad /get_file /MAX_FD. destruct (_ && _) eqn:E; simpl.
  - zbool. replace (_ || _) with false by lia.
    destruct (lookup_lt_is_Some_2 (fd_table (ks_vfs s)) (Z.to_nat fd)) as [o Ho]; [lia|].
    rw /mbind /M_bind /= Ho /=. by destruct o.
  - intros _. by replace ((fd <? 0) || (32 <=? fd)) with true by lia.
Qed.

(** C3: after any sequence of VFS calls, mounts and registrations included,
    the descriptor table is valid (every descriptor is closed or names a live
    open file, those from [next_fd] on are unused) and no descriptor number
    has been handed back; the mount table and the table of registered file
    systems fit their arrays, and their earlier entries are unchanged. *)
Theorem vfs_reachable_ok s s' :
  vfs_ok s → mounts_ok s → rtc vfs_step s s' →
  (vfs_ok s' ∧ next_fd (ks_vfs s) ≤ next_fd (ks_vfs s') ≤ 32) ∧
  mounts_ok s' ∧ mount_points (ks_vfs s) `prefix_of` mount_points (ks_vfs s') ∧
  registered_fs (ks_vfs s) `prefix_of` registered_fs (ks_vfs s').
Proof.
  intros Hok Hm Hr. assert (fd_le s s' ∧ mounts_le s s') as [H H'].
  { clear Hok Hm. induction Hr as [s|s s1 s2 H _ [IH IH']]; [by split; reflexivity|].
    split; [by apply (transitivity (vfs_step_le _ _ H))|by apply (transitivity (vfs_step_mounts _ _ H))]. }
  destruct (H Hok) as [Hok' ?]. split; [|by apply H']. split; [done|]. destruct Hok' as (_ & ? & _). lia.
Qed.

(** [vfs_open] either returns -1 or the lowest number never used before,
    which from then on names a live open file; [vfs_create] likewise. *)
Theorem vfs_open_fresh path s fd s' :
  vfs_ok s → vfs_open path s = Ok fd s' ∨ vfs_create path s = Ok fd s' →
  vfs_ok s' ∧
  ((fd = -1 ∧ next_fd (ks_vfs s') = next_fd (ks_vfs s)) ∨
   (fd = next_fd (ks_vfs s) ∧ next_fd (ks_vfs s') = fd + 1 ∧ fd < 32 ∧ ∃ fp, fd_open s' fd fp ∧ is_Some (ks_files s' !! fp))).
Proof.
  intros Hok H. assert (opens (vfs_open path) ∧ opens (vfs_create path)) as [Ho Hc]
    by (split; [apply opens_vfs_open|apply opens_vfs_create]).
  destruct H as [H|H]; [apply Ho in H as [H1 H2]|apply Hc in H as [H1 H2]]; try done; (split; [done|]);
    (destruct H2 as [?|(? & ? & ? & fp & ? & ?)]; [by left|right]; split_and!; [done..|]; exists fp; split; [|done]);
    (split; [|done]); destruct Hok as (_ & ? & _); lia.
Qed.

(** Descriptors are never recycled: once 32 have been handed out, every
    later [vfs_open] and [vfs_create] fails, whatever has been closed in the
    meantime. *)
Theorem vfs_fd_exhaustion s s' path fd s'' :
  vfs_ok s → next_fd (ks_vfs s) = 32 → rtc vfs_step s s' →
  vfs_open path s' = Ok fd s'' ∨ vfs_create path s' = Ok fd s'' → fd = -1.
Proof.
  intros Hok Hn Hr H. assert (vfs_ok s' ∧ next_fd (ks_vfs s') = 32) as [Hok' Hn'].
  { clear H. induction Hr as [s|s s1 s2 H%vfs_step_le _ IH]; [done|]. destruct (H Hok) as [Hok1 ?].
    apply IH; [done|]. destruct Hok1 as (_ & ? & _). lia. }
  destruct H as [H|H]; [apply opens_vfs_open in H|apply opens_vfs_create in H]; try done;
    destruct H as [_ [[-> _]|(-> & _ & ? & _)]]; [done|lia|done|lia].
Qed.

(** C37: a descriptor that is out of range, never opened or already closed is
    refused by [vfs_read], [vfs_write] and [vfs_close] with -1, and only the
    console changes; an open descriptor is closed by [vfs_close] with 0 and
    is refused from then on. *)
Theorem vfs_bad_fd_rejected s fd n buf :
  vfs_ok s →
  (fd_bad s fd = true →
   ∃ out, vfs_read fd n s = Ok (-1, []) (set_out out s) ∧
          vfs_write fd buf n s = Ok (-1) (set_out out s) ∧ vfs_close fd s = Ok (-1) s) ∧
  (fd_bad s fd = false → ∃ s', vfs_close fd s = Ok 0 s' ∧ vfs_ok s' ∧ fd_bad s' fd = true).
Proof.
  intros Hok. pose proof (bad_fd_Ok s fd Hok) as Hb. split; intros Hf.
  - rw Hf in Hb. eexists. split_and!.
    + rw /vfs_read (bind_Ok _ _ _ _ _ Hb). done.
    + rw /vfs_write. erewrite bind_Ok; [|by apply bad_get_file]. done.
    + by rw /vfs_close (bind_Ok _ _ _ _ _ Hb).
  - apply fd_bad_open in Hf as (fp & Ho). exists (closed fd s). split; [by apply (vfs_close_Ok _ _ fp)|].
    split; [by apply closed_ok|]. pose proof (closed_bad s fd Hok) as H. rw (bad_fd_Ok _ _ (closed_ok s fd Hok)) in H. by simplify_eq.
Qed.

(** ** Mounts *)

(** The mount point is a prefix of the path. *)
Definition covers (m : mount) (path : str) : Prop := ∃ rest, path = mnt_path m ++ rest.

Lemma find_mount_loop_Some ms path best n m :
  Forall (λ m, is_str (mnt_path m)) ms → is_str path →
  (∀ b, best = Some b → length (mnt_path b) = n ∧ covers b path) → (best = None → n = 0%nat) →
  find_mount_loop ms path best n = Some m →
  covers m path ∧ (n ≤ length (mnt_path m))%nat ∧
  ∀ m', m' ∈ ms → covers m' path → (length (mnt_path m') ≤ length (mnt_path m))%nat.
Proof.
  intros Hms Hp. revert best n. induction Hms as [|m1 ms Hm1 Hms IH]; intros best n Hbest Hn; simpl.
  - intros ->. destruct (Hbest m eq_refl) as [<- ?]. split_and!; [done|lia|]. by intros ? ?%not_elem_of_nil.
  - assert (Hcov : (s_strncmp path (mnt_path m1) (length (mnt_path m1)) =? 0) = true ↔ covers m1 path).
    { rw Z.eqb_eq (s_strncmp_prefix path (mnt_path m1) Hp Hm1). done. }
    destruct (_ && _) eqn:E.
    + apply andb_true_iff in E as [E1%Hcov E2%Nat.ltb_lt]. intros H.
      apply IH in H as (H1 & H2 & H3); [|by intros b [= <-]|done].
      split_and!; [done|lia|]. intros m' [->|Hm']%elem_of_cons Hc; [lia|by apply H3].
    + intros H. apply IH in H as (H1 & H2 & H3); [|done..]. split_and!; [done|lia|].
      intros m' [->|Hm']%elem_of_cons Hc; [|by apply H3]. apply Hcov in Hc. rw Hc /= in E. apply Nat.ltb_ge in E. lia.
Qed.

Lemma find_mount_loop_in ms path best n m :
  find_mount_loop ms path best n = Some m → m ∈ ms ∨ best = Some m.
Proof.
  revert best n. induction ms as [|m1 ms IH]; intros best n; simpl; [by right|].
  destruct (_ && _); intros [H|H]%IH; [by left; right|injection H as <-; left; by left|by left; right|by right].
Qed.

Lemma find_mount_loop_None ms path best n :
  Forall (λ m, is_str (mnt_path m)) ms → is_str path →
  find_mount_loop ms path best n = None →
  best = None ∧ ∀ m, m ∈ ms → covers m path → (length (mnt_path m) ≤ n)%nat.
Proof.
  intros Hms Hp. revert best n. induction Hms as [|m1 ms Hm1 Hms IH]; intros best n; simpl.
  - intros ->. split; [done|]. by intros ? ?%not_elem_of_nil.
  - destruct (_ && _) eqn:E; intros H; apply IH in H as [Hb Hm]; [done|]. split; [done|].
    intros m [->|Hin]%elem_of_cons Hc; [|by apply Hm].
    apply (s_strncmp_prefix path (mnt_path m1) Hp Hm1), Z.eqb_eq in Hc. rw Hc /= in E. apply Nat.ltb_ge in E. lia.
Qed.

(** For every path other than "" and "/", [find_mount] returns a mount
    point that is a prefix of the path, and no mount point that is a prefix
    is longer; it returns NULL only when no (nonempty) mount point is a
    prefix.  For "" and "/" it returns the first mount. *)
Theorem find_mount_correct ms path :
  Forall (λ m, is_str (mnt_path m)) ms → is_str path →
  if decide (path = [] ∨ path = bs "/") then find_mount ms path = head ms
  else match find_mount ms path with
       | Some m => m ∈ ms ∧ covers m path ∧
                   ∀ m', m' ∈ ms → covers m' path → (length (mnt_path m') ≤ length (mnt_path m))%nat
       | None => ∀ m, m ∈ ms → covers m path → mnt_path m = []
       end.
Proof.
  intros Hms Hp. rw /find_mount. case_decide as Hd.
  - destruct Hd as [->| ->]; [done|]. by rw s_strcmp_refl orb_true_r.
  - replace (_ || _) with false; last first.
    { symmetry. apply orb_false_iff. split; [by destruct path; [destruct Hd; left|]|].
      apply Z.eqb_neq. rw (s_strcmp_eq path (bs "/") Hp); [by repeat constructor|]. auto. }
    destruct (find_mount_loop ms path None 0) as [m|] eqn:E.
    + split; [by apply find_mount_loop_in in E as [?|?]|].
      by apply (find_mount_loop_Some ms path None 0 m Hms Hp) in E as (? & _ & ?).
    + apply (find_mount_loop_None ms path None 0 Hms Hp) in E as [_ Hm]. intros m Hin Hc. specialize (Hm m Hin Hc).
      by destruct (mnt_path m); [|simpl in Hm; lia].
Qed.

(** The mounts that [vfs_init] makes. *)
Definition boot_mounts : list mount :=
  [Mount (bs "/") ABYSSFS (VfsSb ABYSSFS_MAGIC (bs "abyssfs")); Mount (bs "/tmp") RAMFS (VfsSb RAMFS_MAGIC (bs "ramfs"))].

(** The prefix test of [find_mount] does not stop at a path component:
    every path that merely begins with the letters "/tmp", such as "/tmpfile"
    or "/tmpdir/x", is sent to the RAM file system mounted on "/tmp" (while
    [vfs_open] sends it to AbyssFS). *)
Theorem find_mount_no_boundary rest :
  mnt_fs <$> find_mount boot_mounts (bs "/tmp" ++ rest) = Some RAMFS.
Proof. reflexivity. Qed.

(** ** Booting *)

(** [vfs_init], as [kernel_main] calls it before any process exists,
    dereferences the NULL [current_process]: [test_abyssfs] creates
    "hello.txt", a name without slash, and [create_file] reads the working
    directory of the current process. *)
Theorem vfs_init_null_process input : vfs_init (kstate0 input) = Fault.
Proof. vm_compute. reflexivity. Qed.

(** ** Namespaces *)

(** The text that replaces the prefix, and what follows it. *)
Definition attach (base rest : str) : str :=
  match rest with
  | [] => base
  | c :: _ => if (c =? 47) || (default 0 (last base) =? 47) then base ++ rest else base ++ bs "/" ++ rest
  end.

Definition has_prefix (pre path : str) : bool := bool_decide (take (length pre) path = pre).

(** The first binding, from the most recent on, whose new name is a prefix. *)
Fixpoint ns_rewrite (l : list (Z * namespace)) (path : str) : str :=
  match l with
  | [] => path
  | (_, n) :: l => if has_prefix (ns_new_path n) path
                   then attach (ns_old_path n) (drop (length (ns_new_path n)) path)
                   else ns_rewrite l path
  end.

(** The same with the two names exchanged, as [resolve_path] has it. *)
Fixpoint open_rewrite (l : list (Z * namespace)) (path : str) : str :=
  match l with
  | [] => path
  | (_, n) :: l => if has_prefix (ns_old_path n) path
                   then ns_new_path n ++ drop (length (ns_old_path n)) path
                   else open_rewrite l path
  end.

Definition ns_ok (n : namespace) : Prop :=
  is_str (ns_old_path n) ∧ is_str (ns_new_path n) ∧ ns_old_path n ≠ [] ∧ ns_new_path n ≠ [].

Lemma strncmp_has_prefix path pre :
  is_str path → is_str pre → (s_strncmp path pre (length pre) =? 0) = has_prefix pre path.
Proof.
  intros Hp Hpre. apply eq_true_iff_eq. rw Z.eqb_eq (s_strncmp_prefix path pre Hp Hpre) /has_prefix bool_decide_eq_true. split.
  - intros [r ->]. by rw take_app_length.
  - intros Ht. exists (drop (length pre) path). by rw -{1}(take_drop (length pre) path) Ht.
Qed.

Lemma has_prefix_length pre path : has_prefix pre path = true → (length pre ≤ length path)%nat.
Proof. rw /has_prefix bool_decide_eq_true. intros H. apply (f_equal length) in H. rw length_take in H. lia. Qed.

Lemma text_from_Ok path n s : (n ≤ length path)%nat → text_from path n s = Ok (drop n path) s.
Proof. intros H%Nat.leb_le. by rw /text_from H. Qed.

Lemma strcpy_to_Ok {S} cap t (s : S) : zlen t + 1 ≤ cap → strcpy_to cap t s = Ok t s.
Proof. intros H%Z.leb_le. by rw /strcpy_to H. Qed.

Lemma strcat_to_Ok {S} cap d t (s : S) : zlen d + zlen t + 1 ≤ cap → strcat_to cap d t s = Ok (d ++ t) s.
Proof. intros H%Z.leb_le. by rw /strcat_to H. Qed.

Section Resolution.
Context (s : kstate) (path : str).
Hypothesis Hpath : is_str path.

Lemma get_ns_Ok p n : ks_namespaces s !! p = Some n → get_ns p s = Ok n s.
Proof. intros H. by rw /get_ns /mbind /M_bind /= H. Qed.

Lemma path_resolve_Ok l fuel o :
  chain ns_next (ks_namespaces s) o l → Forall (λ kn, ns_ok kn.2) l → (length l < fuel)%nat →
  zlen (open_rewrite l path) < VFS_MAX_PATH → path_resolve fuel o path s = Ok (open_rewrite l path) s.
Proof.
  revert fuel o. induction l as [|[k n] l IH]; intros [|fuel] o; simpl; try lia.
  - intros -> _ _ Hfit. rw /= strcpy_to_Ok //. lia.
  - intros (-> & Hn & Hc) Hns Hf. apply Forall_cons in Hns as [(Ho & Hnew & _) Hns].
    rw (bind_Ok _ _ _ _ _ (get_ns_Ok k n Hn)) strncmp_has_prefix //.
    destruct (has_prefix (ns_old_path n) path) eqn:E; [|intros; apply IH; [done|done|lia|done]].
    rw length_app. intros Hfit. rw (bind_Ok _ _ _ _ _ (strcpy_to_Ok VFS_MAX_PATH (ns_new_path n) s ltac:(lia))).
    rw (bind_Ok _ _ _ _ _ (text_from_Ok _ _ s (has_prefix_length _ _ E))). apply strcat_to_Ok. lia.
Qed.

Lemma attach_run old rest s0 :
  old ≠ [] → zlen (attach old rest) < VFS_MAX_PATH →
  (resolved ← strcpy_to VFS_MAX_PATH old;
   match rest with
   | [] => mret resolved
   | c :: _ =>
       resolved ← (if negb (c =? 47) then
                     l ← last_byte resolved;
                     if negb (l =? 47) then strcat_to VFS_MAX_PATH resolved (bs "/") else mret resolved
                   else mret resolved);
       strcat_to VFS_MAX_PATH resolved rest
   end) s0 = Ok (attach old rest) s0.
Proof.
  intros Hne Hfit. destruct rest as [|c rest]; [rw (bind_Ok _ _ _ _ _ (strcpy_to_Ok VFS_MAX_PATH old s0 ltac:(simpl in Hfit; lia))); done|].
  destruct (last old) as [b|] eqn:El; [|by apply last_None in El].
  rw /= El /= in Hfit. assert (zlen old + zlen (c :: rest) < VFS_MAX_PATH).
  { destruct (_ || _); rw !length_app /= in Hfit |- *; lia. }
  rw (bind_Ok _ _ _ _ _ (strcpy_to_Ok VFS_MAX_PATH old s0 ltac:(lia))) /= El /=. destruct (c =? 47) eqn:Ec; simpl.
  - erewrite bind_Ok; [|reflexivity]. apply strcat_to_Ok. simpl in *. lia.
  - rw /last_byte El. destruct (b =? 47) eqn:Eb; simpl in *.
    + erewrite bind_Ok; [|by erewrite bind_Ok; [|reflexivity]; rw Eb]. apply strcat_to_Ok. simpl. lia.
    + rw !length_app /= in Hfit. erewrite bind_Ok; [|erewrite bind_Ok; [|reflexivity]; rw Eb; apply strcat_to_Ok; simpl; lia].
      rw strcat_to_Ok; [rw length_app /=; lia|]. by rw -app_assoc.
Qed.

Lemma ns_resolve_Ok l fuel o :
  heap_ok s → ks_heap_pos s + VFS_MAX_PATH ≤ HEAP_SIZE →
  chain ns_next (ks_namespaces s) o l → Forall (λ kn, ns_ok kn.2) l → (length l < fuel)%nat →
  zlen (ns_rewrite l path) < VFS_MAX_PATH →
  ∃ s', ns_resolve fuel o path s = Ok (ns_rewrite l path) s' ∧ fs_frame s s'.
Proof.
  intros Hheap Hpos. revert fuel o. induction l as [|[k n] l IH]; intros [|fuel] o; simpl; try lia.
  - intros -> _ _ _. exists s. split; [done|reflexivity].
  - intros (-> & Hn & Hc) Hns Hf Hfit. apply Forall_cons in Hns as [(Ho & Hnew & Hone & _) Hns].
    rw (bind_Ok _ _ _ _ _ (get_ns_Ok k n Hn)) strncmp_has_prefix //.
    destruct (has_prefix (ns_new_path n) path) eqn:E; [|apply IH; [done|done|lia|done]].
    pose proof (kalloc_spec VFS_MAX_PATH s Hheap ltac:(done)) as Ha. rw (proj2 (Z.leb_le _ _) Hpos) in Ha.
    rw (bind_Ok _ _ _ _ _ Ha). exists (set_heap_pos (ks_heap_pos s + VFS_MAX_PATH) s). split; [|by apply frame_same].
    set s0 := set_heap_pos _ s. pose proof (text_from_Ok _ _ s0 (has_prefix_length _ _ E)) as Ht.
    pose proof (attach_run (ns_old_path n) (drop (length (ns_new_path n)) path) s0 Hone Hfit) as Hat.
    apply bind_inv in Hat as (t & s1 & Hs & Hr). pose proof Hs as Hs'. rw /strcpy_to in Hs'.
    destruct (_ <=? _); [|done]. apply ret_inv in Hs' as [-> ->].
    rw (bind_Ok _ _ _ _ _ Hs) (bind_Ok _ _ _ _ _ Ht). exact Hr.
Qed.
End Resolution.

(** C23: directory listings go through the namespace of the current process:
    [resolve_namespace_path] replaces the new name of the first binding whose
    new name is a prefix of the path by its old name (inserting a slash where
    none separates them), and leaves a path alone when no binding applies.
    [vfs_open] goes through [resolve_path], which on the same list of
    bindings replaces the old name by the new one instead. *)
Theorem namespace_resolution s p cur l path :
  current_process (ks_proc s) = Some p → processes (ks_proc s) !! p = Some cur →
  chain ns_next (ks_namespaces s) (p_ns_mounts cur) l → Forall (λ kn, ns_ok kn.2) l →
  is_str path → heap_ok s → ks_heap_pos s + VFS_MAX_PATH ≤ HEAP_SIZE →
  zlen (ns_rewrite l path) < VFS_MAX_PATH → zlen (open_rewrite l path) < VFS_MAX_PATH →
  (∃ s', resolve_namespace_path path s = Ok (ns_rewrite l path) s' ∧ fs_frame s s') ∧
  resolve_path path s = Ok (open_rewrite l path) s.
Proof.
  intros Hcur Hp Hc Hns Hpath Hheap Hpos Hfit Hfit'. pose proof (chain_size _ _ _ _ Hc) as Hsz.
  rw /resolve_namespace_path /resolve_path /current /get_current_process /get_proc /ns_fuel. split.
  - erewrite bind_Ok; [|rw /mbind /M_bind /= Hcur //]. cbn beta iota.
    erewrite bind_Ok; [|rw /mbind /M_bind /= Hp //].
    erewrite bind_Ok; [|reflexivity]. apply ns_resolve_Ok; try done. lia.
  - erewrite bind_Ok; [|rw /mbind /M_bind /= Hcur /= Hp //].
    erewrite bind_Ok; [|reflexivity]. apply path_resolve_Ok; try done. lia.
Qed.

(** A file under a bound directory cannot be opened under its new name:
    with the single binding of [old] to [new] and a path below [new] that
    does not begin with [old], a listing resolves the path to the old name
    while [vfs_open] looks up the path as it stands. *)
Theorem bind_not_seen_by_open s p cur k n rest :
  current_process (ks_proc s) = Some p → processes (ks_proc s) !! p = Some cur →
  p_ns_mounts cur = Some k → ks_namespaces s !! k = Some n → ns_next n = None → ns_ok n →
  is_str rest → heap_ok s → ks_heap_pos s + VFS_MAX_PATH ≤ HEAP_SIZE →
  zlen (ns_old_path n) + zlen (ns_new_path n) + zlen rest + 2 < VFS_MAX_PATH →
  has_prefix (ns_old_path n) (ns_new_path n ++ 47 :: rest) = false →
  (∃ s', resolve_namespace_path (ns_new_path n ++ 47 :: rest) s = Ok (ns_old_path n ++ 47 :: rest) s') ∧
  resolve_path (ns_new_path n ++ 47 :: rest) s = Ok (ns_new_path n ++ 47 :: rest) s.
Proof.
  intros Hcur Hp Hk Hn Hnext Hok Hrest Hheap Hpos Hfit Hpre. pose proof Hok as (Ho & Hnew & _).
  set path := ns_new_path n ++ 47 :: rest.
  assert (Hpath : is_str path) by (apply Forall_app; split; [done|constructor; [lia|done]]).
  assert (Hc : chain ns_next (ks_namespaces s) (Some k) [(k, n)]) by done.
  assert (Hrw : ns_rewrite [(k, n)] path = ns_old_path n ++ 47 :: rest).
  { rw /= /has_prefix /path bool_decide_true; [by rw take_app_length|]. by rw drop_app_length. }
  assert (Hrw' : open_rewrite [(k, n)] path = path) by (by rw /= Hpre).
  pose proof (chain_size _ _ _ _ Hc) as Hsz. simpl in Hsz.
  rw /resolve_namespace_path /resolve_path /current /get_current_process /get_proc /ns_fuel. split.
  - erewrite bind_Ok; [|rw /mbind /M_bind /= Hcur //]. cbn beta iota.
    erewrite bind_Ok; [|rw /mbind /M_bind /= Hp //].
    erewrite bind_Ok; [|reflexivity]. rw Hk -Hrw.
    destruct (ns_resolve_Ok s path Hpath [(k, n)] (S (size (ks_namespaces s))) (Some k)) as (s' & H & _); try done.
    + by constructor.
    + simpl. lia.
    + rw Hrw length_app /=. lia.
    + by exists s'.
  - erewrite bind_Ok; [|rw /mbind /M_bind /= Hcur /= Hp //].
    erewrite bind_Ok; [|reflexivity]. rw Hk -{2}Hrw'. apply path_resolve_Ok; try done.
    + by constructor.
    + simpl. lia.
    + rw Hrw' length_app /=. lia.
Qed.
