(* ===== verification/VfsFiles.v ===== *)
(** * VfsFiles: whole file lives through the VFS

    The calls of [src/src/fs/vfs.c] composed: create, write, close, open and
    read on the RAM file system; removal by a relative path. *)

From stdpp Require Import base numbers list gmap strings.
From Corelib Require Import ssreflect.
From S2P Require Import Prelude Chain CString State Kmalloc Uart Paths Ramfs Abyss Vfs VfsLaws VfsSpec.

Open Scope Z_scope.
Open Scope general_if_scope.

(** Store [file] as the next descriptor. *)
Definition with_fd (file : Z) (s : kstate) : kstate :=
  set_vfs (VfsState (registered_fs (ks_vfs s)) (mount_points (ks_vfs s))
             (<[Z.to_nat (next_fd (ks_vfs s)) := Some file]> (fd_table (ks_vfs s))) (next_fd (ks_vfs s) + 1)) s.

Lemma alloc_fd_run s file : next_fd (ks_vfs s) < 32 → alloc_fd file s = Ok (next_fd (ks_vfs s)) (with_fd file s).
Proof. intros H. rw /alloc_fd /MAX_FD /mbind /M_bind /=. by replace (32 <=? _) with false by lia. Qed.

Lemma with_fd_ok s file : vfs_ok s → is_Some (ks_files s !! file) → next_fd (ks_vfs s) < 32 → vfs_ok (with_fd file s).
Proof.
  intros Hok Hf Hn. destruct (alloc_fd_Ok s file Hok Hf) as (s' & [(? & _)|(_ & Ha & Hok' & _)]); [lia|].
  rw alloc_fd_run // in Ha. by simplify_eq.
Qed.

Lemma with_fd_open s file : vfs_ok s → next_fd (ks_vfs s) < 32 → fd_open (with_fd file s) (next_fd (ks_vfs s)) file.
Proof. intros (Hl & Hn & _) Hlt. split; [lia|]. simpl. apply list_lookup_insert_eq. lia. Qed.

(** A path under "/tmp/" that fits the buffers of the RAM file system. *)
Definition tmp_path (path : str) : Prop :=
  is_str path ∧ s_strncmp path (bs "/tmp/") 5 = 0 ∧ (length path ≤ 31)%nat.

Lemma tmp_path_head path : tmp_path path → default 0 (head path) = 47.
Proof.
  intros (Hs & Ht & _). destruct path as [|c path]; [done|]. rw /s_strncmp in Ht.
  change (bs "/tmp/") with [47; 116; 109; 112; 47] in Ht. simpl in *. destruct (c =? 47) eqn:E; zbool; lia.
Qed.

Section Life.
Context (s : kstate) (path : str) (i : nat) (rf : ramfs_file) (p : pptr) (cur : process) (buf : list Z).
Hypothesis Hvfs : vfs_ok s.
Hypothesis Hram : ramfs_ok s.
Hypothesis Hheap : heap_ok s.
Hypothesis Hroom : ks_heap_pos s + 2 * sizeof_vfs_file ≤ HEAP_SIZE.
Hypothesis Hfd : next_fd (ks_vfs s) ≤ 30.
Hypothesis Hcur : current_process (ks_proc s) = Some p.
Hypothesis Hp : processes (ks_proc s) !! p = Some cur.
Hypothesis Hns : p_ns_mounts cur = None.
Hypothesis Hpath : tmp_path path.
Hypothesis Hnone : find_path (ks_ramfs s) path = None.
Hypothesis Hfree : find_free (ks_ramfs s) = Some i.
Hypothesis Hrf : ks_ramfs s !! i = Some rf.
Hypothesis Hbuf : zlen buf ≤ 4096.

(** The state after [vfs_create]. *)
Definition created : kstate :=
  with_fd (ks_heap_pos s)
    (set_files (<[ks_heap_pos s := VfsFile (Some RAMFS) [] (Pram i) 0]> (ks_files s))
       (set_heap_pos (ks_heap_pos s + sizeof_vfs_file)
          (set_ramfs (<[i := fresh_slot path rf]> (ks_ramfs s)) s))).

Lemma vfs_create_run : vfs_create path s = Ok (next_fd (ks_vfs s)) created.
Proof.
  destruct Hpath as (Hs & Ht & Hl). rw /vfs_create. erewrite bind_Ok; last first.
  { rw /full_path_of tmp_path_head //. change (negb (47 =? 47)) with false. cbv iota.
    apply strcpy_to_Ok. rw /VFS_MAX_PATH. lia. }
  rw Ht. change ((0 =? 0) || _) with true. cbv iota.
  assert (Hsz : sizeof_vfs_file = 304) by done.
  rw (bind_Ok _ _ _ _ _ (ramfs_create_spec s path i rf Hheap ltac:(lia) Ht Hl Hfree Hrf)). apply alloc_fd_run. simpl. lia.
Qed.

Lemma created_ok : vfs_ok created ∧ ramfs_ok created ∧ fd_open created (next_fd (ks_vfs s)) (ks_heap_pos s).
Proof.
  set s1 := set_files (<[ks_heap_pos s := VfsFile (Some RAMFS) [] (Pram i) 0]> (ks_files s))
       (set_heap_pos (ks_heap_pos s + sizeof_vfs_file) (set_ramfs (<[i := fresh_slot path rf]> (ks_ramfs s)) s)).
  assert (Hv1 : vfs_ok s1).
  { assert (fs_frame s s1) as Hf; [|by destruct (frame_fd_le _ _ Hf Hvfs)]. split_and!; [done..|].
    intros q Hq. simpl. destruct (decide (q = ks_heap_pos s)) as [->|]; [rw lookup_insert_eq; by eexists|].
    by rw lookup_insert_ne; [congruence|]. }
  split_and!.
  - apply with_fd_ok; [done| |simpl; lia]. simpl. rw lookup_insert_eq. by eexists.
  - destruct (slot_ok s i rf Hram Hrf) as [(H1 & H2 & H3) Hi]. apply (ramfs_ok_frame s1); [done..|].
    set s0 := set_ramfs (<[i := fresh_slot path rf]> (ks_ramfs s)) s.
    apply (ramfs_ok_file (set_heap_pos (ks_heap_pos s + sizeof_vfs_file) s0)); [|by intros j [= <-]].
    apply (ramfs_ok_frame s0); [done..|].
    apply ramfs_ok_insert; [done|]. destruct Hpath as (_ & _ & Hl). split_and!; simpl; [done|by rw length_insert|lia|lia].
  - apply (with_fd_open s1); [done|simpl; lia].
Qed.

(** The slot after the write. *)
Definition filled : ramfs_file := written (VfsFile (Some RAMFS) [] (Pram i) 0) (fresh_slot path rf) (zlen buf) buf.

Lemma vfs_write_run :
  ∃ s', vfs_write (next_fd (ks_vfs s)) buf (zlen buf) created = Ok (zlen buf) s' ∧ vfs_ok s' ∧ ramfs_ok s' ∧
    fd_open s' (next_fd (ks_vfs s)) (ks_heap_pos s) ∧ ks_ramfs s' = <[i := filled]> (ks_ramfs s) ∧
    ks_heap_pos s' = ks_heap_pos created ∧ ks_proc s' = ks_proc s ∧ ks_vfs s' = ks_vfs created ∧
    ks_namespaces s' = ks_namespaces s.
Proof.
  destruct created_ok as (Hv & Hr & Ho). set f := VfsFile (Some RAMFS) [] (Pram i) 0.
  assert (Hf : ks_files created !! ks_heap_pos s = Some f) by (by rw /= lookup_insert_eq).
  assert (Hi : ks_ramfs created !! i = Some (fresh_slot path rf)).
  { simpl. apply list_lookup_insert_eq. by apply lookup_lt_Some in Hrf. }
  destruct (ramfs_write_spec created (ks_heap_pos s) f i _ Hr Hf eq_refl Hi buf (zlen buf)) as (out & Hw); [lia..|].
  rw Z.min_l in Hw; [simpl; lia|]. set s' := set_out _ _ in Hw. exists s'.
  assert (Hfr : fs_frame created s').
  { split_and!; [done..|]. intros q Hq. simpl. destruct (decide (q = ks_heap_pos s)) as [->|]; [rw lookup_insert_eq; by eexists|].
    by rw lookup_insert_ne; [congruence|]. }
  split_and!; try done.
  - rw /vfs_write (bind_Ok _ _ _ _ _ (get_file_open _ _ _ Ho)). rw (bind_Ok _ _ _ _ _ (get_vfile_Ok _ _ _ Hf)).
    cbn [f_ops f f_ops_table fop_write ramfs_fops]. rw (bind_Ok _ _ _ _ _ Hw). rw /i32. f_equal.
    rw Z.mod_small; lia.
  - by destruct (frame_fd_le _ _ Hfr Hv).
  - apply (ramfs_write_ok created (ks_heap_pos s) buf (zlen buf) (zlen buf) s'); [done|lia|lia|exact Hw].
  - simpl. by rw list_insert_insert_eq.
Qed.

Lemma find_filled : find_path (<[i := filled]> (ks_ramfs s)) path = Some i.
Proof.
  apply (find_path_intro _ _ _ filled); [|done|apply s_strcmp_refl|].
  - apply list_lookup_insert_eq. by apply find_free_lt.
  - intros j rf' Hj. rw list_lookup_insert_ne; [lia|]. by apply find_path_None.
Qed.

Lemma vfs_reopen_run s' fd1 :
  vfs_ok s' → ramfs_ok s' → ks_ramfs s' = <[i := filled]> (ks_ramfs s) → ks_proc s' = ks_proc s →
  ks_heap_pos s' = ks_heap_pos s + sizeof_vfs_file → next_fd (ks_vfs s') = fd1 → fd1 ≤ 31 →
  ∃ s'' fp f, vfs_open path s' = Ok fd1 s'' ∧ vfs_ok s'' ∧ ramfs_ok s'' ∧ fd_open s'' fd1 fp ∧
    ks_files s'' !! fp = Some f ∧ f_ops f = Some RAMFS ∧ private_data f = Pram i ∧ f_pos f = 0 ∧
    ks_ramfs s'' = ks_ramfs s'.
Proof.
  intros Hv Hr Hrs Hpr Hhp Hn H31. destruct Hpath as (Hs & Ht & Hl).
  assert (Hsz : sizeof_vfs_file = 304) by done. set f := VfsFile (Some RAMFS) (take 255 path) (Pram i) 0.
  set s1 := set_files (<[ks_heap_pos s' := f]> (ks_files s')) (set_heap_pos (ks_heap_pos s' + sizeof_vfs_file) s').
  assert (Hopen : ramfs_open path s' = Ok (Some (ks_heap_pos s')) s1).
  { pose proof (proj1 Hheap). apply ramfs_open_spec; [rw /heap_ok; lia|lia|]. rw Hrs. apply find_filled. }
  assert (Hfr : fs_frame s' s1).
  { split_and!; [done..|]. intros q Hq. simpl. destruct (decide (q = ks_heap_pos s')) as [->|]; [rw lookup_insert_eq; by eexists|].
    by rw lookup_insert_ne; [congruence|]. }
  destruct (frame_fd_le _ _ Hfr Hv) as [Hv1 _].
  assert (Hf1 : ks_files s1 !! ks_heap_pos s' = Some f) by (by rw /= lookup_insert_eq).
  exists (with_fd (ks_heap_pos s') s1), (ks_heap_pos s'), f. split_and!; try done.
  - rw /vfs_open. erewrite bind_Ok; last first.
    { rw /resolve_path /current /get_current_process /get_proc /ns_fuel.
      erewrite bind_Ok; [|rw /mbind /M_bind /= Hpr Hcur /= Hpr Hp //]. erewrite bind_Ok; [|reflexivity].
      rw Hns /=. apply strcpy_to_Ok. rw /VFS_MAX_PATH. lia. }
    rw Ht. change (0 =? 0) with true. cbv iota zeta. change (fs_open (fs_type RAMFS)) with ramfs_open.
    rw (bind_Ok _ _ _ _ _ Hopen). rw (bind_Ok _ _ _ _ _ (alloc_fd_run s1 _ ltac:(simpl; lia))).
    change (next_fd (ks_vfs s1)) with (next_fd (ks_vfs s')). rw Hn.
    destruct Hv as (_ & ? & _). by replace (fd1 <? 0) with false by lia.
  - apply with_fd_ok; [done|by rw Hf1|simpl; lia].
  - apply (ramfs_ok_frame s1); [done..|]. by apply (ramfs_open_ok s' path (Some (ks_heap_pos s')) s1).
  - rw -Hn. apply (with_fd_open s1); [done|simpl; lia].
Qed.

(** C9: a file lives through the VFS: under a fresh "/tmp/" path of at most 31
    bytes, with a slot, two descriptors and heap for two file objects left,
    [vfs_create], [vfs_write] of up to 4096 bytes, [vfs_close], [vfs_open] and
    [vfs_read] all succeed, and the read returns the first bytes of what was
    written, as many as asked for. *)
Theorem vfs_tmp_file_roundtrip k :
  0 ≤ k < 2 ^ 63 →
  value ((fd ← vfs_create path; n ← vfs_write fd buf (zlen buf); c ← vfs_close fd;
          fd' ← vfs_open path; '(r, l) ← vfs_read fd' k; mret (fd, n, c, fd', r, l)) s)
  = Some (next_fd (ks_vfs s), zlen buf, 0, next_fd (ks_vfs s) + 1, Z.min k (zlen buf), take (Z.to_nat k) buf).
Proof.
  intros Hk. assert (Hsz : sizeof_vfs_file = 304) by done.
  rw (bind_Ok _ _ _ _ _ vfs_create_run). destruct vfs_write_run as (s1 & Hw & Hv1 & Hr1 & Ho1 & Hrs1 & Hh1 & Hp1 & Hvf1 & _).
  rw (bind_Ok _ _ _ _ _ Hw) (bind_Ok _ _ _ _ _ (vfs_close_Ok _ _ _ Hv1 Ho1)).
  destruct (vfs_reopen_run (closed (next_fd (ks_vfs s)) s1) (next_fd (ks_vfs s) + 1)) as
    (s3 & fp & f & Hop & Hv3 & Hr3 & Ho3 & Hf3 & Hops & Hpd & Hpos & Hrs3);
    [by apply closed_ok|done|done|done|done|by rw /= Hvf1|lia|].
  rw (bind_Ok _ _ _ _ _ Hop). rw Hrs1 in Hrs3.
  assert (Hi3 : ks_ramfs s3 !! i = Some filled).
  { rw Hrs3. apply list_lookup_insert_eq. by apply find_free_lt. }
  pose proof (ramfs_read_spec s3 fp f i filled Hr3 Hf3 Hpd Hi3 k Hk) as Hrd. cbv zeta in Hrd.
  erewrite bind_Ok; last first.
  { rw /vfs_read (bind_Ok _ _ _ _ _ (bad_fd_open _ _ _ Hv3 Ho3)) (bind_Ok _ _ _ _ _ (get_file_open _ _ _ Ho3)).
    erewrite bind_Ok; [|reflexivity]. rw (bind_Ok _ _ _ _ _ (get_vfile_Ok _ _ _ Hf3)) Hops. exact Hrd. }
  rw Hpos /filled /written /fresh_slot /=. f_equal.
  assert (Hlen : length (<[0%nat := 0]> (rf_content rf)) = 4096%nat).
  { rw length_insert. by destruct (slot_ok s i rf Hram Hrf) as [(_ & ? & _) _]. }
  rw Nat2Z.id (take_ge buf) //. set sz := if 0 <? zlen buf then _ else _.
  assert (sz = zlen buf) as -> by (rw /sz; zcase; lia). rw drop_0 Z.sub_0_r Z.max_r; [lia|]. f_equal.
  rw /splice take_0 app_nil_l. rw take_app_le; [lia|]. 
  destruct (decide (k ≤ zlen buf)); [by rw Z.min_l|]. rw Z.min_r; [lia|]. rw Nat2Z.id !take_ge //. lia.
Qed.
End Life.

(** [vfs_unlink] hands the file system the path as given instead of the
    full path it computed: a relative path whose full path lies on the RAM
    file system is never found (the paths stored there are absolute), -1 is
    returned and the file stays. *)
Theorem vfs_unlink_relative_fails s path full m :
  default 0 (head path) ≠ 47 → full_path_of path s = Ok full s →
  find_mount (mount_points (ks_vfs s)) full = Some m → mnt_fs m = RAMFS →
  is_str path → Forall (λ rf, is_str (rf_path rf) ∧ head (rf_path rf) = Some 47) (ks_ramfs s) →
  ∃ out, vfs_unlink path s = Ok (-1) (set_out out s).
Proof.
  intros Hrel Hfull Hm Hfs Hs Hall. rw /vfs_unlink (bind_Ok _ _ _ _ _ Hfull).
  erewrite bind_Ok; [|reflexivity]. rw Hm Hfs /= /ramfs_unlink. erewrite bind_Ok; [|reflexivity].
  replace (find_path (ks_ramfs s) path) with (@None nat); [by eexists|]. symmetry. apply find_path_None.
  intros j rf Hj _ Hc. destruct (Forall_lookup_1 _ _ _ _ Hall Hj) as [Hrs Hh].
  apply (s_strcmp_eq _ _ Hrs Hs) in Hc. rw Hc in Hh. by rw Hh in Hrel.
Qed.

(** ** Witnesses *)

Definition demo_proc (cwd : str) (ns : option Z) : process :=
  Process 1 0 PROC_RUNNING ns (replicate 34 0) 0 None 0 message_queue0 0 cwd.

Definition with_cwd (cwd : str) (ns : option Z) (s : kstate) : kstate :=
  set_proc (ProcGlobals {[PStatic 0 := demo_proc cwd ns]} 1 None (Some (PStatic 0)) (Some (PStatic 0)) 2) s.

(** The RAM file system mounted, a current process in "/tmp". *)
Definition boot1 : kstate :=
  with_cwd (bs "/tmp") None
    (default (kstate0 []) (final ((ramfs_init;; vfs_mount (bs "/tmp") RAMFS) (kstate0 [])))).

Lemma vfs_ok_kstate0 s : ks_vfs s = VfsState [] (mount_points (ks_vfs s)) (replicate 32 None) 0 → vfs_ok s.
Proof.
  intros E. rw /vfs_ok E. split_and!; [done|simpl; lia|simpl; lia| |].
  - intros i Hi. apply (lookup_replicate_2 32 None). apply Hi.
  - intros i fp Hi. cbn [fd_table] in Hi. by apply lookup_replicate_1 in Hi as [[=] _].
Qed.

Lemma boot1_ok : vfs_ok boot1.
Proof. apply vfs_ok_kstate0. reflexivity. Qed.

Lemma boot1_ramfs : ramfs_ok boot1.
Proof.
  split_and!; [reflexivity| |].
  - change (ks_ramfs boot1) with (replicate MAX_FILES ramfs_file0). apply (Forall_replicate _ MAX_FILES).
    split_and!; simpl; [lia|done|lia..].
  - intros fp f i Hf. change (ks_files boot1) with (∅ : gmap Z vfs_file) in Hf. by rw lookup_empty in Hf.
Qed.

Lemma tmp_path_a : tmp_path (bs "/tmp/a").
Proof. split_and!; [by apply is_str_bool; vm_compute|reflexivity|vm_compute; lia]. Qed.

Lemma vfs_tmp_file_roundtrip_witness :
  value ((fd ← vfs_create (bs "/tmp/a"); n ← vfs_write fd (bs "hello") 5; c ← vfs_close fd;
          fd' ← vfs_open (bs "/tmp/a"); '(r, l) ← vfs_read fd' 3; mret (fd, n, c, fd', r, l)) boot1)
  = Some (0, 5, 0, 1, 3, bs "hel").
Proof.
  apply (vfs_tmp_file_roundtrip boot1 (bs "/tmp/a") 0 ramfs_file0 (PStatic 0) (demo_proc (bs "/tmp") None) (bs "hello")
           boot1_ok boot1_ramfs).
  - vm_compute. split; discriminate.
  - vm_compute. discriminate.
  - vm_compute. discriminate.
  - reflexivity.
  - reflexivity.
  - reflexivity.
  - apply tmp_path_a.
  - reflexivity.
  - reflexivity.
  - reflexivity.
  - vm_compute. discriminate.
  - lia.
Defined.

(** Create a file, write to it, close it, mount AbyssFS at "/mnt". *)
Definition busy : list (K Z) :=
  [vfs_create (bs "/tmp/a"); vfs_write 0 (bs "hello") 5; vfs_close 0; vfs_mount (bs "/mnt") ABYSSFS;
   register_filesystem RAMFS].

Definition after (s : kstate) (m : K Z) : kstate := default s (final (m s)).

Lemma after_steps ms s :
  Forall (λ m : K Z, ∀ s r s', m s = Ok r s' → vfs_step s s') ms → rtc vfs_step s (foldl after s ms).
Proof.
  intros H. revert s. induction H as [|m ms Hm _ IH]; intros s; simpl; [apply rtc_refl|].
  transitivity (after s m); [|apply IH]. rw /after. destruct (m s) eqn:E; simpl; try apply rtc_refl.
  apply rtc_once. by apply (Hm _ _ _ E).
Qed.

Lemma busy_steps : rtc vfs_step boot1 (foldl after boot1 busy).
Proof. apply after_steps. repeat constructor; intros ???; eauto using vfs_step. Qed.

Lemma vfs_reachable_ok_witness :
  vfs_ok (foldl after boot1 busy) ∧ next_fd (ks_vfs (foldl after boot1 busy)) = 1 ∧
  mnt_path <$> mount_points (ks_vfs (foldl after boot1 busy)) = [bs "/tmp"; bs "/mnt"].
Proof.
  assert (mounts_ok boot1) as Hm by (split; vm_compute; discriminate).
  split; [apply (vfs_reachable_ok boot1 _ boot1_ok Hm busy_steps)|]. split; vm_compute; reflexivity.
Defined.

Lemma vfs_open_fresh_witness :
  ∃ fd s', vfs_create (bs "/tmp/a") boot1 = Ok fd s' ∧ fd = 0 ∧ vfs_ok s'.
Proof.
  assert (Hv : value (vfs_create (bs "/tmp/a") boot1) = Some 0) by (vm_compute; reflexivity).
  destruct (vfs_create (bs "/tmp/a") boot1) as [fd s'| | | |] eqn:E; try discriminate Hv.
  exists fd, s'. injection Hv as ->. split; [reflexivity|split; [reflexivity|]].
  apply (vfs_open_fresh (bs "/tmp/a") boot1 0 s' boot1_ok). right. exact E.
Defined.

(** All descriptors handed out and closed again. *)
Definition spent : kstate :=
  set_vfs (VfsState [] (mount_points (ks_vfs boot1)) (replicate 32 None) 32) boot1.

Lemma spent_ok : vfs_ok spent.
Proof.
  split_and!; [done|simpl; lia|simpl; lia| |].
  - intros i Hi. simpl in Hi. lia.
  - intros i fp Hi. change (fd_table (ks_vfs spent)) with (replicate 32 (@None Z)) in Hi.
    by apply lookup_replicate_1 in Hi as [[=] _].
Qed.

Lemma vfs_fd_exhaustion_witness : ∃ fd s', vfs_create (bs "/tmp/a") spent = Ok fd s' ∧ fd = -1.
Proof.
  assert (Hv : value (vfs_create (bs "/tmp/a") spent) ≠ None) by (vm_compute; discriminate).
  destruct (vfs_create (bs "/tmp/a") spent) as [fd s'| | | |] eqn:E; try (by destruct Hv).
  exists fd, s'. split; [reflexivity|].
  apply (vfs_fd_exhaustion spent spent (bs "/tmp/a") fd s' spent_ok eq_refl (rtc_refl _ _)). right. exact E.
Defined.

Lemma vfs_bad_fd_rejected_witness : ∃ out, vfs_read 7 10 boot1 = Ok (-1, []) (set_out out boot1).
Proof.
  destruct (vfs_bad_fd_rejected boot1 7 10 [] boot1_ok) as [H _].
  destruct (H eq_refl) as (out & Hr & _). exists out. exact Hr.
Defined.

Lemma find_mount_correct_witness :
  ∃ m, find_mount boot_mounts (bs "/tmp/a/b") = Some m ∧ mnt_fs m = RAMFS ∧ covers m (bs "/tmp/a/b").
Proof.
  assert (H1 : Forall (λ m, is_str (mnt_path m)) boot_mounts) by (repeat constructor; done).
  assert (H2 : is_str (bs "/tmp/a/b")) by (by apply is_str_bool; vm_compute).
  pose proof (find_mount_correct boot_mounts (bs "/tmp/a/b") H1 H2) as H.
  case_decide as Hd; [destruct Hd as [Hd|Hd]; discriminate Hd|].
  destruct (find_mount boot_mounts (bs "/tmp/a/b")) as [m|] eqn:E; [|discriminate E].
  exists m. split; [reflexivity|]. destruct H as (_ & Hc & _). split; [|exact Hc].
  by injection E as <-.
Defined.

Definition binding : namespace := Namespace (bs "/tmp/data") (bs "/private") 16 None.

Definition bound : kstate :=
  with_cwd (bs "/") (Some 96) (set_namespaces {[96 := binding]} boot1).

Lemma binding_ok : ns_ok binding.
Proof. split_and!; [by apply is_str_bool; vm_compute..|discriminate|discriminate]. Qed.

Lemma namespace_resolution_witness :
  ∃ s', resolve_namespace_path (bs "/private/x") bound = Ok (bs "/tmp/data/x") s'.
Proof.
  destruct (namespace_resolution bound (PStatic 0) (demo_proc (bs "/") (Some 96)) [(96, binding)] (bs "/private/x"))
    as [(s' & H & _) _].
  - reflexivity.
  - reflexivity.
  - split; [reflexivity|]. split; reflexivity.
  - constructor; [exact binding_ok|constructor].
  - by apply is_str_bool; vm_compute.
  - vm_compute. split; discriminate.
  - vm_compute. discriminate.
  - vm_compute. reflexivity.
  - vm_compute. reflexivity.
  - exists s'. exact H.
Defined.

Lemma bind_not_seen_by_open_witness :
  resolve_path (bs "/private/x") bound = Ok (bs "/private/x") bound.
Proof.
  apply (bind_not_seen_by_open bound (PStatic 0) (demo_proc (bs "/") (Some 96)) 96 binding (bs "x")).
  - reflexivity.
  - reflexivity.
  - reflexivity.
  - reflexivity.
  - reflexivity.
  - exact binding_ok.
  - by apply is_str_bool; vm_compute.
  - vm_compute. split; discriminate.
  - vm_compute. discriminate.
  - vm_compute. reflexivity.
  - reflexivity.
Defined.

Lemma vfs_unlink_relative_fails_witness :
  ∃ out, vfs_unlink (bs "a") (set_ramfs [RamfsFile (bs "/tmp/a") [] 0 true] boot1)
         = Ok (-1) (set_out out (set_ramfs [RamfsFile (bs "/tmp/a") [] 0 true] boot1)).
Proof.
  apply (vfs_unlink_relative_fails _ (bs "a") (bs "/tmp/a") (Mount (bs "/tmp") RAMFS (VfsSb RAMFS_MAGIC (bs "ramfs")))).
  - discriminate.
  - reflexivity.
  - reflexivity.
  - reflexivity.
  - by apply is_str_bool; vm_compute.
  - constructor; [|constructor]. split; [by apply is_str_bool; vm_compute|reflexivity].
Defined.
