(* ===== verification/Namespace.v ===== *)
(** * Namespace: the bindings of a process, [src/src/kernel/namespace.c]

    A process keeps a linked list of bindings; [bind] puts one at its front
    and [unbind] takes the first one with a given new name off it. *)

From stdpp Require Import base numbers list gmap strings.
From Corelib Require Import ssreflect.
From S2P Require Import Prelude Chain CString State Kmalloc Uart Paths Ramfs Abyss Vfs VfsLaws VfsSpec VfsFiles.

Open Scope Z_scope.
Open Scope general_if_scope.

(** ** Operations *)

Definition with_mounts_head (o : option Z) (p : process) : process :=
  Process (p_pid p) (p_parent_pid p) (p_state p) o (p_ctx p) (p_sp p) (p_next p) (p_exit_status p)
    (p_msg_queue p) (p_msg_blocked p) (p_cwd p).

Definition with_ns_next (o : option Z) (n : namespace) : namespace :=
  Namespace (ns_old_path n) (ns_new_path n) (ns_flags n) o.

Definition put_ns (p : Z) (n : namespace) : K unit :=
  modify (λ s, set_namespaces (<[p := n]> (ks_namespaces s)) s).

Definition create_namespace (old new : str) (flags : Z) : K (option Z) :=
  ns ← kalloc sizeof_namespace;
  match ns with
  | None => uart_puts (ln "Failed to allocate namespace");; mret None
  | Some ns =>
      let old_len := zlen old + 1 in
      let new_len := zlen new + 1 in
      old_path ← kalloc old_len;
      new_path ← kalloc new_len;
      match old_path, new_path with
      | Some _, Some _ => put_ns ns (Namespace old new flags None);; mret (Some ns)
      | _, _ => uart_puts (ln "Failed to allocate namespace paths");; kfree (Some ns);; mret None
      end
  end.

Definition init_process_namespace (p : pptr) : K unit :=
  pr ← get_proc p; put_proc p (with_mounts_head None pr).

Definition bind (old new : str) (flags : Z) : K Z :=
  uart_puts (bs "Binding ");; uart_puts new;; uart_puts (bs " to ");; uart_puts old;; uart_puts (ln "");;
  '(n, _) ← vfs_read_dir old 1;
  if n <? 0 then uart_puts (ln "Source directory does not exist");; mret (-1)
  else
    '(n, _) ← vfs_read_dir new 1;
    if n <? 0 then uart_puts (ln "Target directory does not exist");; mret (-1)
    else
      o ← create_namespace old new flags;
      match o with
      | None => mret (-1)
      | Some ns =>
          c ← get_current_process;
          match c with
          | None => mret tt
          | Some p =>
              pr ← get_proc p;
              n ← get_ns ns; put_ns ns (with_ns_next (p_ns_mounts pr) n);;
              put_proc p (with_mounts_head (Some ns) pr);;
              uart_puts (ln "Added namespace binding to process")
          end;;
          mret 0
      end.

Definition mount (srv old : str) (flags : Z) (spec : str) : K Z := mret 0.

(** The loop of [unbind] from the binding [entry] on. *)
Fixpoint unbind_loop (fuel : nat) (p : pptr) (path : str) (prev entry : option Z) : K Z :=
  match entry with
  | None => uart_puts (ln "Mount point not found");; mret (-1)
  | Some e =>
      match fuel with
      | O => nofuel
      | S fuel =>
          n ← get_ns e;
          uart_puts (bs "Checking mount: ");; uart_puts (ns_new_path n);; uart_puts (bs " -> ");;
          uart_puts (ns_old_path n);; uart_puts (ln "");;
          if s_strcmp (ns_new_path n) path =? 0 then
            match prev with
            | Some q => m ← get_ns q; put_ns q (with_ns_next (ns_next n) m)
            | None => pr ← get_proc p; put_proc p (with_mounts_head (ns_next n) pr)
            end;;
            kfree (Some e);;
            uart_puts (ln "Successfully unbound namespace");; mret 0
          else unbind_loop fuel p path (Some e) (ns_next n)
      end
  end.

Definition unbind (path : str) : K Z :=
  o ← get_current_process;
  match o with
  | None => uart_puts (ln "No current process");; mret (-1)
  | Some p =>
      pr ← get_proc p;
      uart_puts (bs "Unbinding namespace at: ");; uart_puts path;; uart_puts (ln "");;
      fuel ← ns_fuel;
      unbind_loop fuel p path None (p_ns_mounts pr)
  end.

(** ** The list of bindings *)

(** The current process is [p], and its bindings are [l]. *)
Definition bindings (s : kstate) (p : pptr) (l : list (Z * namespace)) : Prop :=
  current_process (ks_proc s) = Some p ∧
  ∃ pr, processes (ks_proc s) !! p = Some pr ∧ chain ns_next (ks_namespaces s) (p_ns_mounts pr) l.

(** A binding, as the namespace gives it. *)
Definition entry (kn : Z * namespace) : str * str * Z := (ns_old_path kn.2, ns_new_path kn.2, ns_flags kn.2).

(** The bindings are heap objects below the fill level. *)
Definition ns_below (s : kstate) : Prop := ∀ k, is_Some (ks_namespaces s !! k) → k < ks_heap_pos s.

(** The specification of [unbind]: drop the first binding of this name. *)
Fixpoint drop_first (path : str) (l : list (str * str * Z)) : option (list (str * str * Z)) :=
  match l with
  | [] => None
  | (old, new, flags) :: l =>
      if s_strcmp new path =? 0 then Some l else cons (old, new, flags) <$> drop_first path l
  end.

(** ** Listing a directory only takes heap *)

Definition heap_grows (s s' : kstate) : Prop := heap_ok s → heap_ok s' ∧ ks_heap_pos s ≤ ks_heap_pos s'.

#[export] Instance heap_grows_preorder : PreOrder heap_grows.
Proof.
  split.
  - intros s Hs. split; [done|lia].
  - intros s1 s2 s3 H12 H23 H1. destruct (H12 H1) as [H2 ?]. destruct (H23 H2). split; [done|lia].
Qed.

Lemma grows_same s s' : ks_heap_pos s' = ks_heap_pos s → heap_grows s s'.
Proof. rw /heap_grows /heap_ok. intros ->. intros. lia. Qed.

#[local] Hint Extern 1 (heap_grows _ _) => apply grows_same; reflexivity : respects.

Lemma grows_kalloc n : size_ok n → respects heap_grows (kalloc n).
Proof.
  intros Hn s o s' Ha Hs. split; [by apply (kalloc_heap_ok n s o s')|]. rw kalloc_spec // in Ha.
  destruct (_ <=? _); injection Ha as <- <-; simpl; rw /size_ok in Hn; lia.
Qed.

Lemma grows_puts t : respects heap_grows (uart_puts t).
Proof. rw /uart_puts. respect_auto. Qed.

Lemma grows_ld8 p : respects heap_grows (ld8 p).
Proof. rw /ld8. respect_auto. Qed.

#[local] Hint Resolve grows_puts grows_ld8 : respects.

Lemma grows_ld32 p : respects heap_grows (ld32 p).
Proof. rw /ld32. respect_auto. Qed.

Lemma grows_strcpy_from p n : respects heap_grows (strcpy_from n p).
Proof. revert p. induction n; intros; simpl; respect_auto. Qed.

Lemma grows_strcmp_at p t : respects heap_grows (strcmp_at p t).
Proof. revert p. induction t; intros; simpl; respect_auto. Qed.

Lemma grows_heap_span : respects heap_grows heap_span.
Proof. rw /heap_span. respect_auto. Qed.

Lemma grows_get_block b : respects heap_grows (Abyss.get_block b).
Proof. rw /Abyss.get_block /get_sb /blocks_ptr. respect_auto. Qed.

#[local] Hint Resolve grows_ld32 grows_strcpy_from grows_strcmp_at grows_heap_span grows_get_block : respects.

Lemma grows_get_inode n : respects heap_grows (Abyss.get_inode n).
Proof. rw /Abyss.get_inode /get_sb. respect_auto. Qed.

Lemma grows_find_entry fuel p name : respects heap_grows (Abyss.find_entry fuel p name).
Proof. revert p. induction fuel; intros; simpl; respect_auto. Qed.

Lemma grows_read_entries fuel p k : respects heap_grows (Abyss.read_entries fuel p k).
Proof. revert p k. induction fuel; intros; cbn [Abyss.read_entries]; respect_auto. Qed.

#[local] Hint Resolve grows_get_inode grows_find_entry grows_read_entries : respects.

Lemma grows_walk_path inode tokens : respects heap_grows (Abyss.walk_path inode tokens).
Proof. revert inode. induction tokens; intros; simpl; respect_auto. Qed.

#[local] Hint Resolve grows_walk_path : respects.

Lemma grows_read_dir fs p n : respects heap_grows (fs_read_dir (fs_type fs) p n).
Proof.
  destruct fs; simpl; rw ?/ramfs_read_dir ?/Abyss.abyssfs_read_dir ?/Abyss.get_inode_by_path ?/get_sb; respect_auto.
Qed.

Lemma grows_ns_resolve fuel o p : respects heap_grows (ns_resolve fuel o p).
Proof.
  revert o. induction fuel; intros [q|]; simpl; rw /get_ns /text_from /last_byte /strcpy_to /strcat_to; respect_auto.
  by apply grows_kalloc.
Qed.

#[local] Hint Resolve grows_read_dir grows_ns_resolve : respects.

Lemma grows_vfs_read_dir p n : respects heap_grows (vfs_read_dir p n).
Proof.
  rw /vfs_read_dir /resolve_namespace_path /get_current_process /get_proc /ns_fuel /mount_of. respect_auto.
Qed.

(** ** Properties *)

Definition ns_inv (s : kstate) : Prop := heap_ok s ∧ ns_below s.

Definition has_bindings (s : kstate) (p : pptr) (es : list (str * str * Z)) : Prop :=
  ∃ l, bindings s p l ∧ entry <$> l = es.

Lemma bindings_frame s s' p es :
  ks_proc s' = ks_proc s → ks_namespaces s' = ks_namespaces s → has_bindings s p es → has_bindings s' p es.
Proof. rw /has_bindings /bindings. by intros -> ->. Qed.

Lemma ns_inv_frame s s' :
  ks_namespaces s' = ks_namespaces s → heap_grows s s' → ns_inv s → ns_inv s'.
Proof.
  intros Hn Hg [Hh Hb]. destruct (Hg Hh) as [Hh' Hle]. split; [done|]. rw /ns_below Hn.
  intros k Hk%Hb. lia.
Qed.

(** The heap that a binding takes. *)
Definition binding_size (old new : str) : Z := sizeof_namespace + (zlen old + 1) + (zlen new + 1).

Lemma create_namespace_Ok old new flags s :
  heap_ok s → size_ok (zlen old + 1) → size_ok (zlen new + 1) →
  let a := ks_heap_pos s in
  if bool_decide (a + binding_size old new ≤ HEAP_SIZE) then
    create_namespace old new flags s =
      Ok (Some a) (set_namespaces (<[a := Namespace old new flags None]> (ks_namespaces s))
                     (set_heap_pos (a + binding_size old new) s))
  else ∃ out pos, create_namespace old new flags s = Ok None (set_out out (set_heap_pos pos s)) ∧ a ≤ pos ≤ HEAP_SIZE.
Proof.
  intros Hh Ho Hn a. pose proof Hh as Hh0. rw /heap_ok in Hh0. fold a in Hh0. rw /size_ok in Ho Hn. rw /create_namespace /binding_size.
  assert (Hsize : sizeof_namespace = 32) by done.
  pose proof (kalloc_spec sizeof_namespace s Hh ltac:(done)) as H1. fold a in H1.
  destruct (a + sizeof_namespace <=? HEAP_SIZE) eqn:E1; zbool.
  2: { rw bool_decide_false; [lia|]. rw (bind_Ok _ _ _ _ _ H1). eexists _, a. split; [|lia].
       rw /a. by destruct s. }
  rw (bind_Ok _ _ _ _ _ H1). cbv zeta. set s1 := set_heap_pos _ s. set n1 := zlen old + 1. set n2 := zlen new + 1.
  pose proof (kalloc_spec n1 s1 ltac:(rw /heap_ok /=; lia) Ho) as H2.
  change (ks_heap_pos s1) with (a + sizeof_namespace) in H2.
  destruct (a + sizeof_namespace + n1 <=? HEAP_SIZE) eqn:E2; zbool; rw (bind_Ok _ _ _ _ _ H2).
  - set s2 := set_heap_pos _ s1. pose proof (kalloc_spec n2 s2 ltac:(rw /heap_ok /=; lia) Hn) as H3.
    change (ks_heap_pos s2) with (a + sizeof_namespace + n1) in H3.
    destruct (a + sizeof_namespace + n1 + n2 <=? HEAP_SIZE) eqn:E3; zbool; rw (bind_Ok _ _ _ _ _ H3).
    + rw bool_decide_true; [lia|]. rw /s2 /s1 /= Z.add_assoc Z.add_assoc. done.
    + rw bool_decide_false; [lia|]. eexists _, (a + sizeof_namespace + n1). split; [reflexivity|lia].
  - rw bool_decide_false; [lia|]. pose proof (kalloc_spec n2 s1 ltac:(rw /heap_ok /=; lia) Hn) as H3.
    change (ks_heap_pos s1) with (a + sizeof_namespace) in H3.
    destruct (a + sizeof_namespace + n2 <=? HEAP_SIZE) eqn:E3; zbool; rw (bind_Ok _ _ _ _ _ H3).
    + eexists _, (a + sizeof_namespace + n2). split; [reflexivity|lia].
    + eexists _, (a + sizeof_namespace). split; [reflexivity|lia].
Qed.

(** The state after [bind] has announced itself. *)
Definition bind_said (old new : str) (s : kstate) : kstate :=
  set_out (((((ks_out s ++ crlf (bs "Binding ")) ++ crlf new) ++ crlf (bs " to ")) ++ crlf old) ++ crlf (ln "")) s.

(** Linking a new binding to the front of the list. *)
Lemma link_binding s p es old new flags (a : Z) :
  has_bindings s p es → ks_namespaces s !! a = None →
  ∃ s', (pr ← get_proc p; n ← get_ns a; put_ns a (with_ns_next (p_ns_mounts pr) n);;
         put_proc p (with_mounts_head (Some a) pr);;
         uart_puts (ln "Added namespace binding to process"))
          (set_namespaces (<[a := Namespace old new flags None]> (ks_namespaces s)) s) = Ok tt s' ∧
    has_bindings s' p ((old, new, flags) :: es) ∧ ks_heap_pos s' = ks_heap_pos s ∧
    (∀ k, is_Some (ks_namespaces s' !! k) → k = a ∨ is_Some (ks_namespaces s !! k)).
Proof.
  intros (l & (Hc & pr & Hp & Hl) & <-) Ha. eexists. split_and!.
  - eapply bind_intro; [rw /get_proc /mbind /M_bind /= Hp //|].
    eapply bind_intro; [apply get_ns_Ok, lookup_insert_eq|]. eapply bind_intro; [reflexivity|].
    eapply bind_intro; [reflexivity|]. reflexivity.
  - exists ((a, Namespace old new flags (p_ns_mounts pr)) :: l). split; [|done]. split; [done|].
    eexists. rw /= lookup_insert_eq. split; [reflexivity|]. simpl. split_and!; [done|by rw lookup_insert_eq|].
    rw insert_insert_eq. apply chain_insert_ne; [|done]. intros ([k n] & -> & Hin)%list_elem_of_fmap.
    apply (chain_lookup _ _ _ _ _ _ Hl) in Hin. simpl in Ha. congruence.
  - done.
  - intros k. simpl. intros [n Hn]. rw insert_insert_eq in Hn.
    apply lookup_insert_Some in Hn as [[-> _]|[_ Hn]]; [by left|right; by exists n].
Qed.

Lemma bind_Ok_room s p es old new flags n1 d1 s1 n2 d2 s2 :
  ns_inv s → has_bindings s p es → size_ok (zlen old + 1) → size_ok (zlen new + 1) →
  vfs_read_dir old 1 (bind_said old new s) = Ok (n1, d1) s1 → 0 ≤ n1 →
  vfs_read_dir new 1 s1 = Ok (n2, d2) s2 → 0 ≤ n2 →
  ∃ r s', bind old new flags s = Ok r s' ∧ ns_inv s' ∧
    if bool_decide (ks_heap_pos s2 + binding_size old new ≤ HEAP_SIZE)
    then r = 0 ∧ has_bindings s' p ((old, new, flags) :: es)
    else r = -1 ∧ has_bindings s' p es.
Proof.
  intros Hinv Hb Ho Hn H1 Hn1 H2 Hn2.
  pose proof (frame_vfs_read_dir old 1 _ _ _ H1) as (_ & P1 & N1 & _).
  pose proof (frame_vfs_read_dir new 1 _ _ _ H2) as (_ & P2 & N2 & _).
  assert (Hinv2 : ns_inv s2).
  { apply (ns_inv_frame s); [by rw N2 N1| |done].
    transitivity (bind_said old new s); [by apply grows_same|].
    transitivity s1; [exact (grows_vfs_read_dir _ _ _ _ _ H1)|exact (grows_vfs_read_dir _ _ _ _ _ H2)]. }
  assert (Hb2 : has_bindings s2 p es) by (apply (bindings_frame s); [by rw P2 P1|by rw N2 N1|done]).
  destruct Hinv2 as [Hh2 Hbel]. pose proof (create_namespace_Ok old new flags s2 Hh2 Ho Hn) as Hcr. cbv zeta in Hcr.
  rw /bind. do 5 (erewrite bind_Ok; [|reflexivity]). fold (bind_said old new s).
  rw (bind_Ok _ _ _ _ _ H1). replace (n1 <? 0) with false by lia.
  rw (bind_Ok _ _ _ _ _ H2). replace (n2 <? 0) with false by lia.
  case_bool_decide as Hroom.
  - rw (bind_Ok _ _ _ _ _ Hcr). set a := ks_heap_pos s2.
    set s3 := set_heap_pos (a + binding_size old new) s2.
    assert (Hnone : ks_namespaces s2 !! a = None).
    { apply eq_None_not_Some. intros Hk%Hbel. rw /a in Hk. lia. }
    destruct (link_binding s3 p es old new flags a Hb2 Hnone) as (s' & Hl & Hb' & Hpos & Hdom).
    destruct Hb2 as (l & (Hcur & _) & _). exists 0, s'. split_and!; [|..|done|done].
    + erewrite bind_Ok; [|reflexivity]. cbn iota. change (ks_proc (set_namespaces _ s3)) with (ks_proc s2). rw Hcur.
      by rw (bind_Ok _ _ _ _ _ Hl).
    + rw /heap_ok in Hh2. rw /binding_size in Hroom Hpos. assert (sizeof_namespace = 32) by done.
      split; [rw /heap_ok Hpos /s3 /binding_size /=; fold a in Hh2, Hroom; lia|].
      intros k [->|Hk%Hbel]%Hdom; rw Hpos /s3 /binding_size /= /a; lia.
  - destruct Hcr as (out & pos & Hcr & Hpos). rw (bind_Ok _ _ _ _ _ Hcr). eexists (-1), _. split_and!; [reflexivity| |done|].
    + split; [rw /heap_ok /= in Hh2 |- *; lia|]. intros k Hk%Hbel. simpl. lia.
    + by apply (bindings_frame s2).
Qed.

(** Taking the binding after [pre] off the list. *)
Lemma unlink_binding s p pre e n rest :
  bindings s p (pre ++ (e, n) :: rest) →
  ∃ s', (match fst <$> last pre with
         | Some q => m ← get_ns q; put_ns q (with_ns_next (ns_next n) m)
         | None => pr ← get_proc p; put_proc p (with_mounts_head (ns_next n) pr)
         end : K unit) s = Ok tt s' ∧
    has_bindings s' p (entry <$> (pre ++ rest)).
Proof.
  intros (Hc & pr & Hp & Hl). destruct pre as [|[q m] pre _] using rev_ind; simpl.
  - destruct Hl as (_ & _ & Hl). eexists. split; [rw /get_proc /mbind /M_bind /= Hp //|].
    exists rest. split; [|done]. split; [done|]. eexists. split; [apply lookup_insert_eq|done].
  - rw last_snoc /=. rw -app_assoc /= in Hl.
    assert (Hq : ks_namespaces s !! q = Some m).
    { apply (chain_lookup _ _ _ _ _ _ Hl), elem_of_app. right. by left. }
    eexists. split; [rw (bind_Ok _ _ _ _ _ (get_ns_Ok _ _ _ Hq)) //|].
    exists (pre ++ (q, with_ns_next (ns_next n) m) :: rest). split; [|by rw !fmap_app -app_assoc].
    split; [done|]. exists pr. split; [done|]. simpl. by apply (chain_unlink _ _ _ _ _ m e n).
Qed.

(** The loop of [unbind], with the bindings [pre] already passed. *)
Lemma unbind_loop_Ok p path rest : ∀ fuel pre o s,
  bindings s p (pre ++ rest) → chain ns_next (ks_namespaces s) o rest → (length rest < fuel)%nat →
  ∃ r s', unbind_loop fuel p path (fst <$> last pre) o s = Ok r s' ∧
    match drop_first path (entry <$> rest) with
    | Some es => r = 0 ∧ has_bindings s' p ((entry <$> pre) ++ es)
    | None => r = -1 ∧ has_bindings s' p (entry <$> (pre ++ rest))
    end.
Proof.
  induction rest as [|[e n] rest IH]; intros [|fuel] pre o s Hb; simpl; try lia.
  - intros -> _. eexists _, _. split; [reflexivity|]. split; [done|]. apply (bindings_frame s); [done..|]. by exists (pre ++ []).
  - intros (-> & He & Hrest) Hf. rw (bind_Ok _ _ _ _ _ (get_ns_Ok _ _ _ He)).
    do 5 (erewrite bind_Ok; [|reflexivity]). set s1 := set_out _ _.
    destruct (s_strcmp (ns_new_path n) path =? 0).
    + destruct (unlink_binding s1 p pre e n rest Hb) as (s2 & Hu & Hb2). rw (bind_Ok _ _ _ _ _ Hu).
      eexists _, _. split; [reflexivity|]. split; [done|]. rw -fmap_app. by apply (bindings_frame s2).
    + destruct (IH fuel (pre ++ [(e, n)]) (ns_next n) s1) as (r & s' & Hr & Hm); [by rw -app_assoc|done|lia|].
      rw last_snoc in Hr. exists r, s'. split; [exact Hr|].
      change (list_fmap _ _ entry rest) with (entry <$> rest).
      destruct (drop_first path (entry <$> rest)) as [es|]; simpl; [|by rw -app_assoc in Hm].
      rw fmap_app -app_assoc in Hm. exact Hm.
Qed.

Lemma unbind_Ok s p es path :
  has_bindings s p es →
  ∃ r s', unbind path s = Ok r s' ∧
    match drop_first path es with
    | Some es' => r = 0 ∧ has_bindings s' p es'
    | None => r = -1 ∧ has_bindings s' p es
    end.
Proof.
  intros (l & Hb & <-). pose proof Hb as (Hc & pr & Hp & Hl). pose proof (chain_size _ _ _ _ Hl) as Hsz.
  rw /unbind. erewrite bind_Ok; [|rw /get_current_process /mbind /M_bind /= Hc //]. cbn iota.
  erewrite bind_Ok; [|rw /get_proc /mbind /M_bind /= Hp //]. do 4 (erewrite bind_Ok; [|reflexivity]).
  apply (unbind_loop_Ok p path l _ []); [exact Hb|exact Hl|simpl; lia].
Qed.

(** C22: [unbind] takes the first binding with the given new name off the
    list of the current process and returns 0; when there is none it
    returns -1 and the list stays as it is.  The walk always ends. *)
Theorem unbind_correct s p es path :
  has_bindings s p es →
  ∃ r s', unbind path s = Ok r s' ∧
    match drop_first path es with
    | Some es' => r = 0 ∧ has_bindings s' p es'
    | None => r = -1 ∧ has_bindings s' p es
    end.
Proof. apply unbind_Ok. Qed.

(** C21: binding.  When both directories exist and the heap has room for the
    binding, [bind] returns 0 and puts the binding in front of those of the
    current process; [unbind] of its new name then restores the list.
    Without room [bind] returns -1 and the list is as before. *)
Theorem bind_correct s p es old new flags n1 d1 s1 n2 d2 s2 :
  ns_inv s → has_bindings s p es → size_ok (zlen old + 1) → size_ok (zlen new + 1) →
  vfs_read_dir old 1 (bind_said old new s) = Ok (n1, d1) s1 → 0 ≤ n1 →
  vfs_read_dir new 1 s1 = Ok (n2, d2) s2 → 0 ≤ n2 →
  ∃ r s', bind old new flags s = Ok r s' ∧ ns_inv s' ∧
    if bool_decide (ks_heap_pos s2 + binding_size old new ≤ HEAP_SIZE)
    then r = 0 ∧ has_bindings s' p ((old, new, flags) :: es) ∧
         ∃ s'', unbind new s' = Ok 0 s'' ∧ has_bindings s'' p es
    else r = -1 ∧ has_bindings s' p es.
Proof.
  intros Hinv Hb Ho Hn H1 Hn1 H2 Hn2.
  destruct (bind_Ok_room s p es old new flags n1 d1 s1 n2 d2 s2) as (r & s' & Hr & Hi & Hc); [done..|].
  exists r, s'. split_and!; [done|done|]. case_bool_decide; [|done]. destruct Hc as [-> Hb']. split_and!; [done|done|].
  destruct (unbind_Ok s' p _ new Hb') as (r' & s'' & Hu & Hm). rw /= s_strcmp_refl /= in Hm.
  destruct Hm as [-> Hm]. by exists s''.
Qed.

(** ** Witnesses *)

Lemma unbind_correct_witness :
  ∃ s', unbind (bs "/private") bound = Ok 0 s' ∧ has_bindings s' (PStatic 0) [].
Proof.
  assert (Hb : has_bindings bound (PStatic 0) [(bs "/tmp/data", bs "/private", 16)]).
  { exists [(96, binding)]. split; [|reflexivity]. split; [reflexivity|].
    exists (demo_proc (bs "/") (Some 96)). split; [reflexivity|]. split; [reflexivity|]. split; reflexivity. }
  destruct (unbind_correct bound (PStatic 0) [(bs "/tmp/data", bs "/private", 16)] (bs "/private") Hb) as (r & s' & H & Hm).
  destruct Hm as [-> Hm]. exists s'. split; [exact H|exact Hm].
Defined.

Lemma bind_correct_witness :
  ∃ s' s'', bind (bs "/tmp") (bs "/tmp/view") 16 boot1 = Ok 0 s' ∧
    has_bindings s' (PStatic 0) [(bs "/tmp", bs "/tmp/view", 16)] ∧
    unbind (bs "/tmp/view") s' = Ok 0 s'' ∧ has_bindings s'' (PStatic 0) [].
Proof.
  assert (Hi : ns_inv boot1).
  { split; [vm_compute; split; discriminate|]. intros k Hk.
    change (ks_namespaces boot1) with (∅ : gmap Z namespace) in Hk. rw lookup_empty in Hk. by apply is_Some_None in Hk. }
  assert (Hb : has_bindings boot1 (PStatic 0) []).
  { exists []. split; [|reflexivity]. split; [reflexivity|]. eexists. split; reflexivity. }
  set s0 := bind_said (bs "/tmp") (bs "/tmp/view") boot1.
  assert (V1 : value (vfs_read_dir (bs "/tmp") 1 s0) = Some (1, [Dirent 1 (bs ".")])) by (vm_compute; reflexivity).
  destruct (vfs_read_dir (bs "/tmp") 1 s0) as [[n1 d1] s1| | | |] eqn:E1; try discriminate V1. injection V1 as -> ->.
  assert (Es1 : s1 = match vfs_read_dir (bs "/tmp") 1 s0 with Ok _ s => s | _ => s0 end) by (rw E1; reflexivity).
  assert (V2 : value (vfs_read_dir (bs "/tmp/view") 1 s1) = Some (1, [Dirent 1 (bs ".")])) by (rw Es1; vm_compute; reflexivity).
  destruct (vfs_read_dir (bs "/tmp/view") 1 s1) as [[n2 d2] s2| | | |] eqn:E2; try discriminate V2. injection V2 as -> ->.
  assert (Es2 : ks_heap_pos s2 = 32).
  { assert (V3 : ks_heap_pos <$> final (vfs_read_dir (bs "/tmp/view") 1 s1) = Some 32) by (rw Es1; vm_compute; reflexivity).
    rw E2 in V3. injection V3 as V3. exact V3. }
  destruct (bind_correct boot1 (PStatic 0) [] (bs "/tmp") (bs "/tmp/view") 16 1 [Dirent 1 (bs ".")] s1 1 [Dirent 1 (bs ".")] s2 Hi Hb) as (r & s' & H & _ & Hm).
  - vm_compute. split; [discriminate|reflexivity].
  - vm_compute. split; [discriminate|reflexivity].
  - exact E1.
  - lia.
  - exact E2.
  - lia.
  - rw Es2 in Hm. destruct (bool_decide _) eqn:Eb; [|vm_compute in Eb; discriminate Eb].
    destruct Hm as (-> & H1 & s'' & H2 & H3). exists s', s''. split; [exact H|]. split; [exact H1|]. split; [exact H2|exact H3].
Defined.
