(* ===== verification/Gic.v ===== *)
(** * Gic: interrupt controller and timer, [src/src/drivers/gic.c] and [timer.c]

    The controller's registers are written through [ks_mmio]; what a read of
    the acknowledge register returns, and the frequency of the system
    counter, are parameters. *)

From stdpp Require Import base numbers list gmap strings.
From Corelib Require Import ssreflect.
From S2P Require Import Prelude CString State Uart.

Open Scope Z_scope.
Open Scope general_if_scope.

Definition GICD_BASE : Z := 0x08000000.

Definition GICC_BASE : Z := 0x08010000.

Definition GICD_ISENABLER : Z := 0x100.

Definition GICC_IAR : Z := 0x00C.

Definition GICC_EOIR : Z := 0x010.

Definition gic_write (addr val : Z) : K unit := modify (λ s, set_mmio (ks_mmio s ++ [(addr, val)]) s).

(** [dev] gives what the device's registers read. *)
Definition gic_read (dev : Z → Z) (addr : Z) : Z := u32 (dev addr).

(** The body of the function is commented out in the source. *)
Definition gic_init : K unit := mret tt.

Definition gic_enable_interrupt (irq : Z) : K unit :=
  let reg_offset := u32 (GICD_ISENABLER + irq ÷ 32 * 4) in
  let bit := u32 (Z.shiftl 1 (Z.rem irq 32)) in
  gic_write (GICD_BASE + reg_offset) bit.

Definition gic_acknowledge_interrupt (dev : Z → Z) : Z := gic_read dev (GICC_BASE + GICC_IAR).

Definition gic_end_interrupt (irq : Z) : K unit := gic_write (GICC_BASE + GICC_EOIR) irq.

(** The body of the function is commented out in the source, but for this line. *)
Definition timer_init : K unit := uart_puts (ln "Timer initialized (disabled for user shell testing)").

Definition enable_timer_interrupt : K unit := gic_enable_interrupt 30.

(** [cntfrq]: the counter frequency.  The result is the new timer value. *)
Definition timer_handler (dev : Z → Z) (cntfrq : Z) : K Z :=
  let irq := gic_acknowledge_interrupt dev in
  let interval := cntfrq / 1000 in
  gic_end_interrupt irq;; mret interval.

(** The interrupts that a write to a set-enable register turns on. *)
Definition enabled_by (w : Z * Z) (irq : Z) : Prop :=
  w.1 = GICD_BASE + GICD_ISENABLER + 4 * (irq / 32) ∧ Z.testbit w.2 (irq `mod` 32) = true.

(** [gic_enable_interrupt] enables exactly the interrupt it is given: for
    every interrupt number of the controller (0 to 1019) the single register
    write it makes turns on that interrupt and no other. *)
Theorem gic_enable_exact s irq :
  0 ≤ irq < 1020 →
  ∃ w, gic_enable_interrupt irq s = Ok tt (set_mmio (ks_mmio s ++ [w]) s) ∧
       ∀ j, 0 ≤ j < 1020 → enabled_by w j ↔ j = irq.
Proof.
  intros Hi. eexists. split; [done|]. intros j Hj. rw /enabled_by /=.
  rw Z.quot_div_nonneg; [lia..|]. rw Z.rem_mod_nonneg; [lia..|].
  pose proof (Z.div_mod irq 32 ltac:(lia)) as Hdi. pose proof (Z.div_mod j 32 ltac:(lia)) as Hdj.
  pose proof (Z.mod_pos_bound irq 32 ltac:(lia)). pose proof (Z.mod_pos_bound j 32 ltac:(lia)).
  rw u32_small; [rw /GICD_ISENABLER; lia|]. rw /u32 Z.mod_pow2_bits_low; [lia|].
  rw Z.shiftl_1_l Z.pow2_bits_eqb; [lia|]. rw Z.eqb_eq /GICD_BASE /GICD_ISENABLER. lia.
Qed.

Lemma gic_enable_exact_witness :
  ∃ w, gic_enable_interrupt 30 (kstate0 []) = Ok tt (set_mmio [w] (kstate0 [])) ∧ enabled_by w 30.
Proof.
  destruct (gic_enable_exact (kstate0 []) 30) as (w & Hr & He); [lia|].
  exists w. split; [exact Hr|]. apply He; [lia|reflexivity].
Defined.
