(* ===== verification/Process.v ===== *)
(** * Process: processes and the scheduler of [src/src/kernel/process.c]

    The process objects are the static array [processes] and objects of the
    heap; [process_list] links them.  [context_switch] is the routine of
    [src/src/arch/context_switch.S].  The addresses of [process_stacks] and of
    the function [process3] are the linker's, and parameters. *)

From stdpp Require Import base numbers list gmap strings.
From Corelib Require Import ssreflect.
From S2P Require Import Prelude Chain CString State Kmalloc Uart Gic.

Open Scope Z_scope.
Open Scope general_if_scope.

Class LinkMap := { process_stacks : Z; process3 : Z }.

Definition PROCESS_LOAD_ADDR : Z := 0x40100000.

Definition PROCESS_STACK_TOP : Z := 0x40000000.

(** ** Field updates *)

Definition with_state (st : process_state) (p : process) : process :=
  Process (p_pid p) (p_parent_pid p) st (p_ns_mounts p) (p_ctx p) (p_sp p) (p_next p) (p_exit_status p)
    (p_msg_queue p) (p_msg_blocked p) (p_cwd p).

Definition with_ctx (c : context) (p : process) : process :=
  Process (p_pid p) (p_parent_pid p) (p_state p) (p_ns_mounts p) c (p_sp p) (p_next p) (p_exit_status p)
    (p_msg_queue p) (p_msg_blocked p) (p_cwd p).

Definition with_next (n : option pptr) (p : process) : process :=
  Process (p_pid p) (p_parent_pid p) (p_state p) (p_ns_mounts p) (p_ctx p) (p_sp p) n (p_exit_status p)
    (p_msg_queue p) (p_msg_blocked p) (p_cwd p).

Definition with_exit_status (v : Z) (p : process) : process :=
  Process (p_pid p) (p_parent_pid p) (p_state p) (p_ns_mounts p) (p_ctx p) (p_sp p) (p_next p) v
    (p_msg_queue p) (p_msg_blocked p) (p_cwd p).

Definition with_sp (v : Z) (p : process) : process :=
  Process (p_pid p) (p_parent_pid p) (p_state p) (p_ns_mounts p) (p_ctx p) v (p_next p) (p_exit_status p)
    (p_msg_queue p) (p_msg_blocked p) (p_cwd p).

Definition with_pid (pid parent : Z) (p : process) : process :=
  Process pid parent (p_state p) (p_ns_mounts p) (p_ctx p) (p_sp p) (p_next p) (p_exit_status p)
    (p_msg_queue p) (p_msg_blocked p) (p_cwd p).

Definition set_current (o : option pptr) : K unit :=
  modify (λ s, let g := ks_proc s in
    set_proc (ProcGlobals (processes g) (process_count g) (ready_queue g) o (process_list g) (next_pid g)) s).

Definition set_list (o : option pptr) : K unit :=
  modify (λ s, let g := ks_proc s in
    set_proc (ProcGlobals (processes g) (process_count g) (ready_queue g) (current_process g) o (next_pid g)) s).

Definition set_ready (o : option pptr) : K unit :=
  modify (λ s, let g := ks_proc s in
    set_proc (ProcGlobals (processes g) (process_count g) o (current_process g) (process_list g) (next_pid g)) s).

Definition set_count (n : Z) : K unit :=
  modify (λ s, let g := ks_proc s in
    set_proc (ProcGlobals (processes g) n (ready_queue g) (current_process g) (process_list g) (next_pid g)) s).

Definition set_next_pid (n : Z) : K unit :=
  modify (λ s, let g := ks_proc s in
    set_proc (ProcGlobals (processes g) (process_count g) (ready_queue g) (current_process g) (process_list g) n) s).

(** [x + 1] at type [int]: overflow is undefined. *)
Definition int_succ (x : Z) : K Z := if x <? 2 ^ 31 - 1 then mret (x + 1) else fault.

Definition upd_proc (p : pptr) (f : process → process) : K unit :=
  pr ← get_proc p; put_proc p (f pr).

(** ** Context switch *)

(** Words 0 to 11 of the context are x19 to x30, word 12 is the stack
    pointer and word 13 is DAIF.  Control comes back to the caller only when
    the context saved is the one restored. *)
Definition save_regs (c : cpu) (ctx : context) : context :=
  splice ctx 0 (cpu_x19_30 c ++ [cpu_sp c; cpu_daif c]).

Definition load_regs (ctx : context) : cpu :=
  Cpu (take 12 ctx) (default 0 (ctx !! 12%nat)) (default 0 (ctx !! 13%nat)).

Definition context_switch (old : option pptr) (new : pptr) : K unit :=
  match old with
  | None => mret tt
  | Some p => c ← gets ks_cpu; upd_proc p (λ pr, with_ctx (save_regs c (p_ctx pr)) pr)
  end;;
  pr ← get_proc new;
  modify (set_cpu (load_regs (p_ctx pr)));;
  if bool_decide (old = Some new) then mret tt else away.

(** ** The process list *)

(** [for (p = process_list; p; p = p->next)]: the first process that passes
    the test. *)
Fixpoint find_from (fuel : nat) (test : process → bool) (p : option pptr) : K (option pptr) :=
  match p with
  | None => mret None
  | Some q =>
      match fuel with
      | O => nofuel
      | S fuel => pr ← get_proc q;
                  if test pr then mret (Some q) else find_from fuel test (p_next pr)
      end
  end.

(** A list without cycles has at most as many nodes as there are objects. *)
Definition find_in_list (test : process → bool) : K (option pptr) :=
  g ← gets ks_proc; find_from (S (size (processes g))) test (process_list g).

Definition find_process (pid : Z) : K (option pptr) := find_in_list (λ p, p_pid p =? pid).

Definition get_pid (p : pptr) : K Z := pr ← get_proc p; mret (p_pid pr).

Definition is_ready (p : process) : bool :=
  if bool_decide (p_state p = PROC_ZOMBIE) then false else bool_decide (p_state p = PROC_READY).

Definition schedule : K unit :=
  current ← get_current_process;
  next ← find_in_list is_ready;
  match next with
  | Some next =>
      upd_proc next (with_state PROC_RUNNING);;
      match current with
      | None => mret tt
      | Some c => pr ← get_proc c;
                  if bool_decide (p_state pr = PROC_RUNNING) then put_proc c (with_state PROC_READY pr) else mret tt
      end;;
      old ← get_current_process;
      set_current (Some next);;
      context_switch old next
  | None => uart_puts (ln "No ready processes to run");; spin
  end.

(** ** Creation *)

Definition process_init : K unit :=
  uart_puts (ln "Initializing process management...");;
  set_count 0;; set_current None;; set_ready None.

Definition process_create (entry : Z) : K (option pptr) :=
  o ← kalloc sizeof_process;
  match o with
  | None => uart_puts (ln "Failed to allocate process");; mret None
  | Some a =>
      let proc := PHeap a in
      put_proc proc process0;;
      cur ← get_current_process;
      match cur with None => set_current (Some proc) | Some _ => mret tt end;;
      g ← gets ks_proc;
      match process_list g with
      | None => set_list (Some proc)
      | Some _ => upd_proc proc (with_next (process_list g));; set_list (Some proc)
      end;;
      upd_proc proc (λ p, with_ctx (<[ctx_pc := entry]> (p_ctx p)) p);;
      g ← gets ks_proc; n ← int_succ (next_pid g); set_next_pid n;;
      upd_proc proc (λ p, Process (next_pid g) (p_parent_pid p) (p_state p) (p_ns_mounts p) (p_ctx p) (p_sp p)
                            (p_next p) (p_exit_status p) (p_msg_queue p) (p_msg_blocked p) (bs "/"));;
      mret (Some proc)
  end.

Section Link.
Context `{LinkMap}.

Definition stack_top (i : Z) : Z := u64 (process_stacks + i * PROCESS_STACK_SIZE + PROCESS_STACK_SIZE).

Definition init_process : K unit :=
  let init := PStatic 0 in
  upd_proc init (with_pid 1 0);;
  upd_proc init (with_state PROC_RUNNING);;
  upd_proc init (with_next None);;
  upd_proc init (with_sp (stack_top 0));;
  upd_proc init (λ p, with_ctx (<[ctx_sp := p_sp p]> (p_ctx p)) p);;
  upd_proc init (λ p, with_ctx (<[ctx_lr := 0]> (p_ctx p)) p);;
  set_list (Some init);; set_current (Some init);; set_count 1;; set_next_pid 2;;
  uart_puts (ln "Process management initialized").

(** [processes[process_count++]] is not checked against the array. *)
Definition create_process : K pptr :=
  current ← get_current_process;
  g ← gets ks_proc;
  let new := PStatic (Z.to_nat (process_count g)) in
  set_count (process_count g + 1);;
  (if (0 <=? process_count g) && (process_count g <? MAX_PROCESSES) then mret tt else fault);;
  uart_puts (bs "Creating process with PID: ");; uart_hex (u64 (next_pid g));; uart_puts (ln "");;
  n ← int_succ (next_pid g); set_next_pid n;;
  c ← unwrap current; cur ← get_proc c;
  upd_proc new (with_pid (next_pid g) (p_pid cur));;
  upd_proc new (with_state PROC_READY);;
  upd_proc new (with_next (process_list g));;
  set_list (Some new);;
  upd_proc new (with_sp (stack_top (process_count g)));;
  cur ← get_proc c;
  upd_proc new (with_ctx (p_ctx cur));;
  upd_proc new (λ p, with_ctx (<[ctx_sp := p_sp p]> (p_ctx p)) p);;
  upd_proc new (λ p, with_ctx (<[ctx_lr := process3]> (p_ctx p)) p);;
  uart_puts (bs "New context: LR=");; uart_hex process3;; uart_puts (ln "");;
  mret new.

(** ** Exit, wait, switch *)

(** The loop that takes the current process off the ready queue. *)
Fixpoint unqueue (fuel : nat) (prev temp : option pptr) : K unit :=
  match temp with
  | None => mret tt
  | Some t =>
      match fuel with
      | O => nofuel
      | S fuel =>
          cur ← get_current_process;
          pr ← get_proc t;
          if bool_decide (cur = Some t) then
            match prev with
            | Some q => upd_proc q (with_next (p_next pr))
            | None => set_ready (p_next pr)
            end
          else unqueue fuel temp (p_next pr)
      end
  end.

Definition say_exit (pid status : Z) : K unit :=
  uart_puts (bs "Process ");; uart_hex (u64 pid);;
  uart_puts (bs " exiting with status: ");; uart_hex (u64 status);; uart_puts (ln "").

Definition process_exit (status : Z) : K unit :=
  o ← get_current_process;
  match o with
  | None => mret tt
  | Some c =>
      cur ← get_proc c;
      say_exit (p_pid cur) status;;
      upd_proc c (with_state PROC_ZOMBIE);;
      upd_proc c (with_exit_status status);;
      g ← gets ks_proc;
      unqueue (S (size (processes g))) None (ready_queue g);;
      set_current None;;
      schedule
  end.

Definition wait_for_child : K Z :=
  o ← get_current_process; c ← unwrap o;
  upd_proc c (with_state PROC_BLOCKED);; schedule;; mret 0.

Definition exit_process (status : Z) : K unit :=
  o ← get_current_process; c ← unwrap o; cur ← get_proc c;
  say_exit (p_pid cur) status;;
  upd_proc c (with_state PROC_ZOMBIE);;
  upd_proc c (with_exit_status status);;
  cur ← get_proc c;
  parent ← find_process (p_parent_pid cur);
  match parent with
  | None => mret tt
  | Some q => pr ← get_proc q;
              if bool_decide (p_state pr = PROC_BLOCKED) then put_proc q (with_state PROC_READY pr) else mret tt
  end;;
  schedule.

(** With no current process the old context is taken at an address near 0. *)
Definition switch_to_process (next : pptr) : K unit :=
  prev ← get_current_process;
  set_current (Some next);;
  p ← unwrap prev;
  context_switch (Some p) next.

Definition init_processes : K unit :=
  upd_proc (PStatic 0) (λ p, with_pid 1 (p_parent_pid p) p);;
  upd_proc (PStatic 0) (with_state PROC_RUNNING);;
  set_current (Some (PStatic 0));;
  set_list (Some (PStatic 0));;
  timer_init;; gic_init;; enable_timer_interrupt;;
  uart_puts (ln "Process management initialized").

(** ** Messages that concern processes *)

Definition msg_with_status (v : Z) (m : message) : message :=
  Message (m_type m) (m_path m) (m_argv m) (m_data m) (m_size m) (m_flags m) (m_fd m) (m_pid m) v (m_entry m)
    (m_dirents m) (m_dirent_count m) (m_character m) (m_string m).

Definition msg_with_pid (v : Z) (m : message) : message :=
  Message (m_type m) (m_path m) (m_argv m) (m_data m) (m_size m) (m_flags m) (m_fd m) v (m_status m) (m_entry m)
    (m_dirents m) (m_dirent_count m) (m_character m) (m_string m).

Definition handle_fork_message (msg : message) : K (Z * message) :=
  o ← get_current_process;
  new ← create_process;
  c ← unwrap o; cur ← get_proc c;
  upd_proc new (λ p, with_pid (p_pid p) (p_pid cur) p);;
  upd_proc new (with_state PROC_READY);;
  cur ← get_proc c;
  upd_proc new (with_ctx (p_ctx cur));;
  upd_proc new (λ p, with_ctx (<[ctx_x 0 := 0]> (p_ctx p)) p);;
  upd_proc new (λ p, with_ctx (<[ctx_pc := m_entry msg]> (p_ctx p)) p);;
  pr ← get_proc new;
  uart_puts (bs "Created process PID: ");; uart_hex (u64 (p_pid pr));; uart_puts (ln "");;
  mret (0, msg_with_status 0 (msg_with_pid (p_pid pr) msg)).

Definition zombie_child (pid : Z) (p : process) : bool :=
  (p_parent_pid p =? pid) && bool_decide (p_state p = PROC_ZOMBIE).

Definition handle_wait_message (msg : message) : K (Z * message) :=
  o ← get_current_process; c ← unwrap o; cur ← get_proc c;
  child ← find_in_list (zombie_child (p_pid cur));
  match child with
  | Some p =>
      pr ← get_proc p;
      put_proc p (with_state PROC_DEAD pr);;
      mret (0, msg_with_pid (p_pid pr) (msg_with_status (p_exit_status pr) msg))
  | None =>
      upd_proc c (with_state PROC_BLOCKED);;
      schedule;;
      mret (0, msg_with_status 0 msg)
  end.

Definition handle_exec_message (msg : message) : K Z :=
  match m_path msg with
  | None => mret (-1)
  | Some path =>
      uart_puts (bs "Executing program: ");; uart_puts path;; uart_puts (ln "");;
      o ← get_current_process; c ← unwrap o;
      upd_proc c (λ p, with_ctx (<[ctx_pc := m_entry msg]> (p_ctx p)) p);;
      upd_proc c (λ p, with_ctx (<[ctx_sp := PROCESS_STACK_TOP]> (p_ctx p)) p);;
      upd_proc c (λ p, with_ctx (splice (p_ctx p) (ctx_x 0) (replicate 31 0)) p);;
      match m_argv msg with
      | None => mret tt
      | Some (addr, argc) =>
          upd_proc c (λ p, with_ctx (<[ctx_x 0 := argc]> (p_ctx p)) p);;
          upd_proc c (λ p, with_ctx (<[ctx_x 1 := addr]> (p_ctx p)) p)
      end;;
      mret 0
  end.
End Link.
