(* ===== verification/ProcessSpec.v ===== *)
(** * ProcessSpec: correctness of the scheduler

    [schedule] on a well-formed process list, the context switch, and the
    invariants of process states and numbers. *)

From stdpp Require Import base numbers list gmap strings.
From Corelib Require Import ssreflect.
From S2P Require Import Prelude Chain CString State Kmalloc Uart Gic Process.

Open Scope Z_scope.
Open Scope general_if_scope.

Abbreviation procs s := (processes (ks_proc s)).

Definition set_procs (m : gmap pptr process) (s : kstate) : kstate :=
  let g := ks_proc s in
  set_proc (ProcGlobals m (process_count g) (ready_queue g) (current_process g) (process_list g) (next_pid g)) s.

(** The processes [l] are on the list. *)
Definition on_list (s : kstate) (l : list (pptr * process)) : Prop :=
  chain p_next (procs s) (process_list (ks_proc s)) l.

Lemma get_proc_Ok s p pr : procs s !! p = Some pr → get_proc p s = Ok pr s.
Proof. intros H. by rw /get_proc /mbind /M_bind /= H. Qed.

Lemma put_proc_Ok s p pr : put_proc p pr s = Ok tt (set_procs (<[p := pr]> (procs s)) s).
Proof. done. Qed.

Lemma upd_proc_Ok s p pr f :
  procs s !! p = Some pr → upd_proc p f s = Ok tt (set_procs (<[p := f pr]> (procs s)) s).
Proof. intros H. by rw /upd_proc (bind_Ok _ _ _ _ _ (get_proc_Ok _ _ _ H)). Qed.

(** ** Searching the list *)

Definition list_find (test : process → bool) (l : list (pptr * process)) : option (pptr * process) :=
  List.find (λ kp, test kp.2) l.

Lemma find_from_Ok s test l fuel o :
  chain p_next (procs s) o l → (length l < fuel)%nat →
  find_from fuel test o s = Ok (fst <$> list_find test l) s.
Proof.
  revert fuel o. induction l as [|[k pr] l IH]; intros [|fuel] o; simpl; try lia.
  - by intros -> _.
  - intros (-> & Hk & Hl) Hf. rw (bind_Ok _ _ _ _ _ (get_proc_Ok _ _ _ Hk)).
    rw /list_find /=. destruct (test pr); [done|]. apply IH; [done|lia].
Qed.

Lemma find_in_list_Ok s test l : on_list s l → find_in_list test s = Ok (fst <$> list_find test l) s.
Proof.
  intros Hl. rw /find_in_list. erewrite bind_Ok; [|reflexivity]. apply find_from_Ok; [done|].
  pose proof (chain_size _ _ _ _ Hl). lia.
Qed.

Lemma list_find_Some test l k pr :
  list_find test l = Some (k, pr) →
  test pr = true ∧ ∃ l1 l2, l = l1 ++ (k, pr) :: l2 ∧ Forall (λ kp, test kp.2 = false) l1.
Proof.
  rw /list_find. induction l as [|[k' pr'] l IH]; simpl; [done|]. destruct (test pr') eqn:E.
  - intros [= <- <-]. split; [done|]. exists [], l. by split.
  - intros (Ht & l1 & l2 & -> & Hf)%IH. split; [done|]. exists ((k', pr') :: l1), l2. split; [done|by constructor].
Qed.

Lemma list_find_None test l : list_find test l = None → Forall (λ kp, test kp.2 = false) l.
Proof.
  rw /list_find. induction l as [|[k' pr'] l IH]; simpl; [constructor|]. destruct (test pr') eqn:E; [done|].
  intros H%IH. by constructor.
Qed.

Lemma list_find_lookup s test l k pr : on_list s l → list_find test l = Some (k, pr) → procs s !! k = Some pr.
Proof.
  intros Hl (_ & l1 & l2 & -> & _)%list_find_Some. apply (chain_lookup _ _ _ _ _ _ Hl).
  apply elem_of_app. right. by left.
Qed.

Lemma is_ready_iff p : is_ready p = true ↔ p_state p = PROC_READY.
Proof. rw /is_ready. by destruct (p_state p). Qed.

(** ** The context switch *)

(** The register file and the contexts have their sizes. *)
Definition cpu_ok (c : cpu) : Prop := length (cpu_x19_30 c) = 12%nat.

Definition ctx_ok (p : process) : Prop := length (p_ctx p) = 34%nat.

Lemma load_save c ctx : cpu_ok c → length ctx = 34%nat → load_regs (save_regs c ctx) = c.
Proof.
  destruct c as [x sp daif]. rw /cpu_ok /load_regs /save_regs /splice /= => Hx Hc.
  do 13 (destruct x as [|? x]; try discriminate). reflexivity.
Qed.

Lemma save_length c ctx : cpu_ok c → length ctx = 34%nat → length (save_regs c ctx) = 34%nat.
Proof. rw /cpu_ok /save_regs => Hx Hc. rw splice_length //. rw length_app /=. lia. Qed.

(** The state after switching from [old] to [new]. *)
Definition after_switch (s : kstate) (old : option pptr) (new : pptr) : option kstate :=
  let m := match old with
           | None => Some (procs s)
           | Some p => pr ← procs s !! p; Some (<[p := with_ctx (save_regs (ks_cpu s) (p_ctx pr)) pr]> (procs s))
           end in
  m ← m; pr ← m !! new; Some (set_cpu (load_regs (p_ctx pr)) (set_procs m s)).

Lemma context_switch_Ok s old new s' :
  after_switch s old new = Some s' →
  context_switch old new s = if bool_decide (old = Some new) then Ok tt s' else Away s'.
Proof.
  rw /after_switch /context_switch. intros (m & Hm & (pr & Hpr & [= <-])%bind_Some)%bind_Some.
  assert (Hsave : (match old with
    | None => mret tt
    | Some p => c ← gets ks_cpu; upd_proc p (λ pr, with_ctx (save_regs c (p_ctx pr)) pr)
    end : K unit) s = Ok tt (set_procs m s)).
  { destruct old as [p|].
    - apply bind_Some in Hm as (pr0 & Hp & [= <-]). erewrite bind_Ok; [|reflexivity].
      apply (upd_proc_Ok s p pr0 (λ pr, with_ctx (save_regs (ks_cpu s) (p_ctx pr)) pr) Hp).
    - injection Hm as <-. by destruct s as [? ? ? ? ? ? ? ? ? []]. }
  rw (bind_Ok _ _ _ _ _ Hsave) (bind_Ok _ _ _ _ _ (get_proc_Ok (set_procs m s) new pr Hpr)).
  erewrite bind_Ok; [|reflexivity]. by destruct (bool_decide _).
Qed.

(** C24: the context switch preserves registers: after switching from process
    [a] to process [b] and back, x19 to x30, the stack pointer and DAIF are
    what they were, whatever the other process did with the registers in
    between. *)
Theorem context_switch_roundtrip s a b pa pb c' :
  a ≠ b → procs s !! a = Some pa → procs s !! b = Some pb → ctx_ok pa → ctx_ok pb →
  cpu_ok (ks_cpu s) → cpu_ok c' →
  ∃ s1 s2, context_switch (Some a) b s = Away s1 ∧ ks_cpu s1 = load_regs (p_ctx pb) ∧
           context_switch (Some b) a (set_cpu c' s1) = Away s2 ∧ ks_cpu s2 = ks_cpu s.
Proof.
  intros Hab Ha Hb Hca Hcb Hcpu Hc'.
  set pa' := with_ctx (save_regs (ks_cpu s) (p_ctx pa)) pa.
  assert (H1 : after_switch s (Some a) b = Some (set_cpu (load_regs (p_ctx pb)) (set_procs (<[a := pa']> (procs s)) s))).
  { rw /after_switch Ha /= lookup_insert_ne //. by rw Hb. }
  eexists. set s1 := set_cpu _ _ in H1. set s1' := set_cpu c' s1.
  set pb' := with_ctx (save_regs c' (p_ctx pb)) pb.
  assert (H2 : after_switch s1' (Some b) a =
    Some (set_cpu (load_regs (p_ctx pa')) (set_procs (<[b := pb']> (procs s1')) s1'))).
  { rw /after_switch. change (procs s1') with (<[a := pa']> (procs s)). rw lookup_insert_ne // Hb /=.
    rw lookup_insert_ne; [congruence|]. by rw lookup_insert_eq. }
  eexists. split_and!.
  - rw (context_switch_Ok _ _ _ _ H1) bool_decide_false //. congruence.
  - done.
  - rw (context_switch_Ok _ _ _ _ H2) bool_decide_false //. congruence.
  - by apply load_save.
Qed.

(** ** The scheduler *)

Definition state_of (s : kstate) (p : pptr) : option process_state := p_state <$> procs s !! p.

Definition with_current (o : option pptr) (s : kstate) : kstate :=
  let g := ks_proc s in
  set_proc (ProcGlobals (processes g) (process_count g) (ready_queue g) o (process_list g) (next_pid g)) s.

(** The process that gives the processor up: it stays able to run. *)
Definition yielded (pr : process) : process :=
  if bool_decide (p_state pr = PROC_RUNNING) then with_state PROC_READY pr else pr.

Lemma yielded_ctx pr : p_ctx (yielded pr) = p_ctx pr ∧ p_next (yielded pr) = p_next pr ∧ p_pid (yielded pr) = p_pid pr.
Proof. rw /yielded. by destruct (bool_decide _). Qed.

Lemma yielded_state pr : p_state (yielded pr) ≠ PROC_RUNNING.
Proof. rw /yielded. case_bool_decide; [done|]. done. Qed.

(** The process objects after the scheduler went from [cur] to [k]. *)
Definition rescheduled (m : gmap pptr process) (c : cpu) (cur : option pptr) (k : pptr) : gmap pptr process :=
  let m1 := alter (with_state PROC_RUNNING) k m in
  match cur with
  | None => m1
  | Some p => alter (λ pr, with_ctx (save_regs c (p_ctx pr)) (yielded pr)) p m1
  end.

Lemma insert_alter (m : gmap pptr process) p pr f : m !! p = Some pr → <[p := f pr]> m = alter f p m.
Proof.
  intros H. apply map_eq. intros q. destruct (decide (q = p)) as [->|Hne].
  - by rw lookup_insert_eq lookup_alter_eq H.
  - rw lookup_insert_ne; [congruence|]. rw lookup_alter_ne; [congruence|done].
Qed.

Lemma rescheduled_switch s s' k pr :
  let cur := current_process (ks_proc s) in
  procs s !! k = Some pr → (∀ c, cur = Some c → is_Some (procs s !! c)) →
  ks_cpu s' = ks_cpu s →
  procs s' = (let m1 := alter (with_state PROC_RUNNING) k (procs s) in
              match cur with None => m1 | Some p => alter yielded p m1 end) →
  after_switch s' cur k =
    Some (set_cpu (load_regs (if bool_decide (cur = Some k) then save_regs (ks_cpu s) (p_ctx pr) else p_ctx pr))
            (set_procs (rescheduled (procs s) (ks_cpu s) cur k) s')).
Proof.
  intros cur Hk Hc Hcpu. rw /after_switch Hcpu /rescheduled /=. set m1 := alter _ k _. intros ->.
  assert (Hk1 : m1 !! k = Some (with_state PROC_RUNNING pr)) by by rw lookup_alter_eq Hk.
  destruct cur as [c|]; [|by rw /= Hk1].
  destruct (Hc c eq_refl) as [prc Hprc].
  assert (is_Some (m1 !! c)) as [prc' Hprc'] by (apply lookup_alter_is_Some; eauto).
  set m2 := alter yielded c m1. assert (Hc2 : m2 !! c = Some (yielded prc')) by by rw lookup_alter_eq Hprc'.
  rw Hc2 /=.
  rw (insert_alter m2 c (yielded prc') (λ pr, with_ctx (save_regs (ks_cpu s) (p_ctx pr)) pr) Hc2) /m2 alter_alter_eq.
  rw (alter_ext _ (λ pr0, with_ctx (save_regs (ks_cpu s) (p_ctx pr0)) (yielded pr0))).
  { intros x _. simpl. by rw (proj1 (yielded_ctx x)). }
  case_bool_decide as Heq.
  - injection Heq as ->. rw Hk1 in Hprc'. injection Hprc' as <-. by rw lookup_alter_eq Hk1.
  - rw lookup_alter_ne; [congruence|]. by rw Hk1.
Qed.

Lemma schedule_Ok s l k pr :
  on_list s l → list_find is_ready l = Some (k, pr) →
  (∀ c, current_process (ks_proc s) = Some c → is_Some (procs s !! c)) →
  let cur := current_process (ks_proc s) in
  let m := rescheduled (procs s) (ks_cpu s) cur k in
  let s' := set_cpu (load_regs (if bool_decide (cur = Some k) then save_regs (ks_cpu s) (p_ctx pr) else p_ctx pr))
              (set_procs m (with_current (Some k) s)) in
  schedule s = if bool_decide (cur = Some k) then Ok tt s' else Away s'.
Proof.
  intros Hl Hf Hc cur m s'. pose proof (list_find_lookup _ _ _ _ _ Hl Hf) as Hk.
  rw /schedule. erewrite bind_Ok; [|reflexivity].
  rw (bind_Ok _ _ _ _ _ (find_in_list_Ok _ _ _ Hl)) Hf /=.
  rw (bind_Ok _ _ _ _ _ (upd_proc_Ok s k pr (with_state PROC_RUNNING) Hk)) (insert_alter _ _ _ _ Hk).
  set m1 := alter _ k _. set s1 := set_procs m1 s.
  set m2 := match cur with None => m1 | Some p => alter yielded p m1 end.
  erewrite (bind_Ok _ _ s1 tt (set_procs m2 s)).
  2: { rw /m2. fold cur. destruct cur as [c|] eqn:Ec; [|done].
       destruct (Hc c Ec) as [prc Hprc].
       assert (is_Some (m1 !! c)) as [prc' Hprc'] by (apply lookup_alter_is_Some; eauto).
       rw (bind_Ok _ _ _ _ _ (get_proc_Ok s1 c prc' Hprc')) -(insert_alter _ _ _ _ Hprc') /yielded.
       case_bool_decide; [done|]. by rw insert_id. }
  erewrite bind_Ok; [|reflexivity]. erewrite bind_Ok; [|reflexivity].
  change (current_process (ks_proc (set_procs m2 s))) with cur.
  set s2 := with_current (Some k) (set_procs m2 s).
  apply context_switch_Ok. by apply (rescheduled_switch s s2 k pr).
Qed.

Lemma schedule_Spin s l : on_list s l → list_find is_ready l = None → schedule s = Spin.
Proof.
  intros Hl Hf. rw /schedule. erewrite bind_Ok; [|reflexivity].
  by rw (bind_Ok _ _ _ _ _ (find_in_list_Ok _ _ _ Hl)) Hf.
Qed.

Lemma rescheduled_other m c cur k q : q ≠ k → cur ≠ Some q → rescheduled m c cur k !! q = m !! q.
Proof.
  intros Hk Hc. rw /rescheduled. destruct cur as [p|]; rw ?lookup_alter_ne; congruence.
Qed.

Lemma rescheduled_prev m c p k pr :
  p ≠ k → m !! p = Some pr →
  rescheduled m c (Some p) k !! p = Some (with_ctx (save_regs c (p_ctx pr)) (yielded pr)).
Proof. intros Hk Hp. rw /rescheduled lookup_alter_eq lookup_alter_ne; [congruence|]. by rw Hp. Qed.

Lemma rescheduled_next m c cur k pr :
  cur ≠ Some k → m !! k = Some pr → rescheduled m c cur k !! k = Some (with_state PROC_RUNNING pr).
Proof.
  intros Hk Hp. rw /rescheduled.
  destruct cur as [p|]; [rw lookup_alter_ne; [congruence|]|]; by rw lookup_alter_eq Hp.
Qed.

Lemma rescheduled_self m c k pr :
  m !! k = Some pr →
  rescheduled m c (Some k) k !! k = Some (with_ctx (save_regs c (p_ctx pr)) (with_state PROC_READY pr)).
Proof. intros Hp. by rw /rescheduled !lookup_alter_eq Hp. Qed.

(** C8: the scheduler runs the first READY process of the list.  With none
    it does not return.  Otherwise that process becomes the current one and
    its saved registers are loaded; the process that ran before keeps its
    registers in its context and is READY again if it was RUNNING; no other
    process is touched.  Control comes back at once only when the scheduler
    chose the current process itself, which it leaves marked READY. *)
Theorem schedule_correct s l :
  let cur := current_process (ks_proc s) in
  on_list s l → (∀ c, cur = Some c → is_Some (procs s !! c)) →
  match list_find is_ready l with
  | None => schedule s = Spin
  | Some (k, pr) =>
      ∃ s', schedule s = (if bool_decide (cur = Some k) then Ok tt s' else Away s') ∧
        current_process (ks_proc s') = Some k ∧
        (cur ≠ Some k → state_of s' k = Some PROC_RUNNING ∧ ks_cpu s' = load_regs (p_ctx pr)) ∧
        (cur = Some k → state_of s' k = Some PROC_READY) ∧
        (∀ c prc, cur = Some c → c ≠ k → procs s !! c = Some prc →
           procs s' !! c = Some (with_ctx (save_regs (ks_cpu s) (p_ctx prc)) (yielded prc))) ∧
        (∀ q, q ≠ k → cur ≠ Some q → procs s' !! q = procs s !! q)
  end.
Proof.
  intros cur Hl Hc. destruct (list_find is_ready l) as [[k pr]|] eqn:Hf; [|by apply (schedule_Spin _ _ Hl)].
  pose proof (list_find_lookup _ _ _ _ _ Hl Hf) as Hk. rw (schedule_Ok _ _ _ _ Hl Hf Hc).
  fold cur. eexists. split; [reflexivity|]. split_and!; [done|..].
  - intros Hne. by rw /state_of /= (rescheduled_next _ _ _ _ _ Hne Hk) bool_decide_false.
  - intros ->. by rw /state_of /= (rescheduled_self _ _ _ _ Hk).
  - intros c prc -> Hne Hp. by apply rescheduled_prev.
  - intros q Hq Hq'. by apply rescheduled_other.
Qed.

(** ** The process table *)

Section Keys.
Variables (s : kstate) (ks : list pptr).

(** The process table with the processes [ks] on the list: numbers are
    unique and below [next_pid]; only the current process may be RUNNING;
    the current process is on the list; the slots of the array from
    [process_count] on, and the heap from its fill level on, are unused;
    nothing was ever put on the ready queue. *)
Record table_ok : Prop := {
  to_list : ∃ l, on_list s l ∧ l.*1 = ks;
  to_pid k k' p p' : k ∈ ks → k' ∈ ks → procs s !! k = Some p → procs s !! k' = Some p' → p_pid p = p_pid p' → k = k';
  to_pid_lt k p : k ∈ ks → procs s !! k = Some p → p_pid p < next_pid (ks_proc s);
  to_running k p : k ∈ ks → procs s !! k = Some p → p_state p = PROC_RUNNING → current_process (ks_proc s) = Some k;
  to_ctx k p : procs s !! k = Some p → ctx_ok p;
  to_current c : current_process (ks_proc s) = Some c → c ∈ ks;
  to_static i : process_count (ks_proc s) ≤ Z.of_nat i → PStatic i ∉ ks;
  to_heap a : ks_heap_pos s ≤ a → PHeap a ∉ ks;
  to_count : 0 ≤ process_count (ks_proc s);
  to_array i : (i < 4)%nat → is_Some (procs s !! PStatic i);
  to_ready : ready_queue (ks_proc s) = None;
  to_cpu : cpu_ok (ks_cpu s);
  to_heap_ok : heap_ok s
}.

Lemma to_lookup k : table_ok → k ∈ ks → is_Some (procs s !! k).
Proof.
  intros Ht. destruct (to_list Ht) as (l & Hl & <-). intros ([k' p] & -> & Hin)%list_elem_of_fmap.
  exists p. by apply (chain_lookup _ _ _ _ _ _ Hl).
Qed.
End Keys.

(** A change of process objects that keeps numbers, links and the size of
    contexts. *)
Definition same_table (m m' : gmap pptr process) : Prop :=
  (∀ k p, m !! k = Some p →
    ∃ p', m' !! k = Some p' ∧ p_next p' = p_next p ∧ p_pid p' = p_pid p ∧ (ctx_ok p → ctx_ok p')) ∧
  ∀ k, is_Some (m' !! k) → is_Some (m !! k).

Lemma same_table_alter m k f :
  (∀ p, p_next (f p) = p_next p ∧ p_pid (f p) = p_pid p ∧ (ctx_ok p → ctx_ok (f p))) →
  same_table m (alter f k m).
Proof.
  intros Hf. split; [|intros q; by apply lookup_alter_is_Some]. intros q p Hq. destruct (decide (q = k)) as [->|Hne].
  - exists (f p). rw lookup_alter_eq Hq. split; [done|apply Hf].
  - exists p. rw lookup_alter_ne; [congruence|]. done.
Qed.

#[export] Instance same_table_trans : Transitive same_table.
Proof.
  intros m1 m2 m3 [H1 B1] [H2 B2]. split; [|naive_solver]. intros k p Hk. destruct (H1 _ _ Hk) as (p' & Hk' & ? & ? & ?).
  destruct (H2 _ _ Hk') as (p'' & Hk'' & ? & ? & ?). exists p''. split_and!; [done|congruence|congruence|naive_solver].
Qed.

Lemma table_change s s' ks :
  table_ok s ks → same_table (procs s) (procs s') →
  process_list (ks_proc s') = process_list (ks_proc s) → next_pid (ks_proc s') = next_pid (ks_proc s) →
  process_count (ks_proc s') = process_count (ks_proc s) → ready_queue (ks_proc s') = ready_queue (ks_proc s) →
  ks_heap_pos s' = ks_heap_pos s → cpu_ok (ks_cpu s') →
  (∀ c, current_process (ks_proc s') = Some c → c ∈ ks) →
  (∀ k p, k ∈ ks → procs s' !! k = Some p → p_state p = PROC_RUNNING → current_process (ks_proc s') = Some k) →
  table_ok s' ks.
Proof.
  intros Ht [Hm Hb] Hl Hn Hc Hrq Hh Hcpu Hcur Hrun.
  assert (Hback : ∀ k p', procs s' !! k = Some p' →
            ∃ p, procs s !! k = Some p ∧ p_pid p' = p_pid p ∧ (ctx_ok p → ctx_ok p')).
  { intros k p' Hk. destruct (Hb k) as [p Hp]; [by exists p'|].
    destruct (Hm _ _ Hp) as (p2 & Hp2 & _ & ? & ?). exists p. rw Hk in Hp2. injection Hp2 as <-. done. }
  constructor; try done.
  - destruct (to_list _ _ Ht) as (l & Hol & <-). rw /on_list Hl. apply (chain_mono _ _ _ _ _ (λ k a Hk,
      let '(ex_intro _ p' (conj H1 (conj H2 _))) := Hm k a Hk in ex_intro _ p' (conj H1 H2)) Hol).
  - intros k k' p p' Hk Hk' (q & Hq & -> & _)%Hback (q' & Hq' & -> & _)%Hback.
    by apply (to_pid _ _ Ht _ _ _ _ Hk Hk').
  - intros k p Hk (q & Hq & -> & _)%Hback. rw Hn. by apply (to_pid_lt _ _ Ht k).
  - intros k p (q & Hq & _ & Hctx)%Hback. apply Hctx. by apply (to_ctx _ _ Ht k).
  - rw Hc. apply (to_static _ _ Ht).
  - rw Hh. apply (to_heap _ _ Ht).
  - rw Hc. apply (to_count _ _ Ht).
  - intros i Hi. destruct (to_array _ _ Ht i Hi) as [p Hp]. destruct (Hm _ _ Hp) as (p' & Hp' & _). by exists p'.
  - rw Hrq. apply (to_ready _ _ Ht).
  - rw /heap_ok Hh. apply (to_heap_ok _ _ Ht).
Qed.

Definition sched_ok (s : kstate) : Prop := ∃ ks, table_ok s ks.

(** The states in which code that starts in [s] returns, or leaves by a
    context switch. *)
Definition leads {A} (m : K A) (s s' : kstate) : Prop := (∃ a, m s = Ok a s') ∨ m s = Away s'.

Definition keeps {A} (m : K A) : Prop := ∀ s s', sched_ok s → leads m s s' → sched_ok s'.

Create HintDb keeps.

Lemma leads_bind {A B} (m : K A) (f : A → K B) s s' :
  leads (m ≫= f) s s' → leads m s s' ∧ m s = Away s' ∨ ∃ a s1, m s = Ok a s1 ∧ leads (f a) s1 s'.
Proof.
  rw /leads /mbind /M_bind. destruct (m s) as [a s1| | |s1|].
  - intros H. right. by exists a, s1.
  - by intros [[b ?]|?].
  - by intros [[b ?]|?].
  - intros [[b ?]|[= ->]]; [done|]. left. by split; [right|].
  - by intros [[b ?]|?].
Qed.

Lemma keeps_bind {A B} (m : K A) (f : A → K B) : keeps m → (∀ a, keeps (f a)) → keeps (m ≫= f).
Proof.
  intros Hm Hf s s' Hs [[H _]|(a & s1 & H1 & H2)]%leads_bind; [by apply (Hm s)|].
  apply (Hf a s1); [|done]. apply (Hm s); [done|]. left. by exists a.
Qed.

Lemma keeps_pure {A} (m : K A) : (∀ s s', leads m s s' → s' = s) → keeps m.
Proof. intros Hm s s' Hs ->%Hm. done. Qed.

Lemma keeps_ret {A} (a : A) : keeps (mret a).
Proof. apply keeps_pure. by intros s s' [[b [= _ <-]]|?]. Qed.

Lemma keeps_gets {A} (f : kstate → A) : keeps (gets f).
Proof. apply keeps_pure. by intros s s' [[b [= _ <-]]|?]. Qed.

Lemma keeps_unwrap {A} (o : option A) : keeps (unwrap o).
Proof. apply keeps_pure. destruct o; by intros s s' [[b [= _ <-]]|?]. Qed.

Lemma keeps_get_proc p : keeps (get_proc p).
Proof. apply keeps_bind; [apply keeps_gets|intros; apply keeps_unwrap]. Qed.

Lemma keeps_out (f : str → str) : keeps (modify (λ s, set_out (f (ks_out s)) s)).
Proof. intros s s' [ks []] [[a [= _ <-]]|?]; [|done]. by exists ks. Qed.

Lemma keeps_puts t : keeps (uart_puts t).
Proof. apply (keeps_out (λ o, o ++ crlf t)). Qed.

Lemma keeps_hex n : keeps (uart_hex n).
Proof. apply keeps_bind; [apply keeps_puts|]. intros _. apply (keeps_out (λ o, o ++ hex_digits (u64 n))). Qed.

(** An update of a process that keeps its place in the table. *)
Definition mild (f : process → process) : Prop :=
  (∀ p, p_next (f p) = p_next p ∧ p_pid (f p) = p_pid p ∧ (ctx_ok p → ctx_ok (f p))) ∧
  ∀ p, p_state (f p) = p_state p ∨ p_state (f p) ≠ PROC_RUNNING.

Lemma table_alter s ks k f : table_ok s ks → mild f → table_ok (set_procs (alter f k (procs s)) s) ks.
Proof.
  intros Ht [Hf Hr]. apply (table_change s); try done; simpl.
  - by apply same_table_alter.
  - apply (to_cpu _ _ Ht).
  - apply (to_current _ _ Ht).
  - intros q p Hin [(-> & p' & Hp & ->)|[Hne Hp]]%lookup_alter_Some; [|by apply (to_running _ _ Ht _ _ Hin)].
    intros Hst. destruct (Hr p') as [He|He]; [|done]. rw He in Hst. by apply (to_running _ _ Ht _ _ Hin Hp).
Qed.

Lemma keeps_upd k f : mild f → keeps (upd_proc k f).
Proof.
  intros Hf s s' [ks Ht] H. rw /upd_proc in H.
  apply leads_bind in H as [[_ H]|(p & s1 & H & [[a [= _ <-]]|?])]; [|..|done].
  - rw /get_proc /mbind /M_bind /= in H. by destruct (procs s !! k).
  - rw /get_proc /mbind /M_bind /= in H. destruct (procs s !! k) eqn:E; [|done]. injection H as -> <-.
    exists ks. rw (insert_alter _ _ _ _ E). by apply table_alter.
Qed.

#[export] Hint Resolve keeps_ret keeps_gets keeps_unwrap keeps_get_proc keeps_puts keeps_hex keeps_upd : keeps.

Lemma load_ok ctx : length ctx = 34%nat → cpu_ok (load_regs ctx).
Proof. intros H. rw /cpu_ok /= length_take. lia. Qed.

Lemma same_table_rescheduled m c cur k : cpu_ok c → same_table m (rescheduled m c cur k).
Proof.
  intros Hc. rw /rescheduled. transitivity (alter (with_state PROC_RUNNING) k m); [by apply same_table_alter|].
  destruct cur as [p|]; [|by split; [intros q pr Hq; exists pr|]].
  apply same_table_alter. intros pr. destruct (yielded_ctx pr) as (Hctx & Hn & Hp). simpl. rw Hn Hp.
  split_and!; [done..|]. intros Hpr. by apply save_length.
Qed.

Lemma keeps_schedule : keeps schedule.
Proof.
  intros s s' [ks Ht] H. destruct (to_list _ _ Ht) as (l & Hl & Hks).
  destruct (list_find is_ready l) as [[k pr]|] eqn:Hf.
  2: { rw /leads (schedule_Spin _ _ Hl Hf) in H. by destruct H as [[??]|?]. }
  pose proof (list_find_lookup _ _ _ _ _ Hl Hf) as Hk.
  assert (Hin : k ∈ ks).
  { subst ks. apply list_find_Some in Hf as (_ & l1 & l2 & -> & _). rw fmap_app. apply elem_of_app. right. by left. }
  set cur := current_process (ks_proc s).
  assert (Hcur : ∀ c, cur = Some c → is_Some (procs s !! c)).
  { intros c Hc. by apply (to_lookup _ ks), (to_current _ _ Ht). }
  rw /leads (schedule_Ok _ _ _ _ Hl Hf Hcur) in H. fold cur in H. set s1 := set_cpu _ _ in H.
  assert (s' = s1) as -> by (destruct (bool_decide _), H as [[[] ?]|?]; congruence).
  exists ks. pose proof (to_ctx _ _ Ht _ _ Hk) as Hctx.
  apply (table_change s); try done; simpl; fold cur.
  - apply same_table_rescheduled, (to_cpu _ _ Ht).
  - apply load_ok. destruct (bool_decide _); [|done]. by apply save_length; [apply (to_cpu _ _ Ht)|].
  - by intros c [= <-].
  - intros q p Hq Hp Hrun. destruct (decide (q = k)) as [->|Hne]; [done|]. exfalso.
    destruct (decide (cur = Some q)) as [Hc|Hc].
    + destruct (Hcur q Hc) as [prc Hprc]. rw Hc (rescheduled_prev _ _ _ _ _ Hne Hprc) in Hp. injection Hp as <-.
      by apply (yielded_state prc).
    + rw (rescheduled_other _ _ _ _ _ Hne Hc) in Hp. by apply Hc, (to_running _ _ Ht _ _ Hq Hp).
Qed.

#[export] Hint Resolve keeps_schedule : keeps.

(** Reading a process, and writing it back with another state. *)
Lemma keeps_mark {A} k st (G : process → K A) :
  st ≠ PROC_RUNNING → (∀ pr, keeps (G pr)) →
  keeps (pr ← get_proc k; put_proc k (with_state st pr);; G pr).
Proof.
  intros Hst HG s s' Hs [[H _]|(pr & s1 & H1 & H2)]%leads_bind; [by apply (keeps_get_proc k s)|].
  assert (procs s !! k = Some pr ∧ s1 = s) as [Hk ->].
  { rw /get_proc /mbind /M_bind /= in H1. destruct (procs s !! k); [|done]. by injection H1 as -> <-. }
  apply leads_bind in H2 as [[_ ?]|(u & s2 & [= <- <-] & H2)]; [done|].
  refine (HG pr _ s' _ H2). refine (keeps_upd k (with_state st) _ s _ Hs _); [split; [done|by right]|].
  left. exists tt. by apply (upd_proc_Ok s k pr).
Qed.

Lemma keeps_mark_if k st (b : process → bool) :
  st ≠ PROC_RUNNING → keeps (pr ← get_proc k; if b pr then put_proc k (with_state st pr) else mret tt).
Proof.
  intros Hst s s' Hs [[H _]|(pr & s1 & H1 & H2)]%leads_bind; [by apply (keeps_get_proc k s)|].
  assert (Hs1 : sched_ok s1) by (apply (keeps_get_proc k s); [done|left; by exists pr]).
  destruct (b pr); [|by apply (keeps_ret tt s1)].
  refine (keeps_mark k st (λ _, mret tt) Hst (λ _, keeps_ret tt) s s' Hs _).
  rw /leads (bind_Ok _ _ _ _ _ H1). destruct H2 as [[a [= <- <-]]|?]; [left; by exists tt|done].
Qed.

Lemma mild_ctx g : (∀ c, length c = 34%nat → length (g c) = 34%nat) → mild (λ p, with_ctx (g (p_ctx p)) p).
Proof. intros Hg. split; [|by left]. intros p. split_and!; [done..|]. apply Hg. Qed.

Lemma mild_ctx_insert i v : mild (λ p, with_ctx (<[i := v]> (p_ctx p)) p).
Proof. apply (mild_ctx (λ c, <[i := v]> c)). intros c Hc. by rw length_insert. Qed.

#[export] Hint Resolve mild_ctx_insert : keeps.

(** Copying the context of another process. *)
Lemma keeps_copy_ctx {A} c k (G : process → K A) :
  (∀ pr, keeps (G pr)) → keeps (cur ← get_proc c; upd_proc k (with_ctx (p_ctx cur));; G cur).
Proof.
  intros HG s s' Hs [[H _]|(pr & s1 & H1 & H2)]%leads_bind; [by apply (keeps_get_proc c s)|].
  assert (procs s !! c = Some pr ∧ s1 = s) as [Hk ->].
  { rw /get_proc /mbind /M_bind /= in H1. destruct (procs s !! c); [|done]. by injection H1 as -> <-. }
  refine (keeps_bind _ _ _ (λ _, HG pr) s s' Hs H2). apply keeps_upd, (mild_ctx (λ _, p_ctx pr)).
  intros _ _. destruct Hs as [ks Ht]. apply (to_ctx _ _ Ht _ _ Hk).
Qed.

(** Break a goal [keeps m] into the same goal for the parts of [m]. *)
Ltac keep_step :=
  match goal with
  | |- keeps (get_proc _ ≫= _) =>
      first [apply keeps_mark_if; done | apply keeps_mark; [done|intros ?] | apply keeps_copy_ctx; intros ? | apply keeps_bind; [|intros ?]]
  | |- keeps (_ ≫= _) => apply keeps_bind; [|intros ?]
  | |- keeps (match ?x with _ => _ end) => destruct x
  | |- mild _ => first [solve [eauto with keeps] | split; intros []; [by split_and!|by (left + right)]]
  | |- keeps _ => solve [eauto with keeps]
  | |- keeps (upd_proc _ _) => apply keeps_upd
  end.

Ltac keep_auto := repeat (cbv zeta; keep_step).

Lemma keeps_current : keeps get_current_process.
Proof. rw /get_current_process. keep_auto. Qed.

#[export] Hint Resolve keeps_current : keeps.

Lemma keeps_find_from fuel test o : keeps (find_from fuel test o).
Proof.
  revert o. induction fuel as [|fuel IH]; intros [q|]; simpl; try apply keeps_ret.
  - by intros s s' _ [[??]|?].
  - keep_auto.
Qed.

Lemma keeps_find test : keeps (find_in_list test).
Proof. rw /find_in_list. keep_auto. apply keeps_find_from. Qed.

#[export] Hint Resolve keeps_find keeps_find_from : keeps.

Section Table.
Context `{LinkMap}.

Lemma keeps_say_exit pid status : keeps (say_exit pid status).
Proof. rw /say_exit. keep_auto. Qed.

#[local] Hint Resolve keeps_say_exit : keeps.

Lemma keeps_wait : keeps wait_for_child.
Proof. rw /wait_for_child. keep_auto. Qed.

Lemma keeps_exit status : keeps (exit_process status).
Proof.
  rw /exit_process /find_process. keep_auto.
Qed.

Lemma keeps_wait_message msg : keeps (handle_wait_message msg).
Proof.
  rw /handle_wait_message. keep_auto.
Qed.

Lemma keeps_exec_message msg : keeps (handle_exec_message msg).
Proof.
  rw /handle_exec_message. keep_auto. apply (mild_ctx (λ c, splice c (ctx_x 0) (replicate 31 0))). intros c Hc. rw splice_length //. rw length_replicate /ctx_x. lia.
Qed.

(** Appending a process to the table, at the front of the list. *)
Lemma table_cons s s' ks k pr :
  table_ok s ks → k ∉ ks →
  procs s' = <[k := pr]> (procs s) → process_list (ks_proc s') = Some k →
  p_next pr = process_list (ks_proc s) → p_pid pr = next_pid (ks_proc s) → ctx_ok pr → p_state pr ≠ PROC_RUNNING →
  next_pid (ks_proc s') = next_pid (ks_proc s) + 1 → ready_queue (ks_proc s') = None →
  (current_process (ks_proc s') = current_process (ks_proc s) ∨
   current_process (ks_proc s) = None ∧ current_process (ks_proc s') = Some k) →
  process_count (ks_proc s) ≤ process_count (ks_proc s') → ks_heap_pos s ≤ ks_heap_pos s' →
  match k with PStatic i => Z.of_nat i < process_count (ks_proc s') | PHeap a => a < ks_heap_pos s' end →
  ks_cpu s' = ks_cpu s → heap_ok s' → table_ok s' (k :: ks).
Proof.
  intros Ht Hk Hm Hl Hnx Hpid Hctx Hst Hnp Hrq Hcur Hcnt Hhp Hnew Hcpu Hheap.
  assert (Hold : ∀ q p, q ∈ ks → procs s' !! q = Some p → procs s !! q = Some p).
  { intros q p Hq. rw Hm lookup_insert_ne //. intros ->. done. }
  assert (Hself : ∀ p, procs s' !! k = Some p → p = pr).
  { intros p. rw Hm lookup_insert_eq. congruence. }
  constructor.
  - destruct (to_list _ _ Ht) as (l & Hol & Hks). exists ((k, pr) :: l). rw fmap_cons Hks. split; [|done].
    rw /on_list Hl Hm /=. split_and!; [done|by rw lookup_insert_eq|].
    apply chain_insert_ne; [by rw Hks|]. rw Hnx. exact Hol.
  - pose proof (to_pid_lt _ _ Ht) as Hlt.
    intros q q' p p' [->|Hq]%elem_of_cons [->|Hq']%elem_of_cons Hp Hp' Heq; [done|..].
    + apply Hself in Hp as ->. apply (Hold _ _ Hq') in Hp'. pose proof (Hlt _ _ Hq' Hp'). lia.
    + apply Hself in Hp' as ->. apply (Hold _ _ Hq) in Hp. pose proof (Hlt _ _ Hq Hp). lia.
    + by apply (to_pid _ _ Ht q q' p p' Hq Hq'); [apply Hold..|].
  - intros q p [->|Hq]%elem_of_cons Hp; rw Hnp; [apply Hself in Hp as ->; lia|].
    pose proof (to_pid_lt _ _ Ht _ _ Hq (Hold _ _ Hq Hp)). lia.
  - intros q p [->|Hq]%elem_of_cons Hp Hr; [by apply Hself in Hp as ->|].
    pose proof (to_running _ _ Ht _ _ Hq (Hold _ _ Hq Hp) Hr). destruct Hcur as [?|[??]]; congruence.
  - intros q p. rw Hm. intros [[_ <-]|[_ Hp]]%lookup_insert_Some; [done|]. apply (to_ctx _ _ Ht _ _ Hp).
  - intros c Hc. destruct Hcur as [E|[_ E]]; rw Hc in E.
    + right. by apply (to_current _ _ Ht).
    + injection E as ->. by left.
  - intros i Hi [<-|Hq]%elem_of_cons; [lia|]. revert Hq. apply (to_static _ _ Ht). lia.
  - intros a Ha [<-|Hq]%elem_of_cons; [lia|]. revert Hq. apply (to_heap _ _ Ht). lia.
  - pose proof (to_count _ _ Ht). lia.
  - intros i Hi. rw Hm. apply lookup_insert_is_Some'. right. by apply (to_array _ _ Ht).
  - done.
  - rw Hcpu. apply (to_cpu _ _ Ht).
  - done.
Qed.

(** The process that [create_process] makes of the slot [old]. *)
Definition child_of (s : kstate) (cur old : process) : process :=
  let g := ks_proc s in
  let sp := stack_top (process_count g) in
  Process (next_pid g) (p_pid cur) PROC_READY (p_ns_mounts old)
    (<[ctx_lr := process3]> (<[ctx_sp := sp]> (p_ctx cur))) sp (process_list g)
    (p_exit_status old) (p_msg_queue old) (p_msg_blocked old) (p_cwd old).

(** The state [s] with another console output and another table. *)
Definition tab (s : kstate) o m cnt cur lst np : kstate :=
  set_out o (set_proc (ProcGlobals m cnt (ready_queue (ks_proc s)) cur lst np) s).

Lemma tab_self s :
  s = tab s (ks_out s) (procs s) (process_count (ks_proc s)) (current_process (ks_proc s))
        (process_list (ks_proc s)) (next_pid (ks_proc s)).
Proof. by destruct s as [? ? ? ? ? ? ? ? ? []]. Qed.

Section Tab.
Variables (s : kstate) (o : str) (m : gmap pptr process) (cnt : Z) (cur lst : option pptr) (np : Z).
Let t := tab s o m cnt cur lst np.

Lemma tab_puts x : uart_puts x t = Ok tt (tab s (o ++ crlf x) m cnt cur lst np).
Proof. done. Qed.

Lemma tab_hex x : uart_hex x t = Ok tt (tab s ((o ++ crlf (bs "0x")) ++ hex_digits (u64 x)) m cnt cur lst np).
Proof. done. Qed.

Lemma tab_gets : gets ks_proc t = Ok (ProcGlobals m cnt (ready_queue (ks_proc s)) cur lst np) t.
Proof. done. Qed.

Lemma tab_current : get_current_process t = Ok cur t.
Proof. done. Qed.

Lemma tab_count n : set_count n t = Ok tt (tab s o m n cur lst np).
Proof. done. Qed.

Lemma tab_list p : set_list p t = Ok tt (tab s o m cnt cur p np).
Proof. done. Qed.

Lemma tab_set_current p : set_current p t = Ok tt (tab s o m cnt p lst np).
Proof. done. Qed.

Lemma tab_next_pid n : set_next_pid n t = Ok tt (tab s o m cnt cur lst n).
Proof. done. Qed.

Lemma tab_succ x : x < 2 ^ 31 - 1 → int_succ x t = Ok (x + 1) t.
Proof. intros. rw /int_succ. by replace (_ <? _) with true by lia. Qed.

Lemma tab_get k pr : m !! k = Some pr → get_proc k t = Ok pr t.
Proof. apply (get_proc_Ok t). Qed.

Lemma tab_put k pr : put_proc k pr t = Ok tt (tab s o (<[k := pr]> m) cnt cur lst np).
Proof. done. Qed.

Lemma tab_upd k pr f : m !! k = Some pr → upd_proc k f t = Ok tt (tab s o (<[k := f pr]> m) cnt cur lst np).
Proof. apply (upd_proc_Ok t). Qed.

Lemma tab_upd_eq k pr f :
  upd_proc k f (tab s o (<[k := pr]> m) cnt cur lst np) = Ok tt (tab s o (<[k := f pr]> m) cnt cur lst np).
Proof. rw (upd_proc_Ok _ k pr); [apply lookup_insert_eq|]. by rw /set_procs /= insert_insert_eq. Qed.

Lemma tab_get_ne k c pr pr' : c ≠ k → m !! c = Some pr →
  let t' := tab s o (<[k := pr']> m) cnt cur lst np in get_proc c t' = Ok pr t'.
Proof. intros Hne Hc t'. apply get_proc_Ok. rw /= lookup_insert_ne; [congruence|done]. Qed.
End Tab.

Lemma create_process_Ok s c cur old :
  let g := ks_proc s in
  let n := PStatic (Z.to_nat (process_count g)) in
  0 ≤ process_count g < MAX_PROCESSES → next_pid g < 2 ^ 31 - 1 →
  current_process g = Some c → c ≠ n → procs s !! c = Some cur → procs s !! n = Some old →
  ∃ out, create_process s =
    Ok n (tab s out (<[n := child_of s cur old]> (procs s)) (process_count g + 1) (Some c) (Some n) (next_pid g + 1)).
Proof.
  intros g n Hcnt Hpid Hc Hne Hcur Hold. eexists. rw {1}[s]tab_self. fold g. rw Hc /create_process.
  eapply bind_intro; [apply tab_current|]. eapply bind_intro; [apply tab_gets|]. cbn. fold n.
  eapply bind_intro; [apply tab_count|].
  replace ((0 <=? process_count g) && (process_count g <? MAX_PROCESSES)) with true by lia.
  eapply bind_intro; [apply ret_Ok|].
  eapply bind_intro; [apply tab_puts|]. eapply bind_intro; [apply tab_hex|]. eapply bind_intro; [apply tab_puts|].
  eapply bind_intro; [by apply tab_succ|].
  eapply bind_intro; [apply tab_next_pid|]. eapply bind_intro; [apply ret_Ok|].
  eapply bind_intro; [apply tab_get, Hcur|]. eapply bind_intro; [apply tab_upd, Hold|].
  do 2 (eapply bind_intro; [apply tab_upd_eq|]). eapply bind_intro; [apply tab_list|].
  eapply bind_intro; [apply tab_upd_eq|]. eapply bind_intro; [apply (tab_get_ne _ _ _ _ _ _ _ _ _ cur _ Hne Hcur)|].
  do 3 (eapply bind_intro; [apply tab_upd_eq|]).
  eapply bind_intro; [apply tab_puts|]. eapply bind_intro; [apply tab_hex|]. eapply bind_intro; [apply tab_puts|].
  reflexivity.
Qed.

(** Outside the bounds of the array or of [int], and without a current
    process, the code is undefined. *)
Lemma create_process_Fault s :
  let g := ks_proc s in
  ¬ (0 ≤ process_count g < MAX_PROCESSES) ∨ ¬ (next_pid g < 2 ^ 31 - 1) ∨ current_process g = None →
  create_process s = Fault.
Proof.
  intros g. rw {1}[s]tab_self /create_process. fold g.
  erewrite bind_Ok; [|apply tab_current]. erewrite bind_Ok; [|apply tab_gets]. cbn.
  erewrite bind_Ok; [|apply tab_count].
  destruct (decide (0 ≤ process_count g < MAX_PROCESSES)) as [Hcnt|Hcnt].
  2: { by replace ((0 <=? process_count g) && (process_count g <? MAX_PROCESSES)) with false by lia. }
  replace ((0 <=? process_count g) && (process_count g <? MAX_PROCESSES)) with true by lia.
  intros [?|Hor]; [done|]. erewrite bind_Ok; [|apply ret_Ok].
  erewrite bind_Ok; [|apply tab_puts]. erewrite bind_Ok; [|apply tab_hex]. erewrite bind_Ok; [|apply tab_puts].
  destruct (decide (next_pid g < 2 ^ 31 - 1)) as [Hp|Hp].
  2: { rw /int_succ. by replace (_ <? _) with false by lia. }
  destruct Hor as [?|Hnone]; [done|]. erewrite bind_Ok; [|by apply tab_succ]. erewrite bind_Ok; [|apply tab_next_pid].
  by rw Hnone.
Qed.

(** The child is put at the front of the list. *)
Lemma create_process_table s ks c :
  let g := ks_proc s in
  let n := PStatic (Z.to_nat (process_count g)) in
  table_ok s ks → process_count g < MAX_PROCESSES → next_pid g < 2 ^ 31 - 1 → current_process g = Some c →
  ∃ cur old s', procs s !! c = Some cur ∧ procs s !! n = Some old ∧ (n ∉ ks) ∧
    create_process s = Ok n s' ∧ table_ok s' (n :: ks) ∧
    procs s' = <[n := child_of s cur old]> (procs s) ∧ process_count (ks_proc s') = process_count g + 1 ∧
    current_process (ks_proc s') = Some c.
Proof.
  intros g n Ht Hcnt Hpid Hc. pose proof (to_count _ _ Ht) as Hpos.
  pose proof (to_current _ _ Ht c Hc) as Hin. destruct (to_lookup _ _ c Ht Hin) as [cur Hcur].
  assert (Hn : n ∉ ks) by (apply (to_static _ _ Ht); fold g; lia).
  destruct (to_array _ _ Ht (Z.to_nat (process_count g))) as [old Hold]; [rw /MAX_PROCESSES in Hcnt; lia|].
  assert (Hne : c ≠ n) by (intros ->; done).
  destruct (create_process_Ok s c cur old (conj Hpos Hcnt) Hpid Hc Hne Hcur Hold) as [out Hs'].
  exists cur, old. eexists. split_and!; [done|done|done|exact Hs'| |done..].
  apply (table_cons s _ ks n (child_of s cur old)); try done; simpl.
  - rw /ctx_ok /= !length_insert. apply (to_ctx _ _ Ht _ _ Hcur).
  - apply (to_ready _ _ Ht).
  - left. by fold g.
  - fold g. lia.
  - lia.
  - rw /g. lia.
  - apply (to_heap_ok _ _ Ht).
Qed.

Lemma keeps_create : keeps create_process.
Proof.
  intros s s' [ks Ht] Hs'. set g := ks_proc s.
  destruct (decide (process_count g < MAX_PROCESSES ∧ next_pid g < 2 ^ 31 - 1)) as [[H1 H2]|Hno].
  2: { rw /leads (create_process_Fault s) in Hs'; [pose proof (to_count _ _ Ht); cbv zeta; fold g; lia|]. by destruct Hs' as [[??]|?]. }
  destruct (current_process g) as [c|] eqn:Hc.
  2: { rw /leads (create_process_Fault s (or_intror (or_intror Hc))) in Hs'. by destruct Hs' as [[??]|?]. }
  destruct (create_process_table s ks c Ht H1 H2 Hc) as (cur & old & s1 & _ & _ & _ & Hr & Ht1 & _).
  rw /leads Hr in Hs'. destruct Hs' as [[a [= _ <-]]|?]; [|done]. exact (ex_intro _ _ Ht1).
Qed.

#[local] Hint Resolve keeps_create : keeps.

Lemma keeps_fork msg : keeps (handle_fork_message msg).
Proof.
  rw /handle_fork_message. keep_auto.
Qed.

(** The process that [process_create] makes: its state is READY, its
    directory is the root. *)
Definition created (s : kstate) (entry : Z) : process :=
  let g := ks_proc s in
  Process (next_pid g) 0 PROC_READY None (<[ctx_pc := entry]> (replicate 34 0)) 0 (process_list g) 0
    message_queue0 0 (bs "/").

Lemma process_create_Ok s entry :
  let g := ks_proc s in
  let a := ks_heap_pos s in
  let p := PHeap a in
  let cur := match current_process g with None => Some p | c => c end in
  heap_ok s → a + sizeof_process ≤ HEAP_SIZE →
  process_create entry s =
    if next_pid g <? 2 ^ 31 - 1
    then Ok (Some p) (tab (set_heap_pos (a + sizeof_process) s) (ks_out s) (<[p := created s entry]> (procs s))
                        (process_count g) cur (Some p) (next_pid g + 1))
    else Fault.
Proof.
  intros g a p cur Hh Hfit. rw /process_create.
  erewrite bind_Ok. 2: { rw kalloc_spec //. replace (_ <=? _) with true by (fold a; lia). reflexivity. }
  fold a. cbn iota. set s1 := set_heap_pos _ s. fold p. rw {1}[s1]tab_self /=. fold g.
  erewrite bind_Ok; [|apply tab_put]. erewrite bind_Ok; [|apply tab_current].
  erewrite (bind_Ok _ _ _ tt (tab _ _ _ _ cur _ _)); [|rw /cur; by destruct (current_process g)].
  erewrite bind_Ok; [|apply tab_gets]. cbn [process_list].
  erewrite (bind_Ok _ _ _ tt (tab s1 _ (<[p := with_next (process_list g) process0]> _) _ _ (Some p) _)).
  2: { destruct (process_list g); [|apply tab_list]. eapply bind_intro; [apply tab_upd_eq|apply tab_list]. }
  erewrite bind_Ok; [|apply tab_upd_eq]. erewrite bind_Ok; [|apply tab_gets]. cbn [next_pid]. rw /int_succ.
  destruct (next_pid g <? 2 ^ 31 - 1); [|done]. erewrite bind_Ok; [|apply ret_Ok]. erewrite bind_Ok; [|apply tab_next_pid].
  erewrite bind_Ok; [|apply tab_upd_eq]. reflexivity.
Qed.

Lemma process_create_None s entry :
  heap_ok s → HEAP_SIZE < ks_heap_pos s + sizeof_process →
  ∃ out, process_create entry s = Ok None (set_out out s).
Proof.
  intros Hh Hfit. eexists. rw /process_create.
  eapply bind_intro. { rw kalloc_spec //. replace (_ <=? _) with false by lia. reflexivity. }
  reflexivity.
Qed.

Lemma keeps_process_create entry : keeps (process_create entry).
Proof.
  intros s s' [ks Ht] Hs'. pose proof (to_heap_ok _ _ Ht) as Hh. rw /leads in Hs'.
  destruct (decide (ks_heap_pos s + sizeof_process ≤ HEAP_SIZE)) as [Hfit|Hfit].
  2: { destruct (process_create_None s entry Hh) as [out E]; [lia|]. rw E in Hs'.
       destruct Hs' as [[a [= _ <-]]|?]; [|done]. exists ks. by destruct Ht. }
  rw (process_create_Ok s entry Hh Hfit) in Hs'. set g := ks_proc s in Hs'.
  destruct (next_pid g <? 2 ^ 31 - 1); [|by destruct Hs' as [[??]|?]].
  destruct Hs' as [[a [= _ <-]]|?]; [|done].
  set p := PHeap (ks_heap_pos s). exists (p :: ks).
  apply (table_cons s _ ks p (created s entry)); try done; simpl.
  - apply (to_heap _ _ Ht). lia.
  - apply (to_ready _ _ Ht).
  - fold g. destruct (current_process g); [by left|by right].
  - fold g. lia.
  - rw /sizeof_process. lia.
  - rw /sizeof_process. lia.
  - rw /heap_ok /= in Hh |- *. rw /sizeof_process in Hfit |- *. lia.
Qed.

Definition zombie (status : Z) (pr : process) : process := with_exit_status status (with_state PROC_ZOMBIE pr).

Lemma process_exit_Ok s status c pr :
  let g := ks_proc s in
  current_process g = Some c → procs s !! c = Some pr → ready_queue g = None →
  ∃ out, process_exit status s =
    schedule (tab s out (<[c := zombie status pr]> (procs s)) (process_count g) None (process_list g) (next_pid g)).
Proof.
  intros g Hc Hpr Hrq. eexists. rw {1}[s]tab_self /process_exit. fold g. rw Hc.
  erewrite bind_Ok; [|apply tab_current]. cbn iota. erewrite bind_Ok; [|apply tab_get, Hpr].
  erewrite bind_Ok.
  2: { rw /say_exit. eapply bind_intro; [apply tab_puts|]. eapply bind_intro; [apply tab_hex|].
       eapply bind_intro; [apply tab_puts|]. eapply bind_intro; [apply tab_hex|apply tab_puts]. }
  erewrite bind_Ok; [|apply tab_upd, Hpr]. erewrite bind_Ok; [|apply tab_upd_eq].
  erewrite bind_Ok; [|apply tab_gets]. fold g. rw /= Hrq. erewrite bind_Ok; [|reflexivity].
  erewrite bind_Ok; [|apply tab_set_current]. reflexivity.
Qed.

Lemma keeps_process_exit status : keeps (process_exit status).
Proof.
  intros s s' [ks Ht] Hs'. destruct (current_process (ks_proc s)) as [c|] eqn:Hc.
  2: { rw /leads /process_exit in Hs'. erewrite bind_Ok in Hs'; [|reflexivity]. rw Hc in Hs'.
       exists ks. by destruct Hs' as [[a [= _ <-]]|?]. }
  destruct (to_lookup _ _ c Ht (to_current _ _ Ht c Hc)) as [pr Hpr].
  destruct (process_exit_Ok s status c pr Hc Hpr (to_ready _ _ Ht)) as [out E].
  rw /leads E in Hs'. refine (keeps_schedule _ s' _ Hs'). exists ks.
  apply (table_change s); try done; simpl.
  - rw (insert_alter _ _ _ (zombie status) Hpr). by apply same_table_alter.
  - apply (to_cpu _ _ Ht).
  - intros q p Hin [[_ <-]|[Hne Hp]]%lookup_insert_Some Hrun; [done|].
    pose proof (to_running _ _ Ht _ _ Hin Hp Hrun). congruence.
Qed.

(** ** Reachable process tables *)

(** What happens to the table: the kernel runs one of its operations to its
    return or to a context switch, or the running program uses its
    registers.  [switch_to_process], [init_process] and [init_processes], which
    nothing calls, are not among them. *)
Inductive proc_step (s s' : kstate) : Prop :=
| step_process_create entry : leads (process_create entry) s s' → proc_step s s'
| step_fork msg : leads (handle_fork_message msg) s s' → proc_step s s'
| step_create : leads create_process s s' → proc_step s s'
| step_schedule : leads schedule s s' → proc_step s s'
| step_exit status : leads (exit_process status) s s' → proc_step s s'
| step_process_exit status : leads (process_exit status) s s' → proc_step s s'
| step_wait_child : leads wait_for_child s s' → proc_step s s'
| step_wait msg : leads (handle_wait_message msg) s s' → proc_step s s'
| step_exec msg : leads (handle_exec_message msg) s s' → proc_step s s'
| step_user c : cpu_ok c → s' = set_cpu c s → proc_step s s'.

Lemma sched_ok_initial input : sched_ok (kstate0 input).
Proof.
  exists []. constructor; try done.
  - by exists [].
  - by intros k k' p p' ?%not_elem_of_nil.
  - by intros k p ?%not_elem_of_nil.
  - by intros k p ?%not_elem_of_nil.
  - by intros k p (i & [= _ ->] & _)%elem_of_list_to_map_2%list_elem_of_fmap.
  - intros i _. apply not_elem_of_nil.
  - intros a _. apply not_elem_of_nil.
  - intros [|[|[|[|i]]]] Hi; [eexists; reflexivity..|lia].
Qed.

Lemma proc_step_ok s s' : sched_ok s → proc_step s s' → sched_ok s'.
Proof.
  intros Hs [? Hl|? Hl|Hl|Hl|? Hl|? Hl|Hl|? Hl|? Hl|c Hc ->].
  - exact (keeps_process_create _ _ _ Hs Hl).
  - exact (keeps_fork _ _ _ Hs Hl).
  - exact (keeps_create _ _ Hs Hl).
  - exact (keeps_schedule _ _ Hs Hl).
  - exact (keeps_exit _ _ _ Hs Hl).
  - exact (keeps_process_exit _ _ _ Hs Hl).
  - exact (keeps_wait _ _ Hs Hl).
  - exact (keeps_wait_message _ _ _ Hs Hl).
  - exact (keeps_exec_message _ _ _ Hs Hl).
  - destruct Hs as [ks []]. by exists ks.
Qed.

Lemma reachable_ok input s : rtc proc_step (kstate0 input) s → sched_ok s.
Proof.
  intros Hr. remember (kstate0 input) as s0 eqn:E. assert (Hs : sched_ok s0) by (rw E; apply sched_ok_initial).
  clear E. induction Hr as [|s0 s1 s2 Hstep _ IH]; [done|]. apply IH. by apply (proc_step_ok s0).
Qed.

(** C1: whatever sequence of process operations (creation, fork, exec,
    exit, wait, scheduling) the kernel goes through from its initial state,
    the process list ends in NULL, no two processes on it have the same
    number, and at most one of them is RUNNING, the current one. *)
Theorem processes_reachable_ok input s :
  rtc proc_step (kstate0 input) s →
  ∃ l, on_list s l ∧
    NoDup ((λ kp, p_pid kp.2) <$> l) ∧
    (∀ k pr, (k, pr) ∈ l → p_state pr = PROC_RUNNING → current_process (ks_proc s) = Some k) ∧
    (∀ c, current_process (ks_proc s) = Some c → c ∈ l.*1).
Proof.
  intros [ks Ht]%reachable_ok. destruct (to_list _ _ Ht) as (l & Hl & Hks). exists l.
  assert (Hlk : ∀ k pr, (k, pr) ∈ l → k ∈ ks ∧ procs s !! k = Some pr).
  { intros k pr Hin. split; [|by apply (chain_lookup _ _ _ _ _ _ Hl)]. rw -Hks. by apply list_elem_of_fmap_2' with (k, pr). }
  split_and!; [done|..].
  - apply NoDup_fmap_2_strong; [|exact (NoDup_fmap_1 fst l (chain_nodup _ _ _ _ Hl))].
    intros [k p] [k' p'] [Hin Hk]%Hlk [Hin' Hk']%Hlk Heq. simpl in Heq.
    assert (k = k') as <- by exact (to_pid _ _ Ht _ _ _ _ Hin Hin' Hk Hk' Heq). congruence.
  - intros k pr [Hin Hk]%Hlk. by apply (to_running _ _ Ht).
  - rw Hks. apply (to_current _ _ Ht).
Qed.

(** C25: [create_process] on a reachable table.  With a free slot it puts a
    READY child of the current process at the front of the list, with the
    next number, the stack of its slot and a copy of the parent's context;
    nothing else changes.  There is no check of the array's bound: with its
    four slots in use the code writes outside the array. *)
Theorem create_process_correct input s c :
  rtc proc_step (kstate0 input) s →
  let g := ks_proc s in
  current_process g = Some c → next_pid g < 2 ^ 31 - 1 →
  (process_count g < MAX_PROCESSES ∧
   ∃ n cur new l s', create_process s = Ok n s' ∧ procs s !! c = Some cur ∧
     on_list s' ((n, new) :: l) ∧ on_list s l ∧ n = PStatic (Z.to_nat (process_count g)) ∧
     p_pid new = next_pid g ∧ p_parent_pid new = p_pid cur ∧ p_state new = PROC_READY ∧
     p_sp new = stack_top (process_count g) ∧
     p_ctx new = <[ctx_lr := process3]> (<[ctx_sp := p_sp new]> (p_ctx cur)) ∧
     (∀ q, q ≠ n → procs s' !! q = procs s !! q) ∧ process_count (ks_proc s') = process_count g + 1) ∨
  (MAX_PROCESSES ≤ process_count g ∧ create_process s = Fault).
Proof.
  intros [ks Ht]%reachable_ok g Hc Hpid.
  destruct (decide (process_count g < MAX_PROCESSES)) as [Hcnt|Hcnt]; [left|right].
  - split; [done|]. destruct (create_process_table s ks c Ht Hcnt Hpid Hc)
      as (cur & old & s' & Hcur & Hold & Hn & Hr & Ht' & Hm & Hcount & _).
    destruct (to_list _ _ Ht) as (l & Hl & Hks). destruct (to_list _ _ Ht') as ([|[n new] l'] & Hl' & Hks'); [done|].
    injection Hks' as -> Hks'. destruct Hl' as (Hhead & Hnew & Htail). rw Hm lookup_insert_eq in Hnew. injection Hnew as <-.
    eexists _, cur, (child_of s cur old), l, s'. split_and!; [exact Hr|done|..]; try done.
    + rw /on_list Hhead /=. split_and!; [done|by rw Hm lookup_insert_eq|].
      rw Hm. apply chain_insert_ne; [by rw Hks|exact Hl].
    + intros q Hq. rw Hm lookup_insert_ne; [by apply not_eq_sym|done].
  - split; [lia|]. apply create_process_Fault. left. fold g. lia.
Qed.

(** Where a new process starts.  The context switch loads x30 and the
    stack pointer from words 11 and 12 of the context, but
    [create_process] stores the entry point and the stack of the child in
    words 2 and 1, the fields [lr] and [sp] of [context_t]: they reach x21
    and x20, and the child returns to whatever its parent's context held,
    on its parent's stack. *)
Theorem new_process_entry s cur old :
  ctx_ok cur →
  let r := load_regs (p_ctx (child_of s cur old)) in
  cpu_x19_30 r !! 11%nat = p_ctx cur !! 11%nat ∧
  Some (cpu_sp r) = p_ctx cur !! 12%nat ∧
  cpu_x19_30 r !! 1%nat = Some (stack_top (process_count (ks_proc s))) ∧
  cpu_x19_30 r !! 2%nat = Some process3.
Proof.
  destruct cur as [? ? ? ? ctx]. rw /ctx_ok /=. intros Hlen.
  do 13 (destruct ctx as [|? ctx]; [discriminate Hlen|]). done.
Qed.
End Table.

(** ** Fairness *)

(** The first two processes of the list are [a] and [b]; one of them runs
    and the other is READY. *)
Definition pingpong (a b : pptr) (s : kstate) : Prop :=
  ∃ pa pb l, on_list s ((a, pa) :: (b, pb) :: l) ∧
    (current_process (ks_proc s) = Some a ∧ p_state pa = PROC_RUNNING ∧ p_state pb = PROC_READY ∨
     current_process (ks_proc s) = Some b ∧ p_state pa = PROC_READY ∧ p_state pb = PROC_RUNNING).

(** The scheduler runs, or the running process uses its registers. *)
Definition sched_run (s s' : kstate) : Prop := leads schedule s s' ∨ ∃ c, s' = set_cpu c s.

Lemma rescheduled_link m c cur k q pr :
  m !! q = Some pr → ∃ pr', rescheduled m c cur k !! q = Some pr' ∧ p_next pr' = p_next pr.
Proof.
  intros Hq. rw /rescheduled. destruct cur as [p|]; rw !lookup_alter; repeat case_decide; subst; rw Hq; eexists; split;
    try reflexivity; by rw /= (proj1 (proj2 (yielded_ctx _))).
Qed.

Lemma pair_keys {A B} (l : list (A * B)) a b ks :
  l.*1 = a :: b :: ks → ∃ pa pb l', l = (a, pa) :: (b, pb) :: l'.
Proof. destruct l as [|[? pa] [|[? pb] l]]; simpl; intros [=]; subst. by exists pa, pb, l. Qed.

(** One switch, from [x] to [y]. *)
Lemma switch_pair s l x y px py :
  on_list s l → list_find is_ready l = Some (y, py) → current_process (ks_proc s) = Some x → x ≠ y →
  procs s !! x = Some px → p_state px = PROC_RUNNING →
  ∃ s' l', schedule s = Away s' ∧ on_list s' l' ∧ l'.*1 = l.*1 ∧ current_process (ks_proc s') = Some y ∧
    (∀ p, (x, p) ∈ l' → p_state p = PROC_READY) ∧ (∀ p, (y, p) ∈ l' → p_state p = PROC_RUNNING).
Proof.
  intros Hl Hf Hc Hne Hx Hrun. pose proof (list_find_lookup _ _ _ _ _ Hl Hf) as Hy.
  eexists. rw (schedule_Ok _ _ _ _ Hl Hf); [intros c; rw Hc; intros [= <-]; by exists px|].
  rw Hc bool_decide_false; [congruence|]. set s' := set_cpu _ _.
  destruct (chain_mono p_next (procs s) (procs s') (process_list (ks_proc s)) l) as (l' & Hl' & Hk).
  { intros k p Hk. by apply rescheduled_link. } { exact Hl. }
  exists l'. split_and!; [reflexivity|exact Hl'|done|done|..].
  - intros p Hp. apply (chain_lookup _ _ _ _ _ _ Hl') in Hp. rw /= (rescheduled_prev _ _ _ _ _ Hne Hx) in Hp.
    injection Hp as <-. by rw /= /yielded bool_decide_true.
  - intros p Hp. apply (chain_lookup _ _ _ _ _ _ Hl') in Hp.
    rw /= (rescheduled_next _ _ (Some x) _ py (λ E, Hne (f_equal (default x) E)) Hy) in Hp. by injection Hp as <-.
Qed.

Lemma pingpong_schedule a b s : a ≠ b → pingpong a b s → ∃ s', schedule s = Away s' ∧ pingpong a b s'.
Proof.
  intros Hab (pa & pb & l & Hl & Hst). pose proof Hl as (_ & Ha & _ & Hb & _).
  destruct Hst as [(Hc & H1 & H2)|(Hc & H1 & H2)].
  - destruct (switch_pair s _ a b pa pb Hl) as (s' & l' & Hs & Hl' & Hk & Hc' & Hx & Hy); try done.
    { by rw /list_find /= /is_ready H1 H2. }
    destruct (pair_keys _ _ _ _ Hk) as (qa & qb & l2 & ->). exists s'. split; [done|]. exists qa, qb, l2. split; [done|].
    right. split_and!; [done|apply Hx; by left|apply Hy; right; by left].
  - destruct (switch_pair s _ b a pb pa Hl) as (s' & l' & Hs & Hl' & Hk & Hc' & Hx & Hy); try done.
    { by rw /list_find /= /is_ready H1. } { by apply not_eq_sym. }
    destruct (pair_keys _ _ _ _ Hk) as (qa & qb & l2 & ->). exists s'. split; [done|]. exists qa, qb, l2. split; [done|].
    left. split_and!; [done|apply Hy; by left|apply Hx; right; by left].
Qed.

(** C39: the scheduler always starts from the head of the list, so it is not
    fair: while the first two processes of the list are able to run, it
    alternates between them for ever, and no other process, READY or not, is
    ever chosen. *)
Theorem schedule_starves a b s s' :
  a ≠ b → pingpong a b s → rtc sched_run s s' →
  (∃ s'', schedule s' = Away s'') ∧
  ∀ q, q ≠ a → q ≠ b → current_process (ks_proc s') ≠ Some q.
Proof.
  intros Hab Hp Hr. assert (pingpong a b s') as Hp'.
  { induction Hr as [|s0 s1 s2 [Hs|[c ->]] _ IH]; [done|..].
    - apply IH. destruct (pingpong_schedule a b s0 Hab Hp) as (s1' & E & Hp1). rw /leads E in Hs.
      by destruct Hs as [[??]|[= <-]].
    - apply IH. exact Hp. }
  split; [destruct (pingpong_schedule a b s' Hab Hp') as (s2 & E & _); by exists s2|].
  destruct Hp' as (pa & pb & l & _ & [[-> _]|[-> _]]); congruence.
Qed.

(** ** Exit and wait *)

Section ExitWait.
Context `{LinkMap}.

(** Waking a process that waits for its child. *)
Definition woken (pr : process) : process :=
  if bool_decide (p_state pr = PROC_BLOCKED) then with_state PROC_READY pr else pr.

(** The state in which [exit_process] calls the scheduler. *)
Lemma exit_process_Ok s status c pr l :
  let g := ks_proc s in
  current_process g = Some c → procs s !! c = Some pr → on_list s l →
  let m := <[c := zombie status pr]> (procs s) in
  ∃ out l', exit_process status s =
    schedule (tab s out (match list_find (λ p, p_pid p =? p_parent_pid pr) l' with
                         | Some (q, _) => alter woken q m
                         | None => m
                         end) (process_count g) (Some c) (process_list g) (next_pid g)) ∧
    l' = replace_at c (zombie status pr) l.
Proof.
  intros g Hc Hpr Hl m. eexists _, _. rw {1}[s]tab_self /exit_process. fold g. rw Hc. split; [|reflexivity].
  erewrite bind_Ok; [|apply tab_current]. erewrite bind_Ok; [|apply ret_Ok]. erewrite bind_Ok; [|apply tab_get, Hpr].
  erewrite bind_Ok.
  2: { rw /say_exit. eapply bind_intro; [apply tab_puts|]. eapply bind_intro; [apply tab_hex|].
       eapply bind_intro; [apply tab_puts|]. eapply bind_intro; [apply tab_hex|apply tab_puts]. }
  erewrite bind_Ok; [|apply tab_upd, Hpr]. erewrite bind_Ok; [|apply tab_upd_eq].
  erewrite bind_Ok; [|apply tab_get, lookup_insert_eq].
  change (with_exit_status status (with_state PROC_ZOMBIE pr)) with (zombie status pr). fold m.
  set l' := replace_at c (zombie status pr) l. set t := tab _ _ _ _ _ _ _.
  assert (Hl' : on_list t l') by by apply (chain_update _ _ _ _ _ pr).
  rw (bind_Ok _ _ _ _ _ (find_in_list_Ok t _ l' Hl')).
  destruct (list_find _ l') as [[q pq]|] eqn:Hf; cbn; [|by erewrite bind_Ok; [|apply ret_Ok]].
  pose proof (list_find_lookup _ _ _ _ _ Hl' Hf) as Hq. rw -(insert_alter m q pq woken Hq).
  erewrite bind_Ok; [reflexivity|]. erewrite bind_Ok; [|apply tab_get, Hq]. rw /woken.
  case_bool_decide; [apply tab_put|]. by rw (insert_id _ _ _ Hq).
Qed.

Lemma list_find_pid s ks l q pq v :
  table_ok s ks → on_list s l → (q, pq) ∈ l → p_pid pq = v → list_find (λ p, p_pid p =? v) l = Some (q, pq).
Proof.
  intros Ht Hl Hin <-.
  assert (Hks : ks = l.*1).
  { destruct (to_list _ _ Ht) as (l2 & Hl2 & <-). by rw (chain_det _ _ _ _ _ Hl2 Hl). }
  destruct (list_find _ l) as [[k p]|] eqn:Hf.
  - apply list_find_Some in Hf as (Hp & l1 & l2 & E & _). apply Z.eqb_eq in Hp.
    assert (Hk : (k, p) ∈ l) by (rw E; apply elem_of_app; right; by left).
    assert (Hkey : ∀ x y, (x, y) ∈ l → x ∈ ks ∧ procs s !! x = Some y).
    { intros x y Hxy. rw Hks. split; [by apply list_elem_of_fmap_2' with (x, y)|by apply (chain_lookup _ _ _ _ _ _ Hl)]. }
    destruct (Hkey _ _ Hin) as [H1 H2]. destruct (Hkey _ _ Hk) as [H3 H4].
    assert (k = q) as -> by exact (to_pid _ _ Ht _ _ _ _ H3 H1 H4 H2 Hp). congruence.
  - apply list_find_None in Hf. rw Forall_forall in Hf. apply Hf in Hin. simpl in Hin. lia.
Qed.

(** [find_process] of a number and the waking of what it finds, as an update of
    every process. *)
Lemma wake_parent s ks l v :
  table_ok s ks → on_list s l →
  ∀ k, (match list_find (λ p, p_pid p =? v) l with
         | Some (q, _) => alter woken q (procs s)
         | None => procs s
         end) !! k =
        (λ pk, if bool_decide (k ∈ l.*1 ∧ p_pid pk = v) then woken pk else pk) <$> procs s !! k.
Proof.
  intros Ht Hl k. destruct (procs s !! k) as [pk|] eqn:Hp; simpl.
  2: { destruct (list_find _ l) as [[q pq]|]; [|done]. destruct (decide (q = k)) as [->|];
       [by rw lookup_alter_eq Hp|by rw lookup_alter_ne]. }
  case_bool_decide as Hd.
  - destruct Hd as [Hin Hv]. apply list_elem_of_fmap in Hin as ([k' pk'] & Hk & Hin). simpl in Hk. subst k'.
    pose proof (chain_lookup _ _ _ _ _ _ Hl Hin) as Hp'. rw Hp in Hp'. injection Hp' as <-.
    rw (list_find_pid s ks l k pk v Ht Hl Hin Hv) lookup_alter_eq. by rw Hp.
  - destruct (list_find _ l) as [[q pq]|] eqn:Hf; [|done].
    pose proof (list_find_lookup _ _ _ _ _ Hl Hf) as Hq. apply list_find_Some in Hf as (Hv & l1 & l2 & E & _).
    destruct (decide (q = k)) as [->|]; [|by rw lookup_alter_ne]. destruct Hd. rw Hp in Hq. injection Hq as ->.
    split; [|by apply Z.eqb_eq]. rw E fmap_app. apply elem_of_app. right. by left.
Qed.

(** C26: [exit_process] on a reachable table: the current process becomes a
    ZOMBIE that keeps its exit status and its number; of the others, the one
    on the list whose number is that of the parent becomes READY if it is
    BLOCKED (waiting), and none changes otherwise, in particular when no
    process on the list is the parent; then the scheduler runs. *)
Theorem exit_process_correct input s status c pr l :
  rtc proc_step (kstate0 input) s →
  current_process (ks_proc s) = Some c → procs s !! c = Some pr → on_list s l →
  ∃ s1, exit_process status s = schedule s1 ∧ current_process (ks_proc s1) = Some c ∧
    (∃ pr', procs s1 !! c = Some pr' ∧ p_state pr' = PROC_ZOMBIE ∧ p_exit_status pr' = status ∧ p_pid pr' = p_pid pr) ∧
    ∀ k, k ≠ c → procs s1 !! k =
      (λ pk, if bool_decide (k ∈ l.*1 ∧ p_pid pk = p_parent_pid pr ∧ p_state pk = PROC_BLOCKED)
             then with_state PROC_READY pk else pk) <$> procs s !! k.
Proof.
  intros [ks Ht]%reachable_ok Hc Hpr Hl.
  destruct (exit_process_Ok s status c pr l Hc Hpr Hl) as (out & l' & E & Hl').
  set m := <[c := zombie status pr]> (procs s) in E.
  set s0 := set_procs (alter (zombie status) c (procs s)) s.
  assert (Ht0 : table_ok s0 ks) by (apply table_alter; [done|]; split; [done|by right]).
  assert (Hm : procs s0 = m) by by rw /m (insert_alter _ _ _ (zombie status) Hpr).
  assert (Hl0 : on_list s0 l') by (rw /on_list Hm Hl'; by apply (chain_update _ _ _ _ _ pr)).
  pose proof (wake_parent s0 ks l' (p_parent_pid pr) Ht0 Hl0) as Hwake. rw Hm in Hwake.
  eexists. split; [exact E|]. split; [done|]. cbn [ks_proc procs tab set_proc set_procs].
  assert (Hk : l'.*1 = l.*1) by (rw Hl'; apply replace_at_keys). rw Hk in Hwake.
  split.
  - exists (zombie status pr). split; [|done]. etransitivity; [apply Hwake|]. rw lookup_insert_eq /=. f_equal.
    rw /woken. by destruct (bool_decide _).
  - intros k Hkc. etransitivity; [apply Hwake|]. rw lookup_insert_ne; [by apply not_eq_sym|].
    destruct (procs s !! k) as [pk|]; [|done]. simpl. f_equal. rw /woken. repeat case_bool_decide; try done; exfalso; tauto.
Qed.

(** C27: [wait]: the first ZOMBIE child of the current process on the list is
    reaped (it becomes DEAD, and its number and exit status are returned in
    the message); without one the caller is BLOCKED and the scheduler
    runs. *)
Theorem wait_message_correct s l c cur msg :
  on_list s l → current_process (ks_proc s) = Some c → procs s !! c = Some cur →
  match list_find (zombie_child (p_pid cur)) l with
  | Some (k, pr) =>
      handle_wait_message msg s =
        Ok (0, msg_with_pid (p_pid pr) (msg_with_status (p_exit_status pr) msg))
          (set_procs (<[k := with_state PROC_DEAD pr]> (procs s)) s) ∧
      p_parent_pid pr = p_pid cur ∧ p_state pr = PROC_ZOMBIE
  | None =>
      handle_wait_message msg s =
        (schedule;; mret (0, msg_with_status 0 msg))
          (set_procs (<[c := with_state PROC_BLOCKED cur]> (procs s)) s)
  end.
Proof.
  intros Hl Hc Hcur.
  assert (E : handle_wait_message msg s =
    match fst <$> list_find (zombie_child (p_pid cur)) l with
    | Some p => pr ← get_proc p; put_proc p (with_state PROC_DEAD pr);;
                mret (0, msg_with_pid (p_pid pr) (msg_with_status (p_exit_status pr) msg))
    | None => upd_proc c (with_state PROC_BLOCKED);; schedule;; mret (0, msg_with_status 0 msg)
    end s).
  { rw /handle_wait_message. erewrite bind_Ok; [|reflexivity]. rw Hc. erewrite bind_Ok; [|apply ret_Ok].
    rw (bind_Ok _ _ _ _ _ (get_proc_Ok _ _ _ Hcur)). by rw (bind_Ok _ _ _ _ _ (find_in_list_Ok _ _ _ Hl)). }
  rw E. destruct (list_find _ l) as [[k pr]|] eqn:Hf; cbn.
  - pose proof (list_find_lookup _ _ _ _ _ Hl Hf) as Hk. apply list_find_Some in Hf as [Hz _].
    rw /zombie_child in Hz. zbool. rw (bind_Ok _ _ _ _ _ (get_proc_Ok _ _ _ Hk)).
    split_and!; [reflexivity|done|by eapply bool_decide_eq_true_1].
  - by rw (bind_Ok _ _ _ _ _ (upd_proc_Ok _ _ _ _ Hcur)).
Qed.
End ExitWait.

(** ** Example runs *)

Section Examples.

#[local] Instance example_link : LinkMap := {| process_stacks := 0x40010000; process3 := 0x40001234 |}.

(** The state that code leads to. *)
Definition run {A} (m : K A) (s : kstate) : kstate :=
  match m s with Ok _ s' | Away s' => s' | _ => s end.

Definition returns {A} (m : K A) (s : kstate) : bool :=
  match m s with Ok _ _ | Away _ => true | _ => false end.

Lemma run_Ok {A} (m : K A) s a s' : m s = Ok a s' → run m s = s'.
Proof. rw /run. by intros ->. Qed.

Lemma leads_run {A} (m : K A) s : returns m s = true → leads m s (run m s).
Proof. rw /returns /leads /run. destruct (m s) as [a s'| | |s'|]; try done; [left; by exists a|by right]. Qed.

Lemma leads_to {A} (m : K A) s s' : s' = run m s → returns m s = true → leads m s s'.
Proof. intros ->. apply leads_run. Qed.

(** The list from a pointer on. *)
Fixpoint walk (fuel : nat) (m : gmap pptr process) (p : option pptr) : list (pptr * process) :=
  match fuel, p with
  | S fuel, Some q => match m !! q with Some pr => (q, pr) :: walk fuel m (p_next pr) | None => [] end
  | _, _ => []
  end.

Definition the_list (s : kstate) : list (pptr * process) := walk 8 (procs s) (process_list (ks_proc s)).

Fixpoint walk_ends (fuel : nat) (m : gmap pptr process) (p : option pptr) : bool :=
  match fuel, p with
  | _, None => true
  | S fuel, Some q => match m !! q with Some pr => walk_ends fuel m (p_next pr) | None => false end
  | O, Some _ => false
  end.

Lemma walk_on_list s : walk_ends 8 (procs s) (process_list (ks_proc s)) = true → on_list s (the_list s).
Proof.
  rw /on_list /the_list. generalize 8%nat. intros n. generalize (process_list (ks_proc s)).
  induction n as [|n IH]; intros [q|]; simpl; try done.
  destruct (procs s !! q) as [pr|] eqn:E; [|done]. intros Hw%IH. by split_and!.
Qed.

Lemma state_of_list s l k pr : on_list s l → (k, pr) ∈ l → state_of s k = Some (p_state pr).
Proof. intros Hl Hin. by rw /state_of (chain_lookup _ _ _ _ _ _ Hl Hin). Qed.

(** The first process is created, forks, and waits for its child, which
    exits. *)
Definition demo1 : kstate := run (process_create 0x80000000) (kstate0 []).

Definition demo2 : kstate := run create_process demo1.

Definition demo3 : kstate := run (handle_wait_message message0) demo2.

Definition demo4 : kstate := run (exit_process 42) demo3.

(** Both processes are READY, and the child forks again. *)
Definition demo5 : kstate := run create_process (run schedule demo2).

Lemma demo1_reach : rtc proc_step (kstate0 []) demo1.
Proof. eapply rtc_l; [|reflexivity]. apply (step_process_create _ _ 0x80000000), leads_to; [reflexivity|vm_compute; reflexivity]. Qed.

Lemma demo2_reach : rtc proc_step (kstate0 []) demo2.
Proof. apply (rtc_r _ demo1); [apply demo1_reach|]. apply step_create, leads_to; [reflexivity|vm_compute; reflexivity]. Qed.

Lemma demo3_reach : rtc proc_step (kstate0 []) demo3.
Proof. apply (rtc_r _ demo2); [apply demo2_reach|]. apply (step_wait _ _ message0), leads_to; [reflexivity|vm_compute; reflexivity]. Qed.

Lemma demo4_reach : rtc proc_step (kstate0 []) demo4.
Proof. apply (rtc_r _ demo3); [apply demo3_reach|]. apply (step_exit _ _ 42), leads_to; [reflexivity|vm_compute; reflexivity]. Qed.

Lemma context_switch_roundtrip_witness :
  ∃ s1 s2, context_switch (Some (PStatic 0)) (PStatic 1) (kstate0 []) = Away s1 ∧
    context_switch (Some (PStatic 1)) (PStatic 0) (set_cpu (Cpu (replicate 12 7) 9 0) s1) = Away s2 ∧
    ks_cpu s2 = Cpu (replicate 12 0) 0 0.
Proof.
  destruct (context_switch_roundtrip (kstate0 []) (PStatic 0) (PStatic 1) process0 process0 (Cpu (replicate 12 7) 9 0))
    as (s1 & s2 & H1 & _ & H2 & H3); [discriminate|reflexivity..|]. exists s1, s2. by split_and!.
Defined.

Lemma on_list_demo2 : on_list demo2 (the_list demo2).
Proof. apply walk_on_list. vm_compute. reflexivity. Qed.

Lemma demo5_pingpong : pingpong (PStatic 1) (PStatic 0) demo5.
Proof.
  assert (Hl : on_list demo5 (the_list demo5)) by (apply walk_on_list; vm_compute; reflexivity).
  destruct (pair_keys (the_list demo5) (PStatic 1) (PStatic 0) [PHeap 0]) as (pa & pb & l & E); [vm_compute; reflexivity|].
  rw E in Hl. exists pa, pb, l. split; [exact Hl|]. right.
  assert (H1 : Some (p_state pa) = Some PROC_READY).
  { rw -(state_of_list _ _ _ _ Hl (list_elem_of_here _ _)). vm_compute. reflexivity. }
  assert (H2 : Some (p_state pb) = Some PROC_RUNNING).
  { rw -(state_of_list _ _ _ _ Hl (list_elem_of_further _ _ _ (list_elem_of_here _ _))). vm_compute. reflexivity. }
  split; [vm_compute; reflexivity|]. split; congruence.
Qed.

Lemma schedule_correct_witness :
  ∃ s', schedule demo2 = Away s' ∧ current_process (ks_proc s') = Some (PStatic 0) ∧
        state_of s' (PStatic 0) = Some PROC_RUNNING.
Proof.
  pose proof (schedule_correct demo2 (the_list demo2) on_list_demo2) as H.
  destruct (list_find is_ready (the_list demo2)) as [[k pr]|] eqn:Hf; [|vm_compute in Hf; discriminate Hf].
  assert (k = PStatic 0) as -> by (vm_compute in Hf; congruence).
  destruct H as (s' & H1 & H2 & H3 & _).
  - intros c Hc. vm_compute in Hc. injection Hc as <-. vm_compute. by eexists.
  - exists s'. split; [exact H1|]. split; [exact H2|]. apply H3. vm_compute. discriminate.
Defined.

Lemma processes_reachable_ok_witness : ∃ l, on_list demo4 l ∧ NoDup ((λ kp, p_pid kp.2) <$> l).
Proof.
  destruct (processes_reachable_ok [] demo4 demo4_reach) as (l & H1 & H2 & _). exists l. by split.
Defined.

Lemma create_process_correct_witness :
  ∃ n new l s', create_process demo1 = Ok n s' ∧ on_list s' ((n, new) :: l) ∧ p_pid new = 3 ∧ n = PStatic 0.
Proof.
  destruct (create_process_correct [] demo1 (PHeap 0) demo1_reach) as [H|[H _]].
  - vm_compute. reflexivity.
  - vm_compute. reflexivity.
  - destruct H as (_ & n & cur & new & l & s' & H1 & _ & H2 & _ & H3 & H4 & _).
    exists n, new, l, s'. split; [exact H1|]. split; [exact H2|]. split; [rw H4; vm_compute; reflexivity|].
    rw H3. vm_compute. reflexivity.
  - exfalso. vm_compute in H. by apply H.
Defined.

Lemma new_process_entry_witness :
  let r := load_regs (p_ctx (child_of demo1 process0 process0)) in
  cpu_sp r = 0 ∧ cpu_x19_30 r !! 2%nat = Some 0x40001234.
Proof.
  destruct (new_process_entry demo1 process0 process0) as (_ & H1 & _ & H2); [reflexivity|].
  split; [exact (f_equal (default 0) H1)|exact H2].
Defined.

(** The first process is READY but never chosen. *)
Lemma schedule_starves_witness :
  ∃ s'', state_of demo5 (PHeap 0) = Some PROC_READY ∧
    rtc sched_run demo5 (run schedule demo5) ∧ schedule (run schedule demo5) = Away s'' ∧
    current_process (ks_proc (run schedule demo5)) ≠ Some (PHeap 0).
Proof.
  assert (Hr : rtc sched_run demo5 (run schedule demo5)).
  { apply rtc_once. left. apply leads_run. vm_compute. reflexivity. }
  destruct (schedule_starves (PStatic 1) (PStatic 0) demo5 (run schedule demo5)) as [[s'' H1] H2].
  - discriminate.
  - exact demo5_pingpong.
  - exact Hr.
  - exists s''. split; [vm_compute; reflexivity|]. split; [exact Hr|]. split; [exact H1|]. apply H2; discriminate.
Defined.

Lemma on_list_demo3 : on_list demo3 (the_list demo3).
Proof. apply walk_on_list. vm_compute. reflexivity. Qed.

Lemma on_list_demo4 : on_list demo4 (the_list demo4).
Proof. apply walk_on_list. vm_compute. reflexivity. Qed.

(** The parent waits when its child exits with status 42; the first process,
    which has no parent on the list, exits while its child is READY. *)
Lemma exit_process_correct_witness :
  (∃ s1, exit_process 42 demo3 = schedule s1 ∧ state_of s1 (PStatic 0) = Some PROC_ZOMBIE ∧
         state_of demo3 (PHeap 0) = Some PROC_BLOCKED ∧ state_of s1 (PHeap 0) = Some PROC_READY) ∧
  (∃ s1, exit_process 1 demo2 = schedule s1 ∧ state_of s1 (PHeap 0) = Some PROC_ZOMBIE ∧
         procs s1 !! PStatic 0 = procs demo2 !! PStatic 0).
Proof.
  split.
  - destruct (procs demo3 !! PStatic 0) as [pr|] eqn:Hpr; [|vm_compute in Hpr; discriminate Hpr].
    destruct (exit_process_correct [] demo3 42 (PStatic 0) pr (the_list demo3) demo3_reach)
      as (s1 & H1 & _ & (pr2 & H2 & H3 & _) & H4); [vm_compute; reflexivity|exact Hpr|exact on_list_demo3|].
    exists s1. split; [exact H1|]. split; [by rw /state_of H2 /= H3|]. split; [vm_compute; reflexivity|].
    rw /state_of H4; [discriminate|]. assert (pr = default pr (procs demo3 !! PStatic 0)) as -> by (by rw Hpr).
    clear. vm_compute. reflexivity.
  - destruct (procs demo2 !! PHeap 0) as [pr|] eqn:Hpr; [|vm_compute in Hpr; discriminate Hpr].
    destruct (exit_process_correct [] demo2 1 (PHeap 0) pr (the_list demo2) demo2_reach)
      as (s1 & H1 & _ & (pr2 & H2 & H3 & _) & H4); [vm_compute; reflexivity|exact Hpr|exact on_list_demo2|].
    exists s1. split; [exact H1|]. split; [by rw /state_of H2 /= H3|].
    rw H4; [discriminate|]. assert (pr = default pr (procs demo2 !! PHeap 0)) as -> by (by rw Hpr).
    clear. vm_compute. reflexivity.
Defined.

(** The parent then collects the number and the status of its child. *)
Lemma wait_message_correct_witness :
  ∃ s', handle_wait_message message0 demo4 = Ok (0, msg_with_pid 3 (msg_with_status 42 message0)) s'.
Proof.
  destruct (procs demo4 !! PHeap 0) as [cur|] eqn:Hcur; [|vm_compute in Hcur; discriminate Hcur].
  assert (Hc : current_process (ks_proc demo4) = Some (PHeap 0)) by (vm_compute; reflexivity).
  pose proof (wait_message_correct demo4 (the_list demo4) (PHeap 0) cur message0 on_list_demo4 Hc Hcur) as W.
  assert (P : p_pid cur = 2).
  { assert (Q : (p_pid <$> procs demo4 !! PHeap 0) = Some 2) by (vm_compute; reflexivity).
    rw Hcur in Q. injection Q as Q. exact Q. }
  rw P in W.
  assert (F : (λ kp, (p_pid kp.2, p_exit_status kp.2)) <$> list_find (zombie_child 2) (the_list demo4) = Some (3, 42))
    by (vm_compute; reflexivity).
  destruct (list_find (zombie_child 2) (the_list demo4)) as [[k pr]|]; [|discriminate F].
  cbn in F. injection F as F1 F2. destruct W as [W _]. rw F1 F2 in W. eexists. exact W.
Defined.
End Examples.
