(* ===== verification/Message.v ===== *)
(** * Message: the message layer of [src/src/kernel/message.c]

    Kernel services are requested by messages: [send_message] dispatches on
    the type.  A process also has a ring buffer of messages
    ([queue_message], [receive_message]).  [load_program] and [exec_process]
    of [src/src/kernel/process.c] are clients of [send_message] and are
    modelled here. *)

From stdpp Require Import base numbers list gmap strings.
From Corelib Require Import ssreflect.
From S2P Require Import Prelude Chain CString State Kmalloc Uart Paths Ramfs Abyss Vfs VfsLaws VfsSpec VfsFiles Namespace Process.

Open Scope Z_scope.
Open Scope general_if_scope.

(** ** Message types and fields *)

Definition MSG_OPEN : Z := 1.
Definition MSG_READ : Z := 2.
Definition MSG_CLOSE : Z := 4.
Definition MSG_BIND : Z := 6.
Definition MSG_FORK : Z := 8.
Definition MSG_EXEC : Z := 9.
Definition MSG_WAIT : Z := 10.
Definition MSG_PIPE : Z := 11.
Definition MSG_READ_DIR : Z := 12.
Definition MSG_CREATE : Z := 13.
Definition MSG_MKDIR : Z := 14.
Definition MSG_GETCWD : Z := 15.
Definition MSG_CHDIR : Z := 16.
Definition MSG_COPY : Z := 17.
Definition MSG_REMOVE : Z := 18.
Definition MSG_MOVE : Z := 19.
Definition MSG_UNBIND : Z := 20.
Definition MSG_PUTC : Z := 21.
Definition MSG_GETC : Z := 22.
Definition MSG_PUTS : Z := 23.
Definition MSG_NONBLOCK : Z := 1.

Definition msg_with_fd (v : Z) (m : message) : message :=
  Message (m_type m) (m_path m) (m_argv m) (m_data m) (m_size m) (m_flags m) v (m_pid m) (m_status m) (m_entry m)
    (m_dirents m) (m_dirent_count m) (m_character m) (m_string m).

Definition msg_with_data (d : option buffer) (size : Z) (m : message) : message :=
  Message (m_type m) (m_path m) (m_argv m) d size (m_flags m) (m_fd m) (m_pid m) (m_status m) (m_entry m)
    (m_dirents m) (m_dirent_count m) (m_character m) (m_string m).

Definition msg_with_type (v : Z) (m : message) : message :=
  Message v (m_path m) (m_argv m) (m_data m) (m_size m) (m_flags m) (m_fd m) (m_pid m) (m_status m) (m_entry m)
    (m_dirents m) (m_dirent_count m) (m_character m) (m_string m).

Definition msg_with_character (v : Z) (m : message) : message :=
  Message (m_type m) (m_path m) (m_argv m) (m_data m) (m_size m) (m_flags m) (m_fd m) (m_pid m) (m_status m)
    (m_entry m) (m_dirents m) (m_dirent_count m) v (m_string m).

(** A copy of [src] to the start of the buffer that [data] points at:
    undefined for a null pointer and beyond the end.  A buffer of directory
    entries is not used for bytes. *)
Definition copy_out (src : list Z) (data : option buffer) : K (option buffer) :=
  match data with
  | Some (Bytes l) =>
      if zlen src <=? zlen l then mret (Some (Bytes (splice l 0 src))) else fault
  | _ => fault
  end.

(** The text at [(char * )msg->data]; undefined without a terminator. *)
Fixpoint text_at (l : list Z) : option str :=
  match l with
  | [] => None
  | b :: l => if b =? 0 then Some [] else cons b <$> text_at l
  end.

Definition data_text (data : option buffer) : K str :=
  match data with Some (Bytes l) => unwrap (text_at l) | _ => fault end.

(** ** The message queue *)

Definition with_queue (q : message_queue) (p : process) : process :=
  Process (p_pid p) (p_parent_pid p) (p_state p) (p_ns_mounts p) (p_ctx p) (p_sp p) (p_next p) (p_exit_status p)
    q (p_msg_blocked p) (p_cwd p).

Definition with_blocked (v : Z) (p : process) : process :=
  Process (p_pid p) (p_parent_pid p) (p_state p) (p_ns_mounts p) (p_ctx p) (p_sp p) (p_next p) (p_exit_status p)
    (p_msg_queue p) v (p_cwd p).

Definition with_pcwd (v : str) (p : process) : process :=
  Process (p_pid p) (p_parent_pid p) (p_state p) (p_ns_mounts p) (p_ctx p) (p_sp p) (p_next p) (p_exit_status p)
    (p_msg_queue p) (p_msg_blocked p) v.

Definition in_queue (i : Z) : bool := (0 <=? i) && (i <? MAX_MESSAGES).

Definition queue_message (proc : pptr) (msg : message) : K Z :=
  pr ← get_proc proc;
  let q := p_msg_queue pr in
  if MAX_MESSAGES <=? q_count q then mret (-1)
  else
    (if in_queue (q_tail q) then mret tt else fault);;
    let q := MsgQueue (<[Z.to_nat (q_tail q) := msg]> (q_messages q)) (q_head q)
               ((q_tail q + 1) `rem` MAX_MESSAGES) (q_count q + 1) in
    upd_proc proc (with_queue q);;
    upd_proc proc (λ p, if negb (p_msg_blocked p =? 0) then with_blocked 0 p else p);;
    mret 0.

Section Link.
Context `{LinkMap}.

(** The return value, and the message after the call. *)
Definition receive_message (msg : message) : K (Z * message) :=
  o ← get_current_process; c ← unwrap o; pr ← get_proc c;
  let q := p_msg_queue pr in
  if q_count q =? 0 then
    (if Z.land (m_flags msg) MSG_NONBLOCK =? 0 then
       upd_proc c (with_blocked 1);; schedule
     else mret tt);;
    mret (-1, msg)
  else
    (if in_queue (q_head q) then mret tt else fault);;
    m ← unwrap (q_messages q !! Z.to_nat (q_head q));
    upd_proc c (with_queue (MsgQueue (q_messages q) ((q_head q + 1) `rem` MAX_MESSAGES) (q_tail q) (q_count q - 1)));;
    mret (0, m).

(** ** Services *)

Definition send_open (msg : message) : K (Z * message) :=
  path ← unwrap (m_path msg);
  fd ← vfs_open path;
  mret (fd, msg_with_fd fd msg).

(** At most 256 bytes, whatever [msg->size] says. *)
Definition send_read (msg : message) : K (Z * message) :=
  uart_puts (bs "Reading from fd: ");; uart_hex (u64 (m_fd msg));; uart_puts (ln "");;
  '(bytes, buf) ← vfs_read (m_fd msg) 256;
  if 0 <? bytes then
    d ← copy_out (take (Z.to_nat bytes) buf) (m_data msg);
    mret (i32 bytes, msg_with_data d bytes msg)
  else mret (i32 bytes, msg).

Definition send_fork (msg : message) : K (Z * message) :=
  new ← create_process;
  pr ← get_proc new;
  mret (0, msg_with_pid (p_pid pr) msg).

(** One search of [MSG_WAIT] for a zombie child: the message with its
    status.  The child stays a zombie. *)
Definition find_zombie (pid : Z) (text : str) (msg : message) : K (option message) :=
  child ← find_in_list (zombie_child pid);
  match child with
  | None => mret None
  | Some p =>
      pr ← get_proc p;
      uart_puts text;; uart_hex (u64 (p_exit_status pr));; uart_puts (ln "");;
      mret (Some (msg_with_status (p_exit_status pr) msg))
  end.

Definition send_wait (msg : message) : K (Z * message) :=
  o ← get_current_process; c ← unwrap o; cur ← get_proc c;
  uart_puts (bs "Parent (PID ");; uart_hex (u64 (p_pid cur));; uart_puts (ln ") waiting for children");;
  r ← find_zombie (p_pid cur) (bs "Found zombie child, status: ") msg;
  match r with
  | Some msg => mret (0, msg)
  | None =>
      upd_proc c (with_state PROC_BLOCKED);;
      schedule;;
      cur ← get_proc c;
      r ← find_zombie (p_pid cur) (bs "Child exited with status: ") msg;
      match r with
      | Some msg => mret (0, msg)
      | None => mret (-1, msg)
      end
  end.

Definition send_create (msg : message) : K (Z * message) :=
  path ← unwrap (m_path msg);
  fd ← vfs_create path;
  if 0 <=? fd then vfs_close fd;; mret (0, msg_with_fd fd msg) else mret (-1, msg).

Definition send_mkdir (msg : message) : K (Z * message) :=
  path ← unwrap (m_path msg);
  r ← vfs_mkdir path; mret (r, msg).

Definition send_getcwd (msg : message) : K (Z * message) :=
  o ← get_current_process;
  match o with
  | None => mret (-1, msg)
  | Some c =>
      cur ← get_proc c;
      if bool_decide (is_Some (m_data msg)) && (0 <? m_size msg) then
        let cwd_len := zlen (p_cwd cur) in
        if cwd_len <? m_size msg then
          d ← copy_out (p_cwd cur ++ [0]) (m_data msg);
          mret (0, msg_with_data d cwd_len msg)
        else mret (-1, msg)
      else mret (-1, msg)
  end.

(** The path of [MSG_CHDIR] before it is normalised.  [strncpy] cuts an
    absolute path to 255 bytes. *)
Definition chdir_path (cwd path : str) : K str :=
  if default 0 (head path) =? 47 then mret (take 255 path)
  else
    full_path ← strcpy_to VFS_MAX_PATH cwd;
    l ← last_byte full_path;
    full_path ← (if negb (l =? 47) then strcat_to VFS_MAX_PATH full_path (bs "/") else mret full_path);
    strcat_to VFS_MAX_PATH full_path path.

Definition send_chdir (msg : message) : K (Z * message) :=
  o ← get_current_process;
  match o with
  | None => mret (-1, msg_with_status (-1) msg)
  | Some c =>
      cur ← get_proc c;
      path ← unwrap (m_path msg);
      full_path ← chdir_path (p_cwd cur) path;
      full_path ← unwrap (vfs_normalize_path full_path);
      '(count, _) ← vfs_read_dir full_path 1;
      if 0 <=? count then
        upd_proc c (with_pcwd (take 255 full_path));;
        mret (0, msg_with_status 0 msg)
      else mret (-1, msg_with_status (-1) msg)
  end.

(** [int] addition. *)
Definition int_add (x y : Z) : K Z :=
  if (- 2 ^ 31 <=? x + y) && (x + y <=? 2 ^ 31 - 1) then mret (x + y) else fault.

(** The copy loop of [MSG_COPY] and [MSG_MOVE]: the number of bytes copied,
    or nothing after a short write. *)
Fixpoint copy_loop (fuel : nat) (src_fd dst_fd total : Z) : K (option Z) :=
  match fuel with
  | O => nofuel
  | S fuel =>
      '(bytes_read, buffer) ← vfs_read src_fd 1024;
      let bytes_read := i32 bytes_read in
      if 0 <? bytes_read then
        bytes_written ← vfs_write dst_fd buffer bytes_read;
        if negb (bytes_written =? bytes_read) then mret None
        else total ← int_add total bytes_written; copy_loop fuel src_fd dst_fd total
      else mret (Some total)
  end.

Definition send_copy (fuel : nat) (msg : message) : K (Z * message) :=
  match m_path msg, m_data msg with
  | Some src_path, Some _ =>
      src_fd ← vfs_open src_path;
      if src_fd <? 0 then uart_puts (ln "DEBUG: Cannot open source file");; mret (-1, msg)
      else
        dst_path ← data_text (m_data msg);
        dst_fd ← vfs_create dst_path;
        if dst_fd <? 0 then
          uart_puts (ln "DEBUG: Cannot create destination file");; vfs_close src_fd;; mret (-1, msg)
        else
          r ← copy_loop fuel src_fd dst_fd 0;
          match r with
          | None =>
              uart_puts (ln "DEBUG: Write error during copy");; vfs_close src_fd;; vfs_close dst_fd;; mret (-1, msg)
          | Some _ => vfs_close src_fd;; vfs_close dst_fd;; mret (0, msg)
          end
  | _, _ => uart_puts (ln "DEBUG: Missing source or destination path");; mret (-1, msg)
  end.

Definition send_remove (msg : message) : K (Z * message) :=
  match m_path msg with
  | None => uart_puts (ln "DEBUG: No path provided for removal");; mret (-1, msg)
  | Some path =>
      result ← vfs_unlink path;
      if result <? 0 then uart_puts (ln "DEBUG: Failed to remove file");; mret (-1, msg)
      else uart_puts (ln "DEBUG: File removed successfully");; mret (0, msg)
  end.

Definition send_move (fuel : nat) (msg : message) : K (Z * message) :=
  match m_path msg, m_data msg with
  | Some src_path, Some _ =>
      src_fd ← vfs_open src_path;
      if src_fd <? 0 then uart_puts (ln "DEBUG: Cannot open source file for move");; mret (-1, msg)
      else
        dst_path ← data_text (m_data msg);
        dst_fd ← vfs_create dst_path;
        if dst_fd <? 0 then
          uart_puts (ln "DEBUG: Cannot create destination file for move");; vfs_close src_fd;; mret (-1, msg)
        else
          r ← copy_loop fuel src_fd dst_fd 0;
          match r with
          | None =>
              uart_puts (ln "DEBUG: Write error during move");; vfs_close src_fd;; vfs_close dst_fd;;
              vfs_unlink dst_path;; mret (-1, msg)
          | Some total_copied =>
              vfs_close src_fd;; vfs_close dst_fd;;
              unlink_result ← vfs_unlink src_path;
              if unlink_result <? 0 then
                uart_puts (ln "DEBUG: Failed to remove source file after copy");;
                vfs_unlink dst_path;; mret (-1, msg)
              else
                uart_puts (bs "DEBUG: Move completed, bytes moved: ");; uart_hex (u64 total_copied);;
                uart_puts (ln "");; mret (0, msg)
          end
  | _, _ => uart_puts (ln "DEBUG: Missing source or destination path");; mret (-1, msg)
  end.

Definition send_bind (msg : message) : K (Z * message) :=
  match m_path msg, m_data msg with
  | Some source_path, Some _ =>
      target_path ← data_text (m_data msg);
      result ← bind target_path source_path 16;
      if result <? 0 then uart_puts (ln "DEBUG: bind() failed");; mret (-1, msg) else mret (0, msg)
  | _, _ => uart_puts (ln "DEBUG: Missing old or new path for bind");; mret (-1, msg)
  end.

(** Without a path [unbind] gets as far as looking for a current process. *)
Definition send_unbind (msg : message) : K (Z * message) :=
  match m_path msg with
  | Some path => r ← unbind path; mret (r, msg)
  | None => o ← get_current_process;
            match o with
            | None => uart_puts (ln "No current process");; mret (-1, msg)
            | Some _ => fault
            end
  end.

(** The dispatch on [msg->type]; [fuel] bounds the copy loops. *)
Definition send_message (fuel : nat) (msg : message) : K (Z * message) :=
  let t := m_type msg in
  if t =? MSG_OPEN then send_open msg
  else if t =? MSG_READ then send_read msg
  else if t =? MSG_FORK then send_fork msg
  else if t =? MSG_EXEC then r ← handle_exec_message msg; mret (r, msg)
  else if t =? MSG_WAIT then send_wait msg
  else if t =? MSG_PIPE then mret (0, msg)
  else if t =? MSG_READ_DIR then handle_read_dir_message msg
  else if t =? MSG_CREATE then send_create msg
  else if t =? MSG_MKDIR then send_mkdir msg
  else if t =? MSG_GETCWD then send_getcwd msg
  else if t =? MSG_CHDIR then send_chdir msg
  else if t =? MSG_COPY then send_copy fuel msg
  else if t =? MSG_REMOVE then send_remove msg
  else if t =? MSG_MOVE then send_move fuel msg
  else if t =? MSG_BIND then send_bind msg
  else if t =? MSG_UNBIND then send_unbind msg
  else if t =? MSG_PUTC then uart_putc (m_character msg);; mret (0, msg)
  else if t =? MSG_GETC then c ← uart_getc; mret (c, msg_with_character c msg)
  else if t =? MSG_PUTS then string ← unwrap (m_string msg); uart_puts string;; mret (0, msg)
  else mret (-1, msg).

Definition handled_types : list Z :=
  [MSG_OPEN; MSG_READ; MSG_FORK; MSG_EXEC; MSG_WAIT; MSG_PIPE; MSG_PUTC; MSG_GETC; MSG_PUTS].

Definition handle_message (fuel : nat) (msg : message) : K (Z * message) :=
  if bool_decide (m_type msg ∈ handled_types) then send_message fuel msg
  else
    uart_puts (bs "Unknown message type: ");; uart_hex (m_type msg);; uart_puts (ln "");; mret (-1, msg).

(** ** Loading a program *)

(** [code] is the content of the memory at [proc->ctx.pc]; the result has it
    after the call.  The descriptor is taken from [msg.status], which
    [MSG_OPEN] does not set. *)
Definition load_program (fuel : nat) (path : str) (code : list Z) : K (Z * list Z) :=
  let msg := Message MSG_OPEN (Some path) None None 0 0 0 0 0 0 None 0 0 None in
  '(r, msg) ← send_message fuel msg;
  if r <? 0 then mret (-1, code)
  else
    let msg := msg_with_data (Some (Bytes code)) 4096 (msg_with_fd (m_status msg) (msg_with_type MSG_READ msg)) in
    '(r, msg) ← send_message fuel msg;
    let code := match m_data msg with Some (Bytes l) => l | _ => code end in
    if r <? 0 then mret (-1, code)
    else send_message fuel (msg_with_type MSG_CLOSE msg);; mret (0, code).

(** The address of the stack is computed without a check of the index. *)
Definition exec_process (fuel : nat) (path : str) (code : list Z) : K (Z * list Z) :=
  o ← get_current_process;
  c ← unwrap o;
  '(r, code) ← load_program fuel path code;
  if r <? 0 then mret (-1, code)
  else
    g ← gets ks_proc;
    upd_proc c (with_sp (stack_top (process_count g - 1)));;
    upd_proc c (λ p, with_ctx (<[ctx_pc := PROCESS_LOAD_ADDR]> (p_ctx p)) p);;
    mret (0, code).
End Link.
