(* ===== verification/MessageSpec.v ===== *)
(** * MessageSpec: correctness of the message layer

    The ring buffer of a process refines a bounded first-in first-out queue;
    the services that [send_message] implements itself. *)

From stdpp Require Import base numbers list gmap strings.
From Corelib Require Import ssreflect.
From S2P Require Import Prelude Chain CString State Kmalloc Uart Paths Ramfs Abyss Vfs VfsLaws VfsSpec VfsFiles Namespace Process ProcessSpec Message.

Open Scope Z_scope.
Open Scope general_if_scope.

(** ** The ring buffer *)

Definition slot (q : message_queue) (i : nat) : nat := Z.to_nat ((q_head q + Z.of_nat i) `mod` 32).

(** The messages in the order in which they will be received. *)
Definition q_list (q : message_queue) : list message :=
  (λ i, default message0 (q_messages q !! slot q i)) <$> seq 0 (Z.to_nat (q_count q)).

Definition q_ok (q : message_queue) : Prop :=
  length (q_messages q) = 32%nat ∧ 0 ≤ q_head q < 32 ∧ 0 ≤ q_count q ≤ 32 ∧
  q_tail q = (q_head q + q_count q) `mod` 32.

Lemma q_list_length q : q_ok q → zlen (q_list q) = q_count q.
Proof. intros (_ & _ & ? & _). rw length_fmap length_seq. lia. Qed.

Definition q_push (m : message) (q : message_queue) : message_queue :=
  MsgQueue (<[Z.to_nat (q_tail q) := m]> (q_messages q)) (q_head q) ((q_tail q + 1) `rem` MAX_MESSAGES) (q_count q + 1).

Definition q_pop (q : message_queue) : message_queue :=
  MsgQueue (q_messages q) ((q_head q + 1) `rem` MAX_MESSAGES) (q_tail q) (q_count q - 1).

(** Slots at different distances below 32 from the head are different. *)
Lemma slot_inj q i j : (i < 32)%nat → (j < 32)%nat → slot q i = slot q j → i = j.
Proof.
  rw /slot. intros Hi Hj H. apply Z2Nat.inj in H; [|apply Z.mod_pos_bound; lia..].
  pose proof (Z.div_mod (q_head q + Z.of_nat i) 32 ltac:(lia)).
  pose proof (Z.div_mod (q_head q + Z.of_nat j) 32 ltac:(lia)). nia.
Qed.

Lemma slot_lt q i : (slot q i < 32)%nat.
Proof. rw /slot. pose proof (Z.mod_pos_bound (q_head q + Z.of_nat i) 32 ltac:(lia)). lia. Qed.

Lemma q_push_ok m q : q_ok q → q_count q < 32 → q_ok (q_push m q) ∧ q_list (q_push m q) = q_list q ++ [m].
Proof.
  intros (Hl & Hh & Hc & Ht) Hlt.
  assert (Htail : 0 ≤ q_tail q < 32) by (rw Ht; apply Z.mod_pos_bound; lia).
  split.
  - split_and!; simpl; [by rw length_insert|lia..|]. rw /MAX_MESSAGES Z.rem_mod_nonneg; [lia..|].
    rw Ht Zplus_mod_idemp_l. f_equal. lia.
  - rw /q_list /=. replace (Z.to_nat (q_count q + 1)) with (S (Z.to_nat (q_count q))) by lia.
    rw seq_S fmap_app /=. f_equal.
    + apply list_fmap_ext. intros i j [-> Hi]%lookup_seq. rw list_lookup_insert_ne; [|done].
      change (slot (q_push m q) (0 + i)) with (slot q (0 + i)).
      replace (Z.to_nat (q_tail q)) with (slot q (Z.to_nat (q_count q))) by (rw /slot Z2Nat.id; [lia|]; by rw Ht).
      intros E%slot_inj; lia.
    + do 2 f_equal. rw /slot /= Z2Nat.id; [lia|]. rw -Ht list_lookup_insert_eq //. rw Hl. lia.
Qed.

Lemma q_pop_ok q m l :
  q_ok q → q_list q = m :: l →
  q_messages q !! Z.to_nat (q_head q) = Some m ∧ q_ok (q_pop q) ∧ q_list (q_pop q) = l.
Proof.
  intros (Hl & Hh & Hc & Ht). rw /q_list. destruct (Z.to_nat (q_count q)) as [|n] eqn:En; [done|].
  cbn [seq]. rw fmap_cons. intros [= Hm Hrest]. split_and!.
  - rw /slot Z.add_0_r Z.mod_small // in Hm. destruct (lookup_lt_is_Some_2 (q_messages q) (Z.to_nat (q_head q))) as [x Hx]; [lia|].
    by rw Hx in Hm |- *; simpl in Hm; subst.
  - pose proof (Z.mod_pos_bound (q_head q + 1) 32 ltac:(lia)) as Hb.
    rw /q_ok /= /MAX_MESSAGES Z.rem_mod_nonneg; [lia..|]. split_and!; [done|lia..|].
    rw Ht Zplus_mod_idemp_l. f_equal. lia.
  - cbn [q_count q_pop]. replace (Z.to_nat (q_count q - 1)) with n by lia. rw -Hrest -fmap_S_seq -list_fmap_compose.
    apply list_fmap_ext. intros i j _. simpl. do 2 f_equal. rw /slot /= /MAX_MESSAGES Z.rem_mod_nonneg; [lia..|].
    rw Zplus_mod_idemp_l. do 2 f_equal. lia.
Qed.

(** The specification: a queue of at most 32 messages. *)
Inductive queue_op := Put (m : message) | Get.

Definition fifo_step (l : list message) (op : queue_op) (msg : message) : Z * message * list message :=
  match op with
  | Put m => if zlen l <? MAX_MESSAGES then (0, m, l ++ [m]) else (-1, m, l)
  | Get => match l with [] => (-1, msg, []) | m :: l => (0, m, l) end
  end.

Fixpoint fifo_run (l : list message) (ops : list queue_op) (msg : message) : list (Z * message) * list message :=
  match ops with
  | [] => ([], l)
  | op :: ops => let '(r, m, l) := fifo_step l op msg in
                 let '(rs, l) := fifo_run l ops msg in ((r, m) :: rs, l)
  end.

Section Queue.
Context `{LinkMap}.

Definition queue_step (p : pptr) (msg : message) (op : queue_op) : K (Z * message) :=
  match op with
  | Put m => r ← queue_message p m; mret (r, m)
  | Get => receive_message msg
  end.

Fixpoint queue_run (p : pptr) (msg : message) (ops : list queue_op) : K (list (Z * message)) :=
  match ops with
  | [] => mret []
  | op :: ops => r ← queue_step p msg op; rs ← queue_run p msg ops; mret (r :: rs)
  end.

(** The queue of process [p] holds [l], and [p] is the current process. *)
Definition queue_holds (s : kstate) (p : pptr) (l : list message) : Prop :=
  current_process (ks_proc s) = Some p ∧
  ∃ pr, procs s !! p = Some pr ∧ q_ok (p_msg_queue pr) ∧ q_list (p_msg_queue pr) = l.

Lemma queue_message_Ok s p l m :
  queue_holds s p l →
  ∃ s', queue_message p m s = Ok (if zlen l <? MAX_MESSAGES then 0 else -1) s' ∧
        queue_holds s' p (if zlen l <? MAX_MESSAGES then l ++ [m] else l).
Proof.
  intros (Hc & pr & Hp & Hok & <-). rw /queue_message (bind_Ok _ _ _ _ _ (get_proc_Ok _ _ _ Hp)).
  set q := p_msg_queue pr. cbv zeta. fold q in Hok. rw (q_list_length q Hok). rw Z.leb_antisym.
  destruct (q_count q <? MAX_MESSAGES) eqn:E; simpl.
  2: { exists s. split; [done|]. split; [done|]. by exists pr. }
  zbool. rw /MAX_MESSAGES in E. destruct (q_push_ok m q Hok E) as [Hok' Hl'].
  assert (Hin : in_queue (q_tail q) = true).
  { destruct Hok as (_ & _ & _ & Ht). rw /in_queue Ht /MAX_MESSAGES.
    pose proof (Z.mod_pos_bound (q_head q + q_count q) 32 ltac:(lia)). lia. }
  rw Hin. erewrite bind_Ok; [|apply ret_Ok]. rw (bind_Ok _ _ _ _ _ (upd_proc_Ok _ _ _ _ Hp)).
  erewrite bind_Ok; [|apply upd_proc_Ok, lookup_insert_eq]. eexists. split; [reflexivity|]. split; [done|].
  eexists. split; [apply lookup_insert_eq|]. destruct (negb _); by split.
Qed.

Lemma receive_message_Ok s p l msg :
  queue_holds s p l → Z.land (m_flags msg) MSG_NONBLOCK ≠ 0 →
  ∃ s', receive_message msg s = Ok (match l with [] => (-1, msg) | m :: _ => (0, m) end) s' ∧
        queue_holds s' p (tail l).
Proof.
  intros (Hc & pr & Hp & Hok & Hl) Hnb. rw /receive_message.
  erewrite bind_Ok; [|rw /get_current_process /mbind /M_bind /= Hc //]. erewrite bind_Ok; [|apply ret_Ok].
  rw (bind_Ok _ _ _ _ _ (get_proc_Ok _ _ _ Hp)). set q := p_msg_queue pr. cbv zeta. fold q in Hok, Hl.
  pose proof (q_list_length q Hok) as Hlen. rw Hl in Hlen. destruct l as [|m l].
  - replace (q_count q =? 0) with true by (simpl in Hlen; lia). replace (Z.land _ _ =? 0) with false by lia.
    exists s. split; [done|]. split; [done|]. by exists pr.
  - replace (q_count q =? 0) with false by (simpl in Hlen; lia). destruct (q_pop_ok q m l Hok Hl) as (Hm & Hok' & Hl').
    assert (Hin : in_queue (q_head q) = true) by (destruct Hok as (_ & ? & _); rw /in_queue /MAX_MESSAGES; lia).
    rw Hin Hm. erewrite bind_Ok; [|apply ret_Ok]. erewrite bind_Ok; [|apply ret_Ok].
    rw (bind_Ok _ _ _ _ _ (upd_proc_Ok _ _ _ _ Hp)). eexists. split; [reflexivity|]. split; [done|].
    eexists. split; [apply lookup_insert_eq|]. by split.
Qed.

(** C2: the ring buffer of a process refines a first-in first-out queue of
    at most 32 messages: every sequence of [queue_message] and of
    non-blocking [receive_message] calls gives the same return values and
    the same messages, in the same order, as the queue of the
    specification, full and empty cases included. *)
Theorem message_queue_refines s p l msg ops :
  queue_holds s p l → Z.land (m_flags msg) MSG_NONBLOCK ≠ 0 →
  ∃ s', queue_run p msg ops s = Ok (fifo_run l ops msg).1 s' ∧ queue_holds s' p (fifo_run l ops msg).2.
Proof.
  intros Hq Hnb. revert s l Hq. induction ops as [|op ops IH]; intros s l Hq; [by exists s|].
  assert (∃ s1, queue_step p msg op s = Ok (fifo_step l op msg).1 s1 ∧ queue_holds s1 p (fifo_step l op msg).2)
    as (s1 & H1 & Hq1).
  { destruct op as [m|]; simpl.
    - destruct (queue_message_Ok s p l m Hq) as (s1 & E & Hq1). exists s1. rw (bind_Ok _ _ _ _ _ E).
      by destruct (zlen l <? MAX_MESSAGES).
    - destruct (receive_message_Ok s p l msg Hq Hnb) as (s1 & E & Hq1). exists s1. rw E. by destruct l. }
  cbn [queue_run fifo_run]. rw (bind_Ok _ _ _ _ _ H1). destruct (fifo_step l op msg) as [[r m] l1]. simpl in *.
  destruct (IH s1 l1 Hq1) as (s2 & H2 & Hq2). exists s2. rw (bind_Ok _ _ _ _ _ H2).
  by destruct (fifo_run l1 ops msg).
Qed.
End Queue.

(** ** The working directory *)

(** The path that a change of directory names. *)
Definition chdir_target (cwd path : str) : str :=
  if default 0 (head path) =? 47 then path
  else cwd ++ (if default 0 (last cwd) =? 47 then [] else [47]) ++ path.

Lemma chdir_path_Ok (s : kstate) cwd path :
  cwd ≠ [] → zlen (chdir_target cwd path) ≤ 255 → chdir_path cwd path s = Ok (chdir_target cwd path) s.
Proof.
  intros Hne Hlen. rw /chdir_path /chdir_target in Hlen |- *. destruct (default 0 (head path) =? 47).
  - rw take_ge //. lia.
  - destruct (last cwd) as [b|] eqn:El; [|by apply last_None in El].
    rw !length_app in Hlen. rw (bind_Ok _ _ _ _ _ (strcpy_to_Ok VFS_MAX_PATH cwd s ltac:(rw /VFS_MAX_PATH; lia))).
    rw /last_byte El /=. erewrite bind_Ok; [|apply ret_Ok]. simpl in Hlen. destruct (b =? 47); simpl in *.
    + erewrite bind_Ok; [|apply ret_Ok]. apply strcat_to_Ok. rw /VFS_MAX_PATH. lia.
    + rw (bind_Ok _ _ _ _ _ (strcat_to_Ok VFS_MAX_PATH cwd (bs "/") s ltac:(rw /VFS_MAX_PATH; change (length (bs "/")) with 1%nat; lia))).
      rw strcat_to_Ok; [rw length_app /VFS_MAX_PATH; change (length (bs "/")) with 1%nat; lia|]. by rw -app_assoc.
Qed.

Section Services.
Context `{LinkMap}.

(** C29: changing directory.  The path is taken from the working directory
    unless it is absolute, and reduced to normal form (no ".", ".." or empty
    component); when that directory can be listed it becomes the working
    directory of the current process and the service returns 0; otherwise
    it returns -1 and the working directory stays. *)
Theorem chdir_correct fuel s c cur msg path src n d s1 :
  current_process (ks_proc s) = Some c → procs s !! c = Some cur →
  m_type msg = MSG_CHDIR → m_path msg = Some path → p_cwd cur ≠ [] →
  chdir_target (p_cwd cur) path = SLASH :: src → (length src ≤ 254)%nat → Forall good_name (s_split [SLASH] src) →
  let dir := normalize_ref (SLASH :: src) in
  vfs_read_dir dir 1 s = Ok (n, d) s1 →
  send_message fuel msg s =
    if 0 <=? n then Ok (0, msg_with_status 0 msg) (set_procs (<[c := with_pcwd dir cur]> (procs s)) s1)
    else Ok (-1, msg_with_status (-1) msg) s1.
Proof.
  intros Hc Hp Ht Hpath Hcwd Htgt Hlen Hgood dir Hrd. rw /send_message Ht /= /send_chdir.
  erewrite bind_Ok; [|rw /get_current_process /mbind /M_bind /= Hc //]. cbn iota.
  rw (bind_Ok _ _ _ _ _ (get_proc_Ok _ _ _ Hp)) Hpath. erewrite bind_Ok; [|apply ret_Ok].
  pose proof (chdir_path_Ok s (p_cwd cur) path Hcwd) as Hcp. rw Htgt in Hcp.
  rw (bind_Ok _ _ _ _ _ (Hcp ltac:(simpl; lia))). pose proof (normalize_path_ref src Hlen Hgood) as Hn. fold dir in Hn.
  rw Hn. erewrite bind_Ok; [|apply ret_Ok]. rw (bind_Ok _ _ _ _ _ Hrd).
  destruct (0 <=? n); [|done]. pose proof (frame_vfs_read_dir dir 1 _ _ _ Hrd) as (_ & Hproc & _).
  assert (Hp1 : procs s1 !! c = Some cur) by by rw Hproc.
  rw (bind_Ok _ _ _ _ _ (upd_proc_Ok _ _ _ _ Hp1)) Hproc take_ge; [|done].
  apply normalize_path_length in Hn. lia.
Qed.

(** Loading a program.  [load_program] takes the descriptor from
    [msg.status], which the open service leaves 0: whatever descriptor the
    program file was opened at, the bytes loaded (at most 256 of the 4096
    asked for) are those read from descriptor 0. *)
Theorem load_program_reads_fd0 fuel s path code fd s1 n buf s2 :
  vfs_open path s = Ok fd s1 → 0 ≤ fd →
  vfs_read 0 256 (set_out (ks_out s1 ++ crlf (bs "Reading from fd: ") ++ crlf (bs "0x") ++ hex_digits 0 ++ crlf (ln "")) s1)
    = Ok (n, buf) s2 →
  0 < n ≤ 256 → zlen buf = n → n ≤ zlen code →
  load_program fuel path code s = Ok (0, splice code 0 buf) s2.
Proof.
  intros Hopen Hfd Hrd Hn Hbuf Hcode. rw /load_program /send_message /= /send_open.
  erewrite bind_Ok; last first. { erewrite bind_Ok; [|apply ret_Ok]. rw (bind_Ok _ _ _ _ _ Hopen). reflexivity. }
  cbn beta iota. replace (fd <? 0) with false by lia.
  erewrite bind_Ok; last first.
  { rw /= /send_read. do 3 (erewrite bind_Ok; [|reflexivity]). cbn [m_fd msg_with_data msg_with_fd m_status].
    erewrite bind_Ok; last first. { etransitivity; [|exact Hrd]. f_equal. rw !app_assoc. reflexivity. }
    cbv beta iota. replace (0 <? n) with true by lia. cbn [m_data msg_with_data]. rw /copy_out take_ge; [lia|].
    replace (zlen buf <=? zlen code) with true by lia. cbv iota. erewrite bind_Ok; [|apply ret_Ok]. reflexivity. }
  cbv beta iota. rw i32_small; [lia|]. by replace (n <? 0) with false by lia.
Qed.

(** Waiting through [send_message].  A zombie child is reported with its
    exit status, but it is not reaped: no process changes, so that the same
    child is reported by every later wait, and its number is not
    returned. *)
Theorem send_wait_keeps_zombie fuel s l c cur msg k pr :
  on_list s l → current_process (ks_proc s) = Some c → procs s !! c = Some cur →
  m_type msg = MSG_WAIT → list_find (zombie_child (p_pid cur)) l = Some (k, pr) →
  ∃ out, send_message fuel msg s = Ok (0, msg_with_status (p_exit_status pr) msg) (set_out out s).
Proof.
  intros Hl Hc Hcur Ht Hf. pose proof (list_find_lookup _ _ _ _ _ Hl Hf) as Hk. eexists.
  rw /send_message Ht /= /send_wait.
  eapply bind_intro; [rw /get_current_process /mbind /M_bind /= Hc //|]. eapply bind_intro; [apply ret_Ok|].
  eapply bind_intro; [apply (get_proc_Ok _ _ _ Hcur)|]. do 3 (eapply bind_intro; [reflexivity|]). set s1 := set_out _ _.
  eapply (bind_intro _ _ _ (Some (msg_with_status (p_exit_status pr) msg))); [|apply ret_Ok].
  rw /find_zombie (bind_Ok _ _ _ _ _ (find_in_list_Ok s1 _ l Hl)) Hf. cbn.
  eapply bind_intro; [apply (get_proc_Ok s1 k pr Hk)|]. do 3 (eapply bind_intro; [reflexivity|]). reflexivity.
Qed.
End Services.

(** ** Witnesses *)

Section Examples.

#[local] Instance msg_link : LinkMap := {| process_stacks := 0x40010000; process3 := 0x40001234 |}.

Definition note (n : Z) : message := msg_with_status n message0.

(** A message that asks not to block. *)
Definition nonblock : message := Message 0 None None None 0 1 0 0 0 0 None 0 0 None.

Lemma message_queue_refines_witness :
  ∃ s', queue_run (PHeap 0) nonblock [Put (note 1); Put (note 2); Get; Get; Get] demo1
        = Ok [(0, note 1); (0, note 2); (0, note 1); (0, note 2); (-1, nonblock)] s'.
Proof.
  destruct (procs demo1 !! PHeap 0) as [pr|] eqn:E; [|vm_compute in E; discriminate E].
  assert (Q : (p_msg_queue <$> procs demo1 !! PHeap 0) = Some message_queue0) by (vm_compute; reflexivity).
  rw E in Q. injection Q as Q.
  destruct (message_queue_refines demo1 (PHeap 0) [] nonblock [Put (note 1); Put (note 2); Get; Get; Get]) as (s' & H & _).
  - split; [vm_compute; reflexivity|]. exists pr. split; [exact E|]. rw Q. split; [|reflexivity].
    split; [reflexivity|]. split; [vm_compute; split; [discriminate|reflexivity]|].
    split; [vm_compute; split; discriminate|reflexivity].
  - discriminate.
  - exists s'. exact H.
Defined.

Definition chdir_msg (path : str) : message :=
  Message MSG_CHDIR (Some path) None None 0 0 0 0 0 0 None 0 0 None.

Lemma chdir_correct_witness :
  ∃ s', send_message 0 (chdir_msg (bs "x/../..")) boot1 = Ok (0, msg_with_status 0 (chdir_msg (bs "x/../.."))) s' ∧
        (p_cwd <$> procs s' !! PStatic 0) = Some (bs "/").
Proof.
  assert (V : value (vfs_read_dir (bs "/") 1 boot1) = Some (1, [Dirent 1 (bs ".")])) by (vm_compute; reflexivity).
  destruct (vfs_read_dir (bs "/") 1 boot1) as [[n d] s1| | | |] eqn:E; try discriminate V. injection V as -> ->.
  pose proof (chdir_correct 0 boot1 (PStatic 0) (demo_proc (bs "/tmp") None) (chdir_msg (bs "x/../.."))
    (bs "x/../..") (bs "tmp/x/../..") 1 [Dirent 1 (bs ".")] s1) as H.
  eexists. split.
  - apply H.
    + reflexivity.
    + reflexivity.
    + reflexivity.
    + reflexivity.
    + discriminate.
    + reflexivity.
    + vm_compute. lia.
    + apply (bool_decide_eq_true_1 (Forall good_name _)). vm_compute. reflexivity.
    + exact E.
  - cbn [ks_proc set_procs set_proc processes]. rw lookup_insert_eq. reflexivity.
Defined.

(** Two files on the RAM file system; the first is open at descriptor 0. *)
Definition two_files : kstate :=
  run (ramfs_create_file (bs "/tmp/a") (bs "first");; ramfs_create_file (bs "/tmp/b") (bs "second");; vfs_open (bs "/tmp/a")) boot1.

Lemma load_program_reads_fd0_witness :
  ∃ s', load_program 0 (bs "/tmp/b") (replicate 300 7) two_files = Ok (0, splice (replicate 300 7) 0 (bs "first")) s'.
Proof.
  assert (V : value (vfs_open (bs "/tmp/b") two_files) = Some 1) by (vm_compute; reflexivity).
  assert (W : ∀ s1, vfs_open (bs "/tmp/b") two_files = Ok 1 s1 → value (vfs_read 0 256
      (set_out (ks_out s1 ++ crlf (bs "Reading from fd: ") ++ crlf (bs "0x") ++ hex_digits 0 ++ crlf (ln "")) s1)) = Some (5, bs "first")).
  { intros s1 Hs1. rw -(run_Ok _ _ _ _ Hs1). vm_compute. reflexivity. }
  destruct (vfs_open (bs "/tmp/b") two_files) as [fd s1| | | |] eqn:E; try discriminate V. injection V as ->.
  specialize (W s1 eq_refl). destruct (vfs_read 0 256 _) as [[n buf] s2| | | |] eqn:Er; try discriminate W. injection W as -> ->.
  exists s2. apply (load_program_reads_fd0 0 two_files (bs "/tmp/b") (replicate 300 7) 1 s1 5 (bs "first") s2).
  - exact E.
  - lia.
  - exact Er.
  - lia.
  - reflexivity.
  - rw length_replicate. lia.
Defined.

Lemma state_of_out out s k : state_of (set_out out s) k = state_of s k.
Proof. reflexivity. Qed.

Definition wait_msg : message := msg_with_type MSG_WAIT message0.

Lemma send_wait_keeps_zombie_witness :
  ∃ out, send_message 0 wait_msg demo4 = Ok (0, msg_with_status 42 wait_msg) (set_out out demo4) ∧
         state_of (set_out out demo4) (PStatic 0) = Some PROC_ZOMBIE.
Proof.
  destruct (procs demo4 !! PHeap 0) as [cur|] eqn:Hcur; [|vm_compute in Hcur; discriminate Hcur].
  assert (Hc : current_process (ks_proc demo4) = Some (PHeap 0)) by (vm_compute; reflexivity).
  assert (P : p_pid cur = 2).
  { assert (Q : (p_pid <$> procs demo4 !! PHeap 0) = Some 2) by (vm_compute; reflexivity).
    rw Hcur in Q. injection Q as Q. exact Q. }
  assert (F : (λ kp, p_exit_status kp.2) <$> list_find (zombie_child 2) (the_list demo4) = Some 42) by (vm_compute; reflexivity).
  destruct (list_find (zombie_child 2) (the_list demo4)) as [[k pr]|] eqn:Ef; [|discriminate F].
  cbn in F. injection F as F. rw -P in Ef.
  destruct (send_wait_keeps_zombie 0 demo4 (the_list demo4) (PHeap 0) cur wait_msg k pr on_list_demo4 Hc Hcur eq_refl Ef) as [out H].
  rw F in H. exists out. split; [exact H|]. rw state_of_out.
  vm_compute. reflexivity.
Defined.
End Examples.
