(* ===== verification/CopySpec.v ===== *)
(** * CopySpec: copying a file with [MSG_COPY]

    On the RAM file system, the copy loop of [send_message] always ends and
    the new file has the bytes of the source. *)

From stdpp Require Import base numbers list gmap strings.
From Corelib Require Import ssreflect.
From S2P Require Import Prelude Chain CString State Kmalloc Uart Paths Ramfs Abyss Vfs VfsLaws VfsSpec VfsFiles Namespace Process ProcessSpec Message.

Open Scope Z_scope.
Open Scope general_if_scope.

(** An open descriptor on a slot of the RAM file system. *)
Definition ram_fd (s : kstate) (fd fp : Z) (i : nat) (pos : Z) : Prop :=
  fd_open s fd fp ∧
  ∃ f, ks_files s !! fp = Some f ∧ f_ops f = Some RAMFS ∧ private_data f = Pram i ∧ f_pos f = pos.

(** The file object at [fp] moved to another position. *)
Definition moved (fp pos : Z) (s : kstate) : kstate :=
  match ks_files s !! fp with
  | Some f => set_files (<[fp := with_pos pos f]> (ks_files s)) s
  | None => s
  end.

Lemma ram_fd_moved s fd fp i pos fd' fp' i' pos' p :
  ram_fd s fd fp i pos → ram_fd s fd' fp' i' pos' → fp ≠ fp' →
  ram_fd (moved fp p s) fd fp i p ∧ ram_fd (moved fp p s) fd' fp' i' pos'.
Proof.
  intros (Ho & f & Hf & Hops & Hpd & Hpos) (Ho' & f' & Hf' & Hops' & Hpd' & Hpos') Hne. rw /moved Hf.
  split; (split; [done|]).
  - eexists. rw /= lookup_insert_eq. by split_and!.
  - exists f'. rw /= lookup_insert_ne //.
Qed.

Lemma vfs_read_ram s fd fp i pos rf k :
  vfs_ok s → ramfs_ok s → ram_fd s fd fp i pos → ks_ramfs s !! i = Some rf → 0 ≤ k < 2 ^ 63 →
  let n := Z.max 0 (Z.min k (rf_size rf - pos)) in
  vfs_read fd k s =
    Ok (n, take (Z.to_nat n) (drop (Z.to_nat pos) (rf_content rf))) (moved fp (pos + n) s).
Proof.
  intros Hv Hr (Ho & f & Hf & Hops & Hpd & <-) Hi Hk n. rw /moved Hf.
  rw /vfs_read (bind_Ok _ _ _ _ _ (bad_fd_open _ _ _ Hv Ho)) (bind_Ok _ _ _ _ _ (get_file_open _ _ _ Ho)).
  erewrite bind_Ok; [|reflexivity]. rw (bind_Ok _ _ _ _ _ (get_vfile_Ok _ _ _ Hf)) Hops.
  exact (ramfs_read_spec s fp f i rf Hr Hf Hpd Hi k Hk).
Qed.

Lemma frame_files_insert s s' fp f :
  ks_vfs s' = ks_vfs s → ks_proc s' = ks_proc s → ks_namespaces s' = ks_namespaces s →
  ks_files s' = <[fp := f]> (ks_files s) → fs_frame s s'.
Proof.
  intros ??? E. split_and!; [done..|]. rw E. intros q Hq.
  destruct (decide (q = fp)) as [->|]; [rw lookup_insert_eq; by eexists|]. by rw lookup_insert_ne; [congruence|].
Qed.

(** The bytes at the start of a file of size [pos] after a write there. *)
Lemma written_data f rf buf :
  rf_ok rf → rf_size rf = f_pos f → f_pos f + zlen buf ≤ 4096 →
  data (written f rf (zlen buf) buf) = data rf ++ buf ∧ rf_size (written f rf (zlen buf) buf) = f_pos f + zlen buf.
Proof.
  intros (_ & Hlen & Hsz) Hpos Hfit. rw /data /written /= Hpos Nat2Z.id (take_ge buf) //.
  assert (Hs : (if 0 <? zlen buf then Z.max (f_pos f) (f_pos f + zlen buf) else f_pos f) = f_pos f + zlen buf) by (zcase; lia).
  rw Hs. split; [|done]. rw /splice app_assoc take_app_le; [rw length_app length_take; lia|].
  rw take_ge //. rw length_app length_take. lia.
Qed.

(** Writing at the end of a file. *)
Lemma vfs_write_ram s fd fp i rf buf sfd sfp si spos :
  vfs_ok s → ramfs_ok s → ram_fd s fd fp i (rf_size rf) → ks_ramfs s !! i = Some rf →
  rf_size rf + zlen buf ≤ 4096 → ram_fd s sfd sfp si spos → sfp ≠ fp →
  ∃ s' rf', vfs_write fd buf (zlen buf) s = Ok (zlen buf) s' ∧ vfs_ok s' ∧ ramfs_ok s' ∧
    ram_fd s' fd fp i (rf_size rf') ∧ ram_fd s' sfd sfp si spos ∧
    ks_ramfs s' = <[i := rf']> (ks_ramfs s) ∧ data rf' = data rf ++ buf ∧ rf_size rf' = rf_size rf + zlen buf ∧
    rf_path rf' = rf_path rf ∧ rf_used rf' = rf_used rf.
Proof.
  intros Hv Hr (Ho & f & Hf & Hops & Hpd & Hpos) Hi Hfit (So & g & Hg & Gops & Gpd & Gpos) Hne.
  destruct (slot_ok s i rf Hr Hi) as [Hrf _]. pose proof Hrf as (_ & _ & Hsz).
  destruct (ramfs_write_spec s fp f i rf Hr Hf Hpd Hi buf (zlen buf)) as (out & Hw); [lia..|].
  rw Z.min_l in Hw; [lia|]. set rf' := written f rf (zlen buf) buf in Hw.
  destruct (written_data f rf buf Hrf ltac:(done) ltac:(lia)) as [Hd Hs]. fold rf' in Hd, Hs.
  set s' := set_out _ _ in Hw. exists s', rf'.
  assert (Hfr : fs_frame s s') by (by apply (frame_files_insert s s' fp (with_pos (f_pos f + zlen buf) f))).
  split_and!; try done.
  - rw /vfs_write (bind_Ok _ _ _ _ _ (get_file_open _ _ _ Ho)) (bind_Ok _ _ _ _ _ (get_vfile_Ok _ _ _ Hf)) Hops.
    rw (bind_Ok _ _ _ _ _ Hw) i32_small; [lia|done].
  - by destruct (frame_fd_le _ _ Hfr Hv).
  - exact (ramfs_write_ok s fp buf (zlen buf) (zlen buf) s' Hr ltac:(lia) ltac:(lia) Hw).
  - split; [done|]. exists (with_pos (f_pos f + zlen buf) f). rw Hs. by split_and!; [apply lookup_insert_eq|..].
  - split; [done|]. exists g. rw /= lookup_insert_ne; [congruence|done].
  - lia.
Qed.

Lemma moved_ok s fp p fd i pos :
  vfs_ok s → ramfs_ok s → ram_fd s fd fp i pos → 0 ≤ p ≤ 4096 → vfs_ok (moved fp p s) ∧ ramfs_ok (moved fp p s).
Proof.
  intros Hv Hr (Ho & f & Hf & Hops & Hpd & Hpos) Hp. rw /moved Hf. split.
  - assert (fs_frame s (set_files (<[fp := with_pos p f]> (ks_files s)) s)) as Hfr by by apply (frame_files_insert s _ fp (with_pos p f)).
    by destruct (frame_fd_le _ _ Hfr Hv).
  - apply ramfs_ok_file; [done|]. intros j Hj. destruct Hr as (_ & _ & Hall). by destruct (Hall _ _ j Hf).
Qed.

Lemma moved_ramfs s fp p : ks_ramfs (moved fp p s) = ks_ramfs s.
Proof. rw /moved. by destruct (ks_files s !! fp). Qed.

Section Copy.
Context (sfd sfp dfd dfp : Z) (i j : nat) (src : ramfs_file).
Hypothesis Hfp : sfp ≠ dfp.
Hypothesis Hij : i ≠ j.

(** The first [a] bytes have been copied. *)
Definition copying (s : kstate) (dst : ramfs_file) : Prop :=
  vfs_ok s ∧ ramfs_ok s ∧ ram_fd s sfd sfp i (rf_size dst) ∧ ram_fd s dfd dfp j (rf_size dst) ∧
  ks_ramfs s !! i = Some src ∧ ks_ramfs s !! j = Some dst ∧
  rf_size dst ≤ rf_size src ∧ data dst = take (Z.to_nat (rf_size dst)) (data src).

(** One turn of the loop. *)
Lemma copy_turn s dst :
  copying s dst →
  let n := Z.min 1024 (rf_size src - rf_size dst) in
  ∃ s1 buf, vfs_read sfd 1024 s = Ok (n, buf) s1 ∧ zlen buf = n ∧
    (n = 0 → vfs_ok s1 ∧ ramfs_ok s1 ∧ fd_open s1 sfd sfp ∧ fd_open s1 dfd dfp ∧ ks_ramfs s1 = ks_ramfs s) ∧
    (0 < n → ∃ s2 dst', vfs_write dfd buf n s1 = Ok n s2 ∧ copying s2 dst' ∧
       rf_size dst' = rf_size dst + n ∧ ks_ramfs s2 = <[j := dst']> (ks_ramfs s) ∧
       rf_path dst' = rf_path dst ∧ rf_used dst' = rf_used dst).
Proof.
  intros (Hv & Hr & Hs & Hd & Hi & Hj & Hle & Hdata) n.
  destruct (slot_ok s i src Hr Hi) as [(_ & Hlen & Hsz) _]. destruct (slot_ok s j dst Hr Hj) as [(_ & Hlen' & Hsz') _].
  pose proof (vfs_read_ram s sfd sfp i _ src 1024 Hv Hr Hs Hi ltac:(lia)) as Hrd. cbv zeta in Hrd.
  rw Z.max_r in Hrd; [lia|]. fold n in Hrd. set buf := take _ _ in Hrd. set s1 := moved _ _ _ in Hrd.
  assert (Hbuf : zlen buf = n) by (rw /buf length_take length_drop; lia).
  destruct (moved_ok s sfp (rf_size dst + n) sfd i _ Hv Hr Hs ltac:(lia)) as [Hv1 Hr1]. fold s1 in Hv1, Hr1.
  destruct (ram_fd_moved s sfd sfp i _ dfd dfp j _ (rf_size dst + n) Hs Hd Hfp) as [Hs1 Hd1]. fold s1 in Hs1, Hd1.
  assert (Hram : ks_ramfs s1 = ks_ramfs s) by apply moved_ramfs.
  exists s1, buf. split_and!; [done|done| |].
  - intros _. split_and!; [done|done|apply Hs1|apply Hd1|done].
  - intros Hn.
    destruct (vfs_write_ram s1 dfd dfp j dst buf sfd sfp i (rf_size dst + n) Hv1 Hr1 Hd1) as
      (s2 & dst' & Hw & Hv2 & Hr2 & Hd2 & Hs2 & Hram2 & Hdat & Hsize & Hpa & Hus); [by rw Hram|lia|done|done|].
    rw Hbuf in Hw Hsize. exists s2, dst'. rw Hsize -Hram. split_and!; [done| |done|done|done|done].
    rw /copying Hsize Hram2 Hram list_lookup_insert_ne; [by apply not_eq_sym|].
    rw list_lookup_insert_eq; [by apply (lookup_lt_Some _ _ dst)|]. rw Hsize in Hd2.
    split_and!; try done; [lia|]. rw Hdat Hdata /buf /data.
    rw !take_take !Nat.min_l; [lia..|]. rw take_take_drop. f_equal. lia.
Qed.

Lemma copy_loop_Ok fuel : ∀ s dst,
  copying s dst → rf_size src - rf_size dst ≤ 1024 * (Z.of_nat fuel - 1) → (0 < fuel)%nat →
  ∃ s' dst', copy_loop fuel sfd dfd (rf_size dst) s = Ok (Some (rf_size src)) s' ∧
    vfs_ok s' ∧ ramfs_ok s' ∧ fd_open s' sfd sfp ∧ fd_open s' dfd dfp ∧
    ks_ramfs s' = <[j := dst']> (ks_ramfs s) ∧ data dst' = data src ∧
    rf_path dst' = rf_path dst ∧ rf_used dst' = rf_used dst.
Proof.
  induction fuel as [|fuel IH]; intros s dst Hc Hf Hpos; [lia|].
  destruct (copy_turn s dst Hc) as (s1 & buf & Hrd & Hbuf & Hdone & Hmore). set n := Z.min _ _ in Hrd, Hbuf, Hdone, Hmore.
  pose proof Hc as (_ & Hr & _ & _ & Hi & Hj & Hle & Hdata).
  destruct (slot_ok s i src Hr Hi) as [(_ & Hlen & Hsz) _]. destruct (slot_ok s j dst Hr Hj) as [(_ & _ & Hsz') _].
  cbn [copy_loop]. rw (bind_Ok _ _ _ _ _ Hrd) i32_small; [lia|].
  destruct (decide (n = 0)) as [Hn|Hn].
  - replace (0 <? n) with false by lia. destruct (Hdone Hn) as (Hv1 & Hr1 & Hs1 & Hd1 & Hram).
    assert (Heq : rf_size dst = rf_size src) by lia.
    exists s1, dst. rw Heq. split_and!; try done; [by rw Hram list_insert_id|].
    rw Hdata Heq take_ge //. rw /data length_take. lia.
  - replace (0 <? n) with true by lia. destruct (Hmore ltac:(lia)) as (s2 & dst' & Hw & Hc2 & Hs2 & Hram2 & Hp2 & Hu2).
    rw (bind_Ok _ _ _ _ _ Hw) Z.eqb_refl. cbn [negb].
    assert (Hadd : int_add (rf_size dst) n s2 = Ok (rf_size dst') s2).
    { rw /int_add Hs2. by replace (_ && _) with true by lia. }
    rw (bind_Ok _ _ _ _ _ Hadd). destruct (IH s2 dst' Hc2) as (s' & d & H1 & H2 & H3 & H4 & H5 & H6 & H7 & H8 & H9); [lia|lia|].
    exists s', d. split_and!; try done; [|congruence..]. rw H6 Hram2. apply list_insert_insert_eq.
Qed.
End Copy.

(** Opening a file of the RAM file system through the VFS. *)
Definition opened (s : kstate) (path : str) (i : nat) : kstate :=
  with_fd (ks_heap_pos s)
    (set_files (<[ks_heap_pos s := VfsFile (Some RAMFS) (take 255 path) (Pram i) 0]> (ks_files s))
       (set_heap_pos (ks_heap_pos s + sizeof_vfs_file) s)).

Lemma vfs_open_tmp s path i p cur :
  vfs_ok s → ramfs_ok s → heap_ok s → ks_heap_pos s + sizeof_vfs_file ≤ HEAP_SIZE → next_fd (ks_vfs s) < 32 →
  current_process (ks_proc s) = Some p → procs s !! p = Some cur → p_ns_mounts cur = None →
  tmp_path path → find_path (ks_ramfs s) path = Some i →
  vfs_open path s = Ok (next_fd (ks_vfs s)) (opened s path i) ∧ vfs_ok (opened s path i) ∧ ramfs_ok (opened s path i) ∧
  ram_fd (opened s path i) (next_fd (ks_vfs s)) (ks_heap_pos s) i 0.
Proof.
  intros Hv Hr Hh Hroom Hfd Hcur Hp Hns (Hs & Ht & Hl) Hfind. set hp := ks_heap_pos s.
  set f := VfsFile (Some RAMFS) (take 255 path) (Pram i) 0.
  pose proof (ramfs_open_spec s path i Hh Hroom Hfind) as Hopen. fold hp f in Hopen. set s1 := set_files _ _ in Hopen.
  assert (Hfr : fs_frame s s1) by (by apply (frame_files_insert s s1 hp f)).
  destruct (frame_fd_le _ _ Hfr Hv) as [Hv1 _].
  assert (Hf1 : ks_files s1 !! hp = Some f) by (by rw /= lookup_insert_eq).
  assert (E : opened s path i = with_fd hp s1) by done. rw E. split_and!.
  - rw /vfs_open. erewrite bind_Ok; last first.
    { rw /resolve_path /current /get_current_process /get_proc /ns_fuel.
      erewrite bind_Ok; [|rw /mbind /M_bind /= Hcur /= Hp //]. erewrite bind_Ok; [|reflexivity].
      rw Hns /=. apply strcpy_to_Ok. rw /VFS_MAX_PATH. lia. }
    rw Ht. change (0 =? 0) with true. cbv iota zeta. change (fs_open (fs_type RAMFS)) with ramfs_open.
    rw (bind_Ok _ _ _ _ _ Hopen) (bind_Ok _ _ _ _ _ (alloc_fd_run s1 hp ltac:(done))).
    change (next_fd (ks_vfs s1)) with (next_fd (ks_vfs s)). destruct Hv as (_ & ? & _).
    by replace (next_fd (ks_vfs s) <? 0) with false by lia.
  - apply with_fd_ok; [done|by rw Hf1|done].
  - apply (ramfs_ok_frame s1); [done..|]. by apply (ramfs_open_ok s path (Some hp) s1).
  - split; [by apply (with_fd_open s1)|]. exists f. by split_and!.
Qed.

(** What a copy from [src_path] to [dst_path] in the RAM file system needs:
    the source in slot [i], a free slot [j], two descriptors, heap for the file
    objects, and a current process without bindings. *)
Record can_copy (s : kstate) (src_path dst_path : str) (i j : nat) (src dst : ramfs_file) : Prop := CanCopy {
  cc_vfs : vfs_ok s;
  cc_ramfs : ramfs_ok s;
  cc_heap : heap_ok s;
  cc_room : ks_heap_pos s + 3 * sizeof_vfs_file ≤ HEAP_SIZE;
  cc_fd : next_fd (ks_vfs s) ≤ 29;
  cc_process : ∃ p cur, current_process (ks_proc s) = Some p ∧ procs s !! p = Some cur ∧ p_ns_mounts cur = None;
  cc_src_path : tmp_path src_path;
  cc_dst_path : tmp_path dst_path;
  cc_find : find_path (ks_ramfs s) src_path = Some i;
  cc_src : ks_ramfs s !! i = Some src;
  cc_free : find_free (ks_ramfs s) = Some j;
  cc_dst : ks_ramfs s !! j = Some dst
}.

Lemma cc_distinct s src_path dst_path i j src dst : can_copy s src_path dst_path i j src dst → i ≠ j.
Proof.
  intros Hc ->. destruct (find_path_Some _ _ _ (cc_find _ _ _ _ _ _ _ Hc)) as (rf & Hrf & Hu & _).
  destruct (find_free_unused _ _ (cc_free _ _ _ _ _ _ _ Hc)) as (rf' & Hrf' & Hu'). congruence.
Qed.

(** Opening the source and creating the destination sets up the loop. *)
Lemma copy_prepared s src_path dst_path i j src dst :
  can_copy s src_path dst_path i j src dst →
  let fd := next_fd (ks_vfs s) in let hp := ks_heap_pos s in
  ∃ s1 s2, vfs_open src_path s = Ok fd s1 ∧ vfs_create dst_path s1 = Ok (fd + 1) s2 ∧ 0 ≤ fd ∧
    copying fd hp (fd + 1) (hp + sizeof_vfs_file) i j src s2 (fresh_slot dst_path dst) ∧
    ks_ramfs s2 = <[j := fresh_slot dst_path dst]> (ks_ramfs s) ∧ rf_size src ≤ 4096 ∧
    mount_points (ks_vfs s2) = mount_points (ks_vfs s).
Proof.
  intros Hcc fd hp. pose proof (cc_distinct _ _ _ _ _ _ _ Hcc) as Hij.
  destruct Hcc as [Hv Hr Hh Hroom Hfd (p & cur & Hcur & Hp & Hns) Hsrc Hdst Hfind Hi Hfree Hj].
  assert (Hsz : sizeof_vfs_file = 304) by done. pose proof (proj1 Hh) as Hh0.
  destruct (vfs_open_tmp s src_path i p cur) as (Hopen & Hv1 & Hr1 & Hs1); [done|done|done|lia|lia|done..|].
  fold fd in Hfd, Hopen, Hs1. fold hp in Hroom, Hs1, Hh0.
  set s1 := opened s src_path i in Hopen Hv1 Hr1 Hs1.
  assert (Hfd1 : next_fd (ks_vfs s1) = fd + 1) by done.
  assert (Hhp1 : ks_heap_pos s1 = hp + sizeof_vfs_file) by done.
  pose proof (vfs_create_run s1 dst_path j dst [] ltac:(rw /heap_ok; lia) ltac:(lia) ltac:(lia) Hdst Hfree Hj) as Hcr.
  destruct (created_ok s1 dst_path j dst [] Hv1 Hr1 ltac:(lia) Hdst Hj) as (Hv2 & Hr2 & Hd2).
  rw Hfd1 in Hcr Hd2. rw Hhp1 in Hd2. set s2 := VfsFiles.created s1 dst_path j dst in Hcr Hv2 Hr2 Hd2.
  set f2 := VfsFile (Some RAMFS) [] (Pram j) 0.
  assert (Hfiles : ks_files s2 = <[hp + sizeof_vfs_file := f2]> (ks_files s1)) by done.
  destruct (slot_ok s i src Hr Hi) as [(_ & _ & ?) _].
  exists s1, s2. split_and!; try done; [destruct Hs1 as ([? _] & _); lia| |lia].
  split_and!; try done.
  - destruct Hs1 as ([Ho1 Ho2] & f & Hf & Hrest). split.
    + split; [done|]. simpl. rw list_lookup_insert_ne; [change (next_fd (ks_vfs s1)) with (fd + 1); lia|done].
    + exists f. rw Hfiles lookup_insert_ne; [lia|done].
  - split; [done|]. exists f2. rw Hfiles lookup_insert_eq. by split_and!.
  - simpl. by rw list_lookup_insert_ne; [congruence|].
  - simpl. apply list_lookup_insert_eq. by apply (lookup_lt_Some _ _ dst).
  - simpl. lia.
Qed.

(** Closing both descriptors. *)
Lemma close_both s fd fp fd' fp' :
  vfs_ok s → fd_open s fd fp → fd_open s fd' fp' → fd ≠ fd' →
  (vfs_close fd;; vfs_close fd') s = Ok 0 (closed fd' (closed fd s)).
Proof.
  intros Hv Ho Ho' Hne. rw (bind_Ok _ _ _ _ _ (vfs_close_Ok _ _ _ Hv Ho)).
  apply (vfs_close_Ok _ _ fp'); [by apply closed_ok|]. pose proof (proj1 Ho). destruct Ho' as [? Ho']. split; [done|].
  simpl. rw list_lookup_insert_ne; [lia|done].
Qed.

Section SendCopy.
Context `{LinkMap}.

(** C4: [MSG_COPY] on the RAM file system: with the source file in place, a
    free slot, two descriptors and heap for the file objects, the copy loop
    ends (six turns are enough for any file) and the message returns 0; the
    free slot now holds a file with the destination path and exactly the
    bytes of the source; every other slot, the source included, is as
    before. *)
Theorem copy_correct fuel s msg src_path dst_path b i j src dst :
  (6 ≤ fuel)%nat → can_copy s src_path dst_path i j src dst →
  m_type msg = MSG_COPY → m_path msg = Some src_path → m_data msg = Some (Bytes b) → text_at b = Some dst_path →
  ∃ s' new, send_message fuel msg s = Ok (0, msg) s' ∧ ks_ramfs s' = <[j := new]> (ks_ramfs s) ∧
    rf_used new = true ∧ rf_path new = dst_path ∧ data new = data src.
Proof.
  intros Hfuel Hcc Hty Hpath Hdat Htext. pose proof (cc_distinct _ _ _ _ _ _ _ Hcc) as Hij.
  destruct (copy_prepared _ _ _ _ _ _ _ Hcc) as (s1 & s2 & Hopen & Hcr & Hfd & Hc & Hram2 & Hsz & _).
  set fd := next_fd (ks_vfs s) in Hopen Hcr Hfd Hc. set hp := ks_heap_pos s in Hc.
  assert (Hsf : sizeof_vfs_file = 304) by done.
  destruct (copy_loop_Ok fd hp (fd + 1) (hp + sizeof_vfs_file) i j src ltac:(lia) Hij fuel s2 _ Hc) as
    (s3 & new & Hloop & Hv3 & Hr3 & Ho3 & Ho3' & Hram3 & Hnew & Hnp & Hnu); [simpl; lia|lia|].
  exists (closed (fd + 1) (closed fd s3)), new. split_and!; [|by rw /= Hram3 Hram2 list_insert_insert_eq|by rw Hnu|by rw Hnp|done].
  rw /send_message Hty /= /send_copy Hpath Hdat (bind_Ok _ _ _ _ _ Hopen).
  replace (fd <? 0) with false by lia. rw /data_text Htext.
  erewrite bind_Ok; [|apply ret_Ok]. rw (bind_Ok _ _ _ _ _ Hcr). replace (fd + 1 <? 0) with false by lia.
  change (rf_size (fresh_slot dst_path dst)) with 0 in Hloop. rw (bind_Ok _ _ _ _ _ Hloop).
  by rw (bind_assoc_Ok _ _ _ _ _ _ (close_both _ _ _ _ _ Hv3 Ho3 Ho3' ltac:(lia))).
Qed.

(** ** Moving *)

Lemma frame_copy_loop fuel sfd dfd total : respects fs_frame (copy_loop fuel sfd dfd total).
Proof.
  revert total. induction fuel as [|fuel IH]; intros total; simpl; [apply respects_nofuel|].
  apply respects_bind; [apply _|apply frame_vfs_read|]. intros [n buf]. destruct (0 <? i32 n); [|apply respects_ret; apply _].
  apply respects_bind; [apply _|apply frame_vfs_write|]. intros w. destruct (negb (w =? i32 n)); [apply respects_ret; apply _|].
  apply respects_bind; [apply _| |done]. rw /int_add. respect_auto.
Qed.

(** Another slot's new file does not hide a file. *)
Lemma find_path_insert fs path i j new :
  find_path fs path = Some i → i ≠ j → s_strcmp (rf_path new) path ≠ 0 → find_path (<[j := new]> fs) path = Some i.
Proof.
  intros Hf Hij Hne%Z.eqb_neq. revert i j Hf Hij. induction fs as [|rf fs IH]; intros i j; [done|]. simpl.
  destruct (rf_used rf && (s_strcmp (rf_path rf) path =? 0)) eqn:E.
  - intros [= <-] Hj. destruct j as [|j]; [done|]. by rw /= E.
  - destruct (find_path fs path) as [k|] eqn:Ek; [|done]. intros [= <-] Hj.
    destruct j as [|j]; simpl; [by rw Hne andb_false_r Ek|]. rw E (IH k j) //. congruence.
Qed.

Lemma ramfs_unlink_Ok s path i rf :
  find_path (ks_ramfs s) path = Some i → ks_ramfs s !! i = Some rf →
  ramfs_unlink path s = Ok 0 (set_ramfs (<[i := with_size 0 (with_used false rf)]> (ks_ramfs s)) s).
Proof.
  intros Hf Hi. rw /ramfs_unlink. erewrite bind_Ok; [|reflexivity]. rw Hf.
  erewrite bind_Ok; [|rw /get_rf; erewrite bind_Ok; [|reflexivity]; rw Hi; reflexivity]. reflexivity.
Qed.

Lemma vfs_unlink_tmp s path i rf m :
  tmp_path path → find_mount (mount_points (ks_vfs s)) path = Some m → mnt_fs m = RAMFS →
  find_path (ks_ramfs s) path = Some i → ks_ramfs s !! i = Some rf →
  vfs_unlink path s = Ok 0 (set_ramfs (<[i := with_size 0 (with_used false rf)]> (ks_ramfs s)) s).
Proof.
  intros Ht Hm Hfs Hf Hi. rw /vfs_unlink /full_path_of (tmp_path_head _ Ht). destruct Ht as (_ & _ & Hl).
  erewrite bind_Ok; [|apply strcpy_to_Ok; rw /VFS_MAX_PATH; lia].
  erewrite bind_Ok; [|rw /mount_of; erewrite bind_Ok; [|reflexivity]; reflexivity].
  rw Hm Hfs. by apply ramfs_unlink_Ok.
Qed.

(** C10: [MSG_MOVE] on the RAM file system, under the conditions of a copy
    and with the source under a RAM file system mount: it returns 0, the
    destination holds the bytes the source had, the source's slot is free
    again, and every other slot is as before. *)
Theorem move_correct fuel s msg src_path dst_path b i j src dst m :
  (6 ≤ fuel)%nat → can_copy s src_path dst_path i j src dst → src_path ≠ dst_path →
  find_mount (mount_points (ks_vfs s)) src_path = Some m → mnt_fs m = RAMFS →
  m_type msg = MSG_MOVE → m_path msg = Some src_path → m_data msg = Some (Bytes b) → text_at b = Some dst_path →
  ∃ s' old new, send_message fuel msg s = Ok (0, msg) s' ∧ ks_ramfs s' = <[i := old]> (<[j := new]> (ks_ramfs s)) ∧
    rf_used old = false ∧ rf_used new = true ∧ rf_path new = dst_path ∧ data new = data src.
Proof.
  intros Hfuel Hcc Hne Hm Hfs Hty Hpath Hdat Htext. pose proof (cc_distinct _ _ _ _ _ _ _ Hcc) as Hij.
  destruct (copy_prepared _ _ _ _ _ _ _ Hcc) as (s1 & s2 & Hopen & Hcr & Hfd & Hc & Hram2 & Hsz & Hmp2).
  set fd := next_fd (ks_vfs s) in Hopen Hcr Hfd Hc. set hp := ks_heap_pos s in Hc.
  assert (Hsf : sizeof_vfs_file = 304) by done.
  destruct (copy_loop_Ok fd hp (fd + 1) (hp + sizeof_vfs_file) i j src ltac:(lia) Hij fuel s2 _ Hc) as
    (s3 & new & Hloop & Hv3 & Hr3 & Ho3 & Ho3' & Hram3 & Hnew & Hnp & Hnu); [simpl; lia|lia|].
  destruct (frame_copy_loop _ _ _ _ _ _ _ Hloop) as (Hvfs3 & _). set s4 := closed (fd + 1) (closed fd s3).
  assert (Hram4 : ks_ramfs s4 = <[j := new]> (ks_ramfs s)) by by rw /= Hram3 Hram2 list_insert_insert_eq.
  assert (Hmp4 : mount_points (ks_vfs s4) = mount_points (ks_vfs s)) by by rw /= Hvfs3.
  destruct Hcc as [_ _ _ _ _ _ Hsrc Hdst Hfind Hi _ _].
  assert (Hcmp : s_strcmp (rf_path new) src_path ≠ 0).
  { rw Hnp. rw (s_strcmp_eq dst_path src_path); [apply Hdst|apply Hsrc|congruence]. }
  assert (Hi4 : ks_ramfs s4 !! i = Some src) by (rw Hram4 list_lookup_insert_ne //; congruence).
  assert (Hunl := vfs_unlink_tmp s4 src_path i src m Hsrc ltac:(by rw Hmp4) Hfs
    ltac:(rw Hram4; by apply find_path_insert) Hi4).
  eexists _, _, new. split.
  - rw /send_message Hty /= /send_move Hpath Hdat (bind_Ok _ _ _ _ _ Hopen).
    replace (fd <? 0) with false by lia. rw /data_text Htext.
    erewrite bind_Ok; [|apply ret_Ok]. rw (bind_Ok _ _ _ _ _ Hcr). replace (fd + 1 <? 0) with false by lia.
    change (rf_size (fresh_slot dst_path dst)) with 0 in Hloop. rw (bind_Ok _ _ _ _ _ Hloop).
    rw (bind_assoc_Ok _ _ _ _ _ _ (close_both _ _ _ _ _ Hv3 Ho3 Ho3' ltac:(lia))). fold s4.
    rw (bind_Ok _ _ _ _ _ Hunl). reflexivity.
  - split_and!; [by rw /= Hram4|done|by rw Hnu|by rw Hnp|done].
Qed.
End SendCopy.

(** ** Witness *)

Section Examples.

#[local] Instance copy_link : LinkMap := {| process_stacks := 0x40010000; process3 := 0x40001234 |}.

Definition one_file : ramfs_file := RamfsFile (bs "/tmp/a") (splice (replicate 4096 0) 0 (bs "hello")) 5 true.

Definition copy_start : kstate := set_ramfs (<[0%nat := one_file]> (ks_ramfs boot1)) boot1.

Definition copy_msg : message :=
  Message MSG_COPY (Some (bs "/tmp/a")) None (Some (Bytes (bs "/tmp/b" ++ [0]))) 0 0 0 0 0 0 None 0 0 None.

Lemma tmp_path_b : tmp_path (bs "/tmp/b").
Proof. split_and!; [by apply is_str_bool; vm_compute|reflexivity|vm_compute; lia]. Qed.

Lemma copy_start_ramfs : ramfs_ok copy_start.
Proof.
  apply ramfs_ok_insert; [apply boot1_ramfs|]. split_and!; [vm_compute; lia| |vm_compute; discriminate..].
  rw /one_file splice_length; rw length_replicate //. vm_compute. lia.
Qed.

Lemma copy_start_can : can_copy copy_start (bs "/tmp/a") (bs "/tmp/b") 0 1 one_file ramfs_file0.
Proof.
  constructor; [exact boot1_ok|exact copy_start_ramfs|vm_compute; split; discriminate|vm_compute; discriminate..| |
    exact tmp_path_a|exact tmp_path_b|vm_compute; reflexivity|reflexivity|vm_compute; reflexivity|reflexivity].
  by exists (PStatic 0), (demo_proc (bs "/tmp") None).
Qed.

Lemma copy_correct_witness :
  ∃ s' new, send_message 6 copy_msg copy_start = Ok (0, copy_msg) s' ∧ ks_ramfs s' !! 1%nat = Some new ∧
    rf_path new = bs "/tmp/b" ∧ data new = bs "hello".
Proof.
  destruct (copy_correct 6 copy_start copy_msg (bs "/tmp/a") (bs "/tmp/b") (bs "/tmp/b" ++ [0]) 0 1 one_file ramfs_file0)
    as (s' & new & H1 & H2 & _ & H3 & H4);
    [lia|exact copy_start_can|reflexivity|reflexivity|reflexivity|reflexivity|].
  exists s', new. split; [exact H1|]. split; [rw H2; reflexivity|]. split; [exact H3|]. rw H4. vm_compute. reflexivity.
Defined.

Definition move_start : kstate := set_vfs (with_mounts boot_mounts (ks_vfs copy_start)) copy_start.

Lemma move_start_can : can_copy move_start (bs "/tmp/a") (bs "/tmp/b") 0 1 one_file ramfs_file0.
Proof. destruct copy_start_can. constructor; assumption. Qed.

Lemma move_correct_witness :
  ∃ s' old new, send_message 6 (msg_with_type MSG_MOVE copy_msg) move_start = Ok (0, msg_with_type MSG_MOVE copy_msg) s' ∧
    ks_ramfs s' !! 0%nat = Some old ∧ rf_used old = false ∧
    ks_ramfs s' !! 1%nat = Some new ∧ rf_path new = bs "/tmp/b" ∧ data new = bs "hello".
Proof.
  destruct (move_correct 6 move_start (msg_with_type MSG_MOVE copy_msg) (bs "/tmp/a") (bs "/tmp/b") (bs "/tmp/b" ++ [0])
    0 1 one_file ramfs_file0 (Mount (bs "/tmp") RAMFS (VfsSb RAMFS_MAGIC (bs "ramfs"))))
    as (s' & old & new & H1 & H2 & H3 & _ & H4 & H5);
    [lia|exact move_start_can|discriminate|vm_compute; reflexivity|reflexivity|reflexivity|reflexivity|reflexivity|reflexivity|].
  exists s', old, new. split; [exact H1|]. split; [rw H2; reflexivity|]. split; [exact H3|]. split; [rw H2; reflexivity|].
  split; [exact H4|]. rw H5. vm_compute. reflexivity.
Defined.
End Examples.
