(* ===== verification/LineBuffer.v ===== *)
(** * LineBuffer: a line of text at the start of a character array

    What both shells keep while a line is typed: an array of [cap] bytes whose
    first bytes are the line.  Used by the theorems on
    [src/src/user/user_shell.c] and [src/src/user/shell.c]. *)

From stdpp Require Import base numbers list gmap strings.
From Corelib Require Import ssreflect.
From S2P Require Import Prelude Message.

Open Scope Z_scope.
Open Scope general_if_scope.

Definition holds (cap : nat) (buffer line : list Z) : Prop :=
  length buffer = cap ∧ (length line < cap)%nat ∧ take (length line) buffer = line.

Section Holds.
Context (cap : nat) (buffer line : list Z).
Hypothesis Hh : holds cap buffer line.

Lemma holds_push c : (S (length line) < cap)%nat → holds cap (<[length line := c]> buffer) (line ++ [c]).
Proof.
  destruct Hh as (Hb & Hl & Ht). intros Hlt. split_and!; [by rw length_insert|rw length_app /=; lia|].
  rw length_app Nat.add_1_r (take_S_r _ _ c); [by apply list_lookup_insert_eq; rw Hb; lia|].
  by rw take_insert_ge // Ht.
Qed.

Lemma holds_erase : holds cap buffer (removelast line).
Proof.
  destruct Hh as (Hb & Hl & Ht). destruct line as [|c l _] using rev_ind; [done|].
  rw removelast_last. rw length_app /= in Hl Ht. split_and!; [done|lia|].
  rw -{2}(take_app_length l [c]) -Ht take_take. f_equal. lia.
Qed.

(** Terminated, the array is the line as a C string. *)
Lemma holds_text : Forall (λ b, b ≠ 0) line → text_at (<[length line := 0]> buffer) = Some line.
Proof.
  destruct Hh as (Hb & Hl & Ht). intros Hnz.
  rw -{1}(take_drop (length line) buffer) Ht insert_app_r_alt // Nat.sub_diag.
  assert (Hd : length (drop (length line) buffer) ≠ 0%nat) by (rw length_drop Hb; lia).
  destruct (drop (length line) buffer) as [|x l]; [done|]. clear - Hnz. simpl.
  induction Hnz as [|b line Hb Hnz IH]; simpl; [done|]. by apply Z.eqb_neq in Hb as ->; rw IH.
Qed.
End Holds.

(** A text is read back up to its terminator, whatever follows. *)
Lemma text_at_prefix line rest : Forall (λ b, b ≠ 0) line → text_at (line ++ 0 :: rest) = Some line.
Proof. induction 1 as [|b line Hb Hl IH]; simpl; [done|]. apply Z.eqb_neq in Hb as ->. by rw IH. Qed.

(** Without a zero byte there is no text. *)
Lemma text_at_None l : Forall (λ b, b ≠ 0) l → text_at l = None.
Proof. induction 1 as [|b l Hb Hl IH]; simpl; [done|]. apply Z.eqb_neq in Hb as ->. by rw IH. Qed.
