(* ===== verification/Mmu.v ===== *)
(** * Mmu: the translation table of [src/src/arch/mmu.c]

    The level-1 table [l1] and the system registers that [mmu_init] writes
    are the record [mmu]; the addresses of the table and of the vector table
    are the linker's, and parameters.  [walk] is the architecture's lookup of
    an address in a level-1 table of 1 GiB blocks (4 KiB granule, 39-bit
    addresses); [translate] is the lookup that the granule field of TCR_EL1
    selects, on a processor [cpu] that implements some granules and puts
    another in the place of one it lacks. *)

From stdpp Require Import base numbers list gmap strings.
From Corelib Require Import ssreflect.
From S2P Require Import Prelude CString State Uart.

Open Scope Z_scope.
Open Scope general_if_scope.

(** ** Descriptors *)

Definition MAIR_VALUE : Z := Z.lor (Z.shiftl 0xFF 0) (Z.shiftl 0x04 8).

Definition AF : Z := Z.shiftl 1 10.

Definition UXN : Z := Z.shiftl 1 54.

Definition AP_RW_EL0 : Z := Z.shiftl 1 6.

Definition AP_RW_EL1 : Z := Z.shiftl 0 6.

Definition BLOCK : Z := Z.shiftl 0 1.

Definition VALID : Z := Z.shiftl 1 0.

Definition ATTRIDX (n : Z) : Z := u64 (Z.shiftl n 2).

Definition L1_DESC (pa_gib attridx extra : Z) : Z :=
  Z.lor (Z.lor (Z.lor (Z.lor (Z.lor (u64 (Z.shiftl pa_gib 30)) AF) (ATTRIDX attridx)) extra) BLOCK) VALID.

Definition TCR_VALUE : Z := 0x00000000808519.

(** ** State and initialisation *)

Record mmu := Mmu { l1 : list Z; mair : Z; tcr : Z; ttbr0 : Z; sctlr : Z; vbar : Z }.

Definition with_l1 (i : nat) (d : Z) (m : mmu) : mmu :=
  Mmu (<[i := d]> (l1 m)) (mair m) (tcr m) (ttbr0 m) (sctlr m) (vbar m).

Definition write_mair (v : Z) (m : mmu) : mmu := Mmu (l1 m) v (tcr m) (ttbr0 m) (sctlr m) (vbar m).

Definition write_tcr (v : Z) (m : mmu) : mmu := Mmu (l1 m) (mair m) v (ttbr0 m) (sctlr m) (vbar m).

Definition write_ttbr0 (p : Z) (m : mmu) : mmu := Mmu (l1 m) (mair m) (tcr m) p (sctlr m) (vbar m).

Definition write_sctlr (v : Z) (m : mmu) : mmu := Mmu (l1 m) (mair m) (tcr m) (ttbr0 m) v (vbar m).

Definition write_vbar (v : Z) (m : mmu) : mmu := Mmu (l1 m) (mair m) (tcr m) (ttbr0 m) (sctlr m) v.

(** [orr x0, x0, #1] and [bic x0, x0, #(1<<28)]. *)
Definition enable_mmu (m : mmu) : mmu :=
  write_sctlr (Z.ldiff (Z.lor (sctlr m) 1) (Z.shiftl 1 28)) m.

(** [l1[i]], undefined out of the 512 entries. *)
Definition mmu_get_l1_block (i : Z) (m : mmu) : K Z :=
  if (0 <=? i) then unwrap (l1 m !! Z.to_nat i) else fault.

Definition print_block (text : string) (d : Z) : K unit :=
  uart_puts (bs text);; uart_hex d;; uart_puts (ln "").

Definition mmu_init (l1_addr vector_table : Z) (m : mmu) : K mmu :=
  uart_puts (ln "MMU init start");;
  let m := with_l1 0 (L1_DESC 0 1 (Z.lor UXN AP_RW_EL0)) m in
  let m := with_l1 1 (L1_DESC 1 0 AP_RW_EL1) m in
  let m := with_l1 2 (L1_DESC 2 0 AP_RW_EL0) m in
  d ← mmu_get_l1_block 0 m; print_block "MMU L1 Block 0: " d;;
  d ← mmu_get_l1_block 1 m; print_block "MMU L1 Block 1: " d;;
  d ← mmu_get_l1_block 2 m; print_block "MMU L1 Block 2: " d;;
  uart_puts (ln "L1 identity blocks set");;
  let m := write_mair MAIR_VALUE m in uart_puts (ln "MAIR set");;
  let m := write_tcr TCR_VALUE m in uart_puts (ln "TCR set");;
  let m := write_ttbr0 l1_addr m in uart_puts (ln "TTBR0 set");;
  uart_puts (ln "Enabling MMU...");;
  let m := enable_mmu m in uart_puts (ln "MMU enabled");;
  mret (write_vbar vector_table m).

(** ** The architecture's table walk *)

Definition slice (x lo n : Z) : Z := Z.land (Z.shiftr x lo) (Z.ones n).

(** What a block descriptor says about an address: output address, memory
    type (index into MAIR), whether EL0 may read and write, and execute, and
    whether EL1 may write and execute.  Memory that EL0 can write is never
    executable at EL1. *)
Record mapping := Mapping {
  map_pa : Z; map_attr : Z; el0_rw : bool; el0_exec : bool; el1_write : bool; el1_exec : bool }.

#[export] Instance mapping_eq_dec : EqDecision mapping.
Proof. solve_decision. Defined.

Definition block_at (n d va : Z) : option mapping :=
  if Z.testbit d 0 && negb (Z.testbit d 1) && Z.testbit d 10 then
    let el0 := Z.testbit d 6 in
    let ro := Z.testbit d 7 in
    Some (Mapping (Z.lor (Z.shiftl (slice d n (48 - n)) n) (slice va 0 n)) (slice d 2 3)
            (el0 && negb ro) (negb (Z.testbit d 54)) (negb ro)
            (negb (Z.testbit d 53) && negb (el0 && negb ro)))
  else None.

(** A block of 1 GiB. *)
Definition block_mapping (d va : Z) : option mapping := block_at 30 d va.

Definition walk (table : list Z) (va : Z) : option mapping :=
  d ← table !! Z.to_nat (slice va 30 9); block_mapping d va.

(** Translation granules.  Where TG0 selects a granule that the processor does
    not implement, it uses another one, which is its own choice. *)
Inductive granule := KiB4 | KiB16 | KiB64.

Record cpu := Cpu { implemented : granule → bool; substitute : granule }.

(** TCR_EL1.TG0; 0b11 is reserved. *)
Definition tg0 (tcr : Z) : option granule :=
  match slice tcr 14 2 with
  | 0 => Some KiB4
  | 1 => Some KiB64
  | 2 => Some KiB16
  | _ => None
  end.

Definition granule_used (c : cpu) (tcr : Z) : granule :=
  match tg0 tcr with
  | Some g => if implemented c g then g else substitute c
  | None => substitute c
  end.

(** The first lookup for 39-bit addresses (T0SZ = 25): level 1 with blocks of
    1 GiB for 4 KiB, level 1 for 16 KiB, where a descriptor may not be a block,
    level 2 with blocks of 512 MiB for 64 KiB.  A table descriptor would go on
    to another level; there is none. *)
Definition translate (c : cpu) (m : mmu) (va : Z) : option mapping :=
  if slice (tcr m) 0 6 =? 25 then
    match granule_used c (tcr m) with
    | KiB4 => walk (l1 m) va
    | KiB16 => None
    | KiB64 => d ← l1 m !! Z.to_nat (slice va 29 10); block_at 29 d va
    end
  else None.

(** The memory map that the code sets up: devices in the first GiB, kernel in
    the second, user code and stack in the third.  The device GiB is open to
    EL0, where the comment above it in [mmu_init] says EL1 only. *)
Definition memory_map (va : Z) : option mapping :=
  if va <? 2 ^ 30 then Some (Mapping va 1 true false true false)
  else if va <? 2 * 2 ^ 30 then Some (Mapping va 0 false true true true)
  else if va <? 3 * 2 ^ 30 then Some (Mapping va 0 true true true false)
  else None.

(** ** Properties *)

Lemma slice_split va : 0 ≤ va → Z.lor (Z.shiftl (Z.shiftr va 30) 30) (slice va 0 30) = va.
Proof.
  intros Hva. rw /slice Z.shiftr_0_r -Z.ldiff_ones_r // Z.lor_comm.
  apply Z.bits_inj'. intros n Hn. rw Z.lor_spec Z.land_spec Z.ldiff_spec.
  by destruct (Z.testbit va n), (Z.testbit (Z.ones 30) n).
Qed.

(** The index of an address below 512 GiB. *)
Lemma slice_index va : 0 ≤ va < 2 ^ 39 → slice va 30 9 = va / 2 ^ 30.
Proof.
  intros Hva. rw /slice Z.shiftr_div_pow2 // Z.land_ones // Z.mod_small //.
  split; [apply Z.div_pos; lia|]. apply Z.div_lt_upper_bound; lia.
Qed.

(** The state of the table and registers after [mmu_init]. *)
Lemma mmu_init_Ok l1_addr vector_table m s :
  length (l1 m) = 512%nat →
  ∃ s', mmu_init l1_addr vector_table m s =
    Ok (Mmu (<[2%nat := L1_DESC 2 0 AP_RW_EL0]> (<[1%nat := L1_DESC 1 0 AP_RW_EL1]>
              (<[0%nat := L1_DESC 0 1 (Z.lor UXN AP_RW_EL0)]> (l1 m))))
          MAIR_VALUE TCR_VALUE l1_addr (Z.ldiff (Z.lor (sctlr m) 1) (Z.shiftl 1 28)) vector_table) s'.
Proof. intros Hl. destruct m as [[|a [|b [|c l]]]]; try done. eexists.
  rw /mmu_init /print_block /mmu_get_l1_block /uart_hex /uart_puts /modify /unwrap /mbind /M_bind /=. reflexivity.
Qed.

(** The three descriptors. *)
Lemma device_block va :
  block_mapping (L1_DESC 0 1 (Z.lor UXN AP_RW_EL0)) va =
  Some (Mapping (Z.lor (Z.shiftl 0 30) (slice va 0 30)) 1 true false true false).
Proof. reflexivity. Qed.

Lemma kernel_block va :
  block_mapping (L1_DESC 1 0 AP_RW_EL1) va =
  Some (Mapping (Z.lor (Z.shiftl 1 30) (slice va 0 30)) 0 false true true true).
Proof. reflexivity. Qed.

Lemma user_block va :
  block_mapping (L1_DESC 2 0 AP_RW_EL0) va =
  Some (Mapping (Z.lor (Z.shiftl 2 30) (slice va 0 30)) 0 true true true false).
Proof. reflexivity. Qed.

(** The table that [mmu_init] leaves. *)
Definition l1_table : list Z :=
  <[2%nat := L1_DESC 2 0 AP_RW_EL0]> (<[1%nat := L1_DESC 1 0 AP_RW_EL1]>
    (<[0%nat := L1_DESC 0 1 (Z.lor UXN AP_RW_EL0)]> (replicate 512 0))).

Lemma walk_table va : 0 ≤ va < 2 ^ 39 → walk l1_table va = memory_map va.
Proof.
  intros Hva. rw /walk slice_index // /memory_map.
  pose proof (slice_split va ltac:(lia)) as Hpa. rw Z.shiftr_div_pow2 // in Hpa.
  pose proof (Z.div_mod va (2 ^ 30) ltac:(lia)) as Hdm. pose proof (Z.mod_pos_bound va (2 ^ 30) ltac:(lia)) as Hm.
  revert Hdm Hpa. generalize (va / 2 ^ 30). intros q Hdm Hpa.
  destruct (decide (q = 0)) as [->|]; [|destruct (decide (q = 1)) as [->|]; [|destruct (decide (q = 2)) as [->|]]].
  - transitivity (block_mapping (L1_DESC 0 1 (Z.lor UXN AP_RW_EL0)) va); [reflexivity|].
    rw device_block Hpa. repeat zcase; [done|lia..].
  - transitivity (block_mapping (L1_DESC 1 0 AP_RW_EL1) va); [reflexivity|].
    rw kernel_block Hpa. repeat zcase; [lia|done|lia..].
  - transitivity (block_mapping (L1_DESC 2 0 AP_RW_EL0) va); [reflexivity|].
    rw user_block Hpa. repeat zcase; [lia|lia|done|lia].
  - rw /l1_table !list_lookup_insert_ne; [lia..|]. rw lookup_replicate_2; [lia|]. repeat zcase; [lia..|done].
Qed.

(** [TCR_EL1] as [mmu_init] sets it: 39-bit addresses, and a granule field that
    selects 16 KiB, not the 4 KiB that the table is laid out for. *)
Lemma translate_tcr c m va :
  tcr m = TCR_VALUE →
  translate c m va =
    match (if implemented c KiB16 then KiB16 else substitute c) with
    | KiB4 => walk (l1 m) va
    | KiB16 => None
    | KiB64 => d ← l1 m !! Z.to_nat (slice va 29 10); block_at 29 d va
    end.
Proof. intros E. by rw /translate /granule_used E. Qed.

(** C12: after [mmu_init], on a processor that lacks the 16 KiB granule and
    uses 4 KiB in its place, the first three GiB of addresses are mapped to
    themselves and nothing else is mapped: device memory open to EL0 and never
    executable there, kernel memory that EL0 cannot read or write, and user
    memory that EL0 can read, write and execute and EL1 cannot execute.  On a
    processor that implements the 16 KiB granule, which is the one that TCR_EL1
    selects, no address is mapped at all.  The translation registers point at
    the table, the MMU is enabled and no other control bit but 28 changes. *)
Theorem mmu_identity_map l1_addr vector_table m s :
  l1 m = replicate 512 0 →
  ∃ m' s', mmu_init l1_addr vector_table m s = Ok m' s' ∧
    (∀ c va, implemented c KiB16 = false → substitute c = KiB4 → 0 ≤ va < 2 ^ 39 →
       translate c m' va = memory_map va) ∧
    (∀ c va, implemented c KiB16 = true → translate c m' va = None) ∧
    ttbr0 m' = l1_addr ∧ vbar m' = vector_table ∧ Z.testbit (sctlr m') 0 = true ∧
    (∀ i, 1 ≤ i → i ≠ 28 → Z.testbit (sctlr m') i = Z.testbit (sctlr m) i).
Proof.
  intros Hl. destruct (mmu_init_Ok l1_addr vector_table m s) as [s' E]; [by rw Hl length_replicate|].
  eexists _, s'. split; [exact E|]. cbn [l1 ttbr0 vbar sctlr]. split_and!; [| |done|done| |].
  - intros c va Hi Hs Hva. rw translate_tcr // Hi Hs Hl. by apply walk_table.
  - intros c va Hi. by rw translate_tcr // Hi.
  - rw Z.ldiff_spec Z.lor_spec. by rw orb_true_r.
  - intros i Hi Hi'. rw Z.ldiff_spec Z.lor_spec Z.shiftl_1_l Z.pow2_bits_eqb //.
    rw (Z.bits_above_log2 1 i) //; [simpl; lia|]. rw orb_false_r. destruct (28 =? i) eqn:E'; zbool; [lia|by rw andb_true_r].
Qed.

(** ** Witnesses *)

Definition mmu0 : mmu := Mmu (replicate 512 0) 0 0 0 0x30D00800 0.

(** Granules of 4 and 64 KiB, like the processor that the README names. *)
Definition small_cpu : cpu := Cpu (λ g, match g with KiB16 => false | _ => true end) KiB4.

Lemma mmu_identity_map_witness :
  ∃ m' s', mmu_init 0x40020000 0x40000800 mmu0 (kstate0 []) = Ok m' s' ∧
    translate small_cpu m' 0x09000018 = Some (Mapping 0x09000018 1 true false true false) ∧
    translate small_cpu m' 0x40080000 = Some (Mapping 0x40080000 0 false true true true) ∧
    translate small_cpu m' 0xC0000000 = None ∧ translate (Cpu (λ _, true) KiB4) m' 0x40080000 = None.
Proof.
  destruct (mmu_identity_map 0x40020000 0x40000800 mmu0 (kstate0 [])) as (m' & s' & E & Hw & Hf & _); [reflexivity|].
  exists m', s'. split; [exact E|]. split_and!; [rw Hw; first [reflexivity|lia]..|]. by apply Hf.
Defined.
