(* ===== verification/Exceptions.v ===== *)
(** * Exceptions: system calls and synchronous exceptions

    [src/src/arch/exceptions.c] and the entry code [sync_handler] of
    [src/src/arch/exceptions.S].  The exception registers ESR, FAR and ELR
    are arguments.  User memory is an argument too: the texts and the message
    structures at the addresses a program passes; a system call returns the
    memory with the message it answered.  The static variables of the C file
    ([saved_x0] to [saved_x8], [exception_count]) are not read by any other
    code and are local here. *)

From stdpp Require Import base numbers list gmap strings.
From Corelib Require Import ssreflect.
From S2P Require Import Prelude Chain CString State Kmalloc Uart Vfs Process Message.

Open Scope Z_scope.
Open Scope general_if_scope.

Definition SYS_PUTC : Z := 1.
Definition SYS_GETC : Z := 2.
Definition SYS_PUTS : Z := 3.
Definition SYS_SEND_MESSAGE : Z := 4.

Record user_mem := UserMem { um_text : gmap Z str; um_msg : gmap Z message }.

(** The exception class, bits 31 to 26 of ESR. *)
Definition ec_of (esr : Z) : Z := Z.land (Z.shiftr esr 26) 0x3F.

Definition EC_SVC : Z := 0x15.

(** The message that the console calls build on the stack. *)
Definition console_message (type character : Z) (string : option str) : message :=
  Message type None None None 0 0 0 0 0 0 None 0 character string.

Definition ec_text (ec : Z) : K unit :=
  if ec =? 0x08 then uart_puts (ln "Exception: Instruction Abort from lower EL")
  else if ec =? 0x09 then uart_puts (ln "Exception: Instruction Abort from same EL")
  else if ec =? 0x0C then uart_puts (ln "Exception: Data Abort from lower EL")
  else if ec =? 0x0D then uart_puts (ln "Exception: Data Abort from same EL")
  else if ec =? 0x15 then uart_puts (ln "Exception: SVC instruction")
  else if ec =? 0x20 then uart_puts (ln "Exception: Data Abort from lower EL")
  else if ec =? 0x21 then uart_puts (ln "Exception: Data Abort from same EL")
  else if ec =? 0x22 then uart_puts (ln "Exception: PC alignment fault")
  else uart_puts (bs "Exception: Unknown class ");; uart_hex ec;; uart_puts (ln "").

(** An exception that is not a system call. *)
Definition print_exception (esr far elr ec : Z) : K unit :=
  uart_puts (10 :: ln "*** SYNC EXCEPTION CAUGHT! ***");;
  uart_puts (bs "ESR_EL1: ");; uart_hex esr;; uart_puts (ln "");;
  uart_puts (bs "EC: ");; uart_hex ec;; uart_puts (ln "");;
  uart_puts (bs "ELR_EL1: ");; uart_hex elr;; uart_puts (ln "");;
  uart_puts (bs "FAR_EL1: ");; uart_hex far;; uart_puts (ln "");;
  ec_text ec;;
  uart_puts (ln "System halted due to unhandled exception.").

Section Handler.
Context `{LinkMap}.

(** The [switch] on the system call number. *)
Definition syscall (fuel : nat) (saved_x0 saved_x8 : Z) (um : user_mem) : K (Z * user_mem) :=
  if saved_x8 =? SYS_PUTC then
    send_message fuel (console_message MSG_PUTC (u8 saved_x0) None);; mret (0, um)
  else if saved_x8 =? SYS_GETC then
    '(result, msg) ← send_message fuel (console_message MSG_GETC 0 None);
    if 0 <=? result then mret (u64 (m_character msg), um) else mret (u64 (-1), um)
  else if saved_x8 =? SYS_PUTS then
    send_message fuel (console_message MSG_PUTS 0 (um_text um !! saved_x0));; mret (0, um)
  else if saved_x8 =? SYS_SEND_MESSAGE then
    user_msg ← unwrap (um_msg um !! saved_x0);
    '(result, user_msg) ← send_message fuel user_msg;
    mret (u64 result, UserMem (um_text um) (<[saved_x0 := user_msg]> (um_msg um)))
  else
    uart_puts (bs "Unknown syscall: ");; uart_hex saved_x8;; uart_puts (ln "");;
    mret (u64 (-1), um).

Definition handle_sync_exception (fuel : nat) (esr far elr : Z) (user_x0 user_x1 user_x2 user_x8 : Z)
    (um : user_mem) : K (Z * user_mem) :=
  let ec := ec_of esr in
  if ec =? EC_SVC then syscall fuel user_x0 user_x8 um
  else print_exception esr far elr ec;; mret (0x100000000, um).

(** [regs] holds x0 to x9 of the interrupted program; the result is what
    they hold after [eret].  A non-zero upper half of the handler's result
    stops the machine. *)
Definition sync_handler (fuel : nat) (esr far elr : Z) (regs : list Z) (um : user_mem) : K (list Z * user_mem) :=
  x0 ← unwrap (regs !! 0%nat); x1 ← unwrap (regs !! 1%nat);
  x2 ← unwrap (regs !! 2%nat); x8 ← unwrap (regs !! 8%nat);
  '(x1, um) ← handle_sync_exception fuel esr far elr x0 x1 x2 x8 um;
  if Z.shiftr x1 32 =? 0 then mret (<[0%nat := x1]> regs, um) else spin.

(** ** Properties *)

(** The registers of a program at a system call. *)
Definition at_syscall (esr : Z) (regs : list Z) (x0 x8 : Z) : Prop :=
  ec_of esr = EC_SVC ∧ length regs = 10%nat ∧ regs !! 0%nat = Some x0 ∧ regs !! 8%nat = Some x8.

#[export] Instance at_syscall_dec esr regs x0 x8 : Decision (at_syscall esr regs x0 x8).
Proof. rw /at_syscall. apply _. Defined.

Lemma sync_handler_svc fuel esr far elr regs x0 x8 um :
  at_syscall esr regs x0 x8 →
  sync_handler fuel esr far elr regs um =
  ('(r, um) ← syscall fuel x0 x8 um; if Z.shiftr r 32 =? 0 then mret (<[0%nat := r]> regs, um) else spin).
Proof.
  intros (Hec & Hl & H0 & H8).
  destruct (lookup_lt_is_Some_2 regs 1) as [x1 H1]; [lia|].
  destruct (lookup_lt_is_Some_2 regs 2) as [x2 H2]; [lia|].
  by rw /sync_handler /handle_sync_exception Hec H0 H1 H2 H8.
Qed.

(** The upper half of a result: zero exactly for a non-negative [int]. *)
Lemma upper_half_int r : - 2 ^ 31 ≤ r < 2 ^ 31 → (Z.shiftr (u64 r) 32 =? 0) = (0 <=? r).
Proof.
  intros Hr. rw Z.shiftr_div_pow2 //. destruct (0 <=? r) eqn:E; zbool.
  - rw u64_small; [lia|]. by rw Z.div_small; [lia|].
  - apply Z.eqb_neq. rw /u64 -(Z.mod_add _ 1) // Z.mod_small; [lia|].
    assert (1 ≤ (r + 1 * 2 ^ 64) `div` 2 ^ 32); [|lia]. apply Z.div_le_lower_bound; lia.
Qed.

Lemma console_byte c : 0 ≤ Z.land c 255 < 256.
Proof. change 255 with (Z.ones 8). rw Z.land_ones //. apply (Z.mod_pos_bound c 256). lia. Qed.

(** The console services of [send_message]. *)
Lemma send_putc fuel c s :
  send_message fuel (console_message MSG_PUTC c None) s =
  Ok (0, console_message MSG_PUTC c None) (set_out (ks_out s ++ [c]) s).
Proof. reflexivity. Qed.

Lemma send_puts fuel t s :
  send_message fuel (console_message MSG_PUTS 0 (Some t)) s =
  Ok (0, console_message MSG_PUTS 0 (Some t)) (set_out (ks_out s ++ crlf t) s).
Proof. reflexivity. Qed.

Lemma send_getc fuel s c r :
  ks_in s = c :: r →
  send_message fuel (console_message MSG_GETC 0 None) s =
  Ok (Z.land c 0xFF, console_message MSG_GETC (Z.land c 0xFF) None) (set_in r s).
Proof.
  intros Hin. assert (Hg : uart_getc s = Ok (Z.land c 0xFF) (set_in r s)) by by rw /uart_getc Hin.
  exact (bind_Ok _ (λ c, mret (c, console_message MSG_GETC c None)) _ _ _ Hg).
Qed.

Lemma send_getc_waits fuel s : ks_in s = [] → send_message fuel (console_message MSG_GETC 0 None) s = Spin.
Proof.
  intros Hin. assert (Hg : uart_getc s = Spin) by by rw /uart_getc Hin.
  change ((c ← uart_getc; mret (c, console_message MSG_GETC c None)) s = Spin). by rw /mbind /M_bind Hg.
Qed.

Lemma syscall_putc fuel x0 um s :
  syscall fuel x0 SYS_PUTC um s = Ok (0, um) (set_out (ks_out s ++ [u8 x0]) s).
Proof. exact (bind_Ok _ (λ _, mret (0, um)) _ _ _ (send_putc fuel (u8 x0) s)). Qed.

Lemma syscall_puts fuel x0 t um s :
  um_text um !! x0 = Some t → syscall fuel x0 SYS_PUTS um s = Ok (0, um) (set_out (ks_out s ++ crlf t) s).
Proof.
  intros Ht. change (syscall fuel x0 SYS_PUTS um) with
    (send_message fuel (console_message MSG_PUTS 0 (um_text um !! x0));; mret (0, um)).
  by rw Ht (bind_Ok _ _ _ _ _ (send_puts fuel t s)).
Qed.

Lemma syscall_getc fuel x0 um s c r :
  ks_in s = c :: r → syscall fuel x0 SYS_GETC um s = Ok (Z.land c 0xFF, um) (set_in r s).
Proof.
  intros Hin. change (syscall fuel x0 SYS_GETC um) with
    ('(result, msg) ← send_message fuel (console_message MSG_GETC 0 None);
     if 0 <=? result then mret (u64 (m_character msg), um) else mret (M := K) (u64 (-1), um)).
  rw (bind_Ok _ _ _ _ _ (send_getc fuel s c r Hin)). pose proof (console_byte c) as Hc.
  destruct (0 <=? Z.land c 255) eqn:E; zbool; [|lia]. cbn [m_character console_message]. rw u64_small; [lia|]. done.
Qed.

Lemma syscall_getc_waits fuel x0 um s : ks_in s = [] → syscall fuel x0 SYS_GETC um s = Spin.
Proof.
  intros Hin. change (syscall fuel x0 SYS_GETC um) with
    ('(result, msg) ← send_message fuel (console_message MSG_GETC 0 None);
     if 0 <=? result then mret (u64 (m_character msg), um) else mret (M := K) (u64 (-1), um)).
  by rw /mbind /M_bind (send_getc_waits fuel s Hin).
Qed.

Lemma syscall_send fuel x0 um s msg r msg' s' :
  um_msg um !! x0 = Some msg → send_message fuel msg s = Ok (r, msg') s' →
  syscall fuel x0 SYS_SEND_MESSAGE um s = Ok (u64 r, UserMem (um_text um) (<[x0 := msg']> (um_msg um))) s'.
Proof.
  intros Hm Hs. change (syscall fuel x0 SYS_SEND_MESSAGE um) with
    (user_msg ← unwrap (um_msg um !! x0); '(result, user_msg) ← send_message fuel user_msg;
     mret (M := K) (u64 result, UserMem (um_text um) (<[x0 := user_msg]> (um_msg um)))).
  rw Hm (bind_Ok _ _ _ _ _ (ret_Ok msg s)) (bind_Ok _ _ _ _ _ Hs). done.
Qed.

Lemma syscall_unknown fuel x0 x8 um s :
  x8 < SYS_PUTC ∨ SYS_SEND_MESSAGE < x8 →
  syscall fuel x0 x8 um s =
  Ok (u64 (-1), um) (set_out (ks_out s ++ bs "Unknown syscall: " ++ bs "0x" ++ hex_digits (u64 x8) ++ [13; 10]) s).
Proof.
  rw /SYS_PUTC /SYS_SEND_MESSAGE => H8. rw /syscall.
  rw (proj2 (Z.eqb_neq x8 SYS_PUTC)) ?(proj2 (Z.eqb_neq x8 SYS_GETC)) ?(proj2 (Z.eqb_neq x8 SYS_PUTS))
    ?(proj2 (Z.eqb_neq x8 SYS_SEND_MESSAGE)); [rw /SYS_PUTC /SYS_GETC /SYS_PUTS /SYS_SEND_MESSAGE; lia..|].
  rw /uart_hex /mbind /M_bind /uart_puts /modify. f_equal. rw /set_out /= -!app_assoc. done.
Qed.

(** C15: the three console calls do what their numbers say and give control
    back to the program with all its saved registers but x0 as they were:
    [SYS_PUTC] transmits the low byte of x0, [SYS_PUTS] the text at x0 with
    CR before LF, [SYS_GETC] takes the next received byte and returns it in
    x0, waiting for ever when none comes. *)
Theorem console_syscalls_correct fuel esr far elr regs x0 um s :
  (at_syscall esr regs x0 SYS_PUTC →
     sync_handler fuel esr far elr regs um s = Ok (<[0%nat := 0]> regs, um) (set_out (ks_out s ++ [u8 x0]) s)) ∧
  (∀ t, at_syscall esr regs x0 SYS_PUTS → um_text um !! x0 = Some t →
     sync_handler fuel esr far elr regs um s = Ok (<[0%nat := 0]> regs, um) (set_out (ks_out s ++ crlf t) s)) ∧
  (at_syscall esr regs x0 SYS_GETC →
     sync_handler fuel esr far elr regs um s =
       match ks_in s with
       | [] => Spin
       | c :: r => Ok (<[0%nat := Z.land c 0xFF]> regs, um) (set_in r s)
       end).
Proof.
  split_and!; [intros H1|intros t H1 Ht|intros H1]; rw (sync_handler_svc _ _ _ _ _ _ _ _ H1).
  - by rw (bind_Ok _ _ _ _ _ (syscall_putc _ _ _ _)).
  - by rw (bind_Ok _ _ _ _ _ (syscall_puts _ _ _ _ _ Ht)).
  - destruct (ks_in s) as [|c r] eqn:Hin; [by rw /mbind /M_bind (syscall_getc_waits _ _ _ _ Hin)|].
    rw (bind_Ok _ _ _ _ _ (syscall_getc fuel x0 um s c r Hin)). pose proof (console_byte c) as Hc.
    rw Z.shiftr_div_pow2 // Z.div_small; [lia|]. done.
Qed.

(** C16: a message sent by a program gets its answer in x0 only when the
    service returns a non-negative number.  Every error result of a service
    (a file that does not exist, a full descriptor table, an unknown message
    type), and every unknown system call number, has a non-zero upper half as
    a 64-bit value and stops the whole machine, where the comment on the
    handler promises bits 63:32 = 0 for system calls. *)
Theorem syscall_error_halts fuel esr far elr regs x0 x8 um s :
  (∀ msg r msg' s', at_syscall esr regs x0 SYS_SEND_MESSAGE → um_msg um !! x0 = Some msg →
     send_message fuel msg s = Ok (r, msg') s' → - 2 ^ 31 ≤ r < 2 ^ 31 →
     sync_handler fuel esr far elr regs um s =
       if 0 <=? r then Ok (<[0%nat := r]> regs, UserMem (um_text um) (<[x0 := msg']> (um_msg um))) s' else Spin) ∧
  (at_syscall esr regs x0 x8 → x8 < SYS_PUTC ∨ SYS_SEND_MESSAGE < x8 →
     sync_handler fuel esr far elr regs um s = Spin).
Proof.
  split.
  - intros msg r msg' s' H1 Hm Hs Hr.
    rw (sync_handler_svc _ _ _ _ _ _ _ _ H1) (bind_Ok _ _ _ _ _ (syscall_send _ _ _ _ _ _ _ _ Hm Hs)).
    rw upper_half_int //. destruct (0 <=? r) eqn:E; zbool; [|done]. rw u64_small; [lia|]. done.
  - intros H1 H8. by rw (sync_handler_svc _ _ _ _ _ _ _ _ H1) (bind_Ok _ _ _ _ _ (syscall_unknown _ _ _ _ _ H8)).
Qed.

(** What the handler prints about an exception. *)
Definition ec_line (ec : Z) : str :=
  if bool_decide (ec ∈ [0x0C; 0x20]) then bs "Exception: Data Abort from lower EL"
  else if bool_decide (ec ∈ [0x0D; 0x21]) then bs "Exception: Data Abort from same EL"
  else if ec =? 0x08 then bs "Exception: Instruction Abort from lower EL"
  else if ec =? 0x09 then bs "Exception: Instruction Abort from same EL"
  else if ec =? 0x15 then bs "Exception: SVC instruction"
  else if ec =? 0x22 then bs "Exception: PC alignment fault"
  else bs "Exception: Unknown class 0x" ++ hex_digits (u64 ec).

Definition field (name : string) (v : Z) : str := bs name ++ bs "0x" ++ hex_digits (u64 v) ++ [13; 10].

Definition report (esr far elr : Z) : str :=
  [13; 10] ++ bs "*** SYNC EXCEPTION CAUGHT! ***" ++ [13; 10] ++
  field "ESR_EL1: " esr ++ field "EC: " (ec_of esr) ++ field "ELR_EL1: " elr ++ field "FAR_EL1: " far ++
  ec_line (ec_of esr) ++ [13; 10] ++ bs "System halted due to unhandled exception." ++ [13; 10].

Lemma prints_ec ec : prints (ec_line ec ++ [13; 10]) (ec_text ec).
Proof.
  rw /ec_text.
  do 8 (match goal with |- context [if ec =? ?k then _ else _] =>
    destruct (Z.eqb_spec ec k) as [->|?]; [exact (prints_puts _)|] end).
  rw /ec_line !bool_decide_eq_false_2; [by rw !not_elem_of_cons; split_and!; [..|apply not_elem_of_nil]..|]. repeat (case_match; zbool; [done|]).
  change (bs "Exception: Unknown class 0x") with (bs "Exception: Unknown class " ++ bs "0x").
  rw -!app_assoc. apply (prints_bind (bs "Exception: Unknown class ")); [exact (prints_puts _)|].
  rw app_assoc. by apply (prints_bind _ [13; 10]); [apply prints_hex|exact (prints_puts _)].
Qed.

Lemma prints_field name v m t :
  crlf (bs name) = bs name → prints t m →
  prints (field name v ++ t) (uart_puts (bs name);; uart_hex v;; uart_puts (ln "");; m).
Proof.
  intros Hn Hm. rw /field -!app_assoc. apply prints_bind; [rw -{1}Hn; apply prints_puts|].
  rw app_assoc. apply prints_bind; [apply prints_hex|]. by apply (prints_bind [13; 10]); [exact (prints_puts _)|].
Qed.

Lemma prints_exception esr far elr : prints (report esr far elr) (print_exception esr far elr (ec_of esr)).
Proof.
  rw /report /print_exception.
  apply (prints_bind ([13; 10] ++ bs "*** SYNC EXCEPTION CAUGHT! ***" ++ [13; 10])); [exact (prints_puts _)|].
  do 4 (apply prints_field; [done|]). rw app_assoc. apply prints_bind; [apply prints_ec|exact (prints_puts _)].
Qed.

(** A fault of a program (any synchronous exception that is not a
    system call) is reported with the values of ESR, its class, ELR and FAR,
    changes nothing else of the kernel's state, and stops the machine: the
    handler returns a value whose upper half is 1, on which the entry code
    never returns to the program. *)
Theorem exception_reported fuel esr far elr um s :
  ec_of esr ≠ EC_SVC →
  (∀ x0 x1 x2 x8, handle_sync_exception fuel esr far elr x0 x1 x2 x8 um s =
     Ok (2 ^ 32, um) (set_out (ks_out s ++ report esr far elr) s)) ∧
  (∀ regs, length regs = 10%nat → sync_handler fuel esr far elr regs um s = Spin).
Proof.
  intros Hec.
  assert (Hh : ∀ x0 x1 x2 x8, handle_sync_exception fuel esr far elr x0 x1 x2 x8 um s =
     Ok (2 ^ 32, um) (set_out (ks_out s ++ report esr far elr) s)).
  { intros x0 x1 x2 x8. rw /handle_sync_exception. apply Z.eqb_neq in Hec as ->.
    by rw (bind_Ok _ _ _ _ _ (prints_exception esr far elr s)). }
  split; [done|]. intros regs Hl. destruct regs as [|x0 [|x1 [|x2 [|x3 [|x4 [|x5 [|x6 [|x7 [|x8 regs]]]]]]]]]; try done.
  rw /sync_handler. do 4 (rw (bind_Ok _ _ _ _ _ (ret_Ok _ s))). by rw (bind_Ok _ _ _ _ _ (Hh x0 x1 x2 x8)).
Qed.
End Handler.

(** ** Witnesses *)

Section Examples.
#[local] Instance exc_link : LinkMap := {| process_stacks := 0x40010000; process3 := 0x40001234 |}.

(** ESR of an [svc #0], and a program's registers at one. *)
Definition svc_esr : Z := 0x56000000.

Definition svc_regs (x0 x8 : Z) : list Z := [x0; 1; 2; 3; 4; 5; 6; 7; x8; 9].

Lemma svc_at x0 x8 : at_syscall svc_esr (svc_regs x0 x8) x0 x8.
Proof. done. Qed.

Lemma console_syscalls_correct_witness :
  let um := UserMem {[ 0x80000100 := ln "hi" ]} ∅ in
  let s := kstate0 [104] in
  sync_handler 1 svc_esr 0 0 (svc_regs 0x141 1) um s = Ok (svc_regs 0 1, um) (set_out [65] s) ∧
  sync_handler 1 svc_esr 0 0 (svc_regs 0x80000100 3) um s = Ok (svc_regs 0 3, um) (set_out [104; 105; 13; 10] s) ∧
  sync_handler 1 svc_esr 0 0 (svc_regs 7 2) um s = Ok (svc_regs 104 2, um) (set_in [] s).
Proof.
  intros um s. split_and!.
  - exact (proj1 (console_syscalls_correct 1 svc_esr 0 0 (svc_regs 0x141 1) 0x141 um s) (svc_at _ _)).
  - exact (proj1 (proj2 (console_syscalls_correct 1 svc_esr 0 0 (svc_regs 0x80000100 3) 0x80000100 um s))
      (ln "hi") (svc_at _ _) (lookup_insert_eq _ _ _)).
  - exact (proj2 (proj2 (console_syscalls_correct 1 svc_esr 0 0 (svc_regs 7 2) 7 um s)) (svc_at _ _)).
Defined.

(** A [MSG_STAT] message (type 5), which no service handles. *)
Lemma syscall_error_halts_witness :
  let um := UserMem ∅ {[ 0x80000100 := msg_with_type 5 message0 ]} in
  sync_handler 1 svc_esr 0 0 (svc_regs 0x80000100 4) um (kstate0 []) = Spin ∧
  sync_handler 1 svc_esr 0 0 (svc_regs 0 9) um (kstate0 []) = Spin.
Proof.
  intros um. split.
  - apply (proj1 (syscall_error_halts 1 svc_esr 0 0 (svc_regs 0x80000100 4) 0x80000100 4 um (kstate0 [])) 
      (msg_with_type 5 message0) (-1) (msg_with_type 5 message0) (kstate0 []) (svc_at _ _) (lookup_insert_eq _ _ _)
      (ret_Ok _ _)). lia.
  - apply (proj2 (syscall_error_halts 1 svc_esr 0 0 (svc_regs 0 9) 0 9 um (kstate0 []))); [apply svc_at|].
    rw /SYS_SEND_MESSAGE. lia.
Defined.

(** A data abort of a program that touches address 0x10. *)
Lemma exception_reported_witness :
  sync_handler 1 0x92000046 0x10 0x80000040 (svc_regs 0 0) (UserMem ∅ ∅) (kstate0 []) = Spin.
Proof. by apply (exception_reported 1 0x92000046 0x10 0x80000040 (UserMem ∅ ∅) (kstate0 [])). Defined.
End Examples.
