(* ===== verification/Kernel.v ===== *)
(** * Kernel: booting, [src/src/kernel/kernel.c]

    [kernel_main] puts the components together: console, MMU, process table,
    file systems, timer, and the first user process.  What the processor's
    CurrentEL register reads and the addresses that the linker assigns are
    parameters.  The end of booting is the jump to [enter_usermode], which
    does not return: the result is the program counter and stack pointer it is
    given.  The [test_] functions of the file are modelled in
    [KernelTests]. *)

From stdpp Require Import base numbers list gmap strings.
From Corelib Require Import ssreflect.
From S2P Require Import Prelude Chain CString State Kmalloc Uart Ramfs Abyss Vfs VfsSpec Namespace Gic Process ProcessSpec Message Mmu Exceptions.

Open Scope Z_scope.
Open Scope general_if_scope.

Definition print_mmu_blocks (m : mmu) : K unit :=
  d ← mmu_get_l1_block 0 m; print_block "MMU L1 Block 0: " d;;
  d ← mmu_get_l1_block 1 m; print_block "MMU L1 Block 1: " d.

(** [irq_status] is what the timer's control register reads. *)
Definition handle_irq (irq_status : Z) (dev : Z → Z) (cntfrq : Z) : K (option Z) :=
  if negb (Z.land irq_status 4 =? 0) then v ← timer_handler dev cntfrq; mret (Some v) else mret None.

Definition USER_BASE : Z := 0x80000000.

(** The user process, and the drop to EL0. *)
Definition launch_user (cur_el enter_addr : Z) (m : mmu) : K (Z * Z) :=
  o ← process_create USER_BASE;
  user ← unwrap o;
  upd_proc user (with_sp (USER_BASE + 0x10000));;
  upd_proc user (with_state PROC_READY);;
  uart_puts (ln "Dropping to EL0!");;
  pr ← get_proc user;
  pc ← unwrap (p_ctx pr !! ctx_pc);
  uart_puts (bs "user->ctx.pc: ");; uart_hex pc;; uart_puts (ln "");;
  uart_puts (bs "user->sp:     ");; uart_hex (p_sp pr);; uart_puts (ln "");;
  print_mmu_blocks m;;
  uart_puts (ln "=== About to enter_usermode ===");;
  uart_puts (bs "Address of enter_usermode: ");;
  uart_hex enter_addr;; uart_puts (ln "");;
  uart_puts (ln "!!! PRE-JUMP !!!");;
  uart_puts (bs "CurrentEL before eret: ");; uart_hex cur_el;; uart_puts (ln "");;
  if Z.land cur_el 4 =? 0 then uart_puts (ln "PANIC: not in EL1!");; spin
  else mret (pc, p_sp pr).

(** The part of [kernel_main] after the subsystems are up. *)
Definition start_user (cur_el enter_addr : Z) (m : mmu) : K (Z * Z) :=
  uart_puts (10 :: bs "=== kernel shell (EL1) — type " ++ [34] ++ bs "exit" ++ [34] ++ ln " to continue ===");;
  uart_puts (ln "Shell exited; continuing boot…" ++ [10]);;
  timer_init;;
  gic_init;;
  uart_puts (ln "User shell is already at 0x80000000, no copy needed");;
  launch_user cur_el enter_addr m.

Definition kernel_main (l1_addr vector_table cur_el enter_addr : Z) (m : mmu) : K (mmu * Z * Z) :=
  uart_init;;
  uart_puts (ln "ChthonOS v0.1.0" ++ ln "----------------" ++ ln "Booting…" ++ [10]);;
  m ← mmu_init l1_addr vector_table m;
  process_init;;
  vfs_init;;
  '(pc, sp) ← start_user cur_el enter_addr m;
  mret (m, pc, sp).

(** ** Properties *)

(** [kernel_main] reaches [vfs_init] with no current process, and the file
    that AbyssFS creates there as a self-test is looked up in the working
    directory of the current process: a NULL dereference at every boot,
    whatever the addresses and registers. *)
Theorem kernel_main_null_process l1_addr vector_table cur_el enter_addr mair0 tcr0 ttbr00 sctlr0 vbar0 input :
  kernel_main l1_addr vector_table cur_el enter_addr
    (Mmu (replicate 512 0) mair0 tcr0 ttbr00 sctlr0 vbar0) (kstate0 input) = Fault.
Proof. vm_compute. reflexivity. Qed.

Lemma tab_prints s o m cnt cur lst np t k :
  prints t k → k (tab s o m cnt cur lst np) = Ok tt (tab s (o ++ t) m cnt cur lst np).
Proof. intros Hk. by rw Hk. Qed.

Lemma prints_block text d : prints (crlf (bs text) ++ (bs "0x" ++ hex_digits (u64 d)) ++ crlf (ln "")) (print_block text d).
Proof. apply prints_bind; [apply prints_puts|]. apply prints_bind; [apply prints_hex|apply prints_puts]. Qed.

Lemma prints_mmu_blocks m : (2 ≤ length (l1 m))%nat → ∃ t, prints t (print_mmu_blocks m).
Proof.
  intros Hl. destruct (lookup_lt_is_Some_2 (l1 m) 0) as [d0 H0]; [lia|].
  destruct (lookup_lt_is_Some_2 (l1 m) 1) as [d1 H1]; [lia|].
  eexists. rw /print_mmu_blocks /mmu_get_l1_block H0 H1. exact (prints_bind _ _ _ _ (prints_block _ _) (prints_block _ _)).
Qed.

(** Run the steps that only print or read. *)
Ltac tab_run :=
  repeat (erewrite bind_Ok;
    [|lazymatch goal with
      | |- mret _ _ = _ => apply ret_Ok
      | |- unwrap (Some _) _ = _ => apply ret_Ok
      | |- uart_puts _ _ = _ => apply tab_puts
      | |- uart_hex _ _ = _ => apply tab_hex
      | |- get_proc _ _ = _ => apply tab_get, lookup_insert_eq
      end]).

(** The last part of booting, from a state without a process and with room
    in the heap. *)
Section Launch.
Variables (cur_el enter_addr : Z) (m : mmu).
Hypothesis has_table : length (l1 m) = 512%nat.
Hypothesis at_el1 : Z.land cur_el 4 ≠ 0.

Definition ready_to_launch (s : kstate) : Prop :=
  heap_ok s ∧ ks_heap_pos s + sizeof_process ≤ HEAP_SIZE ∧ current_process (ks_proc s) = None ∧
  next_pid (ks_proc s) < 2 ^ 31 - 1.

Definition launched (s s' : kstate) : Prop :=
  let p := PHeap (ks_heap_pos s) in
  current_process (ks_proc s') = Some p ∧ process_list (ks_proc s') = Some p ∧
  procs s' !! p = Some (with_state PROC_READY (with_sp (USER_BASE + 0x10000) (created s USER_BASE))).

Lemma launch_user_Ok s :
  ready_to_launch s →
  ∃ s', launch_user cur_el enter_addr m s = Ok (USER_BASE, USER_BASE + 0x10000) s' ∧ launched s s'.
Proof.
  intros (Hh & Hroom & Hcur & Hpid). destruct (prints_mmu_blocks m) as [t Ht]; [lia|]. eexists. rw /launch_user. erewrite bind_Ok.
  2: { rw (process_create_Ok s USER_BASE) //. rw (proj2 (Z.ltb_lt _ _)); [done|]. reflexivity. }
  erewrite bind_Ok; [|apply ret_Ok]. do 2 (erewrite bind_Ok; [|apply tab_upd_eq]). tab_run.
  erewrite bind_Ok; [|apply ret_Ok]. tab_run.
  erewrite bind_Ok; [|apply tab_prints, Ht].
  tab_run. apply Z.eqb_neq in at_el1 as ->. split; [reflexivity|]. split_and!; [by rw /= Hcur|done|].
  apply lookup_insert_eq.
Qed.

Lemma start_user_Ok s :
  ready_to_launch s →
  ∃ s', start_user cur_el enter_addr m s = Ok (USER_BASE, USER_BASE + 0x10000) s' ∧ launched s s'.
Proof.
  intros Hs. rw /start_user. do 2 (erewrite bind_Ok; [|apply prints_puts]).
  do 3 (erewrite bind_Ok; [|first [apply prints_puts|apply ret_Ok]]). exact (launch_user_Ok (set_out _ _) Hs).
Qed.
End Launch.

(** C11: the end of booting, after the MMU is on and from any state without
    a current process and with room for one in the heap: the kernel enters EL0
    at 0x80000000 with the stack at 0x80010000, and with a READY process of
    that entry point as current process, in the directory "/".  The
    translation table lets EL0 execute the entry point and write the whole
    64 KiB stack, and maps both to themselves. *)
Theorem boot_enters_user l1_addr vector_table m0 m s0 s1 cur_el enter_addr s :
  l1 m0 = replicate 512 0 → mmu_init l1_addr vector_table m0 s0 = Ok m s1 →
  heap_ok s → ks_heap_pos s + sizeof_process ≤ HEAP_SIZE →
  current_process (ks_proc s) = None → next_pid (ks_proc s) < 2 ^ 31 - 1 → Z.land cur_el 4 ≠ 0 →
  ∃ pc sp s' p pr, start_user cur_el enter_addr m s = Ok (pc, sp) s' ∧ pc = 0x80000000 ∧ sp = 0x80010000 ∧
    current_process (ks_proc s') = Some p ∧ procs s' !! p = Some pr ∧
    p_state pr = PROC_READY ∧ p_pid pr = next_pid (ks_proc s) ∧ p_cwd pr = bs "/" ∧
    (∃ mp, walk (l1 m) pc = Some mp ∧ map_pa mp = pc ∧ el0_exec mp = true) ∧
    (∀ a, sp - 0x10000 ≤ a < sp → ∃ mp, walk (l1 m) a = Some mp ∧ map_pa mp = a ∧ el0_rw mp = true).
Proof.
  intros Hl Hm Hh Hroom Hcur Hpid Hel.
  destruct (mmu_init_Ok l1_addr vector_table m0 s0) as [s1' E]; [by rw Hl length_replicate|].
  rw Hm in E. injection E as Em _. assert (Hl1 : l1 m = l1_table) by by rw Em /= Hl.
  assert (Hlen : length (l1 m) = 512%nat) by by rw Hl1 /l1_table !length_insert length_replicate.
  destruct (start_user_Ok cur_el enter_addr m Hlen Hel s) as (s' & Hr & Hc & _ & Hp); [done|].
  eexists _, _, s', _, _. split; [exact Hr|]. split_and!; [done|done|exact Hc|exact Hp|done|done|done| |]; rw Hl1.
  - eexists. by rw walk_table.
  - intros a Ha. rw /USER_BASE in Ha. rw walk_table; [lia|]. rw /memory_map. repeat zcase; try lia. by eexists.
Qed.

Lemma boot_enters_user_witness :
  ∃ m s1 pc sp s', mmu_init 0x40020000 0x40000800 mmu0 (kstate0 []) = Ok m s1 ∧
    start_user 4 0x40000400 m (kstate0 []) = Ok (pc, sp) s' ∧ pc = 0x80000000 ∧ sp = 0x80010000.
Proof.
  destruct (mmu_init_Ok 0x40020000 0x40000800 mmu0 (kstate0 [])) as [s1 E]; [reflexivity|].
  destruct (boot_enters_user 0x40020000 0x40000800 mmu0 _ (kstate0 []) s1 4 0x40000400 (kstate0 []) eq_refl E)
    as (pc & sp & s' & p & pr & Hr & Hpc & Hsp & _); [rw /heap_ok /HEAP_SIZE /=; lia|
      rw /sizeof_process /HEAP_SIZE /=; lia|reflexivity|rw /=; lia|done|].
  eexists _, s1, pc, sp, s'. split_and!; [exact E|exact Hr|exact Hpc|exact Hsp].
Defined.
