(* ===== verification/KernelTests.v ===== *)
(** * KernelTests: the self-tests of the kernel

    The [test_] functions of [src/src/kernel/kernel.c] and the three test
    processes of [src/src/user/process_test.c], clients of all the services
    below them.  An uninitialised buffer on the stack is an argument. *)

From stdpp Require Import base numbers list gmap strings.
From Corelib Require Import ssreflect.
From S2P Require Import Prelude Chain CString State Kmalloc Uart Ramfs Abyss Vfs VfsSpec Namespace Gic Process ProcessSpec Message.

Open Scope Z_scope.
Open Scope general_if_scope.

Definition MREPL : Z := 16.

(** ** kernel.c *)

Definition test_mount : K (option vfs_super_block) :=
  sb ← kalloc sizeof_vfs_super_block;
  match sb with None => mret None | Some _ => mret (Some (VfsSb 0x1234 (bs "ramfs"))) end.

Definition test_vfs : K unit :=
  r ← ramfs_create_file (bs "/tmp/test.txt") (bs "Hello from RAMFS!");
  if r <? 0 then uart_puts (ln "Failed to create file")
  else
    fd ← vfs_open (bs "/tmp/test.txt");
    if fd <? 0 then uart_puts (ln "Failed to open file")
    else
      '(n, _) ← vfs_read fd 128;
      if n <? 0 then uart_puts (ln "Failed to read file") else mret tt.

Definition test_ramfs : K unit :=
  r ← ramfs_create_file (bs "/tmp/test.txt") (bs "Hello from RAMFS!");
  if r <? 0 then uart_puts (ln "Failed to create file")
  else
    fd ← vfs_open (bs "/tmp/test.txt");
    if fd <? 0 then uart_puts (ln "Failed to open file through VFS")
    else
      '(n, _) ← vfs_read fd 64;
      if n <? 0 then uart_puts (ln "Failed to read file") else mret tt.

Definition msg_with_path (p : str) (m : message) : message :=
  Message (m_type m) (Some p) (m_argv m) (m_data m) (m_size m) (m_flags m) (m_fd m) (m_pid m) (m_status m)
    (m_entry m) (m_dirents m) (m_dirent_count m) (m_character m) (m_string m).

Section Tests.
Context `{LinkMap}.
Variable fuel : nat.

(** [buf] is the content of [char buf[64]]. *)
Definition test_messages (buf : list Z) : K unit :=
  '(_, msg) ← send_message fuel (msg_with_path (bs "/hello.txt") (msg_with_type MSG_OPEN message0));
  send_message fuel (msg_with_data (Some (Bytes buf)) 64 (msg_with_type MSG_READ msg));;
  mret tt.

Definition test_namespaces : K unit :=
  bind (bs "/tmp") (bs "/private") MREPL;;
  '(_, msg) ← send_message fuel (msg_with_path (bs "/tmp/test.txt")
                (msg_with_data (Some (Bytes (bs "X" ++ [0]))) 1 (msg_with_type MSG_OPEN message0)));
  send_message fuel (msg_with_path (bs "/private/test.txt") msg);;
  mret tt.

Definition test_ipc : K unit :=
  o ← get_current_process;
  match o with
  | None => uart_puts (ln "No current process!")
  | Some p =>
      queue_message p (msg_with_data (Some (Bytes (bs "Hi" ++ [0]))) 2 (msg_with_type 1 message0));;
      receive_message message0;;
      mret tt
  end.

Definition test_processes : K unit :=
  '(ret, msg) ← send_message fuel (msg_with_type MSG_FORK message0);
  if ret =? 0 then exit_process 42
  else send_message fuel (msg_with_type MSG_WAIT msg);; mret tt.

(** [argv_addr] is the address of the argument vector on the stack. *)
Definition test_exec (argv_addr : Z) : K unit :=
  send_message fuel (Message MSG_EXEC (Some (bs "/bin/test")) (Some (argv_addr, 1)) None 0 0 0 0 0 process3 None 0 0 None);;
  mret tt.
End Tests.

(** ** process_test.c *)

Fixpoint print_names (es : list dirent) : K unit :=
  match es with
  | [] => mret tt
  | e :: es => uart_puts (d_name e);; uart_puts (ln "");; print_names es
  end.

Definition list_directory (path : str) : K unit :=
  '(entry_count, es) ← vfs_read_dir path 32;
  if 0 <=? entry_count then print_names (take (Z.to_nat entry_count) es) else mret tt.

(** [buf] is the content of [char buf[128]]: the text printed from it ends at
    the first zero byte, whoever wrote it. *)
Definition process1 (buf : list Z) : K unit :=
  uart_puts (ln "Process 1: Testing basic namespace binding");;
  uart_puts (ln "Creating directories...");;
  vfs_mkdir (bs "/tmp/data");;
  vfs_mkdir (bs "/private");;
  uart_puts (ln "Creating test file in /tmp/data/test.txt");;
  r ← ramfs_create_file (bs "/tmp/data/test.txt") (bs "Hello from RAMFS!");
  (if r <? 0 then uart_puts (ln "Failed to create test file");; process_exit 1 else mret tt);;
  uart_puts (ln "Creating bind mount: /private -> /tmp/data");;
  r ← bind (bs "/tmp/data") (bs "/private") MREPL;
  (if r <? 0 then uart_puts (ln "Failed to create bind mount");; process_exit 1 else mret tt);;
  uart_puts (ln "Accessing file through namespace as /private/test.txt");;
  fd ← vfs_open (bs "/private/test.txt");
  (if fd <? 0 then uart_puts (ln "Failed to open file through namespace");; process_exit 1 else mret tt);;
  '(n, data) ← vfs_read fd 128;
  (if n <? 0 then uart_puts (ln "Failed to read file through namespace");; process_exit 1 else mret tt);;
  uart_puts (bs "Read through namespace: ");;
  text ← unwrap (text_at (splice buf 0 data));
  uart_puts text;; uart_puts (ln "");;
  uart_puts (10 :: ln "Listing /tmp/data:");;
  list_directory (bs "/tmp/data");;
  uart_puts (10 :: ln "Listing /private:");;
  list_directory (bs "/private");;
  process_exit 0.

Fixpoint read_all (paths : list str) : K unit :=
  match paths with
  | [] => mret tt
  | path :: paths =>
      fd ← vfs_open path;
      (if 0 <=? fd then
         '(n, _) ← vfs_read fd 128;
         if 0 <? n then uart_puts (bs "Successfully read through ");; uart_puts path;; uart_puts (ln "") else mret tt
       else mret tt);;
      read_all paths
  end.

Definition process2 : K unit :=
  uart_puts (ln "Process 2: Testing multiple namespace bindings");;
  bind (bs "/tmp") (bs "/data") MREPL;;
  bind (bs "/tmp") (bs "/backup") MREPL;;
  ramfs_create_file (bs "/tmp/shared.txt") (bs "Shared through namespaces");;
  read_all [bs "/tmp/shared.txt"; bs "/data/shared.txt"; bs "/backup/shared.txt"];;
  process_exit 0.

Definition dots (n : nat) : K unit := Nat.iter n (λ k, uart_puts (bs ".");; k) (mret tt).

Definition process3_main : K unit :=
  uart_puts (ln "Process 3: Testing namespace isolation");;
  dots 5;;
  uart_puts (10 :: ln "Process 3 done");;
  process_exit 0.

(** ** The tests on a freshly booted system *)

(** The state after the initialisation of the file systems, without the
    self-test of AbyssFS, and the creation of two processes. *)
Definition booted : K unit :=
  Abyss.abyssfs_init;; ramfs_init;; vfs_mount (bs "/") ABYSSFS;; vfs_mount (bs "/tmp") RAMFS;;
  process_create 0x40001000;; process_create 0x40002000;; mret tt.

(** What the console shows when the code returned or switched away. *)
Definition output_of {A} (o : outcome kstate A) : option str :=
  match o with Ok _ s | Away s => Some (ks_out s) | _ => None end.

Definition after_boot {A} (m : K A) : outcome kstate A := (booted;; m) (kstate0 []).

(** [test_vfs] and [test_ramfs] succeed: they report no failure. *)
Lemma file_tests_pass :
  output_of (after_boot test_vfs) = output_of (after_boot (mret tt)) ∧
  output_of (after_boot test_ramfs) = output_of (after_boot (mret tt)).
Proof. split; vm_compute; reflexivity. Qed.

(** The first test process does not read its file through the binding it
    made: the listing of "/private" shows "test.txt", but the open of
    "/private/test.txt" is not translated to "/tmp/data/test.txt", and the text
    read is empty instead of "Hello from RAMFS!". *)
Theorem process1_reads_nothing :
  output_of (after_boot (process1 (replicate 128 0))) =
  output_of (after_boot (
    uart_puts (ln "Process 1: Testing basic namespace binding");;
    uart_puts (ln "Creating directories...");;
    uart_puts (ln "Creating test file in /tmp/data/test.txt");;
    uart_puts (ln "Creating bind mount: /private -> /tmp/data");;
    uart_puts (ln "Binding /private to /tmp/data");; uart_puts (ln "Added namespace binding to process");;
    uart_puts (ln "Accessing file through namespace as /private/test.txt");;
    uart_puts (ln "Read through namespace: ");;
    uart_puts (10 :: ln "Listing /tmp/data:");; uart_puts (ln "." ++ ln ".." ++ ln "test.txt");;
    uart_puts (10 :: ln "Listing /private:");; uart_puts (ln "." ++ ln ".." ++ ln "test.txt");;
    say_exit 2 0)).
Proof. vm_compute. reflexivity. Qed.

(** Of the three names that the second test process gives to one file only
    the file's own can be read: the directories it binds do not exist, and
    [bind] refuses. *)
Theorem process2_binds_nothing :
  output_of (after_boot process2) =
  output_of (after_boot (
    uart_puts (ln "Process 2: Testing multiple namespace bindings");;
    uart_puts (ln "Binding /data to /tmp");; uart_puts (ln "Path component not found: data");;
    uart_puts (ln "Target directory does not exist");;
    uart_puts (ln "Binding /backup to /tmp");; uart_puts (ln "Path component not found: backup");;
    uart_puts (ln "Target directory does not exist");;
    uart_puts (ln "Successfully read through /tmp/shared.txt");; say_exit 2 0)).
Proof. vm_compute. reflexivity. Qed.

(** [MSG_FORK] returns 0 to the process that sent it, so the self-test takes
    the branch meant for the child in the parent: the parent exits with status
    42 and never waits. *)
Theorem test_processes_parent_exits `{LinkMap} fuel s r msg s' :
  send_message fuel (msg_with_type MSG_FORK message0) s = Ok (r, msg) s' →
  r = 0 ∧ test_processes fuel s = exit_process 42 s'.
Proof.
  intros E. assert (r = 0) as ->.
  { change (send_fork (msg_with_type MSG_FORK message0) s = Ok (r, msg) s') in E. rw /send_fork in E.
    apply bind_inv in E as (n & s1 & _ & E). apply bind_inv in E as (pr & s2 & _ & E). by apply ret_inv in E as [[= ->] _]. }
  split; [done|]. by rw /test_processes (bind_Ok _ _ _ _ _ E).
Qed.
