(* ===== verification/UserShell.v ===== *)
(** * UserShell: the user-mode shell of [src/src/user/user_shell.c]

    A program at EL0.  It reaches the kernel only through [svc], so its
    [putc], [getc] and [puts] are system calls handled by [sync_handler]: the
    theorems below go through the exception entry, the message layer and the
    console.  The address at which a string lies is a parameter; a text is the
    bytes before its terminator. *)

From stdpp Require Import base numbers list gmap strings.
From Corelib Require Import ssreflect.
From S2P Require Import Prelude Chain CString State Kmalloc Uart Vfs Process Message LineBuffer Exceptions.

Open Scope Z_scope.
Open Scope general_if_scope.

(** ** The string functions of the program *)

Definition hd0 (t : str) : Z := match t with c :: _ => c | [] => 0 end.

Fixpoint u_strcmp (a b : str) : Z :=
  match a with
  | [] => - hd0 b
  | x :: a' => if x =? hd0 b then u_strcmp a' (tail b) else x - hd0 b
  end.


Fixpoint u_strlen (t : str) : Z := match t with [] => 0 | _ :: t => u_strlen t + 1 end.




(** ** Text lemmas *)




Section Program.
Context `{LinkMap}.
Variable fuel : nat.
Variable text_addr : Z.

(** ** System calls *)





(** ** Commands *)






(** ** The main loop *)




(** ** System calls seen from the program *)





(** ** What the commands print *)







(** ** Editing a line *)






(** A key that does not end the line. *)
Definition plain_key (c : Z) : Prop := 0 < c < 256 ∧ c ≠ 10 ∧ c ≠ 13.

#[export] Instance plain_key_dec c : Decision (plain_key c).
Proof. rw /plain_key. apply _. Defined.






End Program.

(** ** Witness *)

Section Examples.
#[local] Instance ush_link : LinkMap := {| process_stacks := 0x40010000; process3 := 0x40001234 |}.

End Examples.
