(* ===== verification/Shell.v ===== *)
(** * Shell: the kernel shell of [src/src/user/shell.c]

    Line input, command dispatch and the commands, all running in the kernel
    on the VFS, the message layer and the process table.  The argument of a
    command is [None] for NULL, and otherwise the text read off the line
    buffer when the line is split.  [strtok_r] of a NULL text reads an
    uninitialised pointer, which faults. *)

From stdpp Require Import base numbers list gmap strings.
From Corelib Require Import ssreflect.
From S2P Require Import Prelude Chain CString State Kmalloc Uart Paths Ramfs Abyss Vfs Namespace Process Message.

Open Scope Z_scope.
Open Scope general_if_scope.

Definition MAX_INPUT : nat := 256.

Definition PROMPT : str := bs "$ ".

(** ** Paths *)

(** [while (len > 0 && path[len-1] != '/') len--]. *)
Fixpoint back_to_slash (path : str) (len : nat) : nat :=
  match len with
  | O => O
  | S n => if bool_decide (path !! n = Some 47) then len else back_to_slash path n
  end.

Definition get_parent_dir (path : str) : str :=
  if s_strcmp path (bs "/") =? 0 then path
  else
    let len := length path in
    let '(path, len) :=
      if Nat.ltb 1 len && bool_decide (path !! (len - 1)%nat = Some 47) then (take (len - 1) path, (len - 1)%nat)
      else (path, len) in
    let len := back_to_slash path len in
    let path :=
      if Nat.ltb 0 len then if Nat.eqb len 1 then take 1 path else take (len - 1) path else path in
    match path with [] => [47] | _ => path end.

(** The loop of [normalize_path]: of two slashes in a row the first is
    skipped.  The text is rewritten in place, behind the reading position. *)
Fixpoint squeeze (src : str) : str :=
  match src with
  | [] => []
  | c :: src' => if (c =? 47) && bool_decide (head src' = Some 47) then squeeze src' else c :: squeeze src'
  end.

Definition normalize_path (path : str) : str :=
  match path with
  | c :: src => if c =? 47 then c :: squeeze src else squeeze path
  | [] => []
  end.

(** [current_process->cwd] as a destination. *)
Definition set_cwd (t : str) : K unit :=
  o ← get_current_process; c ← unwrap o; upd_proc c (with_pcwd t).

(** The first two words of an argument. *)
Definition two_words (args : option str) : K (option (str * str)) :=
  text ← unwrap args;
  mret (match s_split (bs " ") text with a :: b :: _ => Some (a, b) | _ => None end).

(** [!args || !*args]. *)
Definition missing (args : option str) : bool :=
  match args with None | Some [] => true | _ => false end.

(** ** Commands *)

Definition cmd_exit : K unit := exit_process 0.

Definition cmd_echo (args : option str) : K unit :=
  match args with Some t => uart_puts t | None => mret tt end;; uart_puts (ln "").

Definition cmd_pwd (args : option str) : K unit :=
  cur ← current;
  match p_cwd cur with
  | [] => uart_puts (ln "/")
  | cwd => uart_puts cwd;; uart_puts (ln "")
  end.

(** The loop over the components. *)
Fixpoint cd_walk (components : list str) (temp_path : str) : K str :=
  match components with
  | [] => mret temp_path
  | component :: components =>
      if s_strcmp component (bs ".") =? 0 then cd_walk components temp_path
      else if s_strcmp component (bs "..") =? 0 then cd_walk components (get_parent_dir temp_path)
      else
        temp_path ← (if negb (s_strcmp temp_path (bs "/") =? 0) then strcat_to VFS_MAX_PATH temp_path (bs "/")
                     else mret temp_path);
        temp_path ← strcat_to VFS_MAX_PATH temp_path component;
        cd_walk components temp_path
  end.

Definition cd_target (path : str) : K str :=
  '(temp_path, path) ←
    (if default 0 (head path) =? 47 then mret ([47], tail path)
     else cur ← current; temp_path ← strcpy_to VFS_MAX_PATH (p_cwd cur); mret (temp_path, path));
  path_copy ← strcpy_to VFS_MAX_PATH path;
  cd_walk (s_split (bs "/") path_copy) temp_path.

Definition cmd_cd (path : option str) : K unit :=
  match path with
  | None | Some [] => set_cwd [47]
  | Some path =>
      if s_strcmp path (bs ".") =? 0 then mret tt
      else if s_strcmp path (bs "..") =? 0 then cur ← current; set_cwd (get_parent_dir (p_cwd cur))
      else
        temp_path ← cd_target path;
        fd ← vfs_open temp_path;
        if fd <? 0 then uart_puts (bs "cd: no such directory: ");; uart_puts temp_path;; uart_puts (ln "")
        else set_cwd temp_path
  end.

(** [while ((n = vfs_read(...)) > 0)]: the last result of [vfs_read]. *)
Fixpoint cp_loop (fuel : nat) (src_fd dst_fd : Z) : K Z :=
  match fuel with
  | O => nofuel
  | S fuel =>
      '(n, buf) ← vfs_read src_fd 1024;
      if 0 <? n then
        written ← vfs_write dst_fd buf n;
        if (written <? 0) || negb (written =? n) then uart_puts (ln "cp: write error");; mret n
        else cp_loop fuel src_fd dst_fd
      else mret n
  end.

Definition cmd_cp (fuel : nat) (args : option str) : K unit :=
  o ← two_words args;
  match o with
  | None => uart_puts (ln "Usage: cp source dest")
  | Some (src, dst) =>
      src ← strcpy_to VFS_MAX_PATH src;
      dst ← strcpy_to VFS_MAX_PATH dst;
      src_fd ← vfs_open src;
      if src_fd <? 0 then uart_puts (bs "cp: cannot open source file: ");; uart_puts src;; uart_puts (ln "")
      else
        dst_fd ← vfs_create dst;
        if dst_fd <? 0 then uart_puts (bs "cp: cannot create destination file: ");; uart_puts dst;; uart_puts (ln "")
        else
          n ← cp_loop fuel src_fd dst_fd;
          if n <? 0 then uart_puts (ln "cp: read error") else mret tt
  end.

Definition cmd_touch (args : option str) : K unit :=
  match args with
  | None | Some [] => uart_puts (ln "touch: missing file operand")
  | Some path =>
      fd ← vfs_create path;
      if fd <? 0 then uart_puts (bs "touch: cannot create file '");; uart_puts path;; uart_puts (ln "'")
      else vfs_close fd;; mret tt
  end.

Definition cmd_mv (fuel : nat) (args : option str) : K unit :=
  o ← two_words args;
  match o with
  | None => uart_puts (ln "Usage: mv source dest")
  | Some (src, dst) =>
      src ← strcpy_to VFS_MAX_PATH src;
      dst ← strcpy_to VFS_MAX_PATH dst;
      cp_args ← strcpy_to (VFS_MAX_PATH * 2) src;
      cp_args ← strcat_to (VFS_MAX_PATH * 2) cp_args (bs " ");
      cp_args ← strcat_to (VFS_MAX_PATH * 2) cp_args dst;
      cmd_cp fuel (Some cp_args);;
      r ← vfs_unlink src;
      if r <? 0 then uart_puts (ln "mv: cannot remove source file") else mret tt
  end.

Definition cmd_rm (args : option str) : K unit :=
  match args with
  | None | Some [] => uart_puts (ln "Usage: rm [-r] <file|directory>")
  | Some text =>
      match s_split (bs " ") text with
      | [] => uart_puts (ln "rm: missing file operand")
      | token :: tokens =>
          if s_strcmp token (bs "-r") =? 0 then
            match tokens with
            | [] => uart_puts (ln "rm: missing file operand")
            | target :: _ =>
                r ← vfs_remove_recursive (Some target);
                if r <? 0 then uart_puts (bs "rm: cannot recursively remove '");; uart_puts target;; uart_puts (ln "'")
                else mret tt
            end
          else
            r ← vfs_unlink token;
            if r <? 0 then uart_puts (bs "rm: cannot remove '");; uart_puts token;; uart_puts (ln "'")
            else mret tt
      end
  end.

Definition cmd_mkdir (args : option str) : K unit :=
  match args with
  | None | Some [] => uart_puts (ln "Usage: mkdir <directory>")
  | Some path =>
      r ← vfs_mkdir path;
      if r <? 0 then uart_puts (bs "mkdir: cannot create directory '");; uart_puts path;; uart_puts (ln "'")
      else mret tt
  end.

Definition cmd_bind (args : option str) : K unit :=
  o ← two_words args;
  match o with
  | None => uart_puts (ln "Usage: bind source target")
  | Some (old_path, new_path) =>
      r ← bind old_path new_path 16;
      if r <? 0 then uart_puts (ln "bind: failed to create binding")
      else
        uart_puts (bs "Created binding: ");; uart_puts new_path;; uart_puts (bs " -> ");;
        uart_puts old_path;; uart_puts (ln "")
  end.

Section Link.
Context `{LinkMap}.

(** A designated initialiser leaves the other members zero. *)
Definition path_message (type : Z) (path : str) : message :=
  Message type (Some path) None None 0 0 0 0 0 0 None 0 0 None.

Fixpoint print_dirents (es : list dirent) : K unit :=
  match es with
  | [] => mret tt
  | e :: es => uart_puts (d_name e);; uart_puts (ln "");; print_dirents es
  end.

(** [msg.dirents[i]] for [i < msg.dirent_count]. *)
Definition listed (msg : message) : K (list dirent) :=
  if m_dirent_count msg =? 0 then mret []
  else es ← unwrap (m_dirents msg);
       if m_dirent_count msg <=? zlen es then mret (take (Z.to_nat (m_dirent_count msg)) es) else fault.

Definition cmd_ls (fuel : nat) (path : option str) : K unit :=
  path ← match path with
         | None | Some [] => cur ← current; mret (p_cwd cur)
         | Some path => mret path
         end;
  '(r, msg) ← send_message fuel (path_message MSG_READ_DIR path);
  if 0 <=? r then es ← listed msg; print_dirents es
  else uart_puts (bs "ls: cannot access '");; uart_puts path;; uart_puts (ln "'").

(** The branch of the main loop for "unbind". *)
Definition cmd_unbind (fuel : nat) (args : option str) : K unit :=
  match args with
  | None => uart_puts (ln "Usage: unbind <path>")
  | Some path =>
      '(r, _) ← send_message fuel (path_message MSG_UNBIND path);
      if r <? 0 then uart_puts (ln "unbind: failed")
      else uart_puts (bs "Namespace unbound: ");; uart_puts path;; uart_puts (ln "")
  end.

(** The table of commands, which the main loop does not use. *)
Definition commands (fuel : nat) : list (str * (option str → K unit)) :=
  [(bs "ls", cmd_ls fuel); (bs "pwd", cmd_pwd); (bs "cd", cmd_cd); (bs "cp", cmd_cp fuel); (bs "mv", cmd_mv fuel);
   (bs "touch", cmd_touch); (bs "rm", cmd_rm); (bs "mkdir", cmd_mkdir); (bs "bind", cmd_bind)].

Definition dispatch (fuel : nat) (cmd : str) (args : option str) : K unit :=
  if s_strcmp cmd (bs "exit") =? 0 then cmd_exit
  else if s_strcmp cmd (bs "echo") =? 0 then cmd_echo args
  else if s_strcmp cmd (bs "pwd") =? 0 then cmd_pwd args
  else if s_strcmp cmd (bs "cd") =? 0 then cmd_cd args
  else if s_strcmp cmd (bs "ls") =? 0 then cmd_ls fuel args
  else if s_strcmp cmd (bs "cp") =? 0 then cmd_cp fuel args
  else if s_strcmp cmd (bs "touch") =? 0 then cmd_touch args
  else if s_strcmp cmd (bs "mv") =? 0 then cmd_mv fuel args
  else if s_strcmp cmd (bs "rm") =? 0 then cmd_rm args
  else if s_strcmp cmd (bs "mkdir") =? 0 then cmd_mkdir args
  else if s_strcmp cmd (bs "bind") =? 0 then cmd_bind args
  else if s_strcmp cmd (bs "unbind") =? 0 then cmd_unbind fuel args
  else uart_puts (bs "Unknown command: ");; uart_puts cmd;; uart_puts (ln "").

(** ** The main loop *)

(** [while (pos < MAX_INPUT - 1)]: the line and its length.  Every turn takes
    a received byte.  The loop also ends when the buffer is full, without
    writing a terminator. *)
Fixpoint read_input (n : nat) (input : list Z) (pos : nat) : K (list Z * nat) :=
  if Nat.ltb pos (MAX_INPUT - 1) then
    match n with
    | O => nofuel
    | S n =>
        c ← uart_getc;
        if (c =? 13) || (c =? 10) then uart_puts (ln "");; mret (<[pos := 0]> input, pos)
        else if ((c =? 127) || (c =? 8)) && Nat.ltb 0 pos then uart_puts [8; 32; 8];; read_input n input (pos - 1)
        else if (32 <=? c) && (c <=? 126) then uart_putc c;; read_input n (<[pos := c]> input) (pos + 1)
        else read_input n input pos
    end
  else mret (input, pos).

(** The first space of the line ends the command; the arguments follow it. *)
Fixpoint find_space (input : list Z) (pos : nat) : option nat :=
  match input, pos with
  | c :: input, S pos => if c =? 32 then Some O else S <$> find_space input pos
  | _, _ => None
  end.

Definition split_input (input : list Z) (pos : nat) : K (list Z * str * option str) :=
  match find_space input pos with
  | Some i =>
      let input := <[i := 0]> input in
      cmd ← unwrap (text_at input);
      args ← unwrap (text_at (drop (i + 1) input));
      mret (input, cmd, Some args)
  | None => cmd ← unwrap (text_at input); mret (input, cmd, None)
  end.

Definition shell_turn (fuel : nat) (input : list Z) : K (list Z) :=
  uart_puts PROMPT;;
  n ← gets (λ s, S (length (ks_in s)));
  '(input, pos) ← read_input n input 0;
  '(input, cmd, args) ← split_input input pos;
  dispatch fuel cmd args;;
  mret input.

(** [turns] turns of the endless loop; [input] is the buffer on the stack. *)
Fixpoint shell (fuel turns : nat) (input : list Z) : K (list Z) :=
  match turns with
  | O => mret input
  | S turns => input ← shell_turn fuel input; shell fuel turns input
  end.
End Link.
