(* ===== verification/ShellSpec.v ===== *)
(** * ShellSpec: properties of the kernel shell

    Path arithmetic of [cd] against component lists, the line editor, the
    copy command, and what the commands do on their error paths. *)

From stdpp Require Import base numbers list gmap strings.
From Corelib Require Import ssreflect.
From S2P Require Import Prelude Chain CString State Kmalloc Uart Paths Ramfs Abyss Vfs VfsLaws VfsSpec VfsFiles Namespace Process Message LineBuffer CopySpec Shell.

Open Scope Z_scope.
Open Scope general_if_scope.

(** ** Paths *)

(** The length of a component list written as a path. *)
Lemma join_path_length dirs : Forall is_name dirs → (length dirs ≤ length (join_path dirs))%nat.
Proof. induction 1 as [|c dirs [Hc _] Hd IH]; simpl; [lia|]. rw length_app. destruct c; [done|]. simpl. lia. Qed.

Lemma back_to_slash_name a c k :
  Forall (λ b, b ≠ SLASH) c → (k ≤ length c)%nat →
  back_to_slash (a ++ SLASH :: c) (S (length a) + k) = S (length a).
Proof.
  intros Hc. induction k as [|k IH]; intros Hk.
  - rw Nat.add_0_r /= bool_decide_eq_true_2 //. by rw lookup_app_r // Nat.sub_diag.
  - rw Nat.add_succ_r. cbn [back_to_slash]. rw bool_decide_eq_false_2; [|apply IH; lia].
    rw lookup_app_r; [lia|]. replace (S (length a) + k - length a)%nat with (S k) by lia. simpl.
    intros Hk'. by apply (proj1 (Forall_forall _ _) Hc SLASH); [apply (list_elem_of_lookup_2 _ k)|].
Qed.

Lemma join_path_str dirs : Forall is_str dirs → is_str (join_path dirs).
Proof. induction 1 as [|c dirs Hc Hd IH]; simpl; constructor; [lia|]. by apply Forall_app. Qed.

Lemma show_path_str dirs : Forall is_str dirs → is_str (show_path dirs).
Proof. destruct dirs; [by intros _; apply is_str_bool|apply join_path_str]. Qed.

(** The parent of a directory, on texts and on component lists. *)
Lemma get_parent_dir_show dirs :
  Forall is_name dirs → Forall is_str dirs → get_parent_dir (show_path dirs) = show_path (removelast dirs).
Proof.
  destruct dirs as [|c dirs _] using rev_ind; [done|]. rw removelast_last. intros [Hd Hc]%Forall_app Hs.
  apply Forall_singleton in Hc as [Hne Hc]. set path := show_path (dirs ++ [c]).
  assert (Hp : path = join_path dirs ++ SLASH :: c).
  { rw /path /show_path join_path_app /= app_nil_r. by destruct dirs. }
  assert (Hlen : length path = (S (length (join_path dirs)) + length c)%nat) by (rw Hp length_app /=; lia).
  assert (Hback : back_to_slash path (length path) = S (length (join_path dirs))).
  { rw Hlen Hp. by apply back_to_slash_name. }
  assert (Hroot : (s_strcmp path (bs "/") =? 0) = false).
  { apply Z.eqb_neq. rw (s_strcmp_eq path (bs "/")); [by apply show_path_str|by apply is_str_bool|].
    intros E. rw E /= in Hlen. destruct c; [done|]. simpl in Hlen. lia. }
  assert (Hlast : path !! (length path - 1)%nat ≠ Some 47).
  { destruct (exists_last Hne) as (c' & b & ->). rw Hp app_comm_cons app_assoc length_app Nat.add_sub lookup_app_r // Nat.sub_diag.
    apply Forall_app in Hc as [_ [Hb _]%Forall_cons]. by intros [= ->]. }
  rw /get_parent_dir Hroot bool_decide_eq_false_2 // andb_false_r Hback /= Hp.
  destruct dirs as [|d dirs]; [done|]. rw Nat.sub_0_r take_app_length. done.
Qed.

(** ** [cd] *)

Lemma s_split_length delim t :
  (sum_list (length <$> s_split delim t) + length (s_split delim t) ≤ S (length t))%nat.
Proof.
  remember (length t) as n eqn:En. revert t En. induction n as [n IH] using lt_wf_ind. intros t ->.
  rw s_token_split. destruct (s_token t delim) as [[[k tok] rest]|] eqn:E; [|simpl; lia]. rw fmap_cons. cbn [sum_list foldr length].
  change (id (length tok)) with (length tok).
  destruct (s_token_shorter _ _ _ _ _ E) as [Hsh Hlt]. pose proof (IH (length rest) Hlt rest eq_refl) as Hr.
  destruct Hsh as [Hsh|[Hr0 Hsh]]; [lia|]. destruct rest; [|done]. cbn. lia.
Qed.

Lemma s_split_str delim t : is_str t → Forall is_str (s_split delim t).
Proof.
  remember (length t) as n eqn:En. revert t En. induction n as [n IH] using lt_wf_ind. intros t -> Ht.
  rw s_token_split. destruct (s_token t delim) as [[[k tok] rest]|] eqn:E; [|constructor].
  destruct (s_token_shorter _ _ _ _ _ E) as [_ Hlt].
  assert (is_str tok ∧ is_str rest) as [Htok Hrest].
  { rw /s_token in E. destruct (drop _ t) as [|c r] eqn:Ed; [done|].
    assert (Hr : is_str (c :: r)) by (rw -Ed; by apply Forall_drop).
    destruct (s_strpbrk (c :: r) delim); injection E as _ <- <-; [|by split; [|constructor]].
    split; [exact (Forall_take _ _ _ Hr)|exact (Forall_drop _ (S _) _ Hr)]. }
  constructor; [done|]. by apply (IH (length rest)).
Qed.

(** The room a component list takes when it is appended to a path. *)
Definition room_of (cs : list str) : nat := (sum_list (length <$> cs) + length cs)%nat.

Lemma step_dir_str dirs c : Forall is_str dirs → is_str c → Forall is_str (step_dir dirs c).
Proof.
  intros Hd Hc. rw /step_dir. repeat case_decide; [done|by apply removelast_Forall|].
  apply Forall_app. by split; [|constructor].
Qed.

Lemma show_path_snoc dirs c : show_path (dirs ++ [c]) = join_path dirs ++ SLASH :: c.
Proof. rw /show_path join_path_app /= app_nil_r. by destruct dirs. Qed.

Lemma show_path_length_step dirs c :
  (length (show_path (step_dir dirs c)) ≤ length (show_path dirs) + S (length c))%nat.
Proof.
  rw /step_dir. repeat case_decide; [lia| |].
  - destruct dirs as [|d dirs _] using rev_ind; [simpl; lia|]. rw removelast_last show_path_snoc length_app.
    destruct dirs; simpl; lia.
  - rw show_path_snoc length_app. destruct dirs; simpl; lia.
Qed.

Lemma at_root dirs :
  Forall is_name dirs → Forall is_str dirs → (s_strcmp (show_path dirs) (bs "/") =? 0) = bool_decide (dirs = []).
Proof.
  intros Hn Hs. case_bool_decide as E; [by rw E|]. apply Z.eqb_neq.
  rw (s_strcmp_eq (show_path dirs) (bs "/")); [by apply show_path_str|by apply is_str_bool|].
  destruct dirs as [|c dirs]; [done|]. apply Forall_cons in Hn as [[Hc _] _]. by destruct c.
Qed.

(** The walk of [cd] over the components is the resolution of the component
    list. *)
Lemma cd_walk_Ok cs : ∀ dirs s,
  Forall is_name cs → Forall is_str cs → Forall is_name dirs → Forall is_str dirs →
  zlen (show_path dirs) + Z.of_nat (room_of cs) < 256 →
  cd_walk cs (show_path dirs) s = Ok (show_path (foldl step_dir dirs cs)) s.
Proof.
  induction cs as [|c cs IH]; intros dirs s Hn Hs Hdn Hds Hroom; [done|].
  apply Forall_cons in Hn as [Hc Hn]. apply Forall_cons in Hs as [Hcs Hs].
  assert (Hgo : cd_walk cs (show_path (step_dir dirs c)) s = Ok (show_path (foldl step_dir dirs (c :: cs))) s).
  { apply IH; try done; [by apply step_dir_names|by apply step_dir_str|].
    pose proof (show_path_length_step dirs c). rw /room_of fmap_cons in Hroom |- *. cbn in Hroom. change (id (length c)) with (length c) in Hroom. lia. }
  assert (Heq : ∀ t, is_str t → (s_strcmp c t =? 0) = bool_decide (c = t)).
  { intros t Ht. case_bool_decide as E; [rw E s_strcmp_refl //|]. apply Z.eqb_neq. by rw (s_strcmp_eq c t). }
  cbn [cd_walk]. rw -Hgo !Heq; [by apply is_str_bool..|]. rw /step_dir. clear Hgo.
  change (bs ".") with [DOT]. change (bs "..") with [DOT; DOT].
  case_bool_decide; [by rw decide_True|rw decide_False //]. case_bool_decide; [rw decide_True // get_parent_dir_show //|].
  rw decide_False // show_path_snoc at_root //.
  rw /room_of fmap_cons in Hroom. cbn in Hroom. change (id (length c)) with (length c) in Hroom.
  case_bool_decide as E; cbn [negb].
  - rw E in Hroom |- *. erewrite bind_Ok; [|apply ret_Ok].
    erewrite bind_Ok; [|apply strcat_to_Ok; rw /VFS_MAX_PATH; simpl in *; lia]. done.
  - assert (Hj : show_path dirs = join_path dirs) by by destruct dirs. rw Hj in Hroom |- *.
    erewrite bind_Ok; [|apply strcat_to_Ok; rw /VFS_MAX_PATH /=; lia].
    erewrite bind_Ok; [|apply strcat_to_Ok; rw /VFS_MAX_PATH length_app /=; lia]. by rw -app_assoc.
Qed.

(** The working directory is a path of names. *)
Definition good_cwd (cwd : str) (dirs : list str) : Prop :=
  cwd = show_path dirs ∧ Forall is_name dirs ∧ Forall is_str dirs.

(** Where [cd path] leads from the directory [dirs]. *)
Definition cd_ref (dirs : list str) (path : str) : list str :=
  foldl step_dir (match path with c :: _ => if c =? SLASH then [] else dirs | [] => dirs end) (s_split [SLASH] path).

Lemma cd_target_Ok path dirs s p cur :
  current_process (ks_proc s) = Some p → processes (ks_proc s) !! p = Some cur → good_cwd (p_cwd cur) dirs →
  is_str path → zlen (p_cwd cur) + zlen path < 254 →
  cd_target path s = Ok (show_path (cd_ref dirs path)) s.
Proof.
  intros Hc Hp (Hcwd & Hn & Hs) Hpath Hlen.
  assert (Hsplit : ∀ path, is_str path → Forall is_name (s_split [SLASH] path) ∧ Forall is_str (s_split [SLASH] path)).
  { intros t Ht. split; [apply s_split_names|by apply s_split_str]. }
  assert (Hcur : current s = Ok cur s).
  { rw /current /get_current_process /get_proc /mbind /M_bind /= Hc /= Hp //. }
  assert (Hrel : ∀ t, is_str t → zlen t ≤ zlen path → ∀ ds, Forall is_name ds → Forall is_str ds →
    zlen (show_path ds) ≤ Z.max 1 (zlen (p_cwd cur)) →
    (path_copy ← strcpy_to VFS_MAX_PATH t; cd_walk (s_split (bs "/") path_copy) (show_path ds)) s =
    Ok (show_path (foldl step_dir ds (s_split [SLASH] t))) s).
  { intros t Ht Htl ds Hdn Hds Hdl. erewrite bind_Ok; [|apply strcpy_to_Ok; rw /VFS_MAX_PATH; lia].
    destruct (Hsplit t Ht). apply cd_walk_Ok; try done. pose proof (s_split_length [SLASH] t). rw /room_of. lia. }
  rw /cd_target /cd_ref. destruct (Z.eqb_spec (default 0 (head path)) 47) as [E|E].
  - destruct path as [|c path]; [done|]. simpl in E. subst c. erewrite bind_Ok; [|apply ret_Ok]. rw Z.eqb_refl.
    change (s_split [SLASH] (SLASH :: path)) with (s_split [SLASH] path). refine (Hrel path _ _ [] _ _ _); try done;
      [by apply Forall_cons in Hpath as [_ ?]|simpl; lia|simpl; lia].
  - erewrite bind_Ok.
    2: { erewrite bind_Ok; [|exact Hcur]. erewrite bind_Ok; [|apply strcpy_to_Ok; rw /VFS_MAX_PATH; lia]. reflexivity. }
    rw Hcwd. replace (match path with c :: _ => _ | [] => _ end) with dirs.
    2: { destruct path as [|c path]; [done|]. simpl in E. by apply Z.eqb_neq in E as ->. }
    apply Hrel; try done; rw -?Hcwd; lia.
Qed.

Definition same_proc (s s' : kstate) : Prop := ks_proc s' = ks_proc s.

#[export] Instance same_proc_preorder : PreOrder same_proc.
Proof. split; [done|]. intros s1 s2 s3 H1 H2. rw /same_proc in H1 H2 |- *. congruence. Qed.

Lemma frame_same_proc {A} (m : K A) : respects fs_frame m → respects same_proc m.
Proof. intros Hm s a s' E. by destruct (Hm s a s' E) as (_ & ? & _). Qed.

#[local] Hint Extern 1 (same_proc _ _) => reflexivity : respects.

Lemma same_proc_open path : respects same_proc (vfs_open path).
Proof.
  rw /vfs_open. apply respects_bind; [apply _|apply frame_same_proc, fd_resolve_path|]. intros r.
  apply respects_bind; [apply _|apply frame_same_proc; case_match; apply laws_open|]. intros [fp|].
  - rw /alloc_fd /uart_puts. respect_auto.
  - rw /uart_puts. respect_auto.
Qed.

(** C17: the [cd] command computes the directory by components: from a
    working directory that is a path of names, and a path that fits, "."
    components are dropped, ".." goes to the parent (and stays at "/"), a
    leading slash starts at the root.  The new working directory is the
    resulting path when it can be opened, and the old one otherwise;
    "cd .." takes the parent without a look at the file system, and without
    an argument the directory is "/". *)
Theorem cmd_cd_correct path dirs s p cur :
  current_process (ks_proc s) = Some p → processes (ks_proc s) !! p = Some cur → good_cwd (p_cwd cur) dirs →
  is_str path → path ≠ [] → path ≠ bs "." → path ≠ bs ".." → zlen (p_cwd cur) + zlen path < 254 →
  (∀ fd s1, vfs_open (show_path (cd_ref dirs path)) s = Ok fd s1 →
     ∃ s2 cur', cmd_cd (Some path) s = Ok tt s2 ∧ processes (ks_proc s2) !! p = Some cur' ∧
       p_cwd cur' = if fd <? 0 then p_cwd cur else show_path (cd_ref dirs path)) ∧
  (∃ s2 cur', cmd_cd (Some (bs "..")) s = Ok tt s2 ∧ processes (ks_proc s2) !! p = Some cur' ∧
     p_cwd cur' = show_path (removelast dirs)) ∧
  (∃ s2 cur', cmd_cd None s = Ok tt s2 ∧ processes (ks_proc s2) !! p = Some cur' ∧ p_cwd cur' = bs "/").
Proof.
  intros Hc Hp Hcwd Hs Hne H1 H2 Hlen.
  assert (Hcur : current s = Ok cur s).
  { rw /current /get_current_process /get_proc /mbind /M_bind /= Hc /= Hp //. }
  assert (Hset : ∀ t s1, ks_proc s1 = ks_proc s → ∃ s2, set_cwd t s1 = Ok tt s2 ∧
    processes (ks_proc s2) !! p = Some (with_pcwd t cur)).
  { intros t s1 E. eexists. rw /set_cwd /get_current_process /upd_proc /get_proc /put_proc /modify /gets /mbind /M_bind /= E Hc /= E Hp /=.
    split; [reflexivity|]. simpl. apply lookup_insert_eq. }
  split_and!.
  - intros fd s1 Ho. assert (Hs1 : ks_proc s1 = ks_proc s) by exact (same_proc_open _ _ _ _ Ho). rw /cmd_cd.
    destruct path as [|c path]; [done|].
    rw (proj2 (Z.eqb_neq _ 0)). { rw (s_strcmp_eq (c :: path) (bs ".")) //. by apply is_str_bool. }
    rw (proj2 (Z.eqb_neq _ 0)). { rw (s_strcmp_eq (c :: path) (bs "..")) //. by apply is_str_bool. }
    rw (bind_Ok _ _ _ _ _ (cd_target_Ok _ _ _ _ _ Hc Hp Hcwd Hs Hlen)) (bind_Ok _ _ _ _ _ Ho).
    destruct (fd <? 0).
    + eexists _, cur. split; [reflexivity|]. by rw /= Hs1.
    + destruct (Hset (show_path (cd_ref dirs (c :: path))) s1 Hs1) as (s2 & Hr & Hl).
    eexists s2, _. split_and!; [exact Hr|exact Hl|done].
  - destruct (Hset (get_parent_dir (p_cwd cur)) s eq_refl) as (s2 & Hr & Hl). eexists s2, _.
    change (cmd_cd (Some (bs ".."))) with (cur ← current; set_cwd (get_parent_dir (p_cwd cur))).
    rw (bind_Ok _ _ _ _ _ Hcur). split_and!; [exact Hr|exact Hl|]. destruct Hcwd as (-> & Hn & Hst). by apply get_parent_dir_show.
  - destruct (Hset [SLASH] s eq_refl) as (s2 & Hr & Hl).
    eexists s2, _. split_and!; [exact Hr|exact Hl|done].
Qed.

(** ** The line editor *)

Definition erase_key (c : Z) : bool := (c =? 127) || (c =? 8).

Definition printable (c : Z) : bool := (32 <=? c) && (c <=? 126).

(** The effect of a key on the line, and what it shows. *)
Definition edit_key (line : str) (c : Z) : str :=
  if erase_key c && negb (bool_decide (line = [])) then removelast line
  else if printable c then line ++ [c] else line.

Definition echo_key (line : str) (c : Z) : str :=
  if erase_key c && negb (bool_decide (line = [])) then [8; 32; 8] else if printable c then [c] else [].

Fixpoint echo_keys (line keys : str) : str :=
  match keys with [] => [] | c :: keys => echo_key line c ++ echo_keys (edit_key line c) keys end.

(** A received byte that does not end the line. *)
Definition line_key (c : Z) : Prop := 0 ≤ c < 256 ∧ c ≠ 10 ∧ c ≠ 13.

#[export] Instance line_key_dec c : Decision (line_key c).
Proof. rw /line_key. apply _. Defined.

Lemma edit_key_nonzero line c : Forall (λ b, b ≠ 0) line → Forall (λ b, b ≠ 0) (edit_key line c).
Proof.
  intros Hl. rw /edit_key. destruct (_ && _); [by apply removelast_Forall|].
  destruct (printable c) eqn:E; [|done]. apply Forall_app. split; [done|]. constructor; [|done]. rw /printable in E. lia.
Qed.

Lemma uart_getc_Ok s c r : ks_in s = c :: r → 0 ≤ c < 256 → uart_getc s = Ok c (set_in r s).
Proof.
  intros Hin Hc. rw /uart_getc Hin. change 0xFF with (Z.ones 8). rw Z.land_ones // Z.mod_small //.
Qed.

Lemma read_input_Ok keys n line input s nl rest :
  ks_in s = keys ++ nl :: rest → nl = 10 ∨ nl = 13 → Forall line_key keys → (length keys < n)%nat →
  (length line + length keys < MAX_INPUT - 1)%nat → holds MAX_INPUT input line → Forall (λ b, b ≠ 0) line →
  let line' := foldl edit_key line keys in
  ∃ input', read_input n input (length line) s =
      Ok (<[length line' := 0]> input', length line')
        (set_in rest (set_out (ks_out s ++ echo_keys line keys ++ [13; 10]) s)) ∧
    holds MAX_INPUT input' line' ∧ Forall (λ b, b ≠ 0) line'.
Proof.
  revert n line input s. induction keys as [|c keys IH]; intros [|n] line input s Hin Hnl Hk Hn Hl Hh Hz; simpl in Hn; try lia;
    cbn [read_input]; (rw (proj2 (Nat.ltb_lt _ _)); [simpl in *; lia|]).
  - exists input. rw (bind_Ok _ _ _ _ _ (uart_getc_Ok _ _ _ Hin ltac:(lia))).
    assert ((nl =? 13) || (nl =? 10) = true) as -> by lia. rw (bind_Ok _ _ _ _ _ (prints_puts (ln "") _)). done.
  - apply Forall_cons in Hk as [(Hc & H10 & H13) Hk].
    rw (bind_Ok _ _ _ _ _ (uart_getc_Ok _ _ _ Hin ltac:(lia))).
    assert ((c =? 13) || (c =? 10) = false) as -> by lia.
    cbn [echo_keys foldl]. rw -app_assoc. fold (erase_key c) (printable c).
    assert (Hgo : ∀ t line' input', holds MAX_INPUT input' line' → Forall (λ b, b ≠ 0) line' →
      (length line' ≤ S (length line))%nat →
      ∃ i', read_input n input' (length line') (set_out (ks_out s ++ t) (set_in (keys ++ nl :: rest) s)) =
          Ok (<[length (foldl edit_key line' keys) := 0]> i', length (foldl edit_key line' keys))
            (set_in rest (set_out (ks_out s ++ t ++ echo_keys line' keys ++ [13; 10]) s)) ∧
        holds MAX_INPUT i' (foldl edit_key line' keys) ∧ Forall (λ b, b ≠ 0) (foldl edit_key line' keys)).
    { intros t line' input' Hh' Hz2 Hl2. set s2 := set_out _ _.
      destruct (IH n line' input' s2) as (i' & Hb & Hr); [done..|lia|cbn [length] in Hl; lia|done|done|].
      exists i'. split; [|done]. rw Hb. f_equal. by rw /s2 /set_in /set_out /= -app_assoc. }
    assert (H0 : set_in (keys ++ nl :: rest) s = set_out (ks_out s ++ []) (set_in (keys ++ nl :: rest) s))
      by (rw app_nil_r; by destruct s).
    pose proof (edit_key_nonzero line c Hz) as Hz'. revert Hz'. rw /edit_key /echo_key.
    assert (Hpos : Nat.ltb 0 (length line) = negb (bool_decide (line = []))) by by destruct line.
    rw Hpos. destruct (erase_key c && negb (bool_decide (line = []))) eqn:Ee; intros Hz'.
    + apply andb_true_iff in Ee as [_ Hne]. rw (bind_Ok _ _ _ _ _ (prints_puts [8; 32; 8] _)).
      replace (length line - 1)%nat with (length (removelast line)) by (rw removelast_firstn_len length_take; lia).
      apply Hgo; [by apply holds_erase|done|]. rw removelast_firstn_len length_take. lia.
    + destruct (printable c).
      * rw (bind_Ok _ _ _ _ _ (prints_putc c _)). replace (length line + 1)%nat with (length (line ++ [c])) by by rw length_app.
        apply Hgo; [apply holds_push; [done|]|done|rw length_app /=; lia]. cbn [length] in Hl. lia.
      * rw H0. apply (Hgo []); [done|done|lia].
Qed.

(** The command of a line and its argument: what is before and after the
    first space. *)
Definition command_of (line : str) : str * option str :=
  match s_strpbrk line [32] with
  | Some i => (take i line, Some (drop (S i) line))
  | None => (line, None)
  end.

Lemma find_space_spec input pos : find_space input pos = s_strpbrk (take pos input) [32].
Proof.
  revert pos. induction input as [|c input IH]; intros [|pos]; simpl; try done. rw orb_false_r IH. done.
Qed.

Lemma split_input_Ok input line s :
  holds MAX_INPUT input line → Forall (λ b, b ≠ 0) line →
  ∃ input', split_input (<[length line := 0]> input) (length line) s =
      Ok (input', (command_of line).1, (command_of line).2) s ∧ length input' = MAX_INPUT.
Proof.
  intros (Hb & Hl & Ht) Hz. rw /split_input find_space_spec take_insert_ge // Ht /command_of.
  assert (E : ∃ rest, <[length line := 0]> input = line ++ 0 :: rest).
  { rw -{1}(take_drop (length line) input) Ht insert_app_r_alt // Nat.sub_diag.
    destruct (drop (length line) input) as [|x l] eqn:Ed; [|by exists l].
    apply (f_equal length) in Ed. rw length_drop /= in Ed. lia. }
  assert (Hlen : length (<[length line := 0]> input) = MAX_INPUT) by by rw length_insert.
  destruct E as [rest E]. rw E in Hlen |- *. destruct (s_strpbrk line [32]) as [i|] eqn:Ei.
  - destruct (s_strpbrk_at _ _ _ Ei) as (x & Hx & _). exists (<[i := 0]> (line ++ 0 :: rest)).
    rw length_insert. split; [|done]. assert (Hm := take_drop_middle line i x Hx).
    assert (Hi : length (take i line) = i) by (apply lookup_lt_Some in Hx; rw length_take; lia).
    assert (Hz1 : Forall (λ b, b ≠ 0) (take i line)) by by apply Forall_take.
    assert (Hz2 : Forall (λ b, b ≠ 0) (drop (S i) line)) by by apply Forall_drop.
    revert Hm Hi Hz1 Hz2. generalize (take i line) (drop (S i) line). intros a l <- Hi Hz1 Hz2.
    rw -app_assoc insert_app_r_alt; [lia|]. rw -Hi Nat.sub_diag. cbn [insert list_insert app]. rw text_at_prefix //.
    erewrite bind_Ok; [|apply ret_Ok].
    replace (drop (length a + 1) (a ++ 0 :: l ++ 0 :: rest)) with (l ++ 0 :: rest).
    2: { change (a ++ 0 :: l ++ 0 :: rest) with (a ++ [0] ++ l ++ 0 :: rest). by rw app_assoc drop_app_length' // length_app. }
    rw text_at_prefix //.
  - exists (line ++ 0 :: rest). split; [|done]. rw text_at_prefix //.
Qed.

Section Link.
Context `{LinkMap}.

(** C18: one turn of the shell: for a line of fewer than 255 keys ended by CR
    or LF, the shell prompts, edits the line (backspace and delete take back
    the last character, characters that cannot be printed are ignored) and
    shows it, then runs the command before the first space of the line with
    the text after that space as its argument; the input buffer keeps its 256
    bytes. *)
Theorem shell_turn_correct fuel keys nl rest input s :
  ks_in s = keys ++ nl :: rest → nl = 10 ∨ nl = 13 → Forall line_key keys → (length keys < 255)%nat →
  length input = MAX_INPUT →
  let '(cmd, args) := command_of (foldl edit_key [] keys) in
  ∃ input', length input' = MAX_INPUT ∧
    shell_turn fuel input s =
    (dispatch fuel cmd args;; mret input')
      (set_in rest (set_out (ks_out s ++ bs "$ " ++ echo_keys [] keys ++ [13; 10]) s)).
Proof.
  intros Hin Hnl Hk Hlen Hi. destruct (command_of _) as [cmd args] eqn:Ec. rw /shell_turn.
  erewrite bind_Ok; [|apply prints_puts]. erewrite bind_Ok; [|reflexivity]. set s1 := set_out _ s.
  destruct (read_input_Ok keys (S (length (ks_in s1))) [] input s1 nl rest) as (i1 & Hr & Hh & Hz); try done.
  { change (ks_in s1) with (ks_in s). rw Hin length_app /=. lia. }
  { split_and!; [done|rw /MAX_INPUT /=; lia|done]. }
  rw (bind_Ok _ _ _ _ _ Hr). set s2 := set_in _ _.
  destruct (split_input_Ok i1 _ s2 Hh Hz) as (i2 & Hs & Hi2). rw Ec in Hs. cbn in Hs.
  exists i2. split; [done|]. rw (bind_Ok _ _ _ _ _ Hs). f_equal.
  rw /s2 /s1 /set_in /set_out /= -!app_assoc. done.
Qed.

(** A full buffer ends the loop. *)
Lemma read_input_full keys : ∀ n line input s rest,
  ks_in s = keys ++ rest → Forall (λ c, printable c = true) keys → (length keys ≤ n)%nat →
  (length line + length keys = 255)%nat → length input = MAX_INPUT → take (length line) input = line →
  ∃ s', read_input n input (length line) s = Ok (line ++ keys ++ drop 255 input, 255%nat) s'.
Proof.
  induction keys as [|c keys IH]; intros n line input s rest Hin Hk Hn Hl Hi Ht.
  - simpl in Hl. rw Nat.add_0_r in Hl. exists s.
    replace (read_input n input (length line)) with (mret (M := K) (input, length line)) by by rw Hl; destruct n.
    rw -{1}(take_drop (length line) input) Ht Hl. done.
  - destruct n as [|n]; [simpl in Hn; lia|]. apply Forall_cons in Hk as [Hc Hk]. pose proof Hc as Hc'. rw /printable in Hc'.
    cbn [read_input]. rw (proj2 (Nat.ltb_lt _ _)); [rw /MAX_INPUT; simpl in Hl; lia|].
    rw (bind_Ok _ _ _ _ _ (uart_getc_Ok _ _ _ Hin ltac:(lia))).
    assert ((c =? 13) || (c =? 10) = false) as -> by lia. assert ((c =? 127) || (c =? 8) = false) as -> by lia.
    fold (printable c). rw Hc /= (bind_Ok _ _ _ _ _ (prints_putc c _)).
    replace (length line + 1)%nat with (length (line ++ [c])) by by rw length_app.
    destruct (IH n (line ++ [c]) (<[length line := c]> input) (set_out (ks_out s ++ [c]) (set_in (keys ++ rest) s)) rest)
      as [s' E]; [done|done|simpl in Hn; lia|rw length_app /=; simpl in Hl; lia|by rw length_insert| |].
    { apply (holds_push MAX_INPUT); [split_and!; [done| |done]|]; rw /MAX_INPUT; simpl in Hl; lia. }
    exists s'. rw E -!app_assoc drop_insert_lt //. simpl in Hl. lia.
Qed.

(** A line of 255 visible characters fills the buffer: the loop ends without
    storing a terminator.  When the byte that the stack held after it is not
    zero, the command name is read beyond the end of the buffer. *)
Theorem shell_long_line fuel keys rest input s :
  ks_in s = keys ++ rest → Forall (λ c, 33 ≤ c ≤ 126) keys → length keys = 255%nat →
  length input = MAX_INPUT → Forall (λ b, b ≠ 0) (drop 255 input) →
  shell_turn fuel input s = Fault.
Proof.
  intros Hin Hk Hlen Hi Hj. rw /shell_turn. erewrite bind_Ok; [|apply prints_puts]. erewrite bind_Ok; [|reflexivity].
  set s1 := set_out _ s.
  destruct (read_input_full keys (S (length (ks_in s1))) [] input s1 rest) as [s' E]; try done.
  { apply (Forall_impl _ _ _ Hk). intros c Hc. rw /printable. lia. }
  { change (ks_in s1) with (ks_in s). rw Hin length_app. lia. }
  rw (bind_Ok _ _ _ _ _ E) /split_input find_space_spec. simpl app.
  rw take_app_le; [lia|]. rw take_ge; [lia|].
  assert (Hs : s_strpbrk keys [32] = None).
  { clear - Hk. induction Hk as [|c keys Hc Hk IH]; simpl; [done|]. rw IH. by replace (c =? 32) with false by lia. }
  rw Hs text_at_None //. apply Forall_app. split; [|done]. apply (Forall_impl _ _ _ Hk). intros c Hc. lia.
Qed.
End Link.

(** ** Copying *)

(** The loop of [cp] runs as the copy loop of the message layer does. *)
Lemma cp_loop_Ok sfd sfp dfd dfp i j src fuel : sfp ≠ dfp → i ≠ j → ∀ s dst total t s',
  copying sfd sfp dfd dfp i j src s dst → copy_loop fuel sfd dfd total s = Ok (Some t) s' →
  cp_loop fuel sfd dfd s = Ok 0 s'.
Proof.
  intros Hfp Hij. induction fuel as [|fuel IH]; intros s dst total t s' Hc; [done|]. cbn [copy_loop cp_loop].
  destruct (copy_turn sfd sfp dfd dfp i j src Hfp Hij s dst Hc) as (s1 & buf & Hrd & Hbuf & Hdone & Hmore).
  set n := Z.min _ _ in Hrd Hbuf Hdone Hmore. pose proof Hc as (_ & Hr & _ & _ & Hi & _ & Hle & _).
  assert (Hn : 0 ≤ n ≤ 1024) by lia. rw !(bind_Ok _ _ _ _ _ Hrd) i32_small; [lia|].
  destruct (decide (n = 0)) as [E|E].
  - replace (0 <? n) with false by lia. rw E. by intros [= <- <-].
  - replace (0 <? n) with true by lia. destruct (Hmore ltac:(lia)) as (s2 & dst' & Hw & Hc2 & _).
    rw !(bind_Ok _ _ _ _ _ Hw) Z.eqb_refl. replace (n <? 0) with false by lia. cbn [negb orb].
    intros (tot & s3 & Hadd & Hrest)%bind_inv.
    assert (s3 = s2) as ->. { revert Hadd. rw /int_add. case_match; [|done]. by intros [_ ->]%ret_inv. }
    by apply (IH s2 dst' tot t).
Qed.

Lemma strpbrk_space a b : Forall (λ c, c ≠ 32) a → s_strpbrk (a ++ 32 :: b) [32] = Some (length a).
Proof. induction 1 as [|c a Hc Ha IH]; simpl; [done|]. rw IH. by apply Z.eqb_neq in Hc as ->. Qed.

Lemma strpbrk_no_space a : Forall (λ c, c ≠ 32) a → s_strpbrk a [32] = None.
Proof. induction 1 as [|c a Hc Ha IH]; simpl; [done|]. rw IH. by apply Z.eqb_neq in Hc as ->. Qed.

Lemma strspn_word c a : c ≠ 32 → s_strspn (c :: a) [32] = 0%nat.
Proof. intros Hc. simpl. by apply Z.eqb_neq in Hc as ->. Qed.

Lemma split_two a b :
  Forall (λ c, c ≠ 32) a → a ≠ [] → Forall (λ c, c ≠ 32) b → b ≠ [] → s_split [32] (a ++ 32 :: b) = [a; b].
Proof.
  intros Ha Hna Hb Hnb. destruct a as [|x a], b as [|y b]; try done.
  pose proof (proj1 (proj1 (Forall_cons _ _ _) Ha)) as Hx. pose proof (proj1 (proj1 (Forall_cons _ _ _) Hb)) as Hy.
  rw s_token_split /s_token (strspn_word x _ Hx) drop_0 strpbrk_space //. cbn [app].
  change (x :: a ++ 32 :: y :: b) with ((x :: a) ++ 32 :: y :: b). rw take_app_length.
  change ((x :: a) ++ 32 :: y :: b) with ((x :: a) ++ [32] ++ y :: b).
  rw app_assoc drop_app_length'; [by rw length_app Nat.add_1_r|]. f_equal.
  by rw s_token_split /s_token (strspn_word y _ Hy) drop_0 strpbrk_no_space.
Qed.

(** C40: "cp a b" for two paths of the RAM file system, with the source in
    place, a free slot, descriptors and heap: the command returns, the free
    slot holds a file with the destination path and the bytes of the source,
    and no other slot changes. *)
Theorem cmd_cp_correct fuel s src_path dst_path i j src dst :
  (6 ≤ fuel)%nat → can_copy s src_path dst_path i j src dst →
  Forall (λ c, c ≠ 32) src_path → Forall (λ c, c ≠ 32) dst_path →
  ∃ s' new, cmd_cp fuel (Some (src_path ++ bs " " ++ dst_path)) s = Ok tt s' ∧
    ks_ramfs s' = <[j := new]> (ks_ramfs s) ∧ rf_used new = true ∧ rf_path new = dst_path ∧ data new = data src.
Proof.
  intros Hfuel Hcc Hsp Hdp. pose proof (cc_distinct _ _ _ _ _ _ _ Hcc) as Hij.
  destruct (copy_prepared _ _ _ _ _ _ _ Hcc) as (s1 & s2 & Hopen & Hcr & Hfd & Hc & Hram2 & Hsz & _).
  set fd := next_fd (ks_vfs s) in Hopen Hcr Hfd Hc. set hp := ks_heap_pos s in Hc.
  assert (Hsf : hp ≠ hp + sizeof_vfs_file) by (rw /sizeof_vfs_file; lia).
  destruct (copy_loop_Ok fd hp (fd + 1) (hp + sizeof_vfs_file) i j src Hsf Hij fuel s2 _ Hc) as
    (s3 & new & Hloop & Hv3 & Hr3 & Ho3 & Ho3' & Hram3 & Hnew & Hnp & Hnu); [simpl; lia|lia|].
  pose proof (cp_loop_Ok _ _ _ _ _ _ _ fuel Hsf Hij _ _ _ _ _ Hc Hloop) as Hcp.
  assert (Hpath : ∀ p, tmp_path p → p ≠ [] ∧ zlen p + 1 ≤ VFS_MAX_PATH).
  { intros p (_ & Hp & Hl). split; [by intros ->|rw /VFS_MAX_PATH; lia]. }
  destruct (Hpath _ (cc_src_path _ _ _ _ _ _ _ Hcc)) as [Hs1 Hs2].
  destruct (Hpath _ (cc_dst_path _ _ _ _ _ _ _ Hcc)) as [Hd1 Hd2].
  exists s3, new. split_and!; [|by rw Hram3 Hram2 list_insert_insert_eq|by rw Hnu|by rw Hnp|done].
  rw /cmd_cp /two_words. change (bs " ") with [32].
  erewrite bind_Ok; [|erewrite bind_Ok; [|apply ret_Ok]; apply ret_Ok].
  rw (split_two src_path dst_path) //. do 2 (erewrite bind_Ok; [|by apply strcpy_to_Ok]).
  rw (bind_Ok _ _ _ _ _ Hopen). replace (fd <? 0) with false by lia.
  rw (bind_Ok _ _ _ _ _ Hcr). replace (fd + 1 <? 0) with false by lia. by rw (bind_Ok _ _ _ _ _ Hcp).
Qed.

(** ** [normalize_path] *)

Lemma s_split_slash t : s_split [SLASH] (SLASH :: t) = s_split [SLASH] t.
Proof. done. Qed.

(** Equal texts up to repeated slashes have the same components. *)
Lemma squeeze_split_aux t acc : s_split_aux [SLASH] (squeeze t) acc = s_split_aux [SLASH] t acc.
Proof.
  revert acc. induction t as [|c t IH]; intros acc; [done|]. cbn [squeeze].
  destruct (Z.eqb_spec c 47) as [->|Hc]; cbn [andb].
  - case_bool_decide as E.
    + destruct t as [|d t]; [done|]. injection E as ->. rw IH. cbn. by destruct acc.
    + cbn. by rw !IH.
  - cbn [s_split_aux]. rw mem_slash (proj2 (Z.eqb_neq c SLASH) Hc). by rw IH.
Qed.

(** [normalize_path] keeps the components of a path, and leaves no two
    slashes in a row, except at the start: of a run of leading slashes two
    remain. *)
Fixpoint no_double (t : str) : bool :=
  match t with c :: t' => negb ((c =? 47) && bool_decide (head t' = Some 47)) && no_double t' | [] => true end.

Lemma head_squeeze t : head (squeeze t) = Some 47 ↔ head t = Some 47.
Proof.
  induction t as [|c t IH]; [done|]. cbn [squeeze]. destruct (Z.eqb_spec c 47) as [->|Hc]; cbn [andb]; [|done].
  case_bool_decide as E; [|done]. split; [done|]. intros _. by apply IH.
Qed.

Lemma no_double_squeeze t : no_double (squeeze t) = true.
Proof.
  induction t as [|c t IH]; [done|]. cbn [squeeze]. destruct ((c =? 47) && _) eqn:E; [done|].
  cbn [no_double]. rw IH andb_true_r. apply negb_true_iff. rw -E. f_equal. apply bool_decide_ext, head_squeeze.
Qed.

Theorem normalize_path_correct path :
  s_split [SLASH] (normalize_path path) = s_split [SLASH] path ∧
  no_double (tail (normalize_path path)) = true ∧
  normalize_path (bs "///a//b") = bs "//a/b".
Proof.
  split_and!; [| |done].
  - rw /normalize_path. destruct path as [|c path]; [done|]. destruct (Z.eqb_spec c 47) as [->|Hc].
    + rw !s_split_slash. apply squeeze_split_aux.
    + apply squeeze_split_aux.
  - rw /normalize_path. destruct path as [|c path]; [done|]. destruct (c =? 47); [apply no_double_squeeze|].
    pose proof (no_double_squeeze (c :: path)) as Hn. destruct (squeeze (c :: path)) as [|d t]; [done|].
    cbn in Hn. by apply andb_true_iff in Hn as [_ ?].
Qed.

(** ** Commands on their error paths *)

Section Commands.
Context `{LinkMap}.

(** The unused table of commands agrees with the dispatch of the main loop. *)
Theorem commands_dispatch fuel args s :
  Forall (λ nf, dispatch fuel nf.1 args s = nf.2 args s) (commands fuel).
Proof. repeat constructor. Qed.

(** Without an argument "cp", "mv" and "bind" pass NULL to [strtok_r], which
    then reads the uninitialised save pointer. *)
Theorem missing_argument_faults fuel s :
  dispatch fuel (bs "cp") None s = Fault ∧ dispatch fuel (bs "mv") None s = Fault ∧ dispatch fuel (bs "bind") None s = Fault.
Proof. done. Qed.

(** [ls] lists nothing: it gives the service no room for entries, so even a
    directory that can be read shows only the complaint of the VFS. *)
Theorem cmd_ls_lists_nothing fuel path s count es s' :
  path ≠ [] → vfs_read_dir path 32 s = Ok (count, es) s' → 0 ≤ count →
  cmd_ls fuel (Some path) s =
  Ok tt (set_out (ks_out s' ++ crlf (ln "VFS: No space provided for directory entries")) s').
Proof.
  intros Hne Hr Hc. rw /cmd_ls. destruct path as [|c path]; [done|]. erewrite bind_Ok; [|apply ret_Ok].
  erewrite bind_Ok.
  2: { change (send_message fuel (path_message MSG_READ_DIR (c :: path))) with
         (handle_read_dir_message (path_message MSG_READ_DIR (c :: path))).
       rw /handle_read_dir_message. cbn [path_message m_path m_data]. rw (bind_Ok _ _ _ _ _ Hr).
       replace (0 <=? count) with true by lia. erewrite bind_Ok; [|apply prints_puts]. reflexivity. }
  cbn beta iota. rw (proj2 (Z.leb_le 0 count) Hc). reflexivity.
Qed.

(** Creating a file when every slot is in use. *)
Lemma vfs_create_full s path :
  tmp_path path → find_free (ks_ramfs s) = None → ∃ out, vfs_create path s = Ok (-1) (set_out out s).
Proof.
  intros Hp Hfull. pose proof Hp as (_ & Ht & Hl). eexists. rw /vfs_create. erewrite bind_Ok; last first.
  { rw /full_path_of tmp_path_head //. change (negb (47 =? 47)) with false. cbv iota.
    apply strcpy_to_Ok. rw /VFS_MAX_PATH. lia. }
  rw Ht. change ((0 =? 0) || _) with true. cbv iota. erewrite bind_Ok; last first.
  { cbn [ramfs_fs_type fs_create]. rw /ramfs_create Ht. change (negb (0 =? 0)) with false. cbv iota.
    erewrite bind_Ok; [|apply strcpy_to_Ok; rw /MAX_PATH; lia]. erewrite bind_Ok; [|reflexivity]. rw Hfull. reflexivity. }
  reflexivity.
Qed.

(** [mv] unlinks the source whether or not the copy was made.  When the RAM
    file system has no free slot the copy fails, and "mv a b" then removes the
    only copy of the file. *)
Theorem cmd_mv_loses_file fuel s src_path dst_path i src m p cur :
  vfs_ok s → ramfs_ok s → heap_ok s → ks_heap_pos s + sizeof_vfs_file ≤ HEAP_SIZE → next_fd (ks_vfs s) < 32 →
  current_process (ks_proc s) = Some p → processes (ks_proc s) !! p = Some cur → p_ns_mounts cur = None →
  tmp_path src_path → tmp_path dst_path → Forall (λ c, c ≠ 32) src_path → Forall (λ c, c ≠ 32) dst_path →
  find_path (ks_ramfs s) src_path = Some i → ks_ramfs s !! i = Some src → find_free (ks_ramfs s) = None →
  find_mount (mount_points (ks_vfs s)) src_path = Some m → mnt_fs m = RAMFS →
  ∃ s', cmd_mv fuel (Some (src_path ++ bs " " ++ dst_path)) s = Ok tt s' ∧
    ks_ramfs s' = <[i := with_size 0 (with_used false src)]> (ks_ramfs s).
Proof.
  intros Hv Hr Hh Hroom Hfd Hcur Hp Hns Hs Hd Hsp Hdp Hfind Hi Hfull Hm Hfs.
  assert (Hpath : ∀ p, tmp_path p → p ≠ [] ∧ zlen p ≤ 31) by (intros q (_ & Hq & Hl); split; [by intros ->|lia]).
  destruct (Hpath _ Hs) as [Hs1 Hs2]. destruct (Hpath _ Hd) as [Hd1 Hd2].
  destruct (vfs_open_tmp s src_path i p cur) as (Hopen & _); [done..|]. set s1 := opened s src_path i in Hopen.
  destruct (vfs_create_full s1 dst_path Hd Hfull) as [out Hcr].
  assert (Hcp : ∃ out, cmd_cp fuel (Some (src_path ++ [32] ++ dst_path)) s = Ok tt (set_out out s1)).
  { eexists. rw /cmd_cp /two_words. change (bs " ") with [32].
    erewrite bind_Ok; [|erewrite bind_Ok; [|apply ret_Ok]; apply ret_Ok].
    rw (split_two src_path dst_path) //. do 2 (erewrite bind_Ok; [|apply strcpy_to_Ok; rw /VFS_MAX_PATH; lia]).
    rw (bind_Ok _ _ _ _ _ Hopen). destruct Hv as (_ & Hv & _). replace (next_fd _ <? 0) with false by lia.
    rw (bind_Ok _ _ _ _ _ Hcr). reflexivity. }
  destruct Hcp as [out' Hcp]. set s2 := set_out out' s1 in Hcp.
  pose proof (vfs_unlink_tmp s2 src_path i src m Hs Hm Hfs Hfind Hi) as Hu.
  exists (set_ramfs (<[i := with_size 0 (with_used false src)]> (ks_ramfs s2)) s2). split; [|done].
  rw /cmd_mv /two_words. change (bs " ") with [32].
  erewrite bind_Ok; [|erewrite bind_Ok; [|apply ret_Ok]; apply ret_Ok].
  rw (split_two src_path dst_path) //. do 2 (erewrite bind_Ok; [|apply strcpy_to_Ok; rw /VFS_MAX_PATH; lia]).
  erewrite bind_Ok; [|apply strcpy_to_Ok; rw /VFS_MAX_PATH; lia].
  do 2 (erewrite bind_Ok; [|apply strcat_to_Ok; rw /VFS_MAX_PATH ?length_app /=; lia]).
  rw -app_assoc (bind_Ok _ _ _ _ _ Hcp) (bind_Ok _ _ _ _ _ Hu). reflexivity.
Qed.
End Commands.

(** ** Witnesses *)

Section Examples.
#[local] Instance shell_link : LinkMap := {| process_stacks := 0x40010000; process3 := 0x40001234 |}.

(** "cd ../tmp/./a" from "/tmp", where "/tmp/a" is a file of the RAM file
    system, and "cd .." from there. *)
Lemma cmd_cd_correct_witness :
  (∃ s2 cur', cmd_cd (Some (bs "../tmp/./a")) copy_start = Ok tt s2 ∧
     processes (ks_proc s2) !! PStatic 0 = Some cur' ∧ p_cwd cur' = bs "/tmp/a") ∧
  (∃ s2 cur', cmd_cd (Some (bs "..")) copy_start = Ok tt s2 ∧
     processes (ks_proc s2) !! PStatic 0 = Some cur' ∧ p_cwd cur' = bs "/").
Proof.
  destruct (cmd_cd_correct (bs "../tmp/./a") [bs "tmp"] copy_start (PStatic 0) (demo_proc (bs "/tmp") None))
    as (H1 & H2 & _).
  - reflexivity.
  - reflexivity.
  - split_and!; [reflexivity|by repeat constructor|by repeat constructor].
  - by apply is_str_bool.
  - discriminate.
  - discriminate.
  - discriminate.
  - vm_compute. reflexivity.
  - split; [|exact H2].
    destruct (vfs_open (bs "/tmp/a") copy_start) as [fd s1| | | |] eqn:E; [|by vm_compute in E..].
    assert (Hfd : fd = 0) by (apply (f_equal value) in E; vm_compute in E; congruence).
    destruct (H1 fd s1 E) as (s2 & cur' & Hr & Hp & Hw). exists s2, cur'. split_and!; [exact Hr|exact Hp|].
    rw Hw Hfd. reflexivity.
Defined.

Lemma shell_turn_correct_witness :
  ∃ input', length input' = MAX_INPUT ∧
    shell_turn 1 (replicate 256 7) (kstate0 (bs "ecp" ++ [8] ++ bs "ho hi" ++ [13])) =
    (dispatch 1 (bs "echo") (Some (bs "hi"));; mret input')
      (set_in [] (set_out (bs "$ ecp" ++ [8; 32; 8] ++ bs "ho hi" ++ [13; 10])
         (kstate0 (bs "ecp" ++ [8] ++ bs "ho hi" ++ [13])))).
Proof.
  pose proof (shell_turn_correct 1 (bs "ecp" ++ [8] ++ bs "ho hi") 13 [] (replicate 256 7)
    (kstate0 (bs "ecp" ++ [8] ++ bs "ho hi" ++ [13]))) as Ht.
  apply Ht; [reflexivity|by right|repeat constructor; vm_compute; congruence|vm_compute; lia|reflexivity].
Defined.

Lemma cmd_cp_correct_witness :
  ∃ s' new, cmd_cp 6 (Some (bs "/tmp/a /tmp/b")) copy_start = Ok tt s' ∧
    ks_ramfs s' !! 1%nat = Some new ∧ rf_path new = bs "/tmp/b" ∧ data new = bs "hello".
Proof.
  destruct (cmd_cp_correct 6 copy_start (bs "/tmp/a") (bs "/tmp/b") 0 1 one_file ramfs_file0)
    as (s' & new & H1 & H2 & _ & H3 & H4);
    [lia|exact copy_start_can|repeat constructor; vm_compute; congruence..|].
  exists s', new. split; [exact H1|]. split; [rw H2; reflexivity|]. split; [exact H3|]. rw H4. vm_compute. reflexivity.
Defined.
End Examples.
